(** * S3Represent: the batched representation cache of modules/s3/s3fields.py

    A shallow embedding of the classes [S3Represent] and [S3RepresentLazy]
    and the properties of their lookup orchestration.

    Conventions of the embedding.
    - Python values are the inductive [pyval]; labels are unicode strings;
      what the entry points return is [markup] (a string, an [A] link or a
      [TAG] sequence).
    - A Python [dict] is an association list without duplicate keys that is
      updated in place and iterated in insertion order.  CPython 2 leaves the
      iteration order of [dict] and [set] unspecified; for [set], whose order
      shows in the joined strings of [multiple], the order is the parameter
      [set_order] of the environment.
    - The representer object is the record [S3Represent]; methods are
      computations in a state-and-exception monad over it.  A raised
      exception keeps the mutations made before it, as in Python.
    - Collaborators that live outside of the module ([current.s3db],
      [current.db], [S3Hierarchy], [current.T], [URL], [s3_unicode], the
      [%] operator on a row) are fields of the environment [Env].
    - Two fields of the object are ghost fields that no code path reads:
      [fetch_log] records every invocation of [self.lookup_rows] with the key
      list it was given, [bulk_log] every invocation of [bulk]. *)

From Stdlib Require Import ZArith List String Ascii Bool Lia Permutation.
From Stdlib Require Import DecimalString RelationClasses.
Import ListNotations.
Local Open Scope string_scope.
Local Open Scope list_scope.

Set Implicit Arguments.
Set Warnings "-register-all".

(** ** Python values *)

Inductive pyval : Type :=
| PNone
| PInt (z : Z)
| PStr (s : string)
| PList (l : list pyval).

(** [==] on the modelled values. *)
Fixpoint pyval_eqb (a b : pyval) {struct a} : bool :=
  match a, b with
  | PNone, PNone => true
  | PInt x, PInt y => Z.eqb x y
  | PStr s, PStr t => String.eqb s t
  | PList l, PList m =>
      (fix list_eqb (l m : list pyval) {struct l} : bool :=
         match l, m with
         | [], [] => true
         | x :: l', y :: m' => pyval_eqb x y && list_eqb l' m'
         | _, _ => false
         end) l m
  | _, _ => false
  end.

(** Truth value of an object: [None], [0], the empty string and the empty
    list are false. *)
Definition truthy (v : pyval) : bool :=
  match v with
  | PNone => false
  | PInt z => negb (Z.eqb z 0)
  | PStr s => negb (String.eqb s "")
  | PList l => match l with [] => false | _ => true end
  end.

(** Lists are unhashable, everything else can be a dict key or set member. *)
Definition hashable (v : pyval) : bool :=
  match v with PList _ => false | _ => true end.

Definition is_None (v : pyval) : bool :=
  match v with PNone => true | _ => false end.

(** [isinstance(v, basestring)] *)
Definition is_basestring (v : pyval) : bool :=
  match v with PStr _ => true | _ => false end.

(** [type(v) is list] *)
Definition is_list (v : pyval) : bool :=
  match v with PList _ => true | _ => false end.

(** ** Exceptions and results

    [Unsupported] is not a Python exception: it marks a string conversion
    that the embedding does not interpret (see [format_args]). *)

Inductive exn : Type :=
| TypeError | ValueError | AttributeError | KeyError | RuntimeError
| Unsupported.

Inductive res (X : Type) : Type :=
| Ok (x : X)
| Exc (e : exn).
Arguments Ok {X} x.
Arguments Exc {X} e.

(** ** Strings *)

Definition is_space (c : ascii) : bool :=
  let n := nat_of_ascii c in
  Nat.eqb n 32 || (Nat.leb 9 n && Nat.leb n 13).

Definition digit_of (c : ascii) : option Z :=
  let n := nat_of_ascii c in
  if Nat.leb 48 n && Nat.leb n 57 then Some (Z.of_nat (n - 48)) else None.

Fixpoint lstrip (s : string) : string :=
  match s with
  | String c s' => if is_space c then lstrip s' else s
  | EmptyString => s
  end.

(** Digits followed by optional trailing white space; [acc] is the number read
    so far and [seen] tells whether a digit was read. *)
Fixpoint read_digits (acc : Z) (seen : bool) (s : string) : option Z :=
  match s with
  | EmptyString => if seen then Some acc else None
  | String c s' =>
      match digit_of c with
      | Some d => read_digits (10 * acc + d) true s'
      | None =>
          if seen && is_space c
          then match lstrip s' with EmptyString => Some acc | _ => None end
          else None
      end
  end.

(** [int(s)] for a string in base 10; [None] stands for [ValueError]. *)
Definition py_int (s : string) : option Z :=
  match lstrip s with
  | String "-"%char s' => option_map Z.opp (read_digits 0 false s')
  | String "+"%char s' => read_digits 0 false s'
  | s' => read_digits 0 false s'
  end.

Fixpoint drop_chars (n : nat) (s : string) : string :=
  match n, s with
  | S n', String _ s' => drop_chars n' s'
  | _, _ => s
  end.

(** [s.replace(old, new)] for a non-empty [old]; [skip] counts the characters
    of a match that are still to be passed over. *)
Fixpoint replace_from (old new : string) (skip : nat) (s : string) : string :=
  match s with
  | EmptyString => EmptyString
  | String c s' =>
      match skip with
      | S n => replace_from old new n s'
      | O =>
          if String.prefix old s
          then (new ++ replace_from old new (String.length old - 1) s')%string
          else String c (replace_from old new 0 s')
      end
  end.

Definition replace (old new s : string) : string :=
  match old with
  | EmptyString => s
  | _ => replace_from old new 0 s
  end.

(** [s.split("_", 1)]: the parts before and after the first underscore. *)
Fixpoint split_underscore (s : string) : option (string * string) :=
  match s with
  | EmptyString => None
  | String c s' =>
      if Ascii.eqb c "_"%char then Some (EmptyString, s')
      else match split_underscore s' with
           | Some (a, b) => Some (String c a, b)
           | None => None
           end
  end.

(** [tpl % args] for a tuple of strings.  The conversions [%s] and [%%] are
    interpreted; a missing or a left over argument is a [TypeError], a lone
    [%] at the end a [ValueError], any other conversion is [Unsupported]. *)
Fixpoint format_args (tpl : string) (args : list string) : res string :=
  match tpl with
  | EmptyString => match args with [] => Ok EmptyString | _ => Exc TypeError end
  | String c rest =>
      if Ascii.eqb c "%"%char then
        match rest with
        | EmptyString => Exc ValueError
        | String d rest' =>
            if Ascii.eqb d "s"%char then
              match args with
              | a :: args' =>
                  match format_args rest' args' with
                  | Ok r => Ok (a ++ r)%string
                  | Exc e => Exc e
                  end
              | [] => Exc TypeError
              end
            else if Ascii.eqb d "%"%char then
              match format_args rest' args with
              | Ok r => Ok (String "%"%char r)
              | Exc e => Exc e
              end
            else Exc Unsupported
        end
      else
        match format_args rest args with
        | Ok r => Ok (String c r)
        | Exc e => Exc e
        end
  end.

(** ** Dictionaries

    Insertion-ordered association lists; [dset] overwrites in place, so a
    dictionary built with [dset] from the empty one has no duplicate key. *)

Definition dict (V : Type) : Type := list (pyval * V).

Fixpoint dget {V} (d : dict V) (k : pyval) : option V :=
  match d with
  | [] => None
  | (k', v) :: d' => if pyval_eqb k' k then Some v else dget d' k
  end.

Definition dmem {V} (d : dict V) (k : pyval) : bool :=
  match dget d k with Some _ => true | None => false end.

Fixpoint dset {V} (d : dict V) (k : pyval) (v : V) : dict V :=
  match d with
  | [] => [(k, v)]
  | (k', v') :: d' =>
      if pyval_eqb k' k then (k', v) :: d' else (k', v') :: dset d' k v
  end.

Fixpoint ddel {V} (d : dict V) (k : pyval) : dict V :=
  match d with
  | [] => []
  | (k', v') :: d' => if pyval_eqb k' k then d' else (k', v') :: ddel d' k
  end.

Definition dkeys {V} (d : dict V) : list pyval := map fst d.

(** [d.update(e)] *)
Definition dupdate {V} (d e : dict V) : dict V :=
  fold_left (fun acc kv => dset acc (fst kv) (snd kv)) e d.

(** ** Rows, tables and markup *)

(** A [Row] of the DAL: field name and value. *)
Definition Row : Type := list (string * pyval).

Fixpoint row_get (r : Row) (f : string) : option pyval :=
  match r with
  | [] => None
  | (g, v) :: r' => if String.eqb g f then Some v else row_get r' f
  end.

(** A [Row] is true when it has a field. *)
Definition row_truthy (r : Row) : bool :=
  match r with [] => false | _ => true end.

(** A [Table] of the DAL: its name, the names of its fields, the names of
    the other attributes of the table object (such as [_tablename] and [_id]
    and the methods), the name of its primary key ([table._id.name]) and the
    records it holds. *)
Record Table : Type := {
  _tablename : string;
  t_fields : list string;
  t_attrs : list string;
  _id_name : string;
  t_rows : list Row
}.

(** [f in table]: the table has a field of the name [f]. *)
Definition has_field (t : Table) (f : string) : bool :=
  existsb (String.eqb f) (t_fields t).

(** The table object has an attribute of the name [f] that is not a
    field. *)
Definition has_object (t : Table) (f : string) : bool :=
  negb (has_field t f) && existsb (String.eqb f) (t_attrs t).

(** [hasattr(table, f)], and whether [object.__getattribute__(table, f)]
    returns: the fields of a table are attributes of the table object. *)
Definition has_attribute (t : Table) (f : string) : bool :=
  has_field t f || has_object t f.

(** What the entry points hand back: a label, [A(label, _href=href)] or
    [TAG[""](children)]. *)
Inductive markup : Type :=
| Text (s : string)
| A (body : string) (href : string)
| TAG (children : list markup).

(** The [labels] argument: absent, a string template or a callable. *)
Inductive labels_t : Type :=
| LNone
| LTemplate (tpl : string)
| LCallable (f : Row -> res string).

(** The [hierarchy] argument: [False], [True] or a string template. *)
Inductive hierarchy_t : Type :=
| HFalse
| HTrue
| HTemplate (tpl : string).

Definition hierarchy_truthy (h : hierarchy_t) : bool :=
  match h with
  | HFalse => false
  | HTrue => true
  | HTemplate tpl => negb (String.eqb tpl "")
  end.

(** The signature of [lookup_rows(key, values, fields)]; key and fields are
    given by name. *)
Definition fetch_fn : Type :=
  string -> list pyval -> list string -> res (list Row).

(** ** The environment: collaborators outside of the module *)

Record Env : Type := {
  (** [current.s3db.table(tablename)] *)
  s3db_table : string -> option Table;
  (** [S3Hierarchy(tablename).config], as a truth value *)
  hierarchy_config : string -> bool;
  (** [S3Hierarchy(tablename).parent(node_id)] *)
  hierarchy_parent : string -> pyval -> pyval;
  (** [current.T] *)
  T : string -> string;
  (** [current.messages.UNKNOWN_OPT] and [current.messages["NONE"]] *)
  UNKNOWN_OPT : string;
  NONE : string;
  (** [URL(c=c, f=f, args=["[id]"])] *)
  URL : string -> string -> string;
  (** [s3_unicode] on a key or a field value *)
  s3_unicode : pyval -> string;
  (** [s3_unicode] on markup that is not a plain label *)
  xml : markup -> string;
  (** [template % row] *)
  format_row : string -> Row -> res string;
  (** the iteration order of [set(l)], for [l] without duplicates *)
  set_order : list pyval -> list pyval;
  (** how many nested calls the interpreter still allows *)
  recursion_limit : nat
}.

(** ** The representer object *)

Record S3Represent : Type := {
  tablename : option string;
  table : option Table;
  key : option string;
  fields : option (list string);
  labels : labels_t;
  options : option (dict string);
  list_type : bool;
  hierarchy : hierarchy_t;
  translate : bool;
  linkto : option string;
  show_link : bool;
  default : option string;
  none : option string;
  field_sep : string;
  setup : bool;
  theset : option (dict string);
  queries : nat;
  lazy : list pyval;
  lazy_show_link : bool;
  rows : dict Row;
  lookup_rows : option fetch_fn;
  custom_lookup : bool;
  slabels : bool;
  clabels : bool;
  htemplate : string;
  fetch_log : list (list pyval);
  bulk_log : list pyval
}.

Definition set_table (x : option Table) (st : S3Represent) : S3Represent :=
  {| tablename := tablename st;
     table := x;
     key := key st;
     fields := fields st;
     labels := labels st;
     options := options st;
     list_type := list_type st;
     hierarchy := hierarchy st;
     translate := translate st;
     linkto := linkto st;
     show_link := show_link st;
     default := default st;
     none := none st;
     field_sep := field_sep st;
     setup := setup st;
     theset := theset st;
     queries := queries st;
     lazy := lazy st;
     lazy_show_link := lazy_show_link st;
     rows := rows st;
     lookup_rows := lookup_rows st;
     custom_lookup := custom_lookup st;
     slabels := slabels st;
     clabels := clabels st;
     htemplate := htemplate st;
     fetch_log := fetch_log st;
     bulk_log := bulk_log st |}.

Definition set_key (x : option string) (st : S3Represent) : S3Represent :=
  {| tablename := tablename st;
     table := table st;
     key := x;
     fields := fields st;
     labels := labels st;
     options := options st;
     list_type := list_type st;
     hierarchy := hierarchy st;
     translate := translate st;
     linkto := linkto st;
     show_link := show_link st;
     default := default st;
     none := none st;
     field_sep := field_sep st;
     setup := setup st;
     theset := theset st;
     queries := queries st;
     lazy := lazy st;
     lazy_show_link := lazy_show_link st;
     rows := rows st;
     lookup_rows := lookup_rows st;
     custom_lookup := custom_lookup st;
     slabels := slabels st;
     clabels := clabels st;
     htemplate := htemplate st;
     fetch_log := fetch_log st;
     bulk_log := bulk_log st |}.

Definition set_fields (x : option (list string)) (st : S3Represent) : S3Represent :=
  {| tablename := tablename st;
     table := table st;
     key := key st;
     fields := x;
     labels := labels st;
     options := options st;
     list_type := list_type st;
     hierarchy := hierarchy st;
     translate := translate st;
     linkto := linkto st;
     show_link := show_link st;
     default := default st;
     none := none st;
     field_sep := field_sep st;
     setup := setup st;
     theset := theset st;
     queries := queries st;
     lazy := lazy st;
     lazy_show_link := lazy_show_link st;
     rows := rows st;
     lookup_rows := lookup_rows st;
     custom_lookup := custom_lookup st;
     slabels := slabels st;
     clabels := clabels st;
     htemplate := htemplate st;
     fetch_log := fetch_log st;
     bulk_log := bulk_log st |}.

Definition set_linkto (x : option string) (st : S3Represent) : S3Represent :=
  {| tablename := tablename st;
     table := table st;
     key := key st;
     fields := fields st;
     labels := labels st;
     options := options st;
     list_type := list_type st;
     hierarchy := hierarchy st;
     translate := translate st;
     linkto := x;
     show_link := show_link st;
     default := default st;
     none := none st;
     field_sep := field_sep st;
     setup := setup st;
     theset := theset st;
     queries := queries st;
     lazy := lazy st;
     lazy_show_link := lazy_show_link st;
     rows := rows st;
     lookup_rows := lookup_rows st;
     custom_lookup := custom_lookup st;
     slabels := slabels st;
     clabels := clabels st;
     htemplate := htemplate st;
     fetch_log := fetch_log st;
     bulk_log := bulk_log st |}.

Definition set_default (x : option string) (st : S3Represent) : S3Represent :=
  {| tablename := tablename st;
     table := table st;
     key := key st;
     fields := fields st;
     labels := labels st;
     options := options st;
     list_type := list_type st;
     hierarchy := hierarchy st;
     translate := translate st;
     linkto := linkto st;
     show_link := show_link st;
     default := x;
     none := none st;
     field_sep := field_sep st;
     setup := setup st;
     theset := theset st;
     queries := queries st;
     lazy := lazy st;
     lazy_show_link := lazy_show_link st;
     rows := rows st;
     lookup_rows := lookup_rows st;
     custom_lookup := custom_lookup st;
     slabels := slabels st;
     clabels := clabels st;
     htemplate := htemplate st;
     fetch_log := fetch_log st;
     bulk_log := bulk_log st |}.

Definition set_none (x : option string) (st : S3Represent) : S3Represent :=
  {| tablename := tablename st;
     table := table st;
     key := key st;
     fields := fields st;
     labels := labels st;
     options := options st;
     list_type := list_type st;
     hierarchy := hierarchy st;
     translate := translate st;
     linkto := linkto st;
     show_link := show_link st;
     default := default st;
     none := x;
     field_sep := field_sep st;
     setup := setup st;
     theset := theset st;
     queries := queries st;
     lazy := lazy st;
     lazy_show_link := lazy_show_link st;
     rows := rows st;
     lookup_rows := lookup_rows st;
     custom_lookup := custom_lookup st;
     slabels := slabels st;
     clabels := clabels st;
     htemplate := htemplate st;
     fetch_log := fetch_log st;
     bulk_log := bulk_log st |}.

Definition set_setup (x : bool) (st : S3Represent) : S3Represent :=
  {| tablename := tablename st;
     table := table st;
     key := key st;
     fields := fields st;
     labels := labels st;
     options := options st;
     list_type := list_type st;
     hierarchy := hierarchy st;
     translate := translate st;
     linkto := linkto st;
     show_link := show_link st;
     default := default st;
     none := none st;
     field_sep := field_sep st;
     setup := x;
     theset := theset st;
     queries := queries st;
     lazy := lazy st;
     lazy_show_link := lazy_show_link st;
     rows := rows st;
     lookup_rows := lookup_rows st;
     custom_lookup := custom_lookup st;
     slabels := slabels st;
     clabels := clabels st;
     htemplate := htemplate st;
     fetch_log := fetch_log st;
     bulk_log := bulk_log st |}.

Definition set_theset (x : option (dict string)) (st : S3Represent) : S3Represent :=
  {| tablename := tablename st;
     table := table st;
     key := key st;
     fields := fields st;
     labels := labels st;
     options := options st;
     list_type := list_type st;
     hierarchy := hierarchy st;
     translate := translate st;
     linkto := linkto st;
     show_link := show_link st;
     default := default st;
     none := none st;
     field_sep := field_sep st;
     setup := setup st;
     theset := x;
     queries := queries st;
     lazy := lazy st;
     lazy_show_link := lazy_show_link st;
     rows := rows st;
     lookup_rows := lookup_rows st;
     custom_lookup := custom_lookup st;
     slabels := slabels st;
     clabels := clabels st;
     htemplate := htemplate st;
     fetch_log := fetch_log st;
     bulk_log := bulk_log st |}.

Definition set_queries (x : nat) (st : S3Represent) : S3Represent :=
  {| tablename := tablename st;
     table := table st;
     key := key st;
     fields := fields st;
     labels := labels st;
     options := options st;
     list_type := list_type st;
     hierarchy := hierarchy st;
     translate := translate st;
     linkto := linkto st;
     show_link := show_link st;
     default := default st;
     none := none st;
     field_sep := field_sep st;
     setup := setup st;
     theset := theset st;
     queries := x;
     lazy := lazy st;
     lazy_show_link := lazy_show_link st;
     rows := rows st;
     lookup_rows := lookup_rows st;
     custom_lookup := custom_lookup st;
     slabels := slabels st;
     clabels := clabels st;
     htemplate := htemplate st;
     fetch_log := fetch_log st;
     bulk_log := bulk_log st |}.

Definition set_lazy (x : list pyval) (st : S3Represent) : S3Represent :=
  {| tablename := tablename st;
     table := table st;
     key := key st;
     fields := fields st;
     labels := labels st;
     options := options st;
     list_type := list_type st;
     hierarchy := hierarchy st;
     translate := translate st;
     linkto := linkto st;
     show_link := show_link st;
     default := default st;
     none := none st;
     field_sep := field_sep st;
     setup := setup st;
     theset := theset st;
     queries := queries st;
     lazy := x;
     lazy_show_link := lazy_show_link st;
     rows := rows st;
     lookup_rows := lookup_rows st;
     custom_lookup := custom_lookup st;
     slabels := slabels st;
     clabels := clabels st;
     htemplate := htemplate st;
     fetch_log := fetch_log st;
     bulk_log := bulk_log st |}.

Definition set_rows (x : dict Row) (st : S3Represent) : S3Represent :=
  {| tablename := tablename st;
     table := table st;
     key := key st;
     fields := fields st;
     labels := labels st;
     options := options st;
     list_type := list_type st;
     hierarchy := hierarchy st;
     translate := translate st;
     linkto := linkto st;
     show_link := show_link st;
     default := default st;
     none := none st;
     field_sep := field_sep st;
     setup := setup st;
     theset := theset st;
     queries := queries st;
     lazy := lazy st;
     lazy_show_link := lazy_show_link st;
     rows := x;
     lookup_rows := lookup_rows st;
     custom_lookup := custom_lookup st;
     slabels := slabels st;
     clabels := clabels st;
     htemplate := htemplate st;
     fetch_log := fetch_log st;
     bulk_log := bulk_log st |}.

Definition set_slabels (x : bool) (st : S3Represent) : S3Represent :=
  {| tablename := tablename st;
     table := table st;
     key := key st;
     fields := fields st;
     labels := labels st;
     options := options st;
     list_type := list_type st;
     hierarchy := hierarchy st;
     translate := translate st;
     linkto := linkto st;
     show_link := show_link st;
     default := default st;
     none := none st;
     field_sep := field_sep st;
     setup := setup st;
     theset := theset st;
     queries := queries st;
     lazy := lazy st;
     lazy_show_link := lazy_show_link st;
     rows := rows st;
     lookup_rows := lookup_rows st;
     custom_lookup := custom_lookup st;
     slabels := x;
     clabels := clabels st;
     htemplate := htemplate st;
     fetch_log := fetch_log st;
     bulk_log := bulk_log st |}.

Definition set_clabels (x : bool) (st : S3Represent) : S3Represent :=
  {| tablename := tablename st;
     table := table st;
     key := key st;
     fields := fields st;
     labels := labels st;
     options := options st;
     list_type := list_type st;
     hierarchy := hierarchy st;
     translate := translate st;
     linkto := linkto st;
     show_link := show_link st;
     default := default st;
     none := none st;
     field_sep := field_sep st;
     setup := setup st;
     theset := theset st;
     queries := queries st;
     lazy := lazy st;
     lazy_show_link := lazy_show_link st;
     rows := rows st;
     lookup_rows := lookup_rows st;
     custom_lookup := custom_lookup st;
     slabels := slabels st;
     clabels := x;
     htemplate := htemplate st;
     fetch_log := fetch_log st;
     bulk_log := bulk_log st |}.

Definition set_htemplate (x : string) (st : S3Represent) : S3Represent :=
  {| tablename := tablename st;
     table := table st;
     key := key st;
     fields := fields st;
     labels := labels st;
     options := options st;
     list_type := list_type st;
     hierarchy := hierarchy st;
     translate := translate st;
     linkto := linkto st;
     show_link := show_link st;
     default := default st;
     none := none st;
     field_sep := field_sep st;
     setup := setup st;
     theset := theset st;
     queries := queries st;
     lazy := lazy st;
     lazy_show_link := lazy_show_link st;
     rows := rows st;
     lookup_rows := lookup_rows st;
     custom_lookup := custom_lookup st;
     slabels := slabels st;
     clabels := clabels st;
     htemplate := x;
     fetch_log := fetch_log st;
     bulk_log := bulk_log st |}.

Definition set_fetch_log (x : list (list pyval)) (st : S3Represent) : S3Represent :=
  {| tablename := tablename st;
     table := table st;
     key := key st;
     fields := fields st;
     labels := labels st;
     options := options st;
     list_type := list_type st;
     hierarchy := hierarchy st;
     translate := translate st;
     linkto := linkto st;
     show_link := show_link st;
     default := default st;
     none := none st;
     field_sep := field_sep st;
     setup := setup st;
     theset := theset st;
     queries := queries st;
     lazy := lazy st;
     lazy_show_link := lazy_show_link st;
     rows := rows st;
     lookup_rows := lookup_rows st;
     custom_lookup := custom_lookup st;
     slabels := slabels st;
     clabels := clabels st;
     htemplate := htemplate st;
     fetch_log := x;
     bulk_log := bulk_log st |}.

Definition set_bulk_log (x : list pyval) (st : S3Represent) : S3Represent :=
  {| tablename := tablename st;
     table := table st;
     key := key st;
     fields := fields st;
     labels := labels st;
     options := options st;
     list_type := list_type st;
     hierarchy := hierarchy st;
     translate := translate st;
     linkto := linkto st;
     show_link := show_link st;
     default := default st;
     none := none st;
     field_sep := field_sep st;
     setup := setup st;
     theset := theset st;
     queries := queries st;
     lazy := lazy st;
     lazy_show_link := lazy_show_link st;
     rows := rows st;
     lookup_rows := lookup_rows st;
     custom_lookup := custom_lookup st;
     slabels := slabels st;
     clabels := clabels st;
     htemplate := htemplate st;
     fetch_log := fetch_log st;
     bulk_log := x |}.

(** ** The monad of methods: state of the object and exceptions *)

Definition M (X : Type) : Type := S3Represent -> res X * S3Represent.

Definition ret {X} (x : X) : M X := fun st => (Ok x, st).

Definition raise {X} (e : exn) : M X := fun st => (Exc e, st).

Definition bind {X Y} (m : M X) (f : X -> M Y) : M Y :=
  fun st =>
    match m st with
    | (Ok x, st') => f x st'
    | (Exc e, st') => (Exc e, st')
    end.

Notation "x <- m ;; k" := (bind m (fun x => k))
  (at level 61, m at next level, right associativity).
Notation "m ;;; k" := (bind m (fun _ => k))
  (at level 61, right associativity).

(** Read an attribute. *)
Definition gets {X} (f : S3Represent -> X) : M X := fun st => (Ok (f st), st).

(** Assign attributes. *)
Definition modify (f : S3Represent -> S3Represent) : M unit :=
  fun st => (Ok tt, f st).

(** Lift a result that does not touch the object. *)
Definition lift {X} (r : res X) : M X := fun st => (r, st).

(** [try: m except e: handler] *)
Definition catch {X} (m : M X) (e : exn) (handler : M X) : M X :=
  fun st =>
    match m st with
    | (Exc e', st') =>
        match e, e' with
        | TypeError, TypeError | ValueError, ValueError
        | AttributeError, AttributeError | KeyError, KeyError
        | RuntimeError, RuntimeError => handler st'
        | _, _ => (Exc e', st')
        end
    | r => r
    end.

(** Hashing a key: unhashable objects raise [TypeError]. *)
Definition hash (k : pyval) : M unit :=
  if hashable k then ret tt else raise TypeError.

(** A label attribute ([self.none], [self.default]) that [_setup] has filled
    in; labels are strings in the embedding, so a label that is still [None]
    is outside of it. *)
Definition label_of (l : option string) : M string :=
  match l with Some s => ret s | None => raise Unsupported end.

(** [for x in l: body x] *)
Fixpoint for_each {X} (l : list X) (body : X -> M unit) : M unit :=
  match l with
  | [] => ret tt
  | x :: l' => body x ;;; for_each l' body
  end.

(** [for x in l: acc = body acc x], for a loop that updates local variables. *)
Fixpoint for_fold {X L} (l : list X) (body : L -> X -> M L) (acc : L) : M L :=
  match l with
  | [] => ret acc
  | x :: l' => acc' <- body acc x ;; for_fold l' body acc'
  end.

(** [[f x for x in l]] *)
Fixpoint for_map {X Y} (l : list X) (f : X -> M Y) : M (list Y) :=
  match l with
  | [] => ret []
  | x :: l' => y <- f x ;; ys <- for_map l' f ;; ret (y :: ys)
  end.

(** [row[f]]: a [Row] raises for a field it does not hold. *)
Definition row_item (r : Row) (f : string) : M pyval :=
  match row_get r f with Some v => ret v | None => raise KeyError end.

(** [", ".join(l)] and the like *)
Definition join (sep : string) (l : list string) : string := String.concat sep l.

(** ** The local variables of [_lookup] *)

Record locals : Type := {
  keys : dict pyval;
  items : dict string;
  lookup : dict bool
}.

Definition set_items (x : dict string) (lv : locals) : locals :=
  {| keys := keys lv; items := x; lookup := lookup lv |}.

Definition set_lookup (x : dict bool) (lv : locals) : locals :=
  {| keys := keys lv; items := items lv; lookup := x |}.

(** [keys.get(k, k)] *)
Definition keys_get (lv : locals) (k : pyval) : pyval :=
  match dget (keys lv) k with Some v => v | None => k end.

(** Truth value of an optional string attribute. *)
Definition str_truthy (s : option string) : bool :=
  match s with
  | Some s' => negb (String.eqb s' "")
  | None => false
  end.

Definition is_Some {X} (o : option X) : bool :=
  match o with Some _ => true | None => false end.

(** Truth value of the [rows] argument. *)
Definition rows_truthy (rs : option (list Row)) : bool :=
  match rs with
  | Some (_ :: _) => true
  | _ => false
  end.

(** ** The class [S3Represent] *)

Section Representer.

Variable E : Env.

(** [S3Represent.__init__]; [lookup_rows_method] is the method [lookup_rows]
    of a subclass, if the class of the object defines one. *)
Definition __init__ (lookup_rows_method : option fetch_fn)
    (lookup key : option string) (fields : option (list string))
    (labels : labels_t) (options : option (dict string))
    (translate : bool) (linkto : option string) (show_link multiple : bool)
    (hierarchy : hierarchy_t) (default none : option string)
    (field_sep : string) : S3Represent :=
  {| tablename := lookup;
     table := None;
     key := key;
     fields := fields;
     labels := labels;
     options := options;
     list_type := multiple;
     hierarchy := hierarchy;
     translate := translate;
     linkto := linkto;
     show_link := show_link;
     default := default;
     none := none;
     field_sep := field_sep;
     setup := false;
     theset := None;
     queries := 0;
     lazy := [];
     lazy_show_link := false;
     rows := [];
     lookup_rows := lookup_rows_method;
     custom_lookup := is_Some lookup_rows_method;
     slabels := false;
     clabels := false;
     htemplate := "";
     fetch_log := [];
     bulk_log := [] |}.

(** Modelled from the spec: the [select] of [current.db(query)] in the DAL,
    which is not part of the module.  The spec has it as one bulk
    predicate-in-set fetch: the records of the table whose key is among
    [values], restricted to the requested fields. *)
Definition select_fields (fs : list string) (r : Row) : Row :=
  flat_map (fun f => match row_get r f with
                     | Some v => [(f, v)]
                     | None => []
                     end) fs.

Definition db_select (t : Table) (key : string) (values : list pyval)
    (fs : list string) : list Row :=
  map (select_fields fs)
      (filter (fun r => match row_get r key with
                        | Some k => existsb (pyval_eqb k) values
                        | None => false
                        end) (t_rows t)).

(** [S3Represent._lookup_rows] *)
Definition _lookup_rows (t : Table) (key : string) (values : list pyval)
    (fs : list string) : M (list Row) :=
  let fs := fs ++ [key] in
  let rws := db_select t key values fs in
  modify (fun st => set_queries (queries st + 1) st) ;;;
  ret rws.

(** The call [self.lookup_rows(key, values, fields=fields)]: the method of
    the subclass or [_lookup_rows]; the call is recorded in [fetch_log]. *)
Definition call_lookup_rows (t : Table) (key : string) (values : list pyval)
    (fs : list string) : M (list Row) :=
  modify (fun st => set_fetch_log (fetch_log st ++ [values]) st) ;;;
  m <- gets lookup_rows ;;
  match m with
  | Some f => lift (f key values fs)
  | None => _lookup_rows t key values fs
  end.

(** The default renderer of [represent_row]: the non-empty fields joined
    with [field_sep]. *)
Definition field_empty (v : pyval) : bool :=
  match v with
  | PNone => true
  | PStr s => String.eqb s ""
  | _ => false
  end.

(** [S3Represent.represent_row] *)
Definition represent_row (row : Row) (prefix : option string) : M string :=
  sl <- gets slabels ;;
  cl <- gets clabels ;;
  lb <- gets labels ;;
  v <- (if sl then
          match lb with
          | LTemplate tpl => lift (format_row E tpl row)
          | _ => raise TypeError
          end
        else if cl then
          match lb with
          | LCallable f => lift (f row)
          | _ => raise TypeError
          end
        else
          fso <- gets fields ;;
          match fso with
          | None => raise TypeError
          | Some fs =>
              vals <- for_map fs (fun f => row_item row f) ;;
              let values := filter (fun x => negb (field_empty x)) vals in
              match values with
              | [] => n <- gets none ;; label_of n
              | _ =>
                  sep <- gets field_sep ;;
                  ret (join sep (map (s3_unicode E) values))
              end
          end) ;;
  tr <- gets translate ;;
  let output := if tr then T E v else v in
  hy <- gets hierarchy ;;
  if str_truthy prefix && hierarchy_truthy hy then
    tpl <- gets htemplate ;;
    match prefix with
    | Some p => lift (format_args tpl [p; output])
    | None => ret output
    end
  else ret output.

(** [S3Represent.link]; the base class does not use [row]. *)
Definition link (k : pyval) (v : string) (row : option Row) : M markup :=
  lt <- gets linkto ;;
  match lt with
  | Some url =>
      if negb (String.eqb url "") then
        let k' := s3_unicode E k in
        ret (A v (replace "%5Bid%5D" k' (replace "[id]" k' url)))
      else ret (Text v)
  | None => ret (Text v)
  end.

(** The parts of [_setup]: the default representations and [theset], ... *)
Definition setup_defaults (st : S3Represent) : S3Represent :=
  let st := set_queries 0 st in
  let st := match default st with
            | None => set_default (Some (UNKNOWN_OPT E)) st
            | Some _ => st
            end in
  let st := match none st with
            | None => set_none (Some (NONE E)) st
            | Some _ => st
            end in
  match options st with
  | Some o => set_theset (Some o) st
  | None => set_theset (Some []) st
  end.

(** ... the parameters taken from the lookup table, ... *)
Definition setup_lookup_table (t : Table) (st : S3Represent) : S3Represent :=
  let st := match key st with
            | None => set_key (Some (_id_name t)) st
            | Some _ => st
            end in
  let st := match fields st with
            | Some (_ :: _) => st
            | _ =>
                if has_field t "name"
                then set_fields (Some ["name"]) st
                else set_fields (option_map (fun k => [k]) (key st)) st
            end in
  set_table (Some t) st.

(** ... the lookup table and [linkto], ... *)
Definition setup_table : M unit :=
  tb <- gets table ;;
  match tb with
  | Some _ => ret tt
  | None =>
      tn <- gets tablename ;;
      match tn with
      | None => ret tt
      | Some name =>
          if String.eqb name "" then ret tt else
          (match s3db_table E name with
           | Some t => modify (setup_lookup_table t)
           | None => ret tt
           end) ;;;
          lt <- gets linkto ;;
          sh <- gets show_link ;;
          if negb (is_Some lt) && sh then
            match split_underscore name with
            | Some (c, f) => modify (set_linkto (Some (URL E c f)))
            | None => raise ValueError
            end
          else ret tt
      end
  end.

(** ... and the kind of renderer with the hierarchy template. *)
Definition setup_renderer (st : S3Represent) : S3Represent :=
  let st := set_slabels (match labels st with
                         | LTemplate _ => true
                         | _ => false
                         end) st in
  let st := set_clabels (match labels st with
                         | LCallable _ => true
                         | _ => false
                         end) st in
  set_htemplate (match hierarchy st with
                 | HTemplate tpl => tpl
                 | _ => "%s > %s"
                 end) st.

(** [S3Represent._setup] *)
Definition _setup : M unit :=
  done <- gets setup ;;
  if done then ret tt else
  modify setup_defaults ;;;
  setup_table ;;;
  modify setup_renderer ;;;
  modify (set_setup true).

(** [self.theset], which must be a dict by now: [in] on [None] raises. *)
Definition the_set : M (dict string) :=
  ts <- gets theset ;;
  match ts with
  | Some d => ret d
  | None => raise TypeError
  end.

(** [theset[k] = l] *)
Definition theset_put (k : pyval) (l : string) : M unit :=
  d <- the_set ;;
  modify (set_theset (Some (dset d k l))).

(** [S3Represent._represent_path]; [fuel] is the number of nested calls
    that are still allowed, and [tn] names the table of the hierarchy. *)
Fixpoint _represent_path (fuel : nat) (tn : string) (value : pyval)
    (row : Row) (rws : dict Row) : M string :=
  match fuel with
  | O => raise RuntimeError
  | S fuel' =>
      d <- the_set ;;
      hash value ;;;
      match dget d value with
      | Some l => ret l
      | None =>
          let parent := hierarchy_parent E tn value in
          prefix <- (if truthy parent then
                       hash parent ;;;
                       match dget d parent with
                       | Some p => ret (Some p)
                       | None =>
                           match dget rws parent with
                           | Some prow =>
                               p <- _represent_path fuel' tn parent prow rws ;;
                               ret (Some p)
                           | None => ret None
                           end
                       end
                     else ret None) ;;
          result <- represent_row row prefix ;;
          theset_put value result ;;;
          ret result
      end
  end.

(** The first loop of [_lookup]: normalise the value, serve it from [theset]
    or queue it. *)
Definition normalize (tb : option Table) (_v : pyval) : pyval :=
  match _v with
  | PStr s =>
      if is_Some tb
      then match py_int s with Some z => PInt z | None => _v end
      else _v
  | _ => _v
  end.

Definition scan_value (lv : locals) (_v : pyval) : M locals :=
  tb <- gets table ;;
  let v := normalize tb _v in
  hash v ;;;
  let lv := {| keys := dset (keys lv) v _v;
               items := items lv;
               lookup := lookup lv |} in
  if is_None v then
    n <- gets none ;;
    l <- label_of n ;;
    ret (set_items (dset (items lv) _v l) lv)
  else
    d <- the_set ;;
    match dget d v with
    | Some l => ret (set_items (dset (items lv) _v l) lv)
    | None => ret (set_lookup (dset (lookup lv) v true) lv)
    end.

(** The closure [lookup_parent] of [_lookup]. *)
Fixpoint lookup_parent (tn : string) (fuel : nat) (node_id : pyval)
    (lk : dict bool) : M (dict bool) :=
  match fuel with
  | O => raise RuntimeError
  | S fuel' =>
      let parent := hierarchy_parent E tn node_id in
      if truthy parent then
        hash parent ;;;
        d <- the_set ;;
        if negb (dmem d parent) && negb (dmem lk parent)
        then lookup_parent tn fuel' parent (dset lk parent false)
        else ret lk
      else ret lk
  end.

(** [for node_id in lookup.keys(): lookup_parent(node_id)] *)
Definition enqueue_ancestors (tn : string) (lk : dict bool) : M (dict bool) :=
  for_fold (dkeys lk)
           (fun acc node_id => lookup_parent tn (recursion_limit E) node_id acc)
           lk.

(** The body of the loop over the rows given by the caller. *)
Definition given_row (name : string) (lv : locals) (row : Row) : M locals :=
  k <- row_item row name ;;
  hash k ;;;
  modify (fun st => set_rows (dset (rows st) k row) st) ;;;
  d <- the_set ;;
  (if dmem d k then ret tt
   else l <- represent_row row None ;; theset_put k l) ;;;
  let popped := dget (lookup lv) k in
  let lv := set_lookup (ddel (lookup lv) k) lv in
  match popped with
  | Some true =>
      d' <- the_set ;;
      match dget d' k with
      | Some l => ret (set_items (dset (items lv) (keys_get lv k) l) lv)
      | None => raise KeyError
      end
  | _ => ret lv
  end.

(** [dict((row[key], row) for row in rows)] *)
Definition rows_by_key (name : string) (fetched : list Row) : M (dict Row) :=
  for_fold fetched
           (fun acc row => k <- row_item row name ;; hash k ;;; ret (dset acc k row))
           [].

(** The body of the loop over the fetched rows of a hierarchical table. *)
Definition fetched_path (tn : string) (byk : dict Row) (lv : locals)
    (kr : pyval * Row) : M locals :=
  let popped := dget (lookup lv) (fst kr) in
  let lv := set_lookup (ddel (lookup lv) (fst kr)) lv in
  match popped with
  | Some true =>
      l <- _represent_path (recursion_limit E) tn (fst kr) (snd kr) byk ;;
      ret (set_items (dset (items lv) (keys_get lv (fst kr)) l) lv)
  | _ => ret lv
  end.

(** The body of the loop over the fetched rows of a flat table. *)
Definition fetched_flat (lv : locals) (kr : pyval * Row) : M locals :=
  let lv := set_lookup (ddel (lookup lv) (fst kr)) lv in
  l <- represent_row (snd kr) None ;;
  let lv := set_items (dset (items lv) (keys_get lv (fst kr)) l) lv in
  theset_put (fst kr) l ;;;
  ret lv.

(** "Retrieve additional rows as needed" *)
Definition fetch_phase (t : Table) (name : string) (h : option string)
    (lv : locals) : M locals :=
  cu <- gets custom_lookup ;;
  fs <- (if negb cu then
           fso <- gets fields ;;
           match fso with
           | None => raise TypeError
           | Some fs => ret (filter (has_attribute t) fs)
           end
         else ret []) ;;
  fetched <- call_lookup_rows t name (dkeys (lookup lv)) fs ;;
  byk <- rows_by_key name fetched ;;
  modify (fun st => set_rows (dupdate (rows st) byk) st) ;;;
  match h with
  | Some tn => for_fold byk (fetched_path tn byk) lv
  | None => for_fold byk fetched_flat lv
  end.

(** [for k in lookup: items[keys.get(k, k)] = self.default] *)
Definition default_phase (lv : locals) : M locals :=
  for_fold (dkeys (lookup lv))
           (fun lv k =>
              dflt <- gets default ;;
              l <- label_of dflt ;;
              ret (set_items (dset (items lv) (keys_get lv k) l) lv))
           lv.

(** The hierarchy of the lookup table, if it has one: queue the ancestors
    of the pending keys; [h] is the name of the table of the hierarchy. *)
Definition with_ancestors (t : Table) (lv : locals)
    : M (locals * option string) :=
  hy <- gets hierarchy ;;
  if hierarchy_truthy hy && hierarchy_config E (_tablename t) then
    lk <- enqueue_ancestors (_tablename t) (lookup lv) ;;
    ret (set_lookup lk lv, Some (_tablename t))
  else ret (lv, None).

(** The part of [_lookup] after the primary key is found: the rows handed
    in, the fetch and the default for what is left. *)
Definition resolve (t : Table) (name : string) (h : option string)
    (rws : option (list Row)) (lv : locals) : M (dict string) :=
  cu <- gets custom_lookup ;;
  lv1 <- (if rows_truthy rws && negb cu
          then for_fold (match rws with Some l => l | None => [] end)
                        (given_row name) lv
          else ret lv) ;;
  lv2 <- (match lookup lv1 with
          | [] => ret lv1
          | _ => fetch_phase t name h lv1
          end) ;;
  lv3 <- default_phase lv2 ;;
  ret (items lv3).

(** [S3Represent._lookup].  The key is looked up among the attributes of
    the table object.  If it is an attribute that is not a field, the rest of
    the lookup works with an object that the DAL cannot select by; what
    comes of that is not interpreted ([Unsupported]). *)
Definition _lookup (values : list pyval) (rws : option (list Row))
    : M (dict string) :=
  lv <- for_fold values scan_value {| keys := []; items := []; lookup := [] |} ;;
  tb <- gets table ;;
  match tb, lookup lv with
  | None, _ => ret (items lv)
  | _, [] => ret (items lv)
  | Some t, _ =>
      lvh <- with_ancestors t lv ;;
      pkey <- gets key ;;
      match pkey with
      | None => raise TypeError
      | Some name =>
          if negb (has_field t name) then
            if has_object t name then raise Unsupported
            else ret (items (fst lvh))
          else resolve t name (snd lvh) rws (fst lvh)
      end
  end.

(** ** Entry points *)

(** Elements of a set in iteration order: first occurrences, reordered by
    the environment. *)
Fixpoint dedup (l : list pyval) : list pyval :=
  match l with
  | [] => []
  | x :: l' => x :: filter (fun y => negb (pyval_eqb x y)) (dedup l')
  end.

Definition chars_of (s : string) : list pyval :=
  map (fun c => PStr (String c EmptyString)) (list_ascii_of_string s).

(** Iterating over an object. *)
Definition iterate (v : pyval) : M (list pyval) :=
  match v with
  | PList l => ret l
  | PStr s => ret (chars_of s)
  | _ => raise TypeError
  end.

(** The body of the [try] that flattens the lists of a list-type field. *)
Definition flatten (values : pyval) : M (list pyval) :=
  match values with
  | PList l =>
      let hasnone := existsb is_None l in
      let l' := if hasnone then filter (fun i => negb (is_None i)) l else l in
      parts <- for_map l' iterate ;;
      let elems := List.concat parts in
      for_each elems hash ;;;
      let vs := set_order E (dedup elems) in
      ret (if hasnone then vs ++ [PNone] else vs)
  | _ => raise TypeError
  end.

(** [S3Represent.multiple] *)
Definition multiple (values : pyval) (rws : option (list Row))
    (list_type_arg show_link_arg : bool) : M markup :=
  _setup ;;;
  sl <- gets show_link ;;
  let show_link := show_link_arg && sl in
  tb <- gets table ;;
  lt <- gets list_type ;;
  vals <- (if rows_truthy rws && is_Some tb then
             k <- gets key ;;
             match k with
             | Some name =>
                 for_map (match rws with Some l => l | None => [] end)
                         (fun row => row_item row name)
             | None => raise KeyError
             end
           else if lt && list_type_arg then
             catch (flatten values) TypeError (raise ValueError)
           else ret (match values with PList l => l | _ => [values] end)) ;;
  match vals with
  | [] => n <- gets none ;; l <- label_of n ;; ret (Text l)
  | _ =>
      df <- gets default ;;
      dflt <- label_of df ;;
      its <- _lookup vals rws ;;
      if show_link then
        labels <- for_map vals
                    (fun k => match dget its k with
                              | Some l =>
                                  rw <- gets rows ;;
                                  m <- link k l (dget rw k) ;;
                                  ret [m; Text ", "]
                              | None => ret [Text dflt; Text ", "]
                              end) ;;
        match labels with
        | [] => ret (Text "")
        | _ => ret (TAG (removelast (List.concat labels)))
        end
      else
        let labels := map (fun k => match dget its k with
                                    | Some l => l
                                    | None => dflt
                                    end) vals in
        match labels with
        | [] => n <- gets none ;; l <- label_of n ;; ret (Text l)
        | _ => ret (Text (join ", " labels))
        end
  end.

(** [S3Represent.__call__].  With a list-type representer the row is handed
    to [multiple] as its [rows]; iterating over a [Row] yields field names,
    which cannot be subscripted with the key. *)
Definition __call__ (value : pyval) (row : option Row) (show_link_arg : bool)
    : M markup :=
  _setup ;;;
  sl <- gets show_link ;;
  let show_link := show_link_arg && sl in
  lt <- gets list_type ;;
  tb <- gets table ;;
  if lt then
    match row with
    | Some r =>
        if row_truthy r && is_Some tb then raise TypeError
        else multiple value None false show_link
    | None => multiple value None false show_link
    end
  else
    value <- (match row with
              | Some r =>
                  if row_truthy r && is_Some tb then
                    k <- gets key ;;
                    match k with
                    | Some name => row_item r name
                    | None => raise KeyError
                    end
                  else ret value
              | None => ret value
              end) ;;
    if truthy value then
      let rws := match row with Some r => Some [r] | None => None end in
      its <- _lookup [value] rws ;;
      match dget its value with
      | Some v =>
          if show_link then
            rw <- gets rows ;;
            link value v (dget rw value)
          else ret (Text v)
      | None => df <- gets default ;; l <- label_of df ;; ret (Text l)
      end
    else n <- gets none ;; l <- label_of n ;; ret (Text l).

(** The body of [S3Represent.bulk]. *)
Definition bulk_body (values : pyval) (rws : option (list Row))
    (list_type_arg show_link_arg : bool) : M (dict markup) :=
  _setup ;;;
  sl <- gets show_link ;;
  let show_link := show_link_arg && sl in
  tb <- gets table ;;
  lt <- gets list_type ;;
  vals <- (if rows_truthy rws && is_Some tb then
             k <- gets key ;;
             match k with
             | Some name =>
                 vs <- for_map (match rws with Some l => l | None => [] end)
                         (fun row =>
                            value <- row_item row name ;;
                            hash value ;;;
                            modify (fun st => set_rows (dset (rows st) value row) st) ;;;
                            ret value) ;;
                 ret (set_order E (dedup vs))
             | None => raise KeyError
             end
           else if lt && list_type_arg then
             catch (flatten values) TypeError (raise ValueError)
           else ret (match values with PList l => l | _ => [values] end)) ;;
  labels <- (match vals with
             | [] => ret []
             | _ =>
                 its <- _lookup vals rws ;;
                 linked <- (if show_link then
                              for_fold its
                                (fun acc kv =>
                                   rw <- gets rows ;;
                                   m <- link (fst kv) (snd kv) (dget rw (fst kv)) ;;
                                   ret (dset acc (fst kv) m))
                                []
                            else ret (map (fun kv => (fst kv, Text (snd kv))) its)) ;;
                 for_fold vals
                   (fun acc k =>
                      if dmem acc k then ret acc
                      else df <- gets default ;;
                           l <- label_of df ;;
                           ret (dset acc k (Text l)))
                   linked
             end) ;;
  n <- gets none ;;
  l <- label_of n ;;
  ret (dset labels PNone (Text l)).

(** [S3Represent.bulk]; the call is recorded in [bulk_log]. *)
Definition bulk (values : pyval) (rws : option (list Row))
    (list_type_arg show_link_arg : bool) : M (dict markup) :=
  modify (fun st => set_bulk_log (bulk_log st ++ [values]) st) ;;;
  bulk_body values rws list_type_arg show_link_arg.

(** [s3_unicode] on what [bulk] returned for a key. *)
Definition markup_unicode (m : markup) : string :=
  match m with
  | Text s => s
  | _ => xml E m
  end.

(** [S3Represent.render_list] *)
Definition render_list (value : pyval) (labels : option (dict markup))
    (show_link_arg : bool) : M markup :=
  sl <- gets show_link ;;
  let show_link := show_link_arg && sl in
  vs <- iterate value ;;
  let label_for (v : pyval) : M markup :=
    hash v ;;;
    match labels with
    | None => raise TypeError
    | Some d =>
        match dget d v with
        | Some m => ret m
        | None => df <- gets default ;; l <- label_of df ;; ret (Text l)
        end
    end in
  if show_link then
    ls <- for_map vs (fun v => m <- label_for v ;; ret [m; Text ", "]) ;;
    match ls with
    | [] => ret (Text "")
    | _ => ret (TAG (removelast (List.concat ls)))
    end
  else
    ls <- for_map vs (fun v => m <- label_for v ;; ret (markup_unicode m)) ;;
    ret (Text (join ", " ls)).

End Representer.

(** ** The class [S3RepresentLazy]

    The accumulators of one representer share the representer object, which
    is the state of the monad; an accumulator itself holds its value and the
    flag [multiple]. *)

Module Lazy.

Local Abbreviation renderer_multiple := multiple (only parsing).
Local Abbreviation renderer_call := __call__ (only parsing).

Record S3RepresentLazy : Type := {
  value : pyval;
  multiple : bool
}.

Section Accumulator.

Variable E : Env.

(** [S3RepresentLazy.__init__] *)
Definition __init__ (v : pyval) : M S3RepresentLazy :=
  modify (fun st => set_lazy (lazy st ++ [v]) st) ;;;
  ret {| value := v; multiple := false |}.

(** The common head of [represent] and [render]: resolve the queue of the
    renderer with [bulk] if there is one, else take [theset]. *)
Definition flush : M (option (dict markup)) :=
  lz <- gets lazy ;;
  match lz with
  | [] =>
      ts <- gets theset ;;
      ret (option_map (map (fun kv => (fst kv, Text (snd kv)))) ts)
  | _ =>
      labels <- bulk E (PList lz) None true true ;;
      modify (set_lazy []) ;;;
      ret (Some labels)
  end.

(** [S3RepresentLazy.represent] *)
Definition represent (self : S3RepresentLazy) : M markup :=
  labels <- flush ;;
  lt <- gets list_type ;;
  if lt then
    if multiple self
    then renderer_multiple E (value self) None true false
    else render_list E (value self) labels false
  else
    if multiple self
    then renderer_multiple E (value self) None true false
    else renderer_call E (value self) None false.

(** [S3RepresentLazy.render] *)
Definition render (self : S3RepresentLazy) : M markup :=
  labels <- flush ;;
  lt <- gets list_type ;;
  if lt then
    let v := if truthy (value self) then value self else PList [] in
    if multiple self then
      v' <- (match v with
             | PList [] => ret v
             | PList (x :: _) => ret (if is_list x then v else PList [v])
             | PStr _ => ret (PList [v])
             | _ => raise TypeError
             end) ;;
      renderer_multiple E v' None true true
    else render_list E v labels true
  else
    if multiple self
    then renderer_multiple E (value self) None true true
    else renderer_call E (value self) None true.

End Accumulator.

End Lazy.

(** ** Reusable fields

    [S3ReusableField] and the date field [s3_date], which is made with it.
    The attributes of a field are kept in a [Storage], a dictionary with
    strings as keys; the values that the code tells apart are constructors
    of [aval], every other object is an [AObj].  What the code raises is a
    [NameError], the [TypeError] of a call with a keyword that the callee
    does not have, the [ValueError] and the [OverflowError] of
    [date.replace], or, outside the fragment that is interpreted (limits
    that are not integers), [Unsupported]. *)

Module Fields.

Local Open Scope Z_scope.

(** A [datetime.date]. *)
Record date : Type := {
  year : Z;
  month : Z;
  day : Z
}.

Inductive aval : Type :=
| ANone
| ABool (b : bool)
| AInt (z : Z)
| AStr (s : string)
| ASeq (l : list aval)                      (* a list or a tuple *)
| ADict (d : list (string * aval))          (* a dict *)
| AEmptyOr (other : aval)                   (* IS_EMPTY_OR of a validator *)
| AIsDate (format : string)                 (* IS_DATE *)
| AIsDateInRange (format : string) (minimum maximum : option date)
                 (error_message : string)   (* IS_DATE_IN_RANGE *)
| AScriptItem (script : aval)               (* S3ScriptItem *)
| ATag (components : list aval)             (* a TAG of components *)
| ADateWidget (options : list (string * aval)) (* an S3DateWidget *)
| AObj (n : nat).                           (* any other object *)

Inductive error : Type :=
| NameError | ValueError | TypeError | OverflowError | Unsupported.

Inductive outcome (X : Type) : Type :=
| Return (x : X)
| Raise (e : error).
Arguments Return {X} x.
Arguments Raise {X} e.

(** The truth value; the objects of the classes at hand are all true. *)
Definition truth (v : aval) : bool :=
  match v with
  | ANone => false
  | ABool b => b
  | AInt z => negb (z =? 0)
  | AStr s => negb (String.eqb s "")
  | ASeq l => match l with [] => false | _ => true end
  | ADict d => match d with [] => false | _ => true end
  | _ => true
  end.

Definition is_ANone (v : aval) : bool :=
  match v with ANone => true | _ => false end.

(** [gluon.storage.Storage]: a dict; an attribute that is not there reads
    as [None]. *)
Definition Storage : Type := list (string * aval).

Fixpoint sget (d : Storage) (k : string) : option aval :=
  match d with
  | [] => None
  | (k', v) :: d' => if String.eqb k' k then Some v else sget d' k
  end.

Definition smem (d : Storage) (k : string) : bool :=
  match sget d k with Some _ => true | None => false end.

Fixpoint sset (d : Storage) (k : string) (v : aval) : Storage :=
  match d with
  | [] => [(k, v)]
  | (k', v') :: d' =>
      if String.eqb k' k then (k', v) :: d' else (k', v') :: sset d' k v
  end.

Fixpoint sdel (d : Storage) (k : string) : Storage :=
  match d with
  | [] => []
  | (k', v') :: d' => if String.eqb k' k then sdel d' k else (k', v') :: sdel d' k
  end.

(** [d.update] with the entries of [e] *)
Definition supdate (d e : Storage) : Storage :=
  fold_left (fun acc kv => sset acc (fst kv) (snd kv)) e d.

(** [d.k] of a [Storage], and [d.get(k)] of a dict *)
Definition sattr (d : Storage) (k : string) : aval :=
  match sget d k with Some v => v | None => ANone end.

(** [d.pop(k, default)] is [spop d k default] together with [sdel d k]. *)
Definition spop (d : Storage) (k : string) (default : aval) : aval :=
  match sget d k with Some v => v | None => default end.

(** What [__call__] returns: a [Field], or a [FieldS3] if there is a
    [sortby]. *)
Record field : Type := {
  f_s3 : bool;
  f_name : string;
  f_type : aval;
  f_attr : Storage
}.

Record S3ReusableField : Type := {
  name : string;
  type_ : aval;
  attr : Storage
}.

(** [S3ReusableField.__init__] *)
Definition __init__ (name : string) (type : aval) (attr : Storage)
    : S3ReusableField :=
  {| name := name; type_ := type; attr := attr |}.

(** [empty = attr.pop(empty, True)] and what follows from it: without
    [empty], an [IS_EMPTY_OR] at the head of the validators is replaced by
    the validator that it wraps. *)
Definition unwrap_requires (ia : Storage) (empty : aval) : Storage :=
  if negb (truth empty) then
    let requires := sattr ia "requires" in
    if truth requires then
      let requires := match requires with
                      | ASeq _ => requires
                      | _ => ASeq [requires]
                      end in
      match requires with
      | ASeq (AEmptyOr other :: _) => sset ia "requires" other
      | _ => ia
      end
    else ia
  else ia.

(** The widget of the field: an object as it is, a name looked up in the
    [widgets] of the definition. *)
Definition resolve_widget (ia : Storage) (widgets widget : aval)
    : outcome aval :=
  match widget with
  | AStr w =>
      if String.eqb w "default" && smem ia "widget" then Return (sattr ia "widget")
      else
        let widgets := match widgets with
                       | ADict d => d
                       | _ => [("default", widgets)]
                       end in
        if negb (String.eqb w "default") && negb (smem widgets w)
        then Raise NameError
        else Return (sattr widgets w)
  | _ => Return widget
  end.

(** The [script] of the field goes into its comment. *)
Definition fold_script (ia : Storage) : Storage :=
  if smem ia "script" then
    let ia :=
      if truth (sattr ia "script") then
        if truth (sattr ia "comment") then
          sset ia "comment"
               (ATag [sattr ia "comment"; AScriptItem (sattr ia "script")])
        else sset ia "comment" (AScriptItem (sattr ia "script"))
      else ia in
    sdel ia "script"
  else ia.

(** The keywords of [FieldS3.__init__], besides the name and the type of
    the field, which [__call__] gives by position. *)
Definition FieldS3_keywords : list string :=
  ["length"; "default"; "required"; "requires"; "ondelete"; "notnull";
   "unique"; "uploadfield"; "widget"; "label"; "comment"; "writable";
   "readable"; "update"; "authorize"; "autodelete"; "represent";
   "uploadfolder"; "compute"; "sortby"].

(** The end of [__call__].  With a [sortby] the field is made by
    [FieldS3(name, type, **ia)], which raises a [TypeError] if an attribute
    is none of the keywords of [FieldS3.__init__]; without, by
    [Field(name, type, **ia)].  The class [Field] belongs to the DAL: the
    record stands for the call of its constructor. *)
Definition make_field (name : string) (type : aval) (ia : Storage)
    : outcome field :=
  if negb (is_ANone (sattr ia "sortby")) then
    if forallb (fun kv => existsb (String.eqb (fst kv)) FieldS3_keywords) ia
    then Return {| f_s3 := true; f_name := name; f_type := type; f_attr := ia |}
    else Raise TypeError
  else Return {| f_s3 := false; f_name := name; f_type := type; f_attr := ia |}.

(** [S3ReusableField.__call__] *)
Definition __call__ (self : S3ReusableField) (name_arg : option string)
    (attr_arg : Storage) : outcome field :=
  let name := match name_arg with
              | Some n => if String.eqb n "" then name self else n
              | None => name self
              end in
  let ia := attr self in
  let widgets := spop ia "widgets" (ADict []) in
  let ia := sdel ia "widgets" in
  let '(ia, widget) :=
    match attr_arg with
    | [] => (ia, AStr "default")
    | _ =>
        let empty := spop attr_arg "empty" (ABool true) in
        let attr1 := sdel attr_arg "empty" in
        let ia := unwrap_requires ia empty in
        let widget := spop attr1 "widget" (AStr "default") in
        let attr2 := sdel attr1 "widget" in
        (supdate ia attr2, widget)
    end in
  match resolve_widget ia widgets widget with
  | Raise e => Raise e
  | Return widget =>
      let ia := sset ia "widget" widget in
      let ia := fold_script ia in
      make_field name (type_ self) ia
  end.

(** The calendar of [datetime.date]: the days of a month and the dates
    that there are. *)
Definition is_leap (y : Z) : bool :=
  (y mod 4 =? 0) && (negb (y mod 100 =? 0) || (y mod 400 =? 0)).

Definition days_in_month (y m : Z) : Z :=
  if m =? 2 then (if is_leap y then 29 else 28)
  else if (m =? 4) || (m =? 6) || (m =? 9) || (m =? 11) then 30
  else 31.

Definition valid_date (y m d : Z) : bool :=
  (1 <=? y) && (y <=? 9999) && (1 <=? m) && (m <=? 12) &&
  (1 <=? d) && (d <=? days_in_month y m).

(** The surroundings of [s3_date]: the translator [T], the request time and
    its date, which is a date of the calendar, the date format of the
    deployment, and the function that represents dates. *)
Record FEnv : Type := {
  fT : string -> string;
  utcnow : aval;
  today : date;
  today_valid : valid_date (year today) (month today) (day today) = true;
  date_format : string;
  date_represent : aval
}.

(** An integer that fits the C type [int], as the arguments of
    [date.replace] have to. *)
Definition c_int (z : Z) : bool :=
  (-2147483648 <=? z) && (z <=? 2147483647).

(** [date.replace]: an [OverflowError] if an argument does not fit a C
    [int], and a [ValueError] unless the result is a date. *)
Definition date_replace (now : date) (y m : option Z) : outcome date :=
  let fits := match y with Some y' => c_int y' | None => true end
              && match m with Some m' => c_int m' | None => true end in
  let y' := match y with Some y' => y' | None => year now end in
  let m' := match m with Some m' => m' | None => month now end in
  if negb fits then Raise OverflowError
  else if valid_date y' m' (day now)
  then Return {| year := y'; month := m'; day := day now |}
  else Raise ValueError.

(** The latest date, [future] months from now, as [s3_date] computes it. *)
Definition future_limit (now : date) (future : Z) : outcome date :=
  let future_month := month now + future in
  if future_month <=? 12 then date_replace now None (Some future_month)
  else
    let current_year := year now in
    let years := future_month / 12 in
    let future_year := current_year + years in
    let future_month := future_month - years * 12 in
    if negb (future_month =? 0)
    then date_replace now (Some future_year) (Some future_month)
    else date_replace now (Some future_year) None.

(** The earliest date, [past] months before now. *)
Definition past_limit (now : date) (past : Z) : outcome date :=
  let current_month := month now in
  if past <? current_month
  then date_replace now None (Some (current_month - past))
  else
    let current_year := year now in
    let past_years := past / 12 in
    let past_months := past - past_years * 12 in
    let past_month := current_month - past_months in
    if negb (past_month =? 0)
    then date_replace now (Some (current_year - past_years)) (Some past_month)
    else date_replace now (Some (current_year - past_years)) None.

(** A limit of [s3_date] is interpreted if it is an integer. *)
Definition months_of (v : aval) : outcome Z :=
  match v with
  | AInt z => Return z
  | _ => Raise Unsupported
  end.

(** The validator of [s3_date] for the limits [past] and [future], each of
    which is [None] if it is not given. *)
Definition date_validator (FE : FEnv) (past future : aval) : outcome aval :=
  if is_ANone past && is_ANone future then Return (AIsDate (date_format FE))
  else
    let now := today FE in
    if is_ANone past then
      match months_of future with
      | Raise e => Raise e
      | Return f =>
          match future_limit now f with
          | Raise e => Raise e
          | Return max =>
              Return (AIsDateInRange (date_format FE) None (Some max)
                        (fT FE "Date must be %(max)s or earlier!"))
          end
      end
    else if is_ANone future then
      match months_of past with
      | Raise e => Raise e
      | Return p =>
          match past_limit now p with
          | Raise e => Raise e
          | Return min =>
              Return (AIsDateInRange (date_format FE) (Some min) None
                        (fT FE "Date must be %(min)s or later!"))
          end
      end
    else
      match months_of future with
      | Raise e => Raise e
      | Return f =>
          match future_limit now f with
          | Raise e => Raise e
          | Return max =>
              match months_of past with
              | Raise e => Raise e
              | Return p =>
                  match past_limit now p with
                  | Raise e => Raise e
                  | Return min =>
                      Return (AIsDateInRange (date_format FE) (Some min) (Some max)
                                (fT FE "Date must be between %(min)s and %(max)s!"))
                  end
              end
          end
      end.

(** Move the option [k] of the widget from the attributes, if it is
    there. *)
Definition move_option (k : string) (aw : Storage * Storage)
    : Storage * Storage :=
  match sget (fst aw) k with
  | Some v => (sdel (fst aw) k, sset (snd aw) k v)
  | None => aw
  end.

(** [S3ReusableField(name, type, **attr)]: the keywords may not name a
    parameter that is given by position. *)
Definition construct (name : string) (type : aval) (attr : Storage)
    : outcome S3ReusableField :=
  if smem attr "type" || smem attr "self" then Raise TypeError
  else Return (__init__ name type attr).

(** [s3_date], the defaults of [default], [label] and [represent] *)
Definition date_defaults (FE : FEnv) (attr : Storage) : Storage :=
  let attr := match sget attr "default" with
              | Some (AStr s) =>
                  if String.eqb s "now" then sset attr "default" (utcnow FE)
                  else attr
              | _ => attr
              end in
  let attr := if smem attr "label" then attr
              else sset attr "label" (AStr (fT FE "Date")) in
  if smem attr "represent" then attr
  else sset attr "represent" (date_represent FE).

(** [s3_date], the validator of the field unless the caller gives one *)
Definition date_requires (FE : FEnv) (past future : aval) (attr : Storage)
    : outcome Storage :=
  if smem attr "requires" then Return attr
  else
    match date_validator FE past future with
    | Raise e => Raise e
    | Return requires =>
        match sget attr "empty" with
        | Some e =>
            let attr := match e with
                        | ABool false => sset attr "requires" requires
                        | _ => sset attr "requires" (AEmptyOr requires)
                        end in
            Return (sdel attr "empty")
        | None => Return (sset attr "requires" (AEmptyOr requires))
        end
    end.

(** [s3_date], the widget of the field unless the caller gives one *)
Definition date_widget (past future : aval) (attr : Storage) : Storage :=
  if smem attr "widget" then attr
  else
    let aw := move_option "default_explicit"
                (move_option "default_interval"
                   (move_option "start_field" (attr, []))) in
    let widget_option := snd aw in
    let widget_option := if is_ANone future then widget_option
                         else sset widget_option "future" future in
    let widget_option := if is_ANone past then widget_option
                         else sset widget_option "past" past in
    sset (fst aw) "widget" (ADateWidget widget_option).

(** [s3_date] *)
Definition s3_date (FE : FEnv) (name : string) (attr : Storage)
    : outcome field :=
  let past := sattr attr "past" in
  let attr := sdel attr "past" in
  let future := sattr attr "future" in
  let attr := sdel attr "future" in
  let attr := date_defaults FE attr in
  match date_requires FE past future attr with
  | Raise e => Raise e
  | Return attr =>
      let attr := date_widget past future attr in
      match construct name (AStr "date") attr with
      | Raise e => Raise e
      | Return f => __call__ f None []
      end
  end.

End Fields.

(** ** A concrete environment

    The lookup table [org_organisation] of the scenarios of the
    specification, and a hierarchical table [gis_location] with the chain
    3 -> 2 -> 1. *)

Definition unicode_of (v : pyval) : string :=
  match v with
  | PNone => "None"
  | PInt z => NilZero.string_of_int (Z.to_int z)
  | PStr s => s
  | PList _ => "[...]"
  end.

Definition org_row (i : Z) (n : string) : Row := [("id", PInt i); ("name", PStr n)].

Definition org_table : Table :=
  {| _tablename := "org_organisation";
     t_fields := ["id"; "name"];
     t_attrs := ["_tablename"; "_id"; "fields"];
     _id_name := "id";
     t_rows := [org_row 1 "Alpha"; org_row 2 "Beta"; org_row 0 "Zero"] |}.

Definition loc_table : Table :=
  {| _tablename := "gis_location";
     t_fields := ["id"; "name"; "parent"];
     t_attrs := ["_tablename"; "_id"; "fields"];
     _id_name := "id";
     t_rows := [org_row 1 "C"; org_row 2 "B"; org_row 3 "A"] |}.

Definition demo_env : Env :=
  {| s3db_table := fun n =>
       if String.eqb n "org_organisation" then Some org_table
       else if String.eqb n "gis_location" then Some loc_table
       else None;
     hierarchy_config := fun n => String.eqb n "gis_location";
     hierarchy_parent := fun _ v =>
       match v with
       | PInt 3 => PInt 2
       | PInt 2 => PInt 1
       | _ => PNone
       end;
     T := fun s => s;
     UNKNOWN_OPT := "Unknown";
     NONE := "-";
     URL := fun c f => ("/" ++ c ++ "/" ++ f ++ "/[id]")%string;
     s3_unicode := unicode_of;
     xml := fun _ => "<xml>";
     format_row := fun _ _ => Exc Unsupported;
     set_order := fun l => l;
     recursion_limit := 100 |}.

(** [S3Represent(lookup="org_organisation")] and variants of it. *)
Definition org_represent : S3Represent :=
  __init__ None (Some "org_organisation") None None LNone None false None
           false false HFalse None None " ".

Definition org_represent_list : S3Represent :=
  __init__ None (Some "org_organisation") None None LNone None false None
           false true HFalse None None " ".

Definition loc_represent : S3Represent :=
  __init__ None (Some "gis_location") None None LNone None false None
           false false HTrue None None " ".

(** * Properties *)

(** ** Equality of values *)

Section PyvalInduction.

Variable P : pyval -> Prop.
Hypothesis HNone : P PNone.
Hypothesis HInt : forall z, P (PInt z).
Hypothesis HStr : forall s, P (PStr s).
Hypothesis HList : forall l, Forall P l -> P (PList l).

Fixpoint pyval_nested_ind (v : pyval) : P v :=
  match v with
  | PNone => HNone
  | PInt z => HInt z
  | PStr s => HStr s
  | PList l =>
      HList ((fix go (l : list pyval) : Forall P l :=
                match l with
                | [] => Forall_nil P
                | x :: l' => Forall_cons x (pyval_nested_ind x) (go l')
                end) l)
  end.

End PyvalInduction.

Lemma pyval_eqb_refl (a : pyval) : pyval_eqb a a = true.
Proof.
  induction a as [| z | s | l IH] using pyval_nested_ind; simpl.
  - reflexivity.
  - apply Z.eqb_refl.
  - apply String.eqb_refl.
  - induction IH as [| x l' Hx _ IHl]; [reflexivity |].
    rewrite Hx. exact IHl.
Qed.

Lemma pyval_eqb_true (a b : pyval) : pyval_eqb a b = true -> a = b.
Proof.
  revert b.
  induction a as [| z | s | l IH] using pyval_nested_ind;
    intros [| z' | s' | l']; simpl; try discriminate.
  - reflexivity.
  - intros H. apply Z.eqb_eq in H. now subst.
  - intros H. apply String.eqb_eq in H. now subst.
  - revert l'. induction IH as [| x l0 Hx _ IHl]; intros [| y l']; try discriminate.
    + reflexivity.
    + intros H. apply andb_true_iff in H as [Hxy Hrest].
      apply Hx in Hxy. apply IHl in Hrest.
      injection Hrest as ->. now subst.
Qed.

Lemma pyval_eqb_eq (a b : pyval) : pyval_eqb a b = true <-> a = b.
Proof.
  split; [apply pyval_eqb_true | intros ->; apply pyval_eqb_refl].
Qed.

Lemma pyval_eqb_neq (a b : pyval) : pyval_eqb a b = false <-> a <> b.
Proof.
  split.
  - intros H ->. rewrite pyval_eqb_refl in H. discriminate.
  - intros H. destruct (pyval_eqb a b) eqn:Hab; [| reflexivity].
    apply pyval_eqb_true in Hab. contradiction.
Qed.

Lemma pyval_eqb_sym (a b : pyval) : pyval_eqb a b = pyval_eqb b a.
Proof.
  destruct (pyval_eqb a b) eqn:Hab.
  - apply pyval_eqb_true in Hab. subst. symmetry. apply pyval_eqb_refl.
  - symmetry. apply pyval_eqb_neq. apply pyval_eqb_neq in Hab. congruence.
Qed.

(** ** Dictionaries *)

Section Dict.

Variable V : Type.
Implicit Types (d : dict V) (k : pyval) (v : V).

Lemma dget_dset_same d k v : dget (dset d k v) k = Some v.
Proof.
  induction d as [| [k' v'] d IH]; simpl.
  - now rewrite pyval_eqb_refl.
  - destruct (pyval_eqb k' k) eqn:Hk; simpl; rewrite Hk; [reflexivity | exact IH].
Qed.

Lemma dget_dset_other d k k' v : k <> k' -> dget (dset d k v) k' = dget d k'.
Proof.
  intros Hne. induction d as [| [k0 v0] d IH]; simpl.
  - apply pyval_eqb_neq in Hne. now rewrite Hne.
  - destruct (pyval_eqb k0 k) eqn:Hk; simpl.
    + apply pyval_eqb_true in Hk. subst k0.
      apply pyval_eqb_neq in Hne. now rewrite Hne.
    + now rewrite IH.
Qed.

Lemma dget_dset d k k' v :
  dget (dset d k v) k' = if pyval_eqb k k' then Some v else dget d k'.
Proof.
  destruct (pyval_eqb k k') eqn:Hk.
  - apply pyval_eqb_true in Hk. subst. apply dget_dset_same.
  - apply dget_dset_other. now apply pyval_eqb_neq.
Qed.

Lemma dset_fresh d k v : dget d k = None -> dset d k v = d ++ [(k, v)].
Proof.
  induction d as [| [k0 v0] d IH]; simpl; [reflexivity |].
  destruct (pyval_eqb k0 k); [discriminate |].
  intros H. now rewrite IH.
Qed.

Lemma dget_ddel_same d k : NoDup (dkeys d) -> dget (ddel d k) k = None.
Proof.
  induction d as [| [k0 v0] d IH]; simpl; [reflexivity |].
  intros Hnd. inversion Hnd as [| ? ? Hnin Hnd']; subst.
  destruct (pyval_eqb k0 k) eqn:Hk.
  - apply pyval_eqb_true in Hk. subst k0.
    clear - Hnin. induction d as [| [k1 v1] d IH]; simpl; [reflexivity |].
    destruct (pyval_eqb k1 k) eqn:Hk1.
    + apply pyval_eqb_true in Hk1. subst. exfalso. apply Hnin. now left.
    + apply IH. intros Hin. apply Hnin. now right.
  - simpl. rewrite Hk. now apply IH.
Qed.

Lemma dget_ddel_other d k k' : k <> k' -> dget (ddel d k) k' = dget d k'.
Proof.
  intros Hne. induction d as [| [k0 v0] d IH]; simpl; [reflexivity |].
  destruct (pyval_eqb k0 k) eqn:Hk.
  - apply pyval_eqb_true in Hk. subst k0.
    apply pyval_eqb_neq in Hne. now rewrite Hne.
  - simpl. now rewrite IH.
Qed.

Lemma dget_In d k v : dget d k = Some v -> In (k, v) d.
Proof.
  induction d as [| [k0 v0] d IH]; simpl; [discriminate |].
  destruct (pyval_eqb k0 k) eqn:Hk.
  - apply pyval_eqb_true in Hk. intros [= ->]. subst. now left.
  - intros H. right. now apply IH.
Qed.

Lemma dget_None_notin d k : dget d k = None <-> ~ In k (dkeys d).
Proof.
  induction d as [| [k0 v0] d IH]; simpl.
  - split; [intros _ [] | reflexivity].
  - destruct (pyval_eqb k0 k) eqn:Hk.
    + apply pyval_eqb_true in Hk. subst. split; [discriminate |].
      intros H. exfalso. apply H. now left.
    + apply pyval_eqb_neq in Hk. rewrite IH. tauto.
Qed.

Lemma dkeys_dset_fresh d k v : dget d k = None -> dkeys (dset d k v) = dkeys d ++ [k].
Proof.
  intros H. rewrite dset_fresh by exact H. unfold dkeys. now rewrite map_app.
Qed.

Lemma dkeys_dset_present d k v : dget d k <> None -> dkeys (dset d k v) = dkeys d.
Proof.
  induction d as [| [k0 v0] d IH]; simpl; [congruence |].
  destruct (pyval_eqb k0 k) eqn:Hk; simpl.
  - apply pyval_eqb_true in Hk. now subst.
  - intros H. now rewrite IH.
Qed.

Lemma NoDup_dkeys_dset d k v : NoDup (dkeys d) -> NoDup (dkeys (dset d k v)).
Proof.
  intros Hnd. destruct (dget d k) eqn:Hg.
  - rewrite dkeys_dset_present; [exact Hnd | congruence].
  - rewrite dkeys_dset_fresh by exact Hg.
    apply NoDup_app; [exact Hnd | constructor; [intros [] | constructor] |].
    intros x Hx [<- | []]. now apply dget_None_notin in Hg.
Qed.

Lemma In_dkeys_ddel d k k' : In k' (dkeys (ddel d k)) -> In k' (dkeys d).
Proof.
  induction d as [| [k0 v0] d IH]; simpl; [tauto |].
  destruct (pyval_eqb k0 k); simpl; tauto.
Qed.

Lemma NoDup_dkeys_ddel d k : NoDup (dkeys d) -> NoDup (dkeys (ddel d k)).
Proof.
  induction d as [| [k0 v0] d IH]; simpl; [tauto |].
  intros Hnd. inversion Hnd as [| ? ? Hnin Hnd']; subst.
  destruct (pyval_eqb k0 k); [exact Hnd' |].
  simpl. constructor; [| now apply IH].
  intros Hin. apply Hnin. now apply In_dkeys_ddel in Hin.
Qed.

End Dict.

(** ** Running computations *)

Lemma bind_ok {X Y} (m : M X) (f : X -> M Y) st y st' :
  bind m f st = (Ok y, st') ->
  exists x st1, m st = (Ok x, st1) /\ f x st1 = (Ok y, st').
Proof.
  unfold bind. destruct (m st) as [[x | e] st1]; [| discriminate].
  intros H. now exists x, st1.
Qed.

Lemma bind_run {X Y} (m : M X) (f : X -> M Y) st x st1 :
  m st = (Ok x, st1) -> bind m f st = f x st1.
Proof. unfold bind. now intros ->. Qed.

Lemma bind_exc {X Y} (m : M X) (f : X -> M Y) st e st1 :
  m st = (Exc e, st1) -> bind m f st = (Exc e, st1).
Proof. unfold bind. now intros ->. Qed.

(** Run the monadic plumbing of a computation applied to a state. *)
Ltac mrun :=
  cbv beta iota zeta delta [bind gets modify ret raise lift fst snd].

(** ** Frame conditions

    [stable R m]: every run of [m], whether it returns or raises, takes the
    object from a state to an [R]-related one. *)

Definition stable (R : S3Represent -> S3Represent -> Prop) {X} (m : M X) : Prop :=
  forall st, R st (snd (m st)).

Section Stable.

Variable R : S3Represent -> S3Represent -> Prop.
Context {R_pre : PreOrder R}.

Lemma stable_ret {X} (x : X) : stable R (ret x).
Proof. intros st. simpl. reflexivity. Qed.

Lemma stable_raise {X} (e : exn) : stable R (@raise X e).
Proof. intros st. simpl. reflexivity. Qed.

Lemma stable_gets {X} (f : S3Represent -> X) : stable R (gets f).
Proof. intros st. simpl. reflexivity. Qed.

Lemma stable_lift {X} (r : res X) : stable R (lift r).
Proof. intros st. simpl. reflexivity. Qed.

Lemma stable_modify (f : S3Represent -> S3Represent) :
  (forall st, R st (f st)) -> stable R (modify f).
Proof. intros H st. simpl. apply H. Qed.

Lemma stable_bind {X Y} (m : M X) (f : X -> M Y) :
  stable R m -> (forall x, stable R (f x)) -> stable R (bind m f).
Proof.
  intros Hm Hf st. unfold bind.
  specialize (Hm st). destruct (m st) as [[x | e] st1]; simpl in *.
  - etransitivity; [exact Hm | apply Hf].
  - exact Hm.
Qed.

Lemma stable_catch {X} (m : M X) (e : exn) (h : M X) :
  stable R m -> stable R h -> stable R (catch m e h).
Proof.
  intros Hm Hh st. unfold catch.
  specialize (Hm st). destruct (m st) as [[x | e'] st1]; simpl in *.
  - exact Hm.
  - destruct e, e'; simpl; try exact Hm; (etransitivity; [exact Hm | apply Hh]).
Qed.

Lemma stable_hash (k : pyval) : stable R (hash k).
Proof. unfold hash. destruct (hashable k); [apply stable_ret | apply stable_raise]. Qed.

Lemma stable_label_of (l : option string) : stable R (label_of l).
Proof. destruct l; [apply stable_ret | apply stable_raise]. Qed.

Lemma stable_row_item (r : Row) (f : string) : stable R (row_item r f).
Proof.
  unfold row_item. destruct (row_get r f); [apply stable_ret | apply stable_raise].
Qed.

Lemma stable_for_each {X} (l : list X) (body : X -> M unit) :
  (forall x, stable R (body x)) -> stable R (for_each l body).
Proof.
  intros Hb. induction l as [| x l IH]; simpl.
  - apply stable_ret.
  - apply stable_bind; [apply Hb | intros _; exact IH].
Qed.

Lemma stable_for_fold {X L} (l : list X) (body : L -> X -> M L) (acc : L) :
  (forall a x, stable R (body a x)) -> stable R (for_fold l body acc).
Proof.
  intros Hb. revert acc. induction l as [| x l IH]; intros acc; simpl.
  - apply stable_ret.
  - apply stable_bind; [apply Hb | intros a; apply IH].
Qed.

Lemma stable_for_map {X Y} (l : list X) (f : X -> M Y) :
  (forall x, stable R (f x)) -> stable R (for_map l f).
Proof.
  intros Hf. induction l as [| x l IH]; simpl.
  - apply stable_ret.
  - apply stable_bind; [apply Hf | intros y].
    apply stable_bind; [exact IH | intros ys; apply stable_ret].
Qed.

End Stable.

(** Sequencing two computations whose frame conditions differ. *)
Lemma stable_bind_compose (R1 R2 R3 : S3Represent -> S3Represent -> Prop)
    {X Y} (m : M X) (f : X -> M Y) :
  (forall a b c, R1 a b -> R2 b c -> R3 a c) ->
  (forall a b, R1 a b -> R3 a b) ->
  stable R1 m -> (forall x, stable R2 (f x)) -> stable R3 (bind m f).
Proof.
  intros Hcomp Hincl Hm Hf st. unfold bind.
  specialize (Hm st). destruct (m st) as [[x | e] st1]; simpl in *.
  - eapply Hcomp; [exact Hm | apply Hf].
  - now apply Hincl.
Qed.

Lemma stable_weaken (R1 R2 : S3Represent -> S3Represent -> Prop) {X} (m : M X) :
  (forall a b, R1 a b -> R2 a b) -> stable R1 m -> stable R2 m.
Proof. intros H Hm st. apply H, Hm. Qed.

(** Decompose a goal [stable R m] along the structure of [m]. *)
Ltac frame_step :=
  lazymatch goal with
  | |- PreOrder _ => exact _
  | |- stable _ (match ?x with _ => _ end) => destruct x
  | |- stable _ (let _ := _ in _) => cbv zeta
  | |- stable _ (ret _) => apply stable_ret
  | |- stable _ (raise _) => apply stable_raise
  | |- stable _ (gets _) => apply stable_gets
  | |- stable _ (lift _) => apply stable_lift
  | |- stable _ (hash _) => apply stable_hash
  | |- stable _ (label_of _) => apply stable_label_of
  | |- stable _ (row_item _ _) => apply stable_row_item
  | |- stable _ (catch _ _ _) => apply stable_catch
  | |- stable _ (for_each _ _) => apply stable_for_each
  | |- stable _ (for_fold _ _ _) => apply stable_for_fold
  | |- stable _ (for_map _ _) => apply stable_for_map
  | |- stable _ (modify _) => apply stable_modify
  | |- stable _ _ => apply stable_bind
  | |- forall _, _ => intros ?
  end.

Ltac frame := repeat frame_step.

(** [preserves f]: the observation [f] of the object is left as it was. *)
Definition preserves {X} (f : S3Represent -> X) (a b : S3Represent) : Prop :=
  f b = f a.

#[export] Instance preserves_pre {X} (f : S3Represent -> X) : PreOrder (preserves f).
Proof.
  split.
  - intros a. reflexivity.
  - intros a b c Hab Hbc. unfold preserves in *. congruence.
Qed.

(** Observations that do not look at the caches [theset] and [rows]. *)
Record cache_blind {X} (f : S3Represent -> X) : Prop := {
  blind_theset : forall x st, f (set_theset x st) = f st;
  blind_rows : forall x st, f (set_rows x st) = f st
}.

(** Observations that in addition do not look at the fetch counters. *)
Record fetch_blind {X} (f : S3Represent -> X) : Prop := {
  blind_cache : cache_blind f;
  blind_queries : forall x st, f (set_queries x st) = f st;
  blind_fetch_log : forall x st, f (set_fetch_log x st) = f st
}.

Section CacheFrames.

Variable E : Env.
Variable X : Type.
Variable f : S3Represent -> X.
Hypothesis Hf : cache_blind f.

Ltac blind :=
  first [ apply (blind_theset Hf) | apply (blind_rows Hf) ].

Lemma stable_the_set : stable (preserves f) the_set.
Proof. unfold the_set. frame. Qed.

Lemma stable_theset_put k l : stable (preserves f) (theset_put k l).
Proof. unfold theset_put. frame. blind. Qed.

Lemma stable_represent_row row prefix :
  stable (preserves f) (represent_row E row prefix).
Proof. unfold represent_row. frame. Qed.

Lemma stable_represent_path fuel tn value row rws :
  stable (preserves f) (_represent_path E fuel tn value row rws).
Proof.
  revert value row. induction fuel as [| fuel IH]; intros value row;
    cbn [_represent_path]; frame; try apply IH; blind.
Qed.

Lemma stable_scan_value lv v : stable (preserves f) (scan_value lv v).
Proof. unfold scan_value. frame. Qed.

Lemma stable_lookup_parent tn fuel node lk :
  stable (preserves f) (lookup_parent E tn fuel node lk).
Proof.
  revert node lk. induction fuel as [| fuel IH]; intros node lk;
    cbn [lookup_parent]; frame; apply IH.
Qed.

Lemma stable_enqueue_ancestors tn lk :
  stable (preserves f) (enqueue_ancestors E tn lk).
Proof. unfold enqueue_ancestors. frame. apply stable_lookup_parent. Qed.

Lemma stable_given_row name lv row :
  stable (preserves f) (given_row E name lv row).
Proof. unfold given_row. frame; blind. Qed.

Lemma stable_rows_by_key name fetched :
  stable (preserves f) (rows_by_key name fetched).
Proof. unfold rows_by_key. frame. Qed.

Lemma stable_fetched_path tn byk lv kr :
  stable (preserves f) (fetched_path E tn byk lv kr).
Proof. unfold fetched_path. frame. apply stable_represent_path. Qed.

Lemma stable_fetched_flat lv kr :
  stable (preserves f) (fetched_flat E lv kr).
Proof. unfold fetched_flat. frame. blind. Qed.

Lemma stable_default_phase lv : stable (preserves f) (default_phase lv).
Proof. unfold default_phase. frame. Qed.

Lemma stable_link k v row : stable (preserves f) (link E k v row).
Proof. unfold link. frame. Qed.

End CacheFrames.

(** ** C1: one fetch per lookup *)

(** What is observed of the fetches: the log of the calls of [lookup_rows]
    and the counter [queries]. *)
Definition fetch_obs (st : S3Represent) : list (list pyval) * nat :=
  (fetch_log st, queries st).

Lemma fetch_obs_blind : cache_blind fetch_obs.
Proof. split; reflexivity. Qed.

(** At most one more call of [lookup_rows] and at most one more query. *)
Definition one_fetch (a b : S3Represent) : Prop :=
  (fetch_log b = fetch_log a \/ exists ks, fetch_log b = fetch_log a ++ [ks]) /\
  (queries b = queries a \/ queries b = queries a + 1).

Lemma same_one_fetch a b c :
  preserves fetch_obs a b -> one_fetch b c -> one_fetch a c.
Proof.
  unfold preserves, fetch_obs, one_fetch. intros [= Hl Hq] H.
  now rewrite Hl, Hq in H.
Qed.

Lemma one_same_fetch a b c :
  one_fetch a b -> preserves fetch_obs b c -> one_fetch a c.
Proof.
  unfold preserves, fetch_obs, one_fetch. intros H [= Hl Hq].
  now rewrite Hl, Hq.
Qed.

Lemma same_is_one_fetch a b : preserves fetch_obs a b -> one_fetch a b.
Proof.
  unfold preserves, fetch_obs, one_fetch. intros [= Hl Hq]. auto.
Qed.

Lemma one_fetch_refl a : one_fetch a a.
Proof. apply same_is_one_fetch. reflexivity. Qed.

Section OneFetch.

Variable E : Env.

Lemma call_lookup_rows_one_fetch t name ks fs :
  stable one_fetch (call_lookup_rows t name ks fs).
Proof.
  intros st. unfold call_lookup_rows, bind, modify, gets, lift; simpl.
  destruct (lookup_rows st) as [g |]; simpl.
  - destruct (g name ks fs); simpl; (split; [right; now exists ks | now left]).
  - split; [right; now exists ks | now right].
Qed.

(** A computation that fetches, followed by one that does not. *)
Lemma one_fetch_then {X Y} (m : M X) (f : X -> M Y) :
  stable one_fetch m -> (forall x, stable (preserves fetch_obs) (f x)) ->
  stable one_fetch (bind m f).
Proof.
  apply (@stable_bind_compose one_fetch (preserves fetch_obs) one_fetch).
  - apply one_same_fetch.
  - auto.
Qed.

(** A computation that does not fetch, followed by one that does. *)
Lemma then_one_fetch {X Y} (m : M X) (f : X -> M Y) :
  stable (preserves fetch_obs) m -> (forall x, stable one_fetch (f x)) ->
  stable one_fetch (bind m f).
Proof.
  apply (@stable_bind_compose (preserves fetch_obs) one_fetch one_fetch).
  - apply same_one_fetch.
  - apply same_is_one_fetch.
Qed.

Lemma no_fetch_one_fetch {X} (m : M X) :
  stable (preserves fetch_obs) m -> stable one_fetch m.
Proof. apply stable_weaken. apply same_is_one_fetch. Qed.

Ltac no_fetch_by L :=
  solve [ apply L; try exact _; apply fetch_obs_blind ].

Ltac no_fetch_lemma :=
  lazymatch goal with
  | |- stable _ _ =>
      first
        [ no_fetch_by stable_rows_by_key
        | no_fetch_by stable_default_phase
        | no_fetch_by stable_enqueue_ancestors
        | no_fetch_by stable_fetched_path
        | no_fetch_by stable_fetched_flat
        | no_fetch_by stable_given_row
        | no_fetch_by stable_scan_value
        | no_fetch_by stable_represent_path
        | no_fetch_by stable_lookup_parent ]
  end.

Ltac no_fetch :=
  repeat first [ no_fetch_lemma | frame_step ];
  try reflexivity.

Lemma fetch_phase_one_fetch t name h lv :
  stable one_fetch (fetch_phase E t name h lv).
Proof.
  unfold fetch_phase.
  apply then_one_fetch; [no_fetch | intros cu].
  apply then_one_fetch; [no_fetch | intros fs].
  apply one_fetch_then; [apply call_lookup_rows_one_fetch | intros fetched].
  no_fetch.
Qed.

Lemma resolve_one_fetch t name h rws lv :
  stable one_fetch (resolve E t name h rws lv).
Proof.
  unfold resolve.
  apply then_one_fetch; [no_fetch | intros cu].
  apply then_one_fetch; [no_fetch | intros lv1].
  apply one_fetch_then; [| intros lv2; no_fetch].
  destruct (lookup lv1); [apply no_fetch_one_fetch; no_fetch |].
  apply fetch_phase_one_fetch.
Qed.

Lemma lookup_one_fetch values rws : stable one_fetch (_lookup E values rws).
Proof.
  unfold _lookup, with_ancestors.
  apply then_one_fetch; [no_fetch | intros lv].
  apply then_one_fetch; [no_fetch | intros tb].
  destruct tb as [t |]; [| apply no_fetch_one_fetch; no_fetch].
  destruct (lookup lv) as [| kv lk] eqn:Hlk; [apply no_fetch_one_fetch; no_fetch |].
  apply then_one_fetch; [no_fetch | intros lvh].
  apply then_one_fetch; [no_fetch | intros pkey].
  destruct pkey as [name |]; [| apply no_fetch_one_fetch; no_fetch].
  destruct (negb (has_field t name));
    [destruct (has_object t name); apply no_fetch_one_fetch; no_fetch |].
  apply resolve_one_fetch.
Qed.

End OneFetch.

(** C1.  A call of [_lookup], whatever the values, the rows handed in and
    the state of the representer, and whether it returns or raises, invokes
    [lookup_rows] at most once: the log of the fetches gains at most one
    entry, and the counter [queries] goes up by at most one. *)
Theorem lookup_at_most_one_fetch (E : Env) (values : list pyval)
    (rws : option (list Row)) (st : S3Represent) :
  let st' := snd (_lookup E values rws st) in
  List.length (fetch_log st') <= List.length (fetch_log st) + 1 /\
  (fetch_log st' = fetch_log st \/ exists ks, fetch_log st' = fetch_log st ++ [ks]) /\
  queries st <= queries st' <= queries st + 1.
Proof.
  intros st'. destruct (lookup_one_fetch E values rws st) as [Hlog Hq].
  fold st' in Hlog, Hq. repeat split.
  - destruct Hlog as [-> | [ks ->]]; [lia |].
    rewrite List.length_app. simpl. lia.
  - exact Hlog.
  - lia.
  - lia.
Qed.

(** ** The lazy initialisation *)

(** What [_setup] establishes: the labels and [theset] are there, and a
    lookup table comes with its key and fields. *)
Definition ready (st : S3Represent) : bool :=
  setup st && is_Some (none st) && is_Some (default st) && is_Some (theset st) &&
  match table st with
  | Some _ => is_Some (key st) && is_Some (fields st)
  | None => true
  end.

(** A representer is either as [__init__] leaves it, without a table, or
    set up. *)
Definition wf (st : S3Represent) : bool :=
  if setup st then ready st else negb (is_Some (table st)).

(** The labels that [_setup] settles on. *)
Definition none_label (E : Env) (st : S3Represent) : string :=
  match none st with Some n => n | None => NONE E end.

Definition default_label (E : Env) (st : S3Represent) : string :=
  match default st with Some d => d | None => UNKNOWN_OPT E end.

Section Setup.

Variable E : Env.

Lemma setup_done st : setup st = true -> _setup E st = (Ok tt, st).
Proof. intros H. unfold _setup, bind, gets. simpl. now rewrite H. Qed.

Lemma setup_defaults_spec st :
  let st1 := setup_defaults E st in
  none st1 = Some (none_label E st) /\
  default st1 = Some (default_label E st) /\
  is_Some (theset st1) = true /\
  table st1 = table st /\ key st1 = key st /\ fields st1 = fields st /\
  setup st1 = setup st.
Proof.
  unfold setup_defaults, none_label, default_label. cbn.
  destruct (default st) eqn:Hd; cbn;
    destruct (none st) eqn:Hn; cbn;
    destruct (options st) eqn:Ho; cbn;
    repeat split; assumption || reflexivity.
Qed.

Lemma setup_lookup_table_spec t st :
  let st1 := setup_lookup_table t st in
  table st1 = Some t /\ is_Some (key st1) = true /\ is_Some (fields st1) = true /\
  none st1 = none st /\ default st1 = default st /\ theset st1 = theset st /\
  setup st1 = setup st.
Proof.
  unfold setup_lookup_table. cbn.
  destruct (key st) eqn:Hk; cbn;
    destruct (fields st) as [[| f fs] |] eqn:Hf; cbn;
    try destruct (has_field t "name"); cbn; rewrite ?Hk, ?Hf; cbn;
    repeat split; assumption || reflexivity.
Qed.

(** [setup_table] leaves the labels and [theset] alone and binds a table
    only together with its key and fields. *)
Lemma setup_table_spec st :
  table st = None ->
  let st1 := snd (setup_table E st) in
  none st1 = none st /\ default st1 = default st /\ theset st1 = theset st /\
  setup st1 = setup st /\
  match table st1 with
  | Some _ => is_Some (key st1) && is_Some (fields st1) = true
  | None => True
  end.
Proof.
  intros Ht. unfold setup_table. mrun. rewrite Ht.
  destruct (tablename st) as [name |]; mrun; [| now rewrite Ht].
  destruct (String.eqb name ""); mrun; [now rewrite Ht |].
  destruct (s3db_table E name) as [t |]; mrun.
  - generalize (setup_lookup_table_spec t st).
    generalize (setup_lookup_table t st) as st1.
    cbv zeta. intros st1 (H1 & H2 & H3 & H4 & H5 & H6 & H7).
    destruct (negb (is_Some (linkto st1)) && show_link st1); mrun.
    + destruct (split_underscore name) as [[c f] |]; mrun; cbn;
        rewrite ?H1, ?H2, ?H3; auto.
    + rewrite H1, H2, H3. auto.
  - destruct (negb (is_Some (linkto st)) && show_link st); mrun.
    + destruct (split_underscore name) as [[c f] |]; mrun; cbn; rewrite Ht; auto.
    + rewrite Ht. auto.
Qed.

Lemma setup_ok st :
  wf st = true -> fst (_setup E st) = Ok tt ->
  let st1 := snd (_setup E st) in
  ready st1 = true /\
  none st1 = Some (none_label E st) /\
  default st1 = Some (default_label E st).
Proof.
  unfold wf. intros Hwf Hok.
  destruct (setup st) eqn:Hs.
  - rewrite setup_done by exact Hs. cbn.
    unfold ready in *. rewrite Hs in *. cbn in *.
    unfold none_label, default_label.
    destruct (none st), (default st); try discriminate; cbn in *; auto.
  - revert Hok. unfold _setup. mrun. rewrite Hs.
    generalize (setup_defaults_spec st).
    generalize (setup_defaults E st) as st0.
    cbv zeta. intros st0 (D1 & D2 & D3 & D4 & D5 & D6 & D7).
    assert (Ht : table st0 = None).
    { rewrite D4. destruct (table st); [discriminate | reflexivity]. }
    pose proof (setup_table_spec st0 Ht) as T.
    destruct (setup_table E st0) as [[[] | e] st2]; cbn in *;
      [| discriminate].
    intros _. destruct T as (T1 & T2 & T3 & T4 & T5).
    unfold ready. cbn. rewrite T1, T2, T3, D1, D2, D3. cbn.
    repeat split; auto.
    destruct (table st2); auto.
Qed.

End Setup.

(** ** Frame conditions of the entry points *)

(** Observations that do not look at what [_setup] assigns. *)
Record setup_blind {X} (f : S3Represent -> X) : Prop := {
  sb_table : forall x st, f (set_table x st) = f st;
  sb_key : forall x st, f (set_key x st) = f st;
  sb_fields : forall x st, f (set_fields x st) = f st;
  sb_linkto : forall x st, f (set_linkto x st) = f st;
  sb_default : forall x st, f (set_default x st) = f st;
  sb_none : forall x st, f (set_none x st) = f st;
  sb_setup : forall x st, f (set_setup x st) = f st;
  sb_theset : forall x st, f (set_theset x st) = f st;
  sb_queries : forall x st, f (set_queries x st) = f st;
  sb_slabels : forall x st, f (set_slabels x st) = f st;
  sb_clabels : forall x st, f (set_clabels x st) = f st;
  sb_htemplate : forall x st, f (set_htemplate x st) = f st
}.

(** Observations that look at nothing the methods of [S3Represent] assign,
    such as the queue [lazy] and the log of the calls of [bulk]. *)
Record api_blind {X} (f : S3Represent -> X) : Prop := {
  ab_setup : setup_blind f;
  ab_rows : forall x st, f (set_rows x st) = f st;
  ab_fetch_log : forall x st, f (set_fetch_log x st) = f st
}.

Lemma api_blind_cache {X} (f : S3Represent -> X) : api_blind f -> cache_blind f.
Proof.
  intros H. split; [apply (sb_theset (ab_setup H)) | apply (ab_rows H)].
Qed.

Section SetupFrames.

Variable E : Env.
Variable X : Type.
Variable f : S3Represent -> X.
Hypothesis Hf : setup_blind f.

Lemma blind_setup_defaults st : f (setup_defaults E st) = f st.
Proof.
  unfold setup_defaults. cbv zeta.
  repeat match goal with
         | |- context [match ?x with _ => _ end] => destruct x
         end;
    rewrite ?(sb_theset Hf), ?(sb_none Hf), ?(sb_default Hf), ?(sb_queries Hf);
    reflexivity.
Qed.

Lemma blind_setup_lookup_table t st : f (setup_lookup_table t st) = f st.
Proof.
  unfold setup_lookup_table. cbv zeta.
  repeat match goal with
         | |- context [match ?x with _ => _ end] => destruct x
         | |- context [if ?x then _ else _] => destruct x
         end;
    rewrite ?(sb_table Hf), ?(sb_fields Hf), ?(sb_key Hf);
    reflexivity.
Qed.

Lemma blind_setup_renderer st : f (setup_renderer st) = f st.
Proof.
  unfold setup_renderer. cbv zeta.
  now rewrite (sb_htemplate Hf), (sb_clabels Hf), (sb_slabels Hf).
Qed.

Lemma stable_setup_table : stable (preserves f) (setup_table E).
Proof.
  unfold setup_table. frame;
    first [ apply blind_setup_lookup_table | apply (sb_linkto Hf) ].
Qed.

Lemma stable_setup : stable (preserves f) (_setup E).
Proof.
  unfold _setup. frame;
    first [ apply blind_setup_defaults | apply blind_setup_renderer
          | apply (sb_setup Hf) | apply blind_setup_lookup_table
          | apply (sb_linkto Hf) ].
Qed.

End SetupFrames.

Section ApiFrames2.

Variable E : Env.
Variable X : Type.
Variable f : S3Represent -> X.
Hypothesis Hf : api_blind f.

Let Hc : cache_blind f := api_blind_cache Hf.

Ltac api_lemma :=
  lazymatch goal with
  | |- stable _ _ =>
      first
        [ solve [ apply stable_setup; exact (ab_setup Hf) ]
        | solve [ apply stable_rows_by_key ]
        | solve [ apply stable_default_phase ]
        | solve [ apply stable_enqueue_ancestors; exact Hc ]
        | solve [ apply stable_fetched_path; exact Hc ]
        | solve [ apply stable_fetched_flat; exact Hc ]
        | solve [ apply stable_given_row; exact Hc ]
        | solve [ apply stable_scan_value; exact Hc ]
        | solve [ apply stable_link ] ]
  end.

Ltac api_frame :=
  repeat first [ api_lemma | frame_step ];
  try first [ apply (ab_rows Hf) | apply (sb_queries (ab_setup Hf))
            | apply (ab_fetch_log Hf) | apply (sb_theset (ab_setup Hf)) ].

Lemma stable_call_lookup_rows t name ks fs :
  stable (preserves f) (call_lookup_rows t name ks fs).
Proof. unfold call_lookup_rows, _lookup_rows. api_frame. Qed.

Lemma stable_fetch_phase t name h lv :
  stable (preserves f) (fetch_phase E t name h lv).
Proof.
  unfold fetch_phase. api_frame; try apply stable_call_lookup_rows.
Qed.

Lemma stable_lookup values rws : stable (preserves f) (_lookup E values rws).
Proof.
  unfold _lookup, with_ancestors, resolve. api_frame; try apply stable_fetch_phase.
Qed.

Lemma stable_flatten values : stable (preserves f) (flatten E values).
Proof. unfold flatten, iterate. api_frame. Qed.

Ltac entry_frame :=
  repeat first
    [ lazymatch goal with
      | |- stable _ (_lookup _ _ _) => apply stable_lookup
      | |- stable _ (flatten _ _) => apply stable_flatten
      end
    | api_lemma | frame_step ].

Lemma stable_multiple values rws lt sl :
  stable (preserves f) (multiple E values rws lt sl).
Proof. unfold multiple. entry_frame. Qed.

Lemma stable_call value row sl : stable (preserves f) (__call__ E value row sl).
Proof.
  unfold __call__.
  repeat first
    [ lazymatch goal with
      | |- stable _ (multiple _ _ _ _ _) => apply stable_multiple
      end
    | entry_frame ].
Qed.

Lemma stable_render_list value labels sl :
  stable (preserves f) (render_list E value labels sl).
Proof. unfold render_list, iterate. api_frame. Qed.

Lemma stable_bulk_body values rws lt sl :
  stable (preserves f) (bulk_body E values rws lt sl).
Proof. unfold bulk_body. entry_frame. apply (ab_rows Hf). Qed.

End ApiFrames2.

(** ** C10: falsy values at the single-value entry point *)

Lemma api_blind_list_type : api_blind list_type.
Proof. split; [split |..]; reflexivity. Qed.

Lemma setup_blind_fetch_log : setup_blind fetch_log.
Proof. split; reflexivity. Qed.

(** C10, as amended.  On a representer that is not list-type, [__call__]
    with a falsy value ([None], [0], the empty string, the empty list) and no
    row returns the none-label, and leaves the object as [_setup] alone
    leaves it: [theset] is not consulted and nothing is fetched.  (A row
    whose key is [0] is thereby out of reach of the value [0] itself; the
    string ["0"] is truthy and reaches it.) *)
Theorem call_falsy_gives_none (E : Env) (st : S3Represent) (value : pyval)
    (show_link : bool) :
  wf st = true -> list_type st = false -> truthy value = false ->
  fst (_setup E st) = Ok tt ->
  __call__ E value None show_link st
    = (Ok (Text (none_label E st)), snd (_setup E st)) /\
  fetch_log (snd (__call__ E value None show_link st)) = fetch_log st.
Proof.
  intros Hwf Hlt Hv Hok.
  pose proof (setup_ok E st Hwf Hok) as (_ & Hnone & _).
  pose proof (stable_setup E (ab_setup api_blind_list_type) st) as Hl.
  pose proof (stable_setup E setup_blind_fetch_log st) as Hlog.
  unfold preserves in Hl, Hlog.
  assert (Hrun : __call__ E value None show_link st
                 = (Ok (Text (none_label E st)), snd (_setup E st))).
  { unfold __call__. unfold bind at 1.
    destruct (_setup E st) as [[[] | e] st0]; [| discriminate].
    cbn [fst snd] in *. mrun. rewrite Hl, Hlt, Hv, Hnone. reflexivity. }
  split; [exact Hrun |].
  rewrite Hrun. exact Hlog.
Qed.

(** The hypotheses of C10 hold of the representer of the organisations and
    the value [0]. *)
Lemma call_falsy_gives_none_witness :
  __call__ demo_env (PInt 0) None true org_represent
    = (Ok (Text (none_label demo_env org_represent)),
       snd (_setup demo_env org_represent)) /\
  fetch_log (snd (__call__ demo_env (PInt 0) None true org_represent))
    = fetch_log org_represent.
Proof.
  apply (@call_falsy_gives_none demo_env org_represent (PInt 0) true);
    reflexivity.
Defined.

(** C10, counterexample.  The table of the organisations holds a row with
    the key [0]; the string ["0"] is truthy and [_lookup] turns it into the
    key [0], so [__call__] represents that row. *)
Lemma call_string_zero :
  In (org_row 0 "Zero") (t_rows org_table) /\
  row_get (org_row 0 "Zero") "id" = Some (PInt 0) /\
  fst (__call__ demo_env (PStr "0") None true org_represent) = Ok (Text "Zero").
Proof.
  split; [right; right; left; reflexivity |].
  split; reflexivity.
Qed.

(** ** Loops whose body leaves the object alone *)

(** The fold of a body that may raise, without the object. *)
Fixpoint fold_res {X L} (g : L -> X -> res L) (l : list X) (acc : L) : res L :=
  match l with
  | [] => Ok acc
  | x :: l' =>
      match g acc x with
      | Ok a => fold_res g l' a
      | Exc e => Exc e
      end
  end.

Lemma for_fold_readonly {X L} (body : L -> X -> M L) (l : list X) (acc : L) st :
  (forall a x, snd (body a x st) = st) ->
  for_fold l body acc st = (fold_res (fun a x => fst (body a x st)) l acc, st).
Proof.
  intros Hb. revert acc. induction l as [| x l IH]; intros acc; simpl.
  - reflexivity.
  - unfold bind. specialize (Hb acc x).
    destruct (body acc x st) as [[a | e] st1] eqn:Hx; simpl in *; subst st1.
    + apply IH.
    + reflexivity.
Qed.

(** Invariants of a pure fold, along the elements already seen. *)
Lemma fold_res_inv {X L} (g : L -> X -> res L) (I : list X -> L -> Prop) :
  (forall seen a x a', I seen a -> g a x = Ok a' -> I (seen ++ [x]) a') ->
  forall l seen acc r,
    I seen acc -> fold_res g l acc = Ok r -> I (seen ++ l) r.
Proof.
  intros Hstep. induction l as [| x l IH]; intros seen acc r Hacc; simpl.
  - intros [= <-]. now rewrite app_nil_r.
  - destruct (g acc x) as [a | e] eqn:Hg; [| discriminate].
    intros Hr. replace (seen ++ x :: l) with ((seen ++ [x]) ++ l)
      by now rewrite <- app_assoc.
    eapply IH; [| exact Hr]. eapply Hstep; eassumption.
Qed.

(** ** The first loop of [_lookup] *)

Section Scan.

Variable st : S3Represent.

(** What [scan_value] does to the local variables; the object is only
    read. *)
Definition scan_step (lv : locals) (_v : pyval) : res locals :=
  let v := normalize (table st) _v in
  if hashable v then
    let lv1 := {| keys := dset (keys lv) v _v;
                  items := items lv;
                  lookup := lookup lv |} in
    if is_None v then
      match none st with
      | Some l => Ok (set_items (dset (items lv) _v l) lv1)
      | None => Exc Unsupported
      end
    else
      match theset st with
      | Some d =>
          match dget d v with
          | Some l => Ok (set_items (dset (items lv) _v l) lv1)
          | None => Ok (set_lookup (dset (lookup lv) v true) lv1)
          end
      | None => Exc TypeError
      end
  else Exc TypeError.

Lemma scan_value_run lv _v : scan_value lv _v st = (scan_step lv _v, st).
Proof.
  unfold scan_value, scan_step, hash, the_set, label_of. mrun.
  destruct (hashable (normalize (table st) _v)); mrun; [| reflexivity].
  destruct (is_None (normalize (table st) _v)); mrun.
  - destruct (none st); reflexivity.
  - destruct (theset st) as [d |]; mrun; [| reflexivity].
    destruct (dget d (normalize (table st) _v)); reflexivity.
Qed.

Lemma scan_run values lv :
  for_fold values scan_value lv st = (fold_res scan_step values lv, st).
Proof.
  rewrite for_fold_readonly.
  - f_equal. clear. revert lv.
    induction values as [| x l IH]; intros lv; simpl; [reflexivity |].
    rewrite scan_value_run. simpl. destruct (scan_step lv x); auto.
  - intros a x. now rewrite scan_value_run.
Qed.

End Scan.

(** ** Queueing the ancestors *)

Section Ancestors.

Variable E : Env.
Variable st : S3Represent.
Variable d : dict string.
Hypothesis Hd : theset st = Some d.
Variable tn : string.

Lemma lookup_parent_unfold fuel node lk :
  lookup_parent E tn (S fuel) node lk st =
  let parent := hierarchy_parent E tn node in
  if truthy parent then
    if hashable parent then
      if negb (dmem d parent) && negb (dmem lk parent)
      then lookup_parent E tn fuel parent (dset lk parent false) st
      else (Ok lk, st)
    else (Exc TypeError, st)
  else (Ok lk, st).
Proof.
  cbn [lookup_parent]. cbv zeta.
  destruct (truthy (hierarchy_parent E tn node)); [| reflexivity].
  unfold hash, the_set. mrun.
  destruct (hashable (hierarchy_parent E tn node)); mrun; [| reflexivity].
  rewrite Hd.
  destruct (negb (dmem d (hierarchy_parent E tn node)) &&
            negb (dmem lk (hierarchy_parent E tn node))); reflexivity.
Qed.

(** An entry that [lookup_parent] adds: an uncached ancestor, which is not
    one of the requested keys. *)
Definition is_ancestor (kv : pyval * bool) : Prop :=
  snd kv = false /\ truthy (fst kv) = true /\ hashable (fst kv) = true /\
  dget d (fst kv) = None /\ exists x, fst kv = hierarchy_parent E tn x.

(** [lk'] is [lk] followed by ancestors. *)
Definition ancestors_ext (lk lk' : dict bool) : Prop :=
  exists extra, lk' = lk ++ extra /\ Forall is_ancestor extra /\
                (NoDup (dkeys lk) -> NoDup (dkeys lk')).

Lemma ancestors_ext_refl lk : ancestors_ext lk lk.
Proof. exists []. rewrite app_nil_r. repeat split; auto. Qed.

Lemma ancestors_ext_trans a b c :
  ancestors_ext a b -> ancestors_ext b c -> ancestors_ext a c.
Proof.
  intros (e1 & -> & F1 & N1) (e2 & -> & F2 & N2).
  exists (e1 ++ e2). rewrite app_assoc. repeat split; auto.
  apply Forall_app; auto.
Qed.

Lemma lookup_parent_spec fuel node lk :
  snd (lookup_parent E tn fuel node lk st) = st /\
  (forall lk', fst (lookup_parent E tn fuel node lk st) = Ok lk' ->
               ancestors_ext lk lk') /\
  (forall e, fst (lookup_parent E tn fuel node lk st) = Exc e ->
             e = TypeError \/ e = RuntimeError).
Proof.
  revert node lk. induction fuel as [| fuel IH]; intros node lk.
  - cbn. repeat split; [discriminate | intros e [= <-]; auto].
  - rewrite lookup_parent_unfold. cbv zeta.
    destruct (truthy (hierarchy_parent E tn node)) eqn:Ht;
      [| cbn; repeat split;
         [intros lk' [= <-]; apply ancestors_ext_refl | discriminate]].
    destruct (hashable (hierarchy_parent E tn node)) eqn:Hh;
      [| cbn; repeat split; [discriminate | intros e [= <-]; auto]].
    destruct (negb (dmem d (hierarchy_parent E tn node)) &&
              negb (dmem lk (hierarchy_parent E tn node))) eqn:Hnew;
      [| cbn; repeat split;
         [intros lk' [= <-]; apply ancestors_ext_refl | discriminate]].
    apply andb_true_iff in Hnew as [Hnd Hnl].
    apply negb_true_iff in Hnd, Hnl. unfold dmem in Hnd, Hnl.
    destruct (dget d (hierarchy_parent E tn node)) eqn:Hgd; [discriminate |].
    destruct (dget lk (hierarchy_parent E tn node)) eqn:Hgl; [discriminate |].
    destruct (IH (hierarchy_parent E tn node)
                 (dset lk (hierarchy_parent E tn node) false)) as (I1 & I2 & I3).
    repeat split; [exact I1 | | exact I3].
    intros lk' Hok. eapply ancestors_ext_trans; [| apply I2, Hok].
    exists [(hierarchy_parent E tn node, false)].
    split; [now apply dset_fresh |].
    split.
    + constructor; [| constructor].
      unfold is_ancestor. cbn. repeat split; auto. now exists node.
    + intros Hnd'. now apply NoDup_dkeys_dset.
Qed.

Lemma enqueue_nodes_spec lk nodes acc :
  ancestors_ext lk acc ->
  (forall lk',
      fold_res (fun a x => fst (lookup_parent E tn (recursion_limit E) x a st))
               nodes acc = Ok lk' -> ancestors_ext lk lk') /\
  (forall e,
      fold_res (fun a x => fst (lookup_parent E tn (recursion_limit E) x a st))
               nodes acc = Exc e -> e = TypeError \/ e = RuntimeError).
Proof.
  revert acc. induction nodes as [| x nodes IH]; intros acc Hacc; cbn.
  - split; [intros lk' [= <-]; exact Hacc | discriminate].
  - destruct (lookup_parent_spec (recursion_limit E) x acc) as (_ & P2 & P3).
    destruct (fst (lookup_parent E tn (recursion_limit E) x acc st))
      as [a | e0] eqn:Hx.
    + apply IH. eapply ancestors_ext_trans; [exact Hacc | now apply P2].
    + split; [discriminate | intros e [= <-]; now apply P3].
Qed.

Lemma enqueue_ancestors_spec lk :
  snd (enqueue_ancestors E tn lk st) = st /\
  (forall lk', fst (enqueue_ancestors E tn lk st) = Ok lk' ->
               ancestors_ext lk lk') /\
  (forall e, fst (enqueue_ancestors E tn lk st) = Exc e ->
             e = TypeError \/ e = RuntimeError).
Proof.
  unfold enqueue_ancestors.
  rewrite for_fold_readonly by (intros a x; apply lookup_parent_spec).
  cbn [fst snd]. split; [reflexivity |].
  apply enqueue_nodes_spec, ancestors_ext_refl.
Qed.

(** The chain of the parents of a node ends within [fuel] calls. *)
Fixpoint chain_ok (fuel : nat) (node : pyval) : bool :=
  match fuel with
  | O => false
  | S fuel' =>
      let parent := hierarchy_parent E tn node in
      if truthy parent then hashable parent && chain_ok fuel' parent else true
  end.

Lemma lookup_parent_total fuel node lk :
  chain_ok fuel node = true ->
  exists lk', fst (lookup_parent E tn fuel node lk st) = Ok lk'.
Proof.
  revert node lk. induction fuel as [| fuel IH]; intros node lk; cbn [chain_ok];
    [discriminate |].
  cbv zeta. rewrite lookup_parent_unfold. cbv zeta.
  destruct (truthy (hierarchy_parent E tn node)); [| intros _; now exists lk].
  intros H. apply andb_true_iff in H as [Hh Hc]. rewrite Hh.
  destruct (negb (dmem d (hierarchy_parent E tn node)) &&
            negb (dmem lk (hierarchy_parent E tn node))); [| now exists lk].
  now apply IH.
Qed.

Lemma enqueue_nodes_total nodes acc :
  (forall k, In k nodes -> chain_ok (recursion_limit E) k = true) ->
  exists lk',
    fold_res (fun a x => fst (lookup_parent E tn (recursion_limit E) x a st))
             nodes acc = Ok lk'.
Proof.
  revert acc. induction nodes as [| x nodes IH]; intros acc Hall; cbn;
    [now exists acc |].
  destruct (lookup_parent_total (recursion_limit E) x acc) as (a & Ha);
    [apply Hall; now left |].
  rewrite Ha. apply IH. intros k Hk. apply Hall. now right.
Qed.

Lemma enqueue_ancestors_total lk :
  (forall k, In k (dkeys lk) -> chain_ok (recursion_limit E) k = true) ->
  exists lk', fst (enqueue_ancestors E tn lk st) = Ok lk'.
Proof.
  intros Hall. unfold enqueue_ancestors.
  rewrite for_fold_readonly by (intros a x; apply lookup_parent_spec).
  cbn [fst]. now apply enqueue_nodes_total.
Qed.

End Ancestors.

(** ** What the first loop leaves in the local variables *)

Definition no_locals : locals := {| keys := []; items := []; lookup := [] |}.

Section ScanInvariants.

Variable st : S3Represent.
Variable d : dict string.
Hypothesis Hd : theset st = Some d.

Let norm := normalize (table st).

(** One step, taken apart. *)
Lemma scan_step_ok lv _v lv' :
  scan_step st lv _v = Ok lv' ->
  hashable (norm _v) = true /\
  keys lv' = dset (keys lv) (norm _v) _v /\
  ((norm _v = PNone /\ lookup lv' = lookup lv /\
    exists l, none st = Some l /\ items lv' = dset (items lv) _v l) \/
   (norm _v <> PNone /\ lookup lv' = lookup lv /\
    exists l, dget d (norm _v) = Some l /\ items lv' = dset (items lv) _v l) \/
   (norm _v <> PNone /\ dget d (norm _v) = None /\ items lv' = items lv /\
    lookup lv' = dset (lookup lv) (norm _v) true)).
Proof.
  unfold scan_step. fold norm. cbv zeta. rewrite Hd.
  destruct (hashable (norm _v)); [| discriminate].
  destruct (is_None (norm _v)) eqn:Hn.
  - destruct (none st) as [l |]; [| discriminate].
    intros [= <-]. cbn. repeat split. left.
    destruct (norm _v); try discriminate. repeat split. now exists l.
  - assert (Hne : norm _v <> PNone) by (intros H; rewrite H in Hn; discriminate).
    destruct (dget d (norm _v)) as [l |] eqn:Hg; intros [= <-]; cbn;
      (split; [reflexivity |]); (split; [reflexivity |]).
    + right. left. repeat split; auto. now exists l.
    + right. right. repeat split; auto.
Qed.

(** The labels gathered by the loop are the none-label or come from
    [theset]. *)
Lemma scan_items values lv :
  fold_res (scan_step st) values no_locals = Ok lv ->
  forall v l, dget (items lv) v = Some l ->
    In v values /\
    ((norm v = PNone /\ none st = Some l) \/ dget d (norm v) = Some l).
Proof.
  intros Hrun.
  refine (fold_res_inv (scan_step st)
           (fun seen lv => forall v l, dget (items lv) v = Some l ->
              In v seen /\
              ((norm v = PNone /\ none st = Some l) \/ dget d (norm v) = Some l))
           _ values [] no_locals _ Hrun); [| cbn; discriminate].
  clear Hrun. intros seen a x a' IH Hstep v l Hget.
  apply scan_step_ok in Hstep as (_ & _ & Hcases).
  destruct Hcases as [(Hn & _ & l0 & Hnone & Hit) | [(Hn & _ & l0 & Hc & Hit) | (_ & _ & Hit & _)]].
  - rewrite Hit, dget_dset in Hget.
    destruct (pyval_eqb x v) eqn:Hxv.
    + apply pyval_eqb_true in Hxv. subst v. injection Hget as <-.
      split; [apply in_or_app; right; now left | left; auto].
    + destruct (IH v l Hget) as [Hin Hl]. split; [apply in_or_app; now left | exact Hl].
  - rewrite Hit, dget_dset in Hget.
    destruct (pyval_eqb x v) eqn:Hxv.
    + apply pyval_eqb_true in Hxv. subst v. injection Hget as <-.
      split; [apply in_or_app; right; now left | right; auto].
    + destruct (IH v l Hget) as [Hin Hl]. split; [apply in_or_app; now left | exact Hl].
  - rewrite Hit in Hget.
    destruct (IH v l Hget) as [Hin Hl]. split; [apply in_or_app; now left | exact Hl].
Qed.

(** The pending keys are the uncached keys of the values, each once and
    each flagged as requested. *)
Lemma scan_lookup values lv :
  fold_res (scan_step st) values no_locals = Ok lv ->
  NoDup (dkeys (lookup lv)) /\
  (forall k b, dget (lookup lv) k = Some b ->
     b = true /\ k <> PNone /\ hashable k = true /\ dget d k = None /\
     exists v, In v values /\ norm v = k) /\
  (forall v, In v values -> norm v <> PNone -> dget d (norm v) = None ->
     dget (lookup lv) (norm v) = Some true).
Proof.
  intros Hrun.
  refine (fold_res_inv (scan_step st)
           (fun seen lv =>
              NoDup (dkeys (lookup lv)) /\
              (forall k b, dget (lookup lv) k = Some b ->
                 b = true /\ k <> PNone /\ hashable k = true /\ dget d k = None /\
                 exists v, In v seen /\ norm v = k) /\
              (forall v, In v seen -> norm v <> PNone -> dget d (norm v) = None ->
                 dget (lookup lv) (norm v) = Some true))
           _ values [] no_locals _ Hrun).
  - clear Hrun. intros seen a x a' (IN & IK & IV) Hstep.
    apply scan_step_ok in Hstep as (Hh & _ & Hcases).
    assert (Hmono : forall k, (exists v, In v seen /\ norm v = k) ->
                              exists v, In v (seen ++ [x]) /\ norm v = k).
    { intros k (v & Hv & Hk). exists v. split; [apply in_or_app; now left | exact Hk]. }
    destruct Hcases as [(Hn & Hlk & _) | [(Hn & Hlk & l0 & Hc & _) | (Hn & Hc & _ & Hlk)]].
    + rewrite Hlk. split; [exact IN |]. split.
      * intros k b Hg. destruct (IK k b Hg) as (? & ? & ? & ? & ?).
        repeat split; auto.
      * intros v Hin Hv Hcv. apply in_app_or in Hin as [Hin | [<- | []]];
          [now apply IV | contradiction].
    + rewrite Hlk. split; [exact IN |]. split.
      * intros k b Hg. destruct (IK k b Hg) as (? & ? & ? & ? & ?).
        repeat split; auto.
      * intros v Hin Hv Hcv. apply in_app_or in Hin as [Hin | [<- | []]];
          [now apply IV | congruence].
    + rewrite Hlk. split; [now apply NoDup_dkeys_dset |]. split.
      * intros k b. rewrite dget_dset.
        destruct (pyval_eqb (norm x) k) eqn:Hxk.
        -- apply pyval_eqb_true in Hxk. subst k. intros [= <-].
           repeat split; auto. exists x. split; [apply in_or_app; right; now left | reflexivity].
        -- intros Hg. destruct (IK k b Hg) as (? & ? & ? & ? & ?).
           repeat split; auto.
      * intros v Hin Hv Hcv. rewrite dget_dset.
        destruct (pyval_eqb (norm x) (norm v)) eqn:Hxv; [reflexivity |].
        apply in_app_or in Hin as [Hin | [<- | []]]; [now apply IV |].
        rewrite pyval_eqb_refl in Hxv. discriminate.
  - cbn. split; [constructor |]. split; [discriminate | intros v []].
Qed.

Lemma hashable_normalize tb v : hashable (normalize tb v) = hashable v.
Proof.
  destruct v as [| z | s | l]; cbn; try reflexivity.
  destruct (is_Some tb); [| reflexivity]. now destruct (py_int s).
Qed.

(** The loop raises for an unhashable value only, once the labels are
    there. *)
Lemma scan_raises values lv e :
  fold_res (scan_step st) values lv = Exc e -> e = TypeError \/ e = Unsupported.
Proof.
  revert lv. induction values as [| x l IH]; intros lv; cbn; [discriminate |].
  destruct (scan_step st lv x) as [a | e0] eqn:Hx; [apply IH |].
  intros [= <-]. revert Hx. unfold scan_step. cbv zeta.
  destruct (hashable _); [| intros [= <-]; auto].
  destruct (is_None _).
  - destruct (none st); [discriminate | intros [= <-]; auto].
  - rewrite Hd. destruct (dget d _); discriminate.
Qed.

Lemma scan_total values lv :
  Forall (fun v => hashable v = true) values -> none st <> None ->
  exists lv', fold_res (scan_step st) values lv = Ok lv'.
Proof.
  intros Hall Hnone. revert lv.
  induction Hall as [| x l Hx _ IH]; intros lv; cbn; [now exists lv |].
  unfold scan_step at 1. cbv zeta. rewrite hashable_normalize, Hx, Hd.
  destruct (is_None _).
  - destruct (none st); [apply IH | contradiction].
  - destruct (dget d _); apply IH.
Qed.

End ScanInvariants.

(** ** The head of [_lookup] *)

Section LookupHead.

Variable E : Env.

Lemma lookup_scan values rws st :
  _lookup E values rws st =
  match fold_res (scan_step st) values no_locals with
  | Exc e => (Exc e, st)
  | Ok lv =>
      match table st, lookup lv with
      | None, _ => (Ok (items lv), st)
      | _, [] => (Ok (items lv), st)
      | Some t, _ =>
          (lvh <- with_ancestors E t lv ;;
           pkey <- gets key ;;
           match pkey with
           | None => raise TypeError
           | Some name =>
               if negb (has_field t name) then
                 if has_object t name then raise Unsupported
                 else ret (items (fst lvh))
               else resolve E t name (snd lvh) rws (fst lvh)
           end) st
      end
  end.
Proof.
  unfold _lookup. unfold bind at 1. fold no_locals. rewrite scan_run.
  destruct (fold_res (scan_step st) values no_locals) as [lv | e]; [| reflexivity].
  unfold bind at 1. unfold gets at 1.
  destruct (table st) as [t |]; [| reflexivity].
  destruct (lookup lv); reflexivity.
Qed.

(** Whether the hierarchy of the table is in effect. *)
Definition hierarchical (st : S3Represent) (t : Table) : bool :=
  hierarchy_truthy (hierarchy st) && hierarchy_config E (_tablename t).

Lemma with_ancestors_flat st t lv :
  hierarchical st t = false -> with_ancestors E t lv st = (Ok (lv, None), st).
Proof.
  unfold with_ancestors, hierarchical. unfold bind at 1. unfold gets at 1.
  now intros ->.
Qed.

Lemma with_ancestors_hier st t lv :
  hierarchical st t = true ->
  with_ancestors E t lv st =
  match enqueue_ancestors E (_tablename t) (lookup lv) st with
  | (Ok lk, st') => (Ok (set_lookup lk lv, Some (_tablename t)), st')
  | (Exc e, st') => (Exc e, st')
  end.
Proof.
  unfold with_ancestors, hierarchical. unfold bind at 1. unfold gets at 1.
  intros ->. unfold bind.
  destruct (enqueue_ancestors E (_tablename t) (lookup lv) st) as [[lk | e] st'];
    reflexivity.
Qed.

Lemma with_ancestors_spec st d t lv :
  theset st = Some d ->
  snd (with_ancestors E t lv st) = st /\
  (forall lvh, fst (with_ancestors E t lv st) = Ok lvh ->
     keys (fst lvh) = keys lv /\ items (fst lvh) = items lv /\
     ((hierarchical st t = false /\ lvh = (lv, None)) \/
      (hierarchical st t = true /\ snd lvh = Some (_tablename t) /\
       ancestors_ext E d (_tablename t) (lookup lv) (lookup (fst lvh))))) /\
  (forall e, fst (with_ancestors E t lv st) = Exc e ->
     e = TypeError \/ e = RuntimeError).
Proof.
  intros Hd. destruct (hierarchical st t) eqn:Hh.
  - rewrite with_ancestors_hier by exact Hh.
    destruct (enqueue_ancestors_spec E st Hd (_tablename t) (lookup lv))
      as (A1 & A2 & A3).
    destruct (enqueue_ancestors E (_tablename t) (lookup lv) st) as [[lk | e] st1];
      cbn in *; subst st1.
    + split; [reflexivity |]. split; [| discriminate].
      intros p [= <-]. cbn. repeat split. right. auto.
    + split; [reflexivity |]. split; [discriminate |].
      intros e0 [= <-]. now apply A3.
  - rewrite with_ancestors_flat by exact Hh. cbn.
    split; [reflexivity |]. split; [| discriminate].
    intros p [= <-]. cbn. auto.
Qed.

End LookupHead.

(** ** C5: a key that the lookup table does not have *)

Lemma has_attribute_false t f :
  has_attribute t f = false -> has_field t f = false /\ has_object t f = false.
Proof. unfold has_attribute. apply orb_false_iff. Qed.

(** [S3Represent(lookup="org_organisation", key="code")]: the table has no
    field [code], and no other attribute of that name. *)
Definition org_represent_code : S3Represent :=
  __init__ None (Some "org_organisation") (Some "code") None LNone None false
           None false false HFalse None None " ".

(** C5, counterexample.  With a key that the table does not have, [_lookup]
    returns, without the requested key, and [__call__] gives the default
    label: the [AttributeError] does not reach the caller. *)
Lemma missing_key_is_absorbed :
  let st := snd (_setup demo_env org_represent_code) in
  key st = Some "code" /\ table st = Some org_table /\
  has_field org_table "code" = false /\
  has_attribute org_table "code" = false /\
  fst (_lookup demo_env [PInt 1] None st) = Ok [] /\
  fst (__call__ demo_env (PInt 1) None true org_represent_code)
    = Ok (Text "Unknown").
Proof. repeat split. Qed.

(** C5, as amended.  When the lookup table has no attribute of the name of
    the configured key (no field and no other attribute of the table
    object), [_lookup] catches the [AttributeError]: it never raises it, it
    leaves the object as it was (nothing is fetched, nothing cached), and
    what it returns holds only none-labels and labels that were in [theset];
    the keys that are not cached are left out of the result.  With hashable
    values and no hierarchy in effect it does return. *)
Theorem lookup_absorbs_missing_key (E : Env) (st : S3Represent)
    (values : list pyval) (rws : option (list Row)) (t : Table) (name : string)
    (d : dict string) :
  theset st = Some d -> table st = Some t -> key st = Some name ->
  has_attribute t name = false ->
  snd (_lookup E values rws st) = st /\
  fst (_lookup E values rws st) <> Exc AttributeError /\
  (forall its, fst (_lookup E values rws st) = Ok its ->
     forall v l, dget its v = Some l ->
       In v values /\
       ((normalize (Some t) v = PNone /\ none st = Some l) \/
        dget d (normalize (Some t) v) = Some l)) /\
  (Forall (fun v => hashable v = true) values -> none st <> None ->
   hierarchical E st t = false ->
   exists its, fst (_lookup E values rws st) = Ok its).
Proof.
  intros Hd Ht Hk Hf. apply has_attribute_false in Hf as [Hf Ho].
  rewrite lookup_scan, Ht.
  destruct (fold_res (scan_step st) values no_locals) as [lv | e] eqn:Hscan.
  - pose proof (scan_items st Hd values Hscan) as Hitems. rewrite Ht in Hitems.
    destruct (lookup lv) as [| kv lk] eqn:Hlk.
    + cbn. split; [reflexivity |]. split; [discriminate |]. split.
      * intros its [= <-]. exact Hitems.
      * intros _ _ _. now exists (items lv).
    + destruct (with_ancestors_spec E st t lv Hd) as (W1 & W2 & W3).
      pose proof (with_ancestors_flat E st t lv) as Wflat.
      unfold bind at 1 3 5 7.
      destruct (with_ancestors E t lv st) as [[p | e] st1]; cbn in W1, W2, W3;
        subst st1.
      * destruct (W2 p eq_refl) as (_ & Hi & _).
        destruct p as [lv' h]. cbn in Hi.
        mrun. rewrite Hk, Hf, Ho. cbn.
        split; [reflexivity |]. split; [discriminate |]. split.
        -- intros its [= <-]. rewrite Hi. exact Hitems.
        -- intros _ _ _. now exists (items lv').
      * cbn. split; [reflexivity |]. split; [| split].
        -- intros [= ->]. destruct (W3 AttributeError eq_refl); discriminate.
        -- discriminate.
        -- intros _ _ Hhier. specialize (Wflat Hhier). discriminate.
  - cbn. split; [reflexivity |]. split; [| split].
    + intros [= ->]. destruct (scan_raises st Hd values no_locals Hscan); discriminate.
    + discriminate.
    + intros Hall Hnone _.
      destruct (scan_total st Hd no_locals Hall Hnone) as (lv' & Hlv').
      rewrite Hlv' in Hscan. discriminate.
Qed.

Lemma lookup_absorbs_missing_key_witness :
  let st := snd (_setup demo_env org_represent_code) in
  snd (_lookup demo_env [PInt 1] None st) = st /\
  fst (_lookup demo_env [PInt 1] None st) <> Exc AttributeError.
Proof.
  intros st.
  destruct (@lookup_absorbs_missing_key demo_env st [PInt 1] None org_table
              "code" [] eq_refl eq_refl eq_refl eq_refl) as (H1 & H2 & _).
  split; assumption.
Defined.

(** ** C8: values that cannot be flattened *)

(** A value that is no list of lists, so that flattening is impossible: it
    is not a list at all, or one of its elements is a number.  ([None] among
    the elements is taken out before the flattening, and a string is
    iterable.) *)
Definition is_number (v : pyval) : bool :=
  match v with PInt _ => true | _ => false end.

Definition flatten_impossible (values : pyval) : bool :=
  match values with
  | PList l => existsb is_number l
  | _ => true
  end.

Section Flatten.

Variable E : Env.

Lemma iterate_numbers l st :
  existsb is_number l = true -> for_map l iterate st = (Exc TypeError, st).
Proof.
  induction l as [| x l IH]; cbn; [discriminate |].
  destruct x as [| z | s | l0]; cbn; intros H; try reflexivity.
  - unfold bind. cbn. now rewrite IH.
  - unfold bind. cbn. now rewrite IH.
Qed.

Lemma existsb_number_filter l :
  existsb is_number (filter (fun i => negb (is_None i)) l) = existsb is_number l.
Proof.
  induction l as [| x l IH]; cbn; [reflexivity |].
  destruct x; cbn; now rewrite ?IH.
Qed.

Lemma flatten_raises values st :
  flatten_impossible values = true -> flatten E values st = (Exc TypeError, st).
Proof.
  destruct values as [| z | s | l]; cbn; try reflexivity.
  intros H. unfold bind at 1. rewrite iterate_numbers; [reflexivity |].
  destruct (existsb is_None l); [now rewrite existsb_number_filter | exact H].
Qed.

End Flatten.

Lemma api_blind_bulk_log : api_blind bulk_log.
Proof. split; [split |..]; reflexivity. Qed.

(** Recording a call of [bulk] does not bear on [_setup]. *)
Section SetupBulkLog.

Variable E : Env.
Variable x : list pyval.

Lemma setup_defaults_bulk_log st :
  setup_defaults E (set_bulk_log x st) = set_bulk_log x (setup_defaults E st).
Proof.
  unfold setup_defaults. cbn.
  destruct (default st); cbn; destruct (none st); cbn;
    destruct (options st); reflexivity.
Qed.

Lemma setup_lookup_table_bulk_log t st :
  setup_lookup_table t (set_bulk_log x st)
    = set_bulk_log x (setup_lookup_table t st).
Proof.
  unfold setup_lookup_table. cbn.
  destruct (key st); cbn; destruct (fields st) as [[| f fs] |]; cbn;
    try destruct (has_field t "name"); reflexivity.
Qed.

Lemma setup_table_bulk_log st :
  setup_table E (set_bulk_log x st)
    = (fst (setup_table E st), set_bulk_log x (snd (setup_table E st))).
Proof.
  unfold setup_table. mrun. cbn [table tablename set_bulk_log].
  destruct (table st); mrun; [reflexivity |].
  cbn [table tablename set_bulk_log].
  destruct (tablename st) as [name |]; mrun; [| reflexivity].
  destruct (String.eqb name ""); mrun; [reflexivity |].
  destruct (s3db_table E name) as [t |]; mrun.
  - rewrite setup_lookup_table_bulk_log.
    generalize (setup_lookup_table t st) as st1. intros st1.
    cbn [linkto show_link set_bulk_log].
    destruct (negb (is_Some (linkto st1)) && show_link st1); mrun;
      [| reflexivity].
    destruct (split_underscore name) as [[c f] |]; reflexivity.
  - cbn [linkto show_link set_bulk_log].
    destruct (negb (is_Some (linkto st)) && show_link st); mrun;
      [| reflexivity].
    destruct (split_underscore name) as [[c f] |]; reflexivity.
Qed.

Lemma setup_unfold st :
  _setup E st =
  if setup st then (Ok tt, st)
  else match setup_table E (setup_defaults E st) with
       | (Ok _, st1) => (Ok tt, set_setup true (setup_renderer st1))
       | (Exc e, st1) => (Exc e, st1)
       end.
Proof.
  unfold _setup. mrun. destruct (setup st); mrun; [reflexivity |].
  destruct (setup_table E (setup_defaults E st)) as [[[] | e] st1]; reflexivity.
Qed.

Lemma setup_bulk_log st :
  _setup E (set_bulk_log x st)
    = (fst (_setup E st), set_bulk_log x (snd (_setup E st))).
Proof.
  rewrite !setup_unfold. cbn [setup set_bulk_log].
  destruct (setup st); [reflexivity |].
  rewrite setup_defaults_bulk_log, setup_table_bulk_log.
  destruct (setup_table E (setup_defaults E st)) as [[[] | e] st1];
    reflexivity.
Qed.

End SetupBulkLog.

(** C8, counterexample.  A flat list of scalars need not raise.  The
    strings of the flat list [["1", "2"]] are iterated character by
    character, so [multiple] returns the labels of the keys 1 and 2 and [bulk]
    a dictionary of labels; and of the flat list [[None]] the element [None]
    is taken out before the flattening, so [multiple] returns the
    none-label. *)
Lemma flat_list_of_scalars_is_flattened :
  list_type org_represent_list = true /\
  fst (multiple demo_env (PList [PStr "1"; PStr "2"]) None true true
         org_represent_list) = Ok (Text "Alpha, Beta") /\
  fst (bulk demo_env (PList [PStr "1"; PStr "2"]) None true true
         org_represent_list)
    = Ok [(PStr "1", Text "Alpha"); (PStr "2", Text "Beta"); (PNone, Text "-")] /\
  fst (multiple demo_env (PList [PNone]) None true true org_represent_list)
    = Ok (Text "-").
Proof. repeat split. Qed.

(** C8, as amended.  On a list-type representer, [multiple] and [bulk] raise
    [ValueError] for a value that cannot be flattened, which is a value that
    is not a list or a list with a number among its elements; nothing is
    looked up or fetched for it: the object is left as [_setup] leaves
    it. *)
Theorem unflattenable_raises_ValueError (E : Env) (st : S3Represent)
    (values : pyval) (show_link : bool) :
  list_type st = true -> fst (_setup E st) = Ok tt ->
  flatten_impossible values = true ->
  multiple E values None true show_link st
    = (Exc ValueError, snd (_setup E st)) /\
  bulk E values None true show_link st
    = (Exc ValueError,
       snd (_setup E (set_bulk_log (bulk_log st ++ [values]) st))) /\
  fetch_log (snd (multiple E values None true show_link st)) = fetch_log st /\
  fetch_log (snd (bulk E values None true show_link st)) = fetch_log st.
Proof.
  intros Hlt Hok Himp.
  assert (Hm : forall st0, list_type st0 = true -> fst (_setup E st0) = Ok tt ->
                 multiple E values None true show_link st0
                 = (Exc ValueError, snd (_setup E st0))).
  { intros st0 Hlt0 Hok0.
    pose proof (stable_setup E (ab_setup api_blind_list_type) st0) as Hl.
    unfold preserves in Hl.
    unfold multiple. unfold bind at 1.
    destruct (_setup E st0) as [[[] | e] st1]; [| discriminate].
    cbn [fst snd] in *. mrun. rewrite Hl, Hlt0. cbn.
    unfold catch. now rewrite flatten_raises. }
  assert (Hb : bulk E values None true show_link st
               = (Exc ValueError,
                  snd (_setup E (set_bulk_log (bulk_log st ++ [values]) st)))).
  { set (st' := set_bulk_log (bulk_log st ++ [values]) st).
    assert (Hok' : fst (_setup E st') = Ok tt).
    { unfold st'. now rewrite setup_bulk_log. }
    pose proof (stable_setup E (ab_setup api_blind_list_type) st') as Hl.
    unfold preserves in Hl.
    unfold bulk. unfold bind at 1. unfold modify at 1. fold st'.
    unfold bulk_body. unfold bind at 1.
    destruct (_setup E st') as [[[] | e] st1]; [| discriminate].
    cbn [fst snd] in *. mrun. rewrite Hl. unfold st'. cbn [list_type set_bulk_log].
    rewrite Hlt. cbn.
    unfold catch. now rewrite flatten_raises. }
  split; [now apply Hm |]. split; [exact Hb |].
  rewrite Hm, Hb by assumption. cbn [snd].
  rewrite setup_bulk_log. cbn [snd fetch_log set_bulk_log].
  split; apply (stable_setup E setup_blind_fetch_log st).
Qed.

(** The hypotheses of C8 hold of the list-type representer of the
    organisations and the flat list [[1, 2]]. *)
Lemma unflattenable_raises_ValueError_witness :
  fst (multiple demo_env (PList [PInt 1; PInt 2]) None true true
         org_represent_list) = Exc ValueError /\
  fst (bulk demo_env (PList [PInt 1; PInt 2]) None true true
         org_represent_list) = Exc ValueError.
Proof.
  destruct (@unflattenable_raises_ValueError demo_env org_represent_list
              (PList [PInt 1; PInt 2]) true eq_refl eq_refl eq_refl)
    as (Hm & Hb & _).
  rewrite Hm, Hb. split; reflexivity.
Defined.


(** ** C9: the queue shared by the lazy accumulators *)

(** The queue of the renderer and the log of the calls of [bulk]. *)
Definition queue_obs (st : S3Represent) : list pyval * list pyval :=
  (lazy st, bulk_log st).

Lemma api_blind_queue_obs : api_blind queue_obs.
Proof. split; [split |..]; reflexivity. Qed.

Section LazyQueue.

Variable E : Env.

Lemma lazy_init_run v st :
  Lazy.__init__ v st
    = (Ok {| Lazy.value := v; Lazy.multiple := false |},
       set_lazy (lazy st ++ [v]) st).
Proof. reflexivity. Qed.

(** [bulk] is recorded once and leaves the queue to its caller. *)
Lemma bulk_run values rws lt sl st :
  bulk E values rws lt sl st
    = bulk_body E values rws lt sl (set_bulk_log (bulk_log st ++ [values]) st).
Proof. reflexivity. Qed.

Lemma bulk_queue values rws lt sl st :
  let st1 := snd (bulk E values rws lt sl st) in
  lazy st1 = lazy st /\ bulk_log st1 = bulk_log st ++ [values].
Proof.
  cbv zeta. rewrite bulk_run.
  pose proof (stable_bulk_body E api_blind_queue_obs values rws lt sl
                (set_bulk_log (bulk_log st ++ [values]) st)) as H.
  unfold preserves, queue_obs in H. cbn [lazy bulk_log set_bulk_log] in H.
  injection H as Hl Hb. auto.
Qed.

Lemma flush_pending st :
  lazy st <> [] ->
  Lazy.flush E st =
  match bulk E (PList (lazy st)) None true true st with
  | (Ok labels, st1) => (Ok (Some labels), set_lazy [] st1)
  | (Exc e, st1) => (Exc e, st1)
  end.
Proof.
  intros Hq. unfold Lazy.flush. unfold bind at 1. unfold gets at 1.
  destruct (lazy st) as [| v q]; [contradiction |].
  unfold bind at 1.
  destruct (bulk E (PList (v :: q)) None true true st) as [[labels | e] st1];
    reflexivity.
Qed.

Lemma flush_empty st :
  lazy st = [] ->
  Lazy.flush E st
    = (Ok (option_map (map (fun kv => (fst kv, Text (snd kv)))) (theset st)), st).
Proof.
  intros Hq. unfold Lazy.flush. unfold bind at 1. unfold gets at 1.
  now rewrite Hq.
Qed.

(** What follows the flush in [represent] and [render] does not touch the
    queue and does not call [bulk]. *)
Lemma stable_after_flush (render : bool) self labels :
  stable (preserves queue_obs)
    (lt <- gets list_type ;;
     if lt then
       (if render then
          let v := if truthy (Lazy.value self) then Lazy.value self else PList [] in
          if Lazy.multiple self then
            v' <- (match v with
                   | PList [] => ret v
                   | PList (x :: _) => ret (if is_list x then v else PList [v])
                   | PStr _ => ret (PList [v])
                   | _ => raise TypeError
                   end) ;;
            multiple E v' None true true
          else render_list E v labels true
        else
          if Lazy.multiple self
          then multiple E (Lazy.value self) None true false
          else render_list E (Lazy.value self) labels false)
     else
       if Lazy.multiple self
       then multiple E (Lazy.value self) None true render
       else __call__ E (Lazy.value self) None render).
Proof.
  pose proof api_blind_queue_obs as Hq.
  apply stable_bind; [exact _ | apply stable_gets; exact _ | intros lt].
  destruct lt, render, (Lazy.multiple self); cbv zeta;
    try (apply stable_multiple; exact Hq);
    try (apply stable_render_list; exact Hq);
    try (apply stable_call; exact Hq).
  apply stable_bind; [exact _ | | intros v'; apply stable_multiple; exact Hq].
  destruct (if truthy (Lazy.value self) then Lazy.value self else PList [])
    as [| z | s | [| x l]]; frame.
Qed.

End LazyQueue.

(** [represent] ([render = false]) or [render] of an accumulator. *)
Definition lazy_output (E : Env) (render : bool) (self : Lazy.S3RepresentLazy)
    : M markup :=
  if render then Lazy.render E self else Lazy.represent E self.

Section LazyFlush.

Variable E : Env.

Lemma lazy_output_queue render self st :
  let st1 := snd (lazy_output E render self st) in
  (lazy st <> [] ->
   bulk_log st1 = bulk_log st ++ [PList (lazy st)] /\
   (forall labels,
       fst (bulk E (PList (lazy st)) None true true st) = Ok labels ->
       lazy st1 = [])) /\
  (lazy st = [] -> bulk_log st1 = bulk_log st /\ lazy st1 = []).
Proof.
  cbv zeta.
  assert (Hshape : exists after,
             lazy_output E render self = (labels <- Lazy.flush E ;; after labels) /\
             forall labels, stable (preserves queue_obs) (after labels)).
  { destruct render.
    - eexists. split; [reflexivity |]. intros labels.
      apply (stable_after_flush E true self labels).
    - eexists. split; [reflexivity |]. intros labels.
      apply (stable_after_flush E false self labels). }
  destruct Hshape as (after & -> & Hafter).
  split.
  - intros Hq. unfold bind. rewrite flush_pending by exact Hq.
    destruct (bulk_queue E (PList (lazy st)) None true true st) as [Hl Hb].
    destruct (bulk E (PList (lazy st)) None true true st) as [[labels | e] st1];
      cbn [fst snd] in *.
    + specialize (Hafter (Some labels) (set_lazy [] st1)).
      unfold preserves, queue_obs in Hafter. cbn [lazy bulk_log set_lazy] in Hafter.
      injection Hafter as Hl2 Hb2. split; [congruence |].
      intros _ _. exact Hl2.
    + split; [exact Hb | discriminate].
  - intros Hq. unfold bind. rewrite flush_empty by exact Hq.
    specialize (Hafter (option_map (map (fun kv => (fst kv, Text (snd kv)))) (theset st)) st).
    unfold preserves, queue_obs in Hafter. injection Hafter as Hl2 Hb2.
    split; congruence.
Qed.

End LazyFlush.

(** ** The configuration of a representer

    What is left of the object when the caches and the counters are blanked
    out: all that [_lookup] reads and never assigns. *)

Definition cfg (st : S3Represent) : S3Represent :=
  set_theset None (set_rows [] (set_queries 0 (set_fetch_log [] st))).

Lemma cfg_cache_blind : cache_blind cfg.
Proof. split; reflexivity. Qed.

Lemma cfg_field {X} (f : S3Represent -> X) a b :
  (forall st, f (cfg st) = f st) -> cfg a = cfg b -> f a = f b.
Proof. intros Hf H. rewrite <- (Hf a), <- (Hf b). now rewrite H. Qed.

(** Rewrite the reads of the configuration in [a] into reads in [b]. *)
Ltac cfg_rewrite H :=
  rewrite ?(cfg_field table (fun _ => eq_refl) H),
          ?(cfg_field key (fun _ => eq_refl) H),
          ?(cfg_field fields (fun _ => eq_refl) H),
          ?(cfg_field labels (fun _ => eq_refl) H),
          ?(cfg_field slabels (fun _ => eq_refl) H),
          ?(cfg_field clabels (fun _ => eq_refl) H),
          ?(cfg_field none (fun _ => eq_refl) H),
          ?(cfg_field default (fun _ => eq_refl) H),
          ?(cfg_field field_sep (fun _ => eq_refl) H),
          ?(cfg_field translate (fun _ => eq_refl) H),
          ?(cfg_field hierarchy (fun _ => eq_refl) H),
          ?(cfg_field htemplate (fun _ => eq_refl) H),
          ?(cfg_field custom_lookup (fun _ => eq_refl) H),
          ?(cfg_field lookup_rows (fun _ => eq_refl) H),
          ?(cfg_field linkto (fun _ => eq_refl) H),
          ?(cfg_field show_link (fun _ => eq_refl) H),
          ?(cfg_field list_type (fun _ => eq_refl) H),
          ?(cfg_field setup (fun _ => eq_refl) H).

(** ** Rendering a row *)

Section Render.

Variable E : Env.

(** [[row[f] for f in fs]] *)
Fixpoint row_values (row : Row) (fs : list string) : res (list pyval) :=
  match fs with
  | [] => Ok []
  | f :: fs' =>
      match row_get row f with
      | Some v =>
          match row_values row fs' with
          | Ok vs => Ok (v :: vs)
          | Exc e => Exc e
          end
      | None => Exc KeyError
      end
  end.

Lemma row_values_run row fs st :
  for_map fs (fun f => row_item row f) st = (row_values row fs, st).
Proof.
  induction fs as [| f fs IH]; cbn; [reflexivity |].
  unfold bind at 1. unfold row_item at 1.
  destruct (row_get row f) as [v |]; mrun; [| reflexivity].
  unfold bind. rewrite IH. destruct (row_values row fs); reflexivity.
Qed.

(** What [represent_row] computes: it reads the configuration and nothing
    else.  First the label of the row by itself, ... *)
Definition render_plain (st : S3Represent) (row : Row) : res string :=
  if slabels st then
    match labels st with
    | LTemplate tpl => format_row E tpl row
    | _ => Exc TypeError
    end
  else if clabels st then
    match labels st with
    | LCallable f => f row
    | _ => Exc TypeError
    end
  else
    match fields st with
    | None => Exc TypeError
    | Some fs =>
        match row_values row fs with
        | Exc e => Exc e
        | Ok vals =>
            match filter (fun x => negb (field_empty x)) vals with
            | [] => match none st with
                    | Some n => Ok n
                    | None => Exc Unsupported
                    end
            | values => Ok (join (field_sep st) (map (s3_unicode E) values))
            end
        end
    end.

(** ... then its translation, under the prefix if there is one. *)
Definition render_row (st : S3Represent) (row : Row) (prefix : option string)
    : res string :=
  match render_plain st row with
  | Exc e => Exc e
  | Ok v =>
      let output := if translate st then T E v else v in
      match prefix with
      | Some p =>
          if negb (String.eqb p "") && hierarchy_truthy (hierarchy st)
          then format_args (htemplate st) [p; output]
          else Ok output
      | None => Ok output
      end
  end.

Lemma represent_row_run row prefix st :
  represent_row E row prefix st = (render_row st row prefix, st).
Proof.
  unfold represent_row, render_row, render_plain. mrun.
  destruct (slabels st); mrun.
  - destruct (labels st) as [| tpl | f]; mrun; try reflexivity.
    destruct (format_row E tpl row); mrun; [| reflexivity].
    destruct prefix as [p |]; cbn [str_truthy andb]; [| reflexivity].
    destruct (negb (p =? "") && hierarchy_truthy (hierarchy st)); reflexivity.
  - destruct (clabels st); mrun.
    + destruct (labels st) as [| tpl | f]; mrun; try reflexivity.
      destruct (f row); mrun; [| reflexivity].
      destruct prefix as [p |]; cbn [str_truthy andb]; [| reflexivity].
      destruct (negb (p =? "") && hierarchy_truthy (hierarchy st)); reflexivity.
    + destruct (fields st) as [fs |]; mrun; [| reflexivity].
      rewrite row_values_run.
      destruct (row_values row fs) as [vals | e]; mrun; [| reflexivity].
      destruct (filter (fun x => negb (field_empty x)) vals); mrun.
      * unfold label_of. destruct (none st); mrun; [| reflexivity].
        destruct prefix as [p |]; cbn [str_truthy andb]; [| reflexivity].
        destruct (negb (p =? "") && hierarchy_truthy (hierarchy st)); reflexivity.
      * destruct prefix as [p0 |]; cbn [str_truthy andb]; [| reflexivity].
        destruct (negb (p0 =? "") && hierarchy_truthy (hierarchy st)); reflexivity.
Qed.

Lemma render_row_cfg a b row prefix :
  cfg a = cfg b -> render_row a row prefix = render_row b row prefix.
Proof.
  intros H. unfold render_row, render_plain. cfg_rewrite H. reflexivity.
Qed.

(** The label of a row under a prefix, from its label without one. *)
Lemma render_row_prefix st row p out :
  render_row st row None = Ok out ->
  render_row st row (Some p) =
  if negb (String.eqb p "") && hierarchy_truthy (hierarchy st)
  then format_args (htemplate st) [p; out]
  else Ok out.
Proof.
  unfold render_row. destruct (render_plain st row); [| discriminate].
  cbv zeta. now intros [= <-].
Qed.

End Render.

(** ** The fetch *)

Section Fetch.

(** [rows_by_key] without the object. *)
Definition by_key_step (name : string) (acc : dict Row) (row : Row)
    : res (dict Row) :=
  match row_get row name with
  | Some k => if hashable k then Ok (dset acc k row) else Exc TypeError
  | None => Exc KeyError
  end.

Definition by_key (name : string) (fetched : list Row) : res (dict Row) :=
  fold_res (by_key_step name) fetched [].

Lemma rows_by_key_run name fetched st :
  rows_by_key name fetched st = (by_key name fetched, st).
Proof.
  unfold rows_by_key, by_key. generalize (@nil (pyval * Row)) as acc.
  induction fetched as [| row l IH]; intros acc; cbn; [reflexivity |].
  unfold bind at 1. unfold by_key_step at 1. unfold row_item, hash.
  destruct (row_get row name) as [k |]; mrun; [| reflexivity].
  destruct (hashable k); mrun; [apply IH | reflexivity].
Qed.

(** The rows of a fetch, by key: every entry is one of the rows, under its
    key, and every key of a row has an entry. *)
Lemma by_key_spec name fetched byk :
  by_key name fetched = Ok byk ->
  NoDup (dkeys byk) /\
  (forall k row, dget byk k = Some row ->
     In row fetched /\ row_get row name = Some k) /\
  (forall row k, In row fetched -> row_get row name = Some k ->
     dget byk k <> None).
Proof.
  intros Hrun.
  refine (fold_res_inv (by_key_step name)
            (fun seen acc =>
               NoDup (dkeys acc) /\
               (forall k row, dget acc k = Some row ->
                  In row seen /\ row_get row name = Some k) /\
               (forall row k, In row seen -> row_get row name = Some k ->
                  dget acc k <> None))
            _ fetched [] [] _ Hrun).
  - clear. intros seen a x a' (IN & I1 & I2). unfold by_key_step.
    destruct (row_get x name) as [k0 |] eqn:Hk0; [| discriminate].
    destruct (hashable k0); [| discriminate]. intros [= <-].
    split; [now apply NoDup_dkeys_dset |]. split.
    + intros k row. rewrite dget_dset.
      destruct (pyval_eqb k0 k) eqn:Hk.
      * apply pyval_eqb_true in Hk. subst k0. intros [= <-].
        split; [apply in_or_app; right; now left | exact Hk0].
      * intros Hg. destruct (I1 k row Hg). split; [apply in_or_app; now left | auto].
    + intros row k Hin Hrk. rewrite dget_dset.
      destruct (pyval_eqb k0 k) eqn:Hk; [discriminate |].
      apply in_app_or in Hin as [Hin | [<- | []]]; [now apply (I2 row) |].
      rewrite Hk0 in Hrk. injection Hrk as ->.
      rewrite pyval_eqb_refl in Hk. discriminate.
  - cbn. split; [constructor |]. split; [discriminate | intros ? ? []].
Qed.

Lemma by_key_total name fetched :
  Forall (fun row => exists k, row_get row name = Some k /\ hashable k = true)
         fetched ->
  exists byk, by_key name fetched = Ok byk.
Proof.
  unfold by_key. generalize (@nil (pyval * Row)) as acc.
  induction fetched as [| row l IH]; intros acc Hall; cbn; [now exists acc |].
  inversion Hall as [| ? ? (k & Hk & Hh) Hrest]; subst.
  unfold by_key_step at 1. rewrite Hk, Hh. now apply IH.
Qed.

(** The key of a selected row. *)
Lemma row_get_select_fields fs r name :
  In name fs -> row_get (select_fields fs r) name = row_get r name.
Proof.
  unfold select_fields. induction fs as [| f fs IH]; cbn; [intros [] |].
  intros Hin. destruct (String.eqb f name) eqn:Hf.
  - apply String.eqb_eq in Hf. subst f.
    destruct (row_get r name) as [v |] eqn:Hv; cbn.
    + now rewrite String.eqb_refl.
    + clear IH Hin. induction fs as [| g fs IH]; cbn; [reflexivity |].
      destruct (row_get r g) as [w |] eqn:Hw; cbn; [| exact IH].
      destruct (String.eqb g name) eqn:Hg; [| exact IH].
      apply String.eqb_eq in Hg. subst g. congruence.
  - destruct Hin as [-> | Hin]; [rewrite String.eqb_refl in Hf; discriminate |].
    destruct (row_get r f) as [w |]; cbn; [rewrite Hf |]; now apply IH.
Qed.

Lemma existsb_pyval_eqb k ks : existsb (pyval_eqb k) ks = true <-> In k ks.
Proof.
  rewrite existsb_exists. split.
  - intros (x & Hx & He). apply pyval_eqb_true in He. now subst.
  - intros H. exists k. split; [exact H | apply pyval_eqb_refl].
Qed.

(** What a fetch returns: the selected fields of the records whose key is
    among the values. *)
Lemma db_select_spec t name ks fs row :
  In name fs ->
  In row (db_select t name ks fs) <->
  exists r k, In r (t_rows t) /\ row = select_fields fs r /\
              row_get r name = Some k /\ In k ks.
Proof.
  intros Hname. unfold db_select. rewrite in_map_iff. split.
  - intros (r & <- & Hr). apply filter_In in Hr as [Hr Hk].
    destruct (row_get r name) as [k |] eqn:Hrk; [| discriminate].
    exists r, k. repeat split; auto. now apply existsb_pyval_eqb.
  - intros (r & k & Hr & -> & Hrk & Hk). exists r. split; [reflexivity |].
    apply filter_In. split; [exact Hr |]. rewrite Hrk.
    now apply existsb_pyval_eqb.
Qed.

(** The call of the default [lookup_rows]. *)
Lemma call_lookup_rows_default t name ks fs st :
  lookup_rows st = None ->
  call_lookup_rows t name ks fs st
    = (Ok (db_select t name ks (fs ++ [name])),
       set_queries (queries st + 1) (set_fetch_log (fetch_log st ++ [ks]) st)).
Proof.
  intros H. unfold call_lookup_rows, _lookup_rows. mrun.
  cbn [lookup_rows set_fetch_log]. rewrite H. reflexivity.
Qed.

End Fetch.

(** ** The loops over the fetched rows and the default *)

Section Loops.

Variable E : Env.

Lemma set_theset_same st : set_theset (theset st) st = st.
Proof. now destruct st. Qed.

Lemma set_theset_twice x y st : set_theset x (set_theset y st) = set_theset x st.
Proof. reflexivity. Qed.

Lemma set_theset_known st d : theset st = Some d -> st = set_theset (Some d) st.
Proof. intros <-. symmetry. apply set_theset_same. Qed.

(** [for k in lookup: items[keys.get(k, k)] = self.default], without the
    object. *)
Definition fill_default (dl : string) (lv : locals) : locals :=
  set_items (fold_left (fun its k => dset its (keys_get lv k) dl)
                       (dkeys (lookup lv)) (items lv)) lv.

Lemma default_phase_run lv st dl :
  default st = Some dl -> default_phase lv st = (Ok (fill_default dl lv), st).
Proof.
  intros Hd. unfold default_phase, fill_default.
  assert (Hgen : forall ks its,
             for_fold ks
               (fun lv0 k =>
                  dflt <- gets default ;;
                  l <- label_of dflt ;;
                  ret (set_items (dset (items lv0) (keys_get lv0 k) l) lv0))
               (set_items its lv) st
             = (Ok (set_items (fold_left (fun its k => dset its (keys_get lv k) dl)
                                         ks its) lv), st)).
  { induction ks as [| k ks IH]; intros its; cbn [for_fold fold_left]; [reflexivity |].
    unfold bind at 1. mrun. rewrite Hd. cbn [label_of]. mrun.
    apply IH. }
  specialize (Hgen (dkeys (lookup lv)) (items lv)).
  replace (set_items (items lv) lv) with lv in Hgen by now destruct lv.
  exact Hgen.
Qed.

Lemma fill_default_keys dl lv :
  keys (fill_default dl lv) = keys lv /\ lookup (fill_default dl lv) = lookup lv.
Proof. split; reflexivity. Qed.

(** After the default, every key that is still pending has the default
    label, and the other labels are as before. *)
Lemma fill_default_items dl lv y :
  dget (items (fill_default dl lv)) y =
  if existsb (fun k => pyval_eqb (keys_get lv k) y) (dkeys (lookup lv))
  then Some dl else dget (items lv) y.
Proof.
  unfold fill_default. cbn [items set_items].
  generalize (items lv) as its. induction (dkeys (lookup lv)) as [| k ks IH];
    intros its; cbn [fold_left existsb]; [reflexivity |].
  rewrite IH. rewrite dget_dset.
  destruct (existsb (fun k0 => pyval_eqb (keys_get lv k0) y) ks);
    [now rewrite orb_true_r |].
  rewrite orb_false_r. reflexivity.
Qed.

(** One step of the loop over the fetched rows of a flat table. *)
Definition flat_step (lv : locals) (k : pyval) (l : string) : locals :=
  set_items (dset (items lv) (keys_get lv k) l)
            (set_lookup (ddel (lookup lv) k) lv).

Lemma fetched_flat_run lv kr st :
  fetched_flat E lv kr st =
  match render_row E st (snd kr) None with
  | Exc e => (Exc e, st)
  | Ok l =>
      match theset st with
      | Some d => (Ok (flat_step lv (fst kr) l),
                   set_theset (Some (dset d (fst kr) l)) st)
      | None => (Exc TypeError, st)
      end
  end.
Proof.
  unfold fetched_flat. cbv zeta. unfold bind at 1. rewrite represent_row_run.
  destruct (render_row E st (snd kr) None) as [l |]; [| reflexivity].
  unfold theset_put, the_set. mrun.
  destruct (theset st); reflexivity.
Qed.

(** One step of [_represent_path]. *)
Lemma represent_path_unfold fuel tn value row rws st :
  _represent_path E (S fuel) tn value row rws st =
  match theset st with
  | None => (Exc TypeError, st)
  | Some d =>
      if hashable value then
        match dget d value with
        | Some l => (Ok l, st)
        | None =>
            (prefix <- (let parent := hierarchy_parent E tn value in
                        if truthy parent then
                          hash parent ;;;
                          match dget d parent with
                          | Some p => ret (Some p)
                          | None =>
                              match dget rws parent with
                              | Some prow =>
                                  p <- _represent_path E fuel tn parent prow rws ;;
                                  ret (Some p)
                              | None => ret None
                              end
                          end
                        else ret None) ;;
             result <- represent_row E row prefix ;;
             theset_put value result ;;;
             ret result) st
        end
      else (Exc TypeError, st)
  end.
Proof.
  cbn [_represent_path]. unfold bind at 1. unfold the_set.
  unfold bind at 1. unfold gets at 1.
  destruct (theset st) as [d |]; [| reflexivity].
  cbv beta iota delta [ret]. unfold bind at 1. unfold hash at 1.
  destruct (hashable value); [| reflexivity].
  cbv beta iota delta [ret]. destruct (dget d value); reflexivity.
Qed.

(** [_represent_path] assigns nothing but [theset]; it keeps the labels
    that are there, writes only under the value and under keys of the given
    rows, and what it returns is the label of the value in [theset]. *)
Lemma represent_path_spec fuel tn rws :
  forall value row st d r st',
    theset st = Some d ->
    _represent_path E fuel tn value row rws st = (r, st') ->
    exists d',
      st' = set_theset (Some d') st /\
      (forall x l, dget d x = Some l -> dget d' x = Some l) /\
      (forall x, x <> value -> dget rws x = None -> dget d' x = dget d x) /\
      (forall l, r = Ok l -> dget d' value = Some l).
Proof.
  induction fuel as [| fuel IH]; intros value row st d r st' Hd.
  - cbn. intros [= <- <-]. exists d.
    split; [now apply set_theset_known |]. repeat split; auto. discriminate.
  - rewrite represent_path_unfold, Hd.
    assert (Hsame : exists d', st = set_theset (Some d') st /\
              (forall x l, dget d x = Some l -> dget d' x = Some l) /\
              (forall x, x <> value -> dget rws x = None -> dget d' x = dget d x)).
    { exists d. split; [now apply set_theset_known | auto]. }
    destruct (hashable value);
      [| intros [= <- <-]; destruct Hsame as (d' & ? & ? & ?); exists d';
         repeat split; auto; discriminate].
    destruct (dget d value) as [l0 |] eqn:Hv.
    { intros [= <- <-]. exists d.
      split; [now apply set_theset_known |]. repeat split; auto.
      now intros l [= <-]. }
    (* the prefix *)
    set (pre := (let parent := hierarchy_parent E tn value in
                 if truthy parent then
                   hash parent ;;;
                   match dget d parent with
                   | Some p => ret (Some p)
                   | None =>
                       match dget rws parent with
                       | Some prow =>
                           p <- _represent_path E fuel tn parent prow rws ;;
                           ret (Some p)
                       | None => ret None
                       end
                   end
                 else ret None)).
    assert (Hpre : forall rp st1, pre st = (rp, st1) ->
              exists d1, st1 = set_theset (Some d1) st /\
                (forall x l, dget d x = Some l -> dget d1 x = Some l) /\
                (forall x, x <> value -> dget rws x = None -> dget d1 x = dget d x)).
    { intros rp st1. unfold pre. cbv zeta.
      destruct (truthy (hierarchy_parent E tn value));
        [| intros [= <- <-]; destruct Hsame as (d' & ? & ? & ?); now exists d'].
      unfold bind at 1. unfold hash.
      destruct (hashable (hierarchy_parent E tn value)); mrun;
        [| intros [= <- <-]; destruct Hsame as (d' & ? & ? & ?); now exists d'].
      destruct (dget d (hierarchy_parent E tn value)) as [p |] eqn:Hp;
        [intros [= <- <-]; destruct Hsame as (d' & ? & ? & ?); now exists d' |].
      destruct (dget rws (hierarchy_parent E tn value)) as [prow |] eqn:Hprow;
        [| intros [= <- <-]; destruct Hsame as (d' & ? & ? & ?); now exists d'].
      destruct (_represent_path E fuel tn (hierarchy_parent E tn value) prow rws st)
        as [rr st2] eqn:Hrec.
      destruct (IH _ _ _ _ _ _ Hd Hrec) as (d2 & -> & M2 & F2 & _).
      intros Hres.
      assert (st1 = set_theset (Some d2) st) by (destruct rr; now injection Hres).
      subst st1. exists d2. repeat split; auto.
      intros x Hx Hrx. apply F2; [| exact Hrx].
      intros ->. congruence. }
    unfold bind at 1. destruct (pre st) as [[prefix | e] st1] eqn:Hpst.
    + destruct (Hpre _ _ eq_refl) as (d1 & -> & M1 & F1).
      unfold bind at 1. rewrite represent_row_run.
      destruct (render_row E (set_theset (Some d1) st) row prefix) as [result | e];
        [| intros [= <- <-]; exists d1; repeat split; auto; discriminate].
      unfold theset_put, the_set. mrun. cbn [theset set_theset].
      intros [= <- <-]. exists (dset d1 value result).
      split; [reflexivity |]. split; [| split].
      * intros x l Hx. rewrite dget_dset.
        destruct (pyval_eqb value x) eqn:Hvx; [| now apply M1].
        apply pyval_eqb_true in Hvx. subst x. congruence.
      * intros x Hx Hrx. rewrite dget_dset_other by congruence. now apply F1.
      * intros l [= <-]. apply dget_dset_same.
    + destruct (Hpre _ _ eq_refl) as (d1 & -> & M1 & F1).
      intros [= <- <-]. exists d1. repeat split; auto. discriminate.
Qed.

End Loops.

(** ** Resolving the pending keys with the default fetch *)

(** The object after the fetch for [ks] that returned the rows [byk]. *)
Definition fetched_state (ks : list pyval) (byk : dict Row) (st : S3Represent)
    : S3Represent :=
  let st1 := set_queries (queries st + 1)
                         (set_fetch_log (fetch_log st ++ [ks]) st) in
  set_rows (dupdate (rows st1) byk) st1.

(** The fields that are fetched: those of the configuration that the table
    has, and the key. *)
Definition selected (t : Table) (fs : list string) (name : string) : list string :=
  filter (has_attribute t) fs ++ [name].

Lemma In_selected t fs name : In name (selected t fs name).
Proof. unfold selected. apply in_or_app. right. now left. Qed.

Section Resolve.

Variable E : Env.
Variable st : S3Represent.
Variable fs : list string.
Hypothesis Hcustom : custom_lookup st = false.
Hypothesis Hdefault_fetch : lookup_rows st = None.
Hypothesis Hfields : fields st = Some fs.

Lemma fetch_phase_run t name h lv :
  fetch_phase E t name h lv st =
  let ks := dkeys (lookup lv) in
  match by_key name (db_select t name ks (selected t fs name)) with
  | Exc e => (Exc e, set_queries (queries st + 1)
                       (set_fetch_log (fetch_log st ++ [ks]) st))
  | Ok byk =>
      match h with
      | Some tn => for_fold byk (fetched_path E tn byk) lv
      | None => for_fold byk (fetched_flat E) lv
      end (fetched_state ks byk st)
  end.
Proof.
  unfold fetch_phase. cbv zeta.
  unfold bind at 1. unfold gets at 1. rewrite Hcustom. cbn [negb].
  unfold bind at 1. unfold bind at 1. unfold gets at 1. rewrite Hfields.
  cbv beta iota delta [ret]. unfold bind at 1.
  rewrite call_lookup_rows_default by exact Hdefault_fetch.
  unfold bind at 1. rewrite rows_by_key_run. unfold selected.
  destruct (by_key name _) as [byk | e]; [| reflexivity].
  unfold bind at 1. unfold modify at 1. reflexivity.
Qed.

Lemma resolve_run t name h lv :
  resolve E t name h None lv st =
  match lookup lv with
  | [] => (lv3 <- default_phase lv ;; ret (items lv3)) st
  | _ => (lv2 <- fetch_phase E t name h lv ;;
          lv3 <- default_phase lv2 ;; ret (items lv3)) st
  end.
Proof.
  unfold resolve. unfold bind at 1. unfold gets at 1. rewrite Hcustom.
  cbn [rows_truthy andb]. unfold bind at 1. cbv beta iota delta [ret].
  destruct (lookup lv); reflexivity.
Qed.

End Resolve.

(** Invariants of a loop that returns. *)
Lemma for_fold_ok_inv {X L} (I : L -> S3Represent -> Prop)
    (body : L -> X -> M L) (l : list X) :
  (forall a x s a' s', In x l -> I a s -> body a x s = (Ok a', s') -> I a' s') ->
  forall acc st r st',
    I acc st -> for_fold l body acc st = (Ok r, st') -> I r st'.
Proof.
  induction l as [| x l IH]; intros Hstep acc st r st' Hacc; cbn.
  - now intros [= <- <-].
  - intros Hrun. apply bind_ok in Hrun as (a & s1 & Hx & Hrest).
    eapply IH; [| | exact Hrest].
    + intros a0 x0 s a' s' Hin. apply Hstep. now right.
    + eapply Hstep; [now left | exact Hacc | exact Hx].
Qed.

Section LoopFrames.

Variable E : Env.

Lemma fetched_path_run tn byk lv kr st :
  fetched_path E tn byk lv kr st =
  match dget (lookup lv) (fst kr) with
  | Some true =>
      match _represent_path E (recursion_limit E) tn (fst kr) (snd kr) byk st with
      | (Ok l, st') => (Ok (flat_step lv (fst kr) l), st')
      | (Exc e, st') => (Exc e, st')
      end
  | _ => (Ok (set_lookup (ddel (lookup lv) (fst kr)) lv), st)
  end.
Proof.
  unfold fetched_path. cbv zeta.
  destruct (dget (lookup lv) (fst kr)) as [[|] |]; reflexivity.
Qed.

Lemma dget_In_not_None {V} (d : dict V) k v : In (k, v) d -> dget d k <> None.
Proof.
  induction d as [| [k0 v0] d IH]; cbn; [intros [] |].
  intros [[= -> ->] | Hin].
  - now rewrite pyval_eqb_refl.
  - destruct (pyval_eqb k0 k); [discriminate | now apply IH].
Qed.

(** What a loop over fetched rows leaves alone: the dictionary [keys], and
    the pending keys and the labels in [theset] of all keys that have no
    fetched row. *)
Definition loop_frame (byk : dict Row) (lv0 : locals) (st0 : S3Represent)
    (d0 : dict string) (lv : locals) (s : S3Represent) : Prop :=
  exists d', s = set_theset (Some d') st0 /\
    keys lv = keys lv0 /\
    forall x, dget byk x = None ->
      dget (lookup lv) x = dget (lookup lv0) x /\ dget d' x = dget d0 x.

Lemma loop_frame_init byk lv0 st0 d0 :
  theset st0 = Some d0 -> loop_frame byk lv0 st0 d0 lv0 st0.
Proof.
  intros H. exists d0. split; [now apply set_theset_known | auto].
Qed.

Lemma fetched_flat_frame byk lv0 st0 d0 lv kr s lv' s' :
  In kr byk -> loop_frame byk lv0 st0 d0 lv s ->
  fetched_flat E lv kr s = (Ok lv', s') -> loop_frame byk lv0 st0 d0 lv' s'.
Proof.
  intros Hin (d1 & -> & Hk & Hf). rewrite fetched_flat_run.
  destruct (render_row E _ (snd kr) None) as [l |]; [| discriminate].
  cbn [theset set_theset]. intros [= <- <-].
  exists (dset d1 (fst kr) l). split; [reflexivity |]. split; [exact Hk |].
  assert (Hkr : dget byk (fst kr) <> None).
  { apply (dget_In_not_None byk (fst kr) (snd kr)). now destruct kr. }
  intros x Hx. assert (Hne : fst kr <> x) by (intros Heq; subst x; contradiction).
  cbn [lookup flat_step set_items set_lookup].
  rewrite dget_ddel_other, dget_dset_other by exact Hne. now apply Hf.
Qed.

Lemma fetched_path_frame tn byk lv0 st0 d0 lv kr s lv' s' :
  In kr byk -> loop_frame byk lv0 st0 d0 lv s ->
  fetched_path E tn byk lv kr s = (Ok lv', s') -> loop_frame byk lv0 st0 d0 lv' s'.
Proof.
  intros Hin (d1 & -> & Hk & Hf). rewrite fetched_path_run.
  assert (Hkr : dget byk (fst kr) <> None).
  { apply (dget_In_not_None byk (fst kr) (snd kr)). now destruct kr. }
  assert (Hskip : loop_frame byk lv0 st0 d0
                    (set_lookup (ddel (lookup lv) (fst kr)) lv)
                    (set_theset (Some d1) st0)).
  { exists d1. split; [reflexivity |]. split; [exact Hk |].
    intros x Hx. assert (Hne : fst kr <> x) by (intros Heq; subst x; contradiction).
    cbn [lookup set_lookup]. rewrite dget_ddel_other by exact Hne. now apply Hf. }
  destruct (dget (lookup lv) (fst kr)) as [[|] |];
    [| intros [= <- <-]; exact Hskip | intros [= <- <-]; exact Hskip].
  destruct (_represent_path E (recursion_limit E) tn (fst kr) (snd kr) byk
              (set_theset (Some d1) st0)) as [[l | e] s1] eqn:Hrp;
    [| discriminate].
  intros [= <- <-].
  destruct (represent_path_spec E _ tn byk _ _ (set_theset (Some d1) st0)
              (d := d1) eq_refl Hrp) as (d2 & -> & _ & F2 & _).
  exists d2. split; [reflexivity |]. split; [exact Hk |].
  intros x Hx. assert (Hne : fst kr <> x) by (intros Heq; subst x; contradiction).
  cbn [lookup flat_step set_items set_lookup].
  rewrite dget_ddel_other by exact Hne.
  destruct (Hf x Hx) as [Hl Hd]. split; [exact Hl |].
  rewrite F2; [exact Hd | congruence | exact Hx].
Qed.

(** The loops after a fetch, when they return. *)
Lemma fetched_loop_frame h byk lv st0 d0 lv' s' :
  theset st0 = Some d0 ->
  match h with
  | Some tn => for_fold byk (fetched_path E tn byk) lv
  | None => for_fold byk (fetched_flat E) lv
  end st0 = (Ok lv', s') ->
  loop_frame byk lv st0 d0 lv' s'.
Proof.
  intros Hd. destruct h as [tn |]; intros Hrun.
  - refine (for_fold_ok_inv (loop_frame byk lv st0 d0) _ byk _ _ _
              (loop_frame_init byk lv st0 Hd) Hrun).
    intros a x s a' s2 Hin. now apply fetched_path_frame.
  - refine (for_fold_ok_inv (loop_frame byk lv st0 d0) _ byk _ _ _
              (loop_frame_init byk lv st0 Hd) Hrun).
    intros a x s a' s2 Hin. now apply fetched_flat_frame.
Qed.

End LoopFrames.

Lemma dget_app_l {V} (d e : dict V) k :
  dget d k <> None -> dget (d ++ e) k = dget d k.
Proof.
  induction d as [| [k0 v0] d IH]; cbn; [congruence |].
  destruct (pyval_eqb k0 k); [reflexivity | exact IH].
Qed.

Lemma dget_Some_In_dkeys {V} (d : dict V) k v : dget d k = Some v -> In k (dkeys d).
Proof.
  intros H. destruct (dget_None_notin d k) as [_ H2].
  destruct (in_dec (fun a b => match pyval_eqb a b as c
                                 return pyval_eqb a b = c -> {a = b} + {a <> b} with
                               | true => fun e => left (pyval_eqb_true a b e)
                               | false => fun e => right (proj1 (pyval_eqb_neq a b) e)
                               end eq_refl) k (dkeys d)) as [Hin | Hnin];
    [exact Hin |].
  rewrite (H2 Hnin) in H. discriminate.
Qed.

(** The dictionary [keys] after the first loop: every key of a value is
    there, under one of the values that it is the key of. *)
Lemma scan_keys st d values lv :
  theset st = Some d ->
  fold_res (scan_step st) values no_locals = Ok lv ->
  (forall k v', dget (keys lv) k = Some v' ->
     In v' values /\ normalize (table st) v' = k) /\
  (forall v, In v values -> dget (keys lv) (normalize (table st) v) <> None).
Proof.
  intros Hd Hrun.
  refine (fold_res_inv (scan_step st)
            (fun seen lv =>
               (forall k v', dget (keys lv) k = Some v' ->
                  In v' seen /\ normalize (table st) v' = k) /\
               (forall v, In v seen ->
                  dget (keys lv) (normalize (table st) v) <> None))
            _ values [] no_locals _ Hrun).
  - clear Hrun. intros seen a x a' (I1 & I2) Hstep.
    apply (scan_step_ok st Hd) in Hstep as (_ & Hkeys & _).
    rewrite Hkeys. split.
    + intros k v'. rewrite dget_dset.
      destruct (pyval_eqb (normalize (table st) x) k) eqn:Hk.
      * apply pyval_eqb_true in Hk. intros [= <-].
        split; [apply in_or_app; right; now left | exact Hk].
      * intros Hg. destruct (I1 k v' Hg). split; [apply in_or_app; now left | auto].
    + intros v Hin. rewrite dget_dset.
      destruct (pyval_eqb (normalize (table st) x) (normalize (table st) v)) eqn:Hk;
        [discriminate |].
      apply in_app_or in Hin as [Hin | [<- | []]]; [now apply I2 |].
      rewrite pyval_eqb_refl in Hk. discriminate.
  - cbn. split; [discriminate | intros v []].
Qed.

(** ** C7: keys without a row *)

(** A representer that is set up on a lookup table, with the default
    [lookup_rows]. *)
Record lookup_setting (st : S3Represent) (t : Table) (name : string)
    (fs : list string) (d : dict string) (dl : string) : Prop := {
  ls_theset : theset st = Some d;
  ls_none : none st <> None;
  ls_default : default st = Some dl;
  ls_table : table st = Some t;
  ls_key : key st = Some name;
  ls_has_key : has_field t name = true;
  ls_fields : fields st = Some fs;
  ls_custom : custom_lookup st = false;
  ls_fetch : lookup_rows st = None
}.

(** No record of the table has the key [k]. *)
Definition no_row (t : Table) (name : string) (k : pyval) : Prop :=
  forall r, In r (t_rows t) -> row_get r name <> Some k.

Section Unresolved.

Variable E : Env.
Variables (st : S3Represent) (t : Table) (name : string) (fs : list string)
          (d : dict string) (dl : string).
Hypothesis Hset : lookup_setting st t name fs d dl.

Lemma no_row_not_fetched ks k byk :
  no_row t name k ->
  by_key name (db_select t name ks (selected t fs name)) = Ok byk ->
  dget byk k = None.
Proof.
  intros Hno Hbyk. destruct (dget byk k) as [row |] eqn:Hg; [| reflexivity].
  exfalso. apply by_key_spec in Hbyk as (_ & K1 & _).
  destruct (K1 k row Hg) as [Hin Hrk].
  apply db_select_spec in Hin as (r & k' & Hr & -> & Hrk' & _);
    [| apply In_selected].
  rewrite row_get_select_fields in Hrk by apply In_selected.
  exact (Hno r Hr Hrk).
Qed.

(** The part after the key was found, for a pending key without a row. *)
Lemma resolve_unresolved h lv its st' k :
  resolve E t name h None lv st = (Ok its, st') ->
  dget (lookup lv) k <> None -> no_row t name k ->
  dget its (keys_get lv k) = Some dl /\
  (exists d', theset st' = Some d' /\ dget d' k = dget d k) /\
  fetch_log st' = fetch_log st ++ [dkeys (lookup lv)] /\
  queries st' = queries st + 1 /\ cfg st' = cfg st.
Proof.
  destruct Hset as [Hts Hnl Hdl Htb Hkey Hhas Hfs Hcu Hfe].
  intros Hrun Hk Hno.
  rewrite (resolve_run E st Hcu) in Hrun.
  destruct (lookup lv) as [| kv lk] eqn:Hlk; [cbn in Hk; congruence |].
  rewrite <- Hlk in *. clear kv lk Hlk.
  apply bind_ok in Hrun as (lv2 & s2 & Hfetch & Hrest).
  rewrite (fetch_phase_run E st Hcu Hfe Hfs) in Hfetch. cbv zeta in Hfetch.
  destruct (by_key name _) as [byk | e] eqn:Hbyk; [| discriminate].
  pose proof (@no_row_not_fetched _ _ _ Hno Hbyk) as Hnk.
  apply fetched_loop_frame with (d0 := d) in Hfetch; [| exact Hts].
  destruct Hfetch as (d' & -> & Hkeys & Hframe).
  destruct (Hframe k Hnk) as [Hlk2 Hd2].
  apply bind_ok in Hrest as (lv3 & s3 & Hdef & Hret).
  rewrite (default_phase_run lv2 _ (dl := dl)) in Hdef by exact Hdl.
  injection Hdef as <- <-. injection Hret as <- <-.
  split.
  - change (dget (items (fill_default dl lv2)) (keys_get lv k) = Some dl).
    rewrite fill_default_items.
    assert (Hin : In k (dkeys (lookup lv2))).
    { destruct (dget (lookup lv2) k) as [b |] eqn:Hg;
        [now apply dget_Some_In_dkeys in Hg | congruence]. }
    assert (Hex : existsb (fun k0 => pyval_eqb (keys_get lv2 k0) (keys_get lv k))
                          (dkeys (lookup lv2)) = true).
    { apply existsb_exists. exists k. split; [exact Hin |].
      unfold keys_get. rewrite Hkeys. apply pyval_eqb_refl. }
    now rewrite Hex.
  - split; [| repeat split].
    exists d'. split; [reflexivity | exact Hd2].
Qed.

(** C7, for a run that returns: every requested key that is not cached
    and has no row is given the default label, under the value it was
    requested as, and is not entered into [theset]; the lookup has fetched
    once, with that key among the keys. *)
Lemma lookup_unresolved values its st' v :
  _lookup E values None st = (Ok its, st') ->
  In v values ->
  normalize (Some t) v <> PNone -> dget d (normalize (Some t) v) = None ->
  no_row t name (normalize (Some t) v) ->
  (exists v', In v' values /\ normalize (Some t) v' = normalize (Some t) v /\
              dget its v' = Some dl) /\
  (exists d', theset st' = Some d' /\ dget d' (normalize (Some t) v) = None) /\
  (exists ks, fetch_log st' = fetch_log st ++ [ks] /\
              In (normalize (Some t) v) ks) /\
  queries st' = queries st + 1 /\ cfg st' = cfg st.
Proof.
  pose proof Hset as [Hts Hnl Hdl Htb Hkey Hhas Hfs Hcu Hfe].
  intros Hrun Hv Hk Hunc Hno. set (k := normalize (Some t) v) in *.
  rewrite lookup_scan in Hrun.
  destruct (fold_res (scan_step st) values no_locals) as [lv | e] eqn:Hscan;
    [| discriminate].
  destruct (scan_lookup st Hts values Hscan) as (Hnd & _ & Hpend).
  destruct (scan_keys st values Hts Hscan) as (Hkeys1 & Hkeys2).
  rewrite Htb in *.
  specialize (Hpend v Hv Hk Hunc). fold k in Hpend.
  destruct (lookup lv) as [| kv lk] eqn:Hlk; [discriminate |].
  rewrite <- Hlk in *. clear kv lk Hlk.
  apply bind_ok in Hrun as ([lv1 h] & s1 & Hanc & Hrun).
  destruct (with_ancestors_spec E st t lv Hts) as (W1 & W2 & _).
  rewrite Hanc in W1, W2. cbn [fst snd] in W1, W2. subst s1.
  destruct (W2 _ eq_refl) as (Hk1 & Hi1 & Hlk1). cbn [fst snd] in Hk1, Hi1, Hlk1.
  revert Hrun. mrun. rewrite Hkey, Hhas. cbn [negb]. intros Hrun.
  assert (Hpend1 : dget (lookup lv1) k = Some true).
  { destruct Hlk1 as [(_ & [= -> _]) | (_ & _ & (extra & -> & _))];
      [exact Hpend |].
    rewrite dget_app_l; [exact Hpend | congruence]. }
  destruct (@resolve_unresolved h lv1 its st' k Hrun) as (Hits & Hth & Hlog & Hq & Hcfg);
    [congruence | exact Hno |].
  split; [| split; [| split; [| split]]]; auto.
  - specialize (Hkeys2 v Hv). fold k in Hkeys2.
    destruct (dget (keys lv) k) as [v' |] eqn:Hkv; [| congruence].
    destruct (Hkeys1 k v' Hkv) as [Hin Hnorm].
    exists v'. repeat split; auto.
    unfold keys_get in Hits. now rewrite Hk1, Hkv in Hits.
  - destruct Hth as (d' & Hd' & Hdk). exists d'. split; [exact Hd' | congruence].
  - exists (dkeys (lookup lv1)). split; [exact Hlog |].
    now apply dget_Some_In_dkeys in Hpend1.
Qed.

End Unresolved.

(** ** Lookups in which no pending key has a row *)

Section AllUnresolved.

Variable E : Env.
Variables (st : S3Represent) (t : Table) (name : string) (fs : list string)
          (d : dict string) (dl : string).
Hypothesis Hset : lookup_setting st t name fs d dl.

(** A loop over fetched rows none of which was requested does nothing but
    take their keys off the pending ones. *)
Lemma path_loop_noop tn byk l lv s :
  NoDup (dkeys (lookup lv)) ->
  (forall kr, In kr l -> dget (lookup lv) (fst kr) <> Some true) ->
  exists lv', for_fold l (fetched_path E tn byk) lv s = (Ok lv', s) /\
              keys lv' = keys lv /\ items lv' = items lv /\
              (forall x b, dget (lookup lv') x = Some b -> dget (lookup lv) x = Some b).
Proof.
  revert lv. induction l as [| kr l IH]; intros lv Hnd Hall; cbn [for_fold].
  - exists lv. auto.
  - unfold bind. rewrite fetched_path_run.
    assert (Hkr : dget (lookup lv) (fst kr) <> Some true) by (apply Hall; now left).
    set (lv1 := set_lookup (ddel (lookup lv) (fst kr)) lv).
    assert (Hsub : forall x b, dget (lookup lv1) x = Some b ->
                               dget (lookup lv) x = Some b).
    { intros x b. cbn [lookup lv1 set_lookup].
      destruct (pyval_eqb (fst kr) x) eqn:He.
      - apply pyval_eqb_true in He. subst x.
        rewrite dget_ddel_same by exact Hnd. discriminate.
      - rewrite dget_ddel_other; [auto | now apply pyval_eqb_neq]. }
    destruct (IH lv1) as (lv' & Hrun & Hk & Hi & Hl).
    + now apply NoDup_dkeys_ddel.
    + intros kr' Hin Htrue. apply Hsub in Htrue.
      apply (Hall kr'); [now right | exact Htrue].
    + exists lv'. split; [| split; [exact Hk | split; [exact Hi |]]].
      * destruct (dget (lookup lv) (fst kr)) as [[|] |]; [congruence | |]; exact Hrun.
      * intros x b Hx. apply Hsub. now apply Hl.
Qed.

Lemma fetched_rows_hashable ks byk_src row :
  (forall k, In k ks -> hashable k = true) ->
  byk_src = db_select t name ks (selected t fs name) ->
  In row byk_src ->
  exists k, row_get row name = Some k /\ hashable k = true.
Proof.
  intros Hks -> Hin.
  apply db_select_spec in Hin as (r & k & Hr & -> & Hrk & Hk); [| apply In_selected].
  exists k. split; [| now apply Hks].
  rewrite row_get_select_fields by apply In_selected. exact Hrk.
Qed.

(** When no pending key of the values has a row, and the chains of their
    ancestors end, [_lookup] returns. *)
Lemma lookup_all_unresolved values :
  Forall (fun v => hashable v = true) values ->
  (forall v, In v values ->
     normalize (Some t) v <> PNone -> dget d (normalize (Some t) v) = None ->
     no_row t name (normalize (Some t) v)) ->
  (hierarchical E st t = true ->
   forall v, In v values ->
     chain_ok E (_tablename t) (recursion_limit E) (normalize (Some t) v) = true) ->
  exists its st', _lookup E values None st = (Ok its, st').
Proof.
  pose proof Hset as [Hts Hnl Hdl Htb Hkey Hhas Hfs Hcu Hfe].
  intros Hhash Hno Hchain. rewrite lookup_scan.
  destruct (scan_total st Hts no_locals Hhash Hnl) as (lv & Hscan).
  rewrite Hscan. destruct (scan_lookup st Hts values Hscan) as (Hnd & Hflags & _).
  rewrite Htb in *.
  destruct (lookup lv) as [| kv lk] eqn:Hlk; [now exists (items lv), st |].
  rewrite <- Hlk in *.
  (* the ancestors *)
  assert (Hanc : exists lv1 h,
             with_ancestors E t lv st = (Ok (lv1, h), st) /\
             keys lv1 = keys lv /\ items lv1 = items lv /\
             NoDup (dkeys (lookup lv1)) /\ lookup lv1 <> [] /\
             (forall k b, dget (lookup lv1) k = Some b ->
                hashable k = true /\
                (b = true -> no_row t name k) /\
                (h = None -> b = true))).
  { destruct (hierarchical E st t) eqn:Hh.
    - destruct (enqueue_ancestors_total E st Hts (_tablename t) (lookup lv))
        as (lk' & Hlk').
      { intros k Hk.
        destruct (dget (lookup lv) k) as [b |] eqn:Hg;
          [| now apply dget_None_notin in Hg].
        destruct (Hflags k b Hg) as (_ & _ & _ & _ & v & Hv & <-).
        now apply Hchain. }
      destruct (enqueue_ancestors_spec E st Hts (_tablename t) (lookup lv))
        as (A1 & A2 & _).
      exists (set_lookup lk' lv), (Some (_tablename t)).
      rewrite with_ancestors_hier by exact Hh.
      destruct (enqueue_ancestors E (_tablename t) (lookup lv) st) as [[lk2 | e] s2];
        cbn [fst snd] in *; [| discriminate].
      injection Hlk' as ->. subst s2.
      destruct (A2 lk' eq_refl) as (extra & -> & Hextra & Hnd').
      repeat split; auto.
      + rewrite Hlk. discriminate.
      + cbn [lookup set_lookup] in H.
        destruct (dget (lookup lv) k) as [b0 |] eqn:Hg.
        * now destruct (Hflags k b0 Hg) as (_ & _ & ? & _).
        * clear - H Hg Hextra.
          induction (lookup lv) as [| [k0 v0] l IH]; cbn in *.
          -- induction Hextra as [| kv0 ex Hkv _ IHex]; cbn in H; [discriminate |].
             destruct kv0 as [k1 b1]. cbn in H.
             destruct (pyval_eqb k1 k) eqn:He; [| now apply IHex].
             apply pyval_eqb_true in He. subst k1.
             now destruct Hkv as (_ & _ & ? & _).
          -- destruct (pyval_eqb k0 k); [discriminate | now apply IH].
      + intros ->. cbn [lookup set_lookup] in H.
        destruct (dget (lookup lv) k) as [b0 |] eqn:Hg.
        * rewrite dget_app_l in H by congruence. rewrite Hg in H.
          injection H as ->.
          destruct (Hflags k true Hg) as (_ & Hk & _ & Hunc & v & Hv & <-).
          now apply Hno.
        * exfalso. clear - H Hg Hextra.
          induction (lookup lv) as [| [k0 v0] l IH]; cbn in *.
          -- induction Hextra as [| kv0 ex Hkv _ IHex]; cbn in H; [discriminate |].
             destruct kv0 as [k1 b1]. cbn in H.
             destruct (pyval_eqb k1 k) eqn:He; [| now apply IHex].
             injection H as ->. now destruct Hkv as (? & _).
          -- destruct (pyval_eqb k0 k); [discriminate | now apply IH].
      + discriminate.
    - exists lv, None. rewrite with_ancestors_flat by exact Hh.
      repeat split; auto.
      + rewrite Hlk. discriminate.
      + now destruct (Hflags k b H) as (_ & _ & ? & _).
      + intros ->. destruct (Hflags k true H) as (_ & Hk & _ & Hunc & v & Hv & <-).
        now apply Hno.
      + intros _. now destruct (Hflags k b H) as (? & _). }
  destruct Hanc as (lv1 & h & Hwa & Hk1 & Hi1 & Hnd1 & Hne1 & Hfl1).
  unfold bind at 1. rewrite Hwa. mrun. rewrite Hkey, Hhas. cbn [negb].
  rewrite (resolve_run E st Hcu).
  destruct (lookup lv1) as [| kv1 lk1] eqn:Hlk1; [congruence |].
  rewrite <- Hlk1 in *.
  unfold bind at 1. rewrite (fetch_phase_run E st Hcu Hfe Hfs). cbv zeta.
  destruct (@by_key_total name (db_select t name (dkeys (lookup lv1)) (selected t fs name)))
    as (byk & Hbyk).
  { apply Forall_forall. intros row Hrow.
    eapply fetched_rows_hashable; [| reflexivity | exact Hrow].
    intros k Hk.
    destruct (dget (lookup lv1) k) as [b |] eqn:Hg;
      [| now apply dget_None_notin in Hg].
    now destruct (Hfl1 k b Hg). }
  rewrite Hbyk.
  (* no fetched row belongs to a requested key *)
  assert (Hnot : forall kr, In kr byk -> dget (lookup lv1) (fst kr) <> Some true).
  { intros [k row] Hin Htrue. cbn [fst] in Htrue.
    destruct (Hfl1 k true Htrue) as (_ & Hnorow & _).
    pose proof (@no_row_not_fetched t name fs _ k byk (Hnorow eq_refl) Hbyk) as Hnone.
    now apply (dget_In_not_None byk k row). }
  assert (Hloop : exists lv2 s2,
             match h with
             | Some tn => for_fold byk (fetched_path E tn byk) lv1
             | None => for_fold byk (fetched_flat E) lv1
             end (fetched_state (dkeys (lookup lv1)) byk st) = (Ok lv2, s2) /\
             default s2 = Some dl).
  { destruct h as [tn |].
    - destruct (path_loop_noop tn byk byk lv1
                  (fetched_state (dkeys (lookup lv1)) byk st) Hnd1 Hnot)
        as (lv2 & Hrun & _).
      exists lv2, (fetched_state (dkeys (lookup lv1)) byk st). now split.
    - assert (Hempty : byk = []).
      { destruct byk as [| [k row] byk']; [reflexivity |]. exfalso.
        pose proof (dget_In_not_None ((k, row) :: byk') k row (or_introl eq_refl))
          as Hin.
        destruct (dget ((k, row) :: byk') k) as [row' |] eqn:Hg; [| congruence].
        pose proof Hbyk as Hspec. apply by_key_spec in Hspec as (_ & K1 & _).
        destruct (K1 k row' Hg) as [Hin' Hrk].
        apply db_select_spec in Hin' as (r & k' & Hr & -> & Hrk' & Hk');
          [| apply In_selected].
        rewrite row_get_select_fields in Hrk by apply In_selected.
        assert (k' = k) by congruence. subst k'.
        destruct (dget (lookup lv1) k) as [b |] eqn:Hgl;
          [| now apply dget_None_notin in Hgl].
        destruct (Hfl1 k b Hgl) as (_ & Hnorow & Hb).
        specialize (Hb eq_refl). subst b.
        exact (Hnorow eq_refl r Hr Hrk'). }
      subst byk. cbn [for_fold].
      exists lv1, (fetched_state (dkeys (lookup lv1)) [] st). now split. }
  destruct Hloop as (lv2 & s2 & -> & Hdl2).
  unfold bind at 1. rewrite (default_phase_run lv2 s2 Hdl2).
  now eexists _, _.
Qed.

End AllUnresolved.

(** C7.  On a representer set up on a lookup table, with the default
    [lookup_rows]: whenever [_lookup] returns, every requested key that was
    not cached and has no row in the table is given the configured default
    label, under the value it was requested as, and it is not entered into
    [theset]; and such keys do not make [_lookup] raise: when no pending key
    has a row (and, under a hierarchy, the chains of parents end within the
    recursion limit), [_lookup] returns for all hashable values. *)
Theorem unresolved_keys_get_default (E : Env) (st : S3Represent) (t : Table)
    (name : string) (fs : list string) (d : dict string) (dl : string)
    (values : list pyval) :
  lookup_setting st t name fs d dl ->
  (forall its st',
      _lookup E values None st = (Ok its, st') ->
      forall v, In v values ->
        normalize (Some t) v <> PNone ->
        dget d (normalize (Some t) v) = None ->
        no_row t name (normalize (Some t) v) ->
        (exists v', In v' values /\
                    normalize (Some t) v' = normalize (Some t) v /\
                    dget its v' = Some dl) /\
        (exists d', theset st' = Some d' /\
                    dget d' (normalize (Some t) v) = None)) /\
  (Forall (fun v => hashable v = true) values ->
   (forall v, In v values ->
      normalize (Some t) v <> PNone -> dget d (normalize (Some t) v) = None ->
      no_row t name (normalize (Some t) v)) ->
   (hierarchical E st t = true ->
    forall v, In v values ->
      chain_ok E (_tablename t) (recursion_limit E) (normalize (Some t) v) = true) ->
   exists its st', _lookup E values None st = (Ok its, st')).
Proof.
  intros Hset. split.
  - intros its st' Hrun v Hv Hk Hunc Hno.
    destruct (lookup_unresolved E Hset values v Hrun Hv Hk Hunc Hno)
      as (H1 & H2 & _).
    split; assumption.
  - apply (lookup_all_unresolved E Hset).
Qed.

(** The representer of the organisations, set up. *)
Definition org_ready : S3Represent := snd (_setup demo_env org_represent).

Lemma org_ready_setting :
  lookup_setting org_ready org_table "id" ["name"] [] "Unknown".
Proof. split; try reflexivity. discriminate. Qed.

Lemma org_no_row_999 : no_row org_table "id" (PInt 999).
Proof.
  intros r [<- | [<- | [<- | []]]]; discriminate.
Qed.

(** C7 at work: the keys [1] and [999], of which only the first has a row. *)
Lemma unresolved_keys_get_default_witness :
  exists its st',
    _lookup demo_env [PInt 1; PInt 999] None org_ready = (Ok its, st') /\
    dget its (PInt 999) = Some "Unknown" /\
    exists d', theset st' = Some d' /\ dget d' (PInt 999) = None.
Proof.
  destruct (@unresolved_keys_get_default demo_env org_ready org_table "id"
              ["name"] [] "Unknown" [PInt 1; PInt 999] org_ready_setting)
    as [HA _].
  eexists _, _. split; [reflexivity |].
  destruct (HA _ _ eq_refl (PInt 999)) as ((v' & Hin & Hn & Hits) & Hd).
  - right. now left.
  - discriminate.
  - reflexivity.
  - exact org_no_row_999.
  - split; [| exact Hd].
    destruct Hin as [<- | [<- | []]]; [discriminate Hn | exact Hits].
Defined.

(** ** C6: an unresolved key is looked up again *)

(** C6, counterexample.  The key [999] has no row.  The first call fetches
    for it, and so does the second: the log of the fetches has two entries
    for the key and the counter [queries] is at two. *)
Lemma unresolved_key_retried :
  let st1 := snd (__call__ demo_env (PInt 999) None true org_represent) in
  let st2 := snd (__call__ demo_env (PInt 999) None true st1) in
  fst (__call__ demo_env (PInt 999) None true org_represent) = Ok (Text "Unknown") /\
  fetch_log st1 = [[PInt 999]] /\ queries st1 = 1 /\
  fetch_log st2 = [[PInt 999]; [PInt 999]] /\ queries st2 = 2.
Proof. repeat split. Qed.

Lemma lookup_setting_cfg st st' t name fs d d' dl :
  lookup_setting st t name fs d dl -> cfg st' = cfg st -> theset st' = Some d' ->
  lookup_setting st' t name fs d' dl.
Proof.
  intros [Hts Hnl Hdl Htb Hkey Hhas Hfs Hcu Hfe] Hc Hd'.
  split; auto; cfg_rewrite Hc; auto.
Qed.

(** C6, as amended.  A key that is not cached and has no row is not
    remembered as unresolved: [_lookup] gives it the default label and
    fetches for it, and a second [_lookup] for the same key on the same
    representer gives the default label again and fetches again. *)
Theorem unresolved_key_fetched_again (E : Env) (st : S3Represent) (t : Table)
    (name : string) (fs : list string) (d : dict string) (dl : string)
    (v : pyval) :
  lookup_setting st t name fs d dl ->
  hashable v = true ->
  normalize (Some t) v <> PNone ->
  dget d (normalize (Some t) v) = None ->
  no_row t name (normalize (Some t) v) ->
  (hierarchical E st t = true ->
   chain_ok E (_tablename t) (recursion_limit E) (normalize (Some t) v) = true) ->
  exists its1 st1 its2 st2 ks1 ks2,
    _lookup E [v] None st = (Ok its1, st1) /\
    _lookup E [v] None st1 = (Ok its2, st2) /\
    dget its1 v = Some dl /\ dget its2 v = Some dl /\
    fetch_log st1 = fetch_log st ++ [ks1] /\
    fetch_log st2 = fetch_log st1 ++ [ks2] /\
    In (normalize (Some t) v) ks1 /\ In (normalize (Some t) v) ks2 /\
    queries st2 = queries st + 2.
Proof.
  intros Hset Hh Hk Hunc Hno Hchain.
  assert (Hall : forall (s : S3Represent) (ds : dict string),
             lookup_setting s t name fs ds dl ->
             dget ds (normalize (Some t) v) = None ->
             hierarchical E s t = hierarchical E st t ->
             exists its s' ks,
               _lookup E [v] None s = (Ok its, s') /\
               dget its v = Some dl /\
               fetch_log s' = fetch_log s ++ [ks] /\
               In (normalize (Some t) v) ks /\
               queries s' = queries s + 1 /\ cfg s' = cfg s /\
               exists ds', theset s' = Some ds' /\
                           dget ds' (normalize (Some t) v) = None).
  { intros s ds Hs Hds Hhier.
    destruct (lookup_all_unresolved E Hs (values := [v])) as (its & s' & Hrun).
    - constructor; [exact Hh | constructor].
    - intros v0 [<- | []] _ _. exact Hno.
    - intros Hhs v0 [<- | []]. apply Hchain. now rewrite <- Hhier.
    - destruct (lookup_unresolved E Hs [v] v Hrun (or_introl eq_refl) Hk Hds Hno)
        as ((v' & Hin & _ & Hits) & Hd' & (ks & Hlog & Hks) & Hq & Hc).
      destruct Hin as [<- | []].
      exists its, s', ks. repeat split; auto. }
  destruct (Hall st d Hset Hunc eq_refl)
    as (its1 & st1 & ks1 & R1 & I1 & L1 & K1 & Q1 & C1 & d1 & T1 & U1).
  destruct (Hall st1 d1 (lookup_setting_cfg Hset C1 T1) U1)
    as (its2 & st2 & ks2 & R2 & I2 & L2 & K2 & Q2 & _).
  { unfold hierarchical. now cfg_rewrite C1. }
  exists its1, st1, its2, st2, ks1, ks2. repeat split; auto. lia.
Qed.

Lemma unresolved_key_fetched_again_witness :
  exists its1 st1 its2 st2 ks1 ks2,
    _lookup demo_env [PInt 999] None org_ready = (Ok its1, st1) /\
    _lookup demo_env [PInt 999] None st1 = (Ok its2, st2) /\
    dget its1 (PInt 999) = Some "Unknown" /\
    dget its2 (PInt 999) = Some "Unknown" /\
    fetch_log st1 = fetch_log org_ready ++ [ks1] /\
    fetch_log st2 = fetch_log st1 ++ [ks2] /\
    In (PInt 999) ks1 /\ In (PInt 999) ks2 /\
    queries st2 = queries org_ready + 2.
Proof.
  apply (@unresolved_key_fetched_again demo_env org_ready org_table "id"
           ["name"] [] "Unknown" (PInt 999) org_ready_setting).
  - reflexivity.
  - discriminate.
  - reflexivity.
  - exact org_no_row_999.
  - discriminate.
Defined.

(** ** Lookups of one value *)

Lemma dget_ddel_sub {V} (d : dict V) k x v :
  NoDup (dkeys d) -> dget (ddel d k) x = Some v -> dget d x = Some v.
Proof.
  intros Hnd. destruct (pyval_eqb k x) eqn:He.
  - apply pyval_eqb_true in He. subst x.
    rewrite dget_ddel_same by exact Hnd. discriminate.
  - rewrite dget_ddel_other; [auto | now apply pyval_eqb_neq].
Qed.

Section OneRequested.

Variable E : Env.

(** The loop over the fetched rows of a hierarchical table when one key [k]
    is requested and all other pending keys are ancestors: the row of [k] is
    rendered as a path, and nothing else happens to the object. *)
Lemma path_loop_single tn byk k l lv s row :
  NoDup (dkeys (lookup lv)) ->
  dget (lookup lv) k = Some true ->
  (forall x, x <> k -> dget (lookup lv) x <> Some true) ->
  dget l k = Some row ->
  exists lookup',
    for_fold l (fetched_path E tn byk) lv s =
    match _represent_path E (recursion_limit E) tn k row byk s with
    | (Ok lab, s') =>
        (Ok {| keys := keys lv;
               items := dset (items lv) (keys_get lv k) lab;
               lookup := lookup' |}, s')
    | (Exc e, s') => (Exc e, s')
    end /\
    dget lookup' k = None /\
    forall x b, dget lookup' x = Some b -> dget (lookup lv) x = Some b.
Proof.
  revert lv. induction l as [| [k0 row0] l IH]; intros lv Hnd Hk Hothers;
    cbn [dget]; [discriminate |].
  destruct (pyval_eqb k0 k) eqn:He.
  - apply pyval_eqb_true in He. subst k0. intros [= ->].
    cbn [for_fold]. unfold bind at 1. rewrite fetched_path_run. cbn [fst snd].
    rewrite Hk.
    destruct (_represent_path E (recursion_limit E) tn k row byk s)
      as [[lab | e] s'];
      [| exists []; split; [reflexivity | split; [reflexivity | discriminate]]].
    destruct (path_loop_noop E tn byk l (flat_step lv k lab) s')
      as (lv' & Hrun & Hk' & Hi' & Hl').
    + cbn [lookup flat_step set_items set_lookup]. now apply NoDup_dkeys_ddel.
    + intros kr _ Htrue. cbn [lookup flat_step set_items set_lookup] in Htrue.
      destruct (pyval_eqb k (fst kr)) eqn:Hkk.
      * apply pyval_eqb_true in Hkk. rewrite <- Hkk in Htrue.
        rewrite dget_ddel_same in Htrue by exact Hnd. discriminate.
      * apply pyval_eqb_neq in Hkk.
        apply dget_ddel_sub in Htrue; [| exact Hnd].
        apply (Hothers (fst kr)); congruence.
    + exists (lookup lv'). rewrite Hrun. split; [| split].
      * f_equal. destruct lv' as [ks' its' lk']. cbn in *. now subst.
      * destruct (dget (lookup lv') k) as [b |] eqn:Hg; [| reflexivity].
        apply Hl' in Hg. cbn [lookup flat_step set_items set_lookup] in Hg.
        rewrite dget_ddel_same in Hg by exact Hnd. discriminate.
      * intros x b Hx. apply Hl' in Hx.
        cbn [lookup flat_step set_items set_lookup] in Hx.
        now apply dget_ddel_sub in Hx.
  - intros Hrow. cbn [for_fold]. unfold bind at 1. rewrite fetched_path_run.
    cbn [fst snd]. apply pyval_eqb_neq in He.
    assert (Hpop : dget (lookup lv) k0 <> Some true) by (apply Hothers; congruence).
    set (lv1 := set_lookup (ddel (lookup lv) k0) lv).
    destruct (IH lv1) as (lookup' & Hrun & Hgone & Hsub); [| | | exact Hrow |].
    + now apply NoDup_dkeys_ddel.
    + cbn [lookup lv1 set_lookup]. now rewrite dget_ddel_other.
    + intros x Hx Htrue. cbn [lookup lv1 set_lookup] in Htrue.
      apply dget_ddel_sub in Htrue; [| exact Hnd]. now apply (Hothers x).
    + exists lookup'. split; [| split; [exact Hgone |]].
      * destruct (dget (lookup lv) k0) as [[|] |]; [congruence | |]; exact Hrun.
      * intros x b Hx. apply Hsub in Hx. cbn [lookup lv1 set_lookup] in Hx.
        now apply dget_ddel_sub in Hx.
Qed.

End OneRequested.

(** A value that is its own key: anything but the decimal string of an
    integer. *)
Definition normal (v : pyval) : bool :=
  match v with
  | PStr s => negb (is_Some (py_int s))
  | _ => true
  end.

Lemma normalize_normal tb v : normal v = true -> normalize tb v = v.
Proof.
  destruct v as [| z | s | l]; cbn; try reflexivity.
  destruct (is_Some tb); [| reflexivity].
  destruct (py_int s); [discriminate | reflexivity].
Qed.

(** The parents that the hierarchy reports are keys. *)
Definition parents_normal (E : Env) : Prop :=
  forall tn x, normal (hierarchy_parent E tn x) = true.

Lemma normalize_not_None tb v : truthy v = true -> is_None (normalize tb v) = false.
Proof.
  destruct v as [| z | s | l]; cbn; try reflexivity; [discriminate |].
  destruct (is_Some tb); [| reflexivity]. now destruct (py_int s).
Qed.

Lemma normalize_hashable tb v :
  hashable v = true -> hashable (normalize tb v) = true.
Proof.
  destruct v as [| z | s | l]; cbn; try reflexivity; [| discriminate].
  destruct (is_Some tb); [| reflexivity]. now destruct (py_int s).
Qed.

Section OneValue.

Variable E : Env.

(** The first loop of [_lookup] for one value that is not [None]. *)
Lemma scan_one st d v :
  theset st = Some d ->
  is_None (normalize (table st) v) = false ->
  fold_res (scan_step st) [v] no_locals =
  let k := normalize (table st) v in
  if hashable k then
    match dget d k with
    | Some l => Ok {| keys := [(k, v)]; items := [(v, l)]; lookup := [] |}
    | None => Ok {| keys := [(k, v)]; items := []; lookup := [(k, true)] |}
    end
  else Exc TypeError.
Proof.
  intros Hd Hk. cbn [fold_res]. unfold scan_step. cbv zeta.
  rewrite Hk, Hd. destruct (hashable (normalize (table st) v)); [| reflexivity].
  destruct (dget d (normalize (table st) v)); reflexivity.
Qed.

(** A value whose key is cached is served from [theset]: nothing is
    fetched and the object stays as it is. *)
Lemma lookup_cached st d v l rws :
  theset st = Some d ->
  is_None (normalize (table st) v) = false ->
  dget d (normalize (table st) v) = Some l ->
  hashable (normalize (table st) v) = true ->
  _lookup E [v] rws st = (Ok [(v, l)], st).
Proof.
  intros Hd Hk Hl Hh. rewrite lookup_scan, (scan_one st v Hd Hk). cbv zeta.
  rewrite Hh, Hl. cbn [lookup items]. now destruct (table st).
Qed.

End OneValue.

(** A dictionary with one key. *)
Lemma single_key_dict {V} (byk : dict V) k :
  NoDup (dkeys byk) ->
  (forall x row, dget byk x = Some row -> x = k) ->
  dget byk k <> None ->
  exists row, byk = [(k, row)].
Proof.
  destruct byk as [| [k0 row0] rest]; cbn; [congruence |].
  intros Hnd Hall _.
  assert (Hk0 : k0 = k).
  { apply (Hall k0 row0). now rewrite pyval_eqb_refl. }
  subst k0. exists row0. destruct rest as [| [k1 row1] rest]; [reflexivity |].
  exfalso. inversion Hnd as [| ? ? Hnin _]; subst.
  assert (Hk1 : k1 = k).
  { apply (Hall k1 row1). destruct (pyval_eqb k k1) eqn:He.
    - apply pyval_eqb_true in He. subst k1. exfalso. apply Hnin. now left.
    - cbn. now rewrite pyval_eqb_refl. }
  apply Hnin. left. exact Hk1.
Qed.

Section Popped.

Variable E : Env.

(** The loop over the fetched rows of a hierarchical table takes the key of
    every row out of the pending keys. *)
Lemma path_loop_pops tn byk l :
  forall lv s lv' s',
    NoDup (dkeys (lookup lv)) ->
    for_fold l (fetched_path E tn byk) lv s = (Ok lv', s') ->
    forall x, dget (lookup lv) x = None \/ In x (dkeys l) ->
              dget (lookup lv') x = None.
Proof.
  induction l as [| kr l IH]; intros lv s lv' s' Hnd; cbn [for_fold].
  - intros [= <- <-] x [Hx | []]. exact Hx.
  - intros Hrun x Hx. apply bind_ok in Hrun as (lv1 & s1 & Hstep & Hrest).
    assert (Hlk : lookup lv1 = ddel (lookup lv) (fst kr)).
    { rewrite fetched_path_run in Hstep.
      destruct (dget (lookup lv) (fst kr)) as [[|] |];
        [| now injection Hstep as <- <- | now injection Hstep as <- <-].
      destruct (_represent_path E _ tn (fst kr) (snd kr) byk s) as [[lab | e] s2];
        [now injection Hstep as <- <- | discriminate]. }
    apply (IH lv1 s1 lv' s'); [rewrite Hlk; now apply NoDup_dkeys_ddel | exact Hrest |].
    rewrite Hlk. destruct (pyval_eqb (fst kr) x) eqn:He.
    + apply pyval_eqb_true in He. subst x. left. now apply dget_ddel_same.
    + apply pyval_eqb_neq in He. rewrite dget_ddel_other by exact He.
      destruct Hx as [Hx | [Hx | Hx]]; [now left | congruence | now right].
Qed.

End Popped.

(** The local variables of [_lookup] when one uncached key is pending. *)
Definition one_pending (k v : pyval) (lk : dict bool) : locals :=
  {| keys := [(k, v)]; items := []; lookup := lk |}.

(** ... and when the key has been given the label [lab]. *)
Definition one_labelled (k v : pyval) (lab : string) (lk : dict bool) : locals :=
  {| keys := [(k, v)]; items := [(v, lab)]; lookup := lk |}.

Lemma fill_default_one dl k v lab lk :
  (forall x, In x (dkeys lk) -> x <> k /\ x <> v) ->
  dget (items (fill_default dl (one_labelled k v lab lk))) v = Some lab.
Proof.
  intros Hlk. rewrite fill_default_items. cbn [lookup items one_labelled dget].
  rewrite pyval_eqb_refl.
  assert (Hex : existsb (fun x => pyval_eqb (keys_get (one_labelled k v lab lk) x) v)
                        (dkeys lk) = false).
  { destruct (existsb _ (dkeys lk)) eqn:Hex; [| reflexivity]. exfalso.
    apply existsb_exists in Hex as (x & Hin & Hx).
    destruct (Hlk x Hin) as [Hxk Hxv].
    unfold keys_get in Hx. cbn [keys one_labelled dget] in Hx.
    assert (Hkx : pyval_eqb k x = false) by (apply pyval_eqb_neq; congruence).
    rewrite Hkx in Hx. apply pyval_eqb_true in Hx. contradiction. }
  now rewrite Hex.
Qed.

(** Some record of the table has the key [k]. *)
Definition has_row (t : Table) (name : string) (k : pyval) : Prop :=
  exists r, In r (t_rows t) /\ row_get r name = Some k.

Section Resolved.

Variable E : Env.
Variables (st : S3Represent) (t : Table) (name : string) (fs : list string)
          (d : dict string) (dl : string).
Hypothesis Hset : lookup_setting st t name fs d dl.

Variables (v k : pyval).
Hypothesis Hkey : k = normalize (Some t) v.
Hypothesis Hnone : is_None k = false.
Hypothesis Hhash : hashable k = true.
Hypothesis Huncached : dget d k = None.

(** [_lookup] of one value with an uncached key, up to the fetch. *)
Lemma lookup_one_head :
  _lookup E [v] None st =
  (lvh <- with_ancestors E t (one_pending k v [(k, true)]) ;;
   resolve E t name (snd lvh) None (fst lvh)) st.
Proof.
  destruct Hset as [Hts Hnl Hdl Htb Hk Hhas Hfs Hcu Hfe].
  rewrite lookup_scan.
  rewrite (scan_one st v Hts) by (rewrite Htb, <- Hkey; exact Hnone).
  cbv zeta. rewrite Htb, <- Hkey, Hhash, Huncached. cbn [lookup].
  unfold bind at 1 3.
  destruct (with_ancestors E t _ st) as [[lvh | e] s1] eqn:Hwa; [| reflexivity].
  fold (one_pending k v [(k, true)]) in Hwa.
  destruct (with_ancestors_spec E st t (one_pending k v [(k, true)]) Hts)
    as (W1 & _).
  rewrite Hwa in W1. cbn [snd] in W1. subst s1.
  unfold bind at 1. unfold gets at 1. rewrite Hk, Hhas. reflexivity.
Qed.

(** The fetch for pending keys among which is [k], when [k] has a row. *)
Lemma fetch_one (lk : dict bool) :
  has_row t name k -> In k (dkeys lk) ->
  (forall x, In x (dkeys lk) -> hashable x = true) ->
  exists byk row r,
    by_key name (db_select t name (dkeys lk) (selected t fs name)) = Ok byk /\
    dget byk k = Some row /\
    In r (t_rows t) /\ row_get r name = Some k /\
    row = select_fields (selected t fs name) r.
Proof.
  intros (r0 & Hr0 & Hrk0) Hin Hh.
  destruct (@by_key_total name (db_select t name (dkeys lk) (selected t fs name)))
    as (byk & Hbyk).
  { apply Forall_forall. intros row Hrow.
    apply db_select_spec in Hrow as (r & x & Hr & -> & Hrx & Hx);
      [| apply In_selected].
    exists x. split; [| now apply Hh].
    rewrite row_get_select_fields by apply In_selected. exact Hrx. }
  pose proof (by_key_spec _ _ Hbyk) as (_ & K1 & K2).
  assert (Hsel : In (select_fields (selected t fs name) r0)
                    (db_select t name (dkeys lk) (selected t fs name))).
  { apply db_select_spec; [apply In_selected |]. now exists r0, k. }
  specialize (K2 _ k Hsel).
  rewrite row_get_select_fields in K2 by apply In_selected.
  specialize (K2 Hrk0).
  destruct (dget byk k) as [row |] eqn:Hg; [| congruence].
  destruct (K1 k row Hg) as [Hrow Hrowk].
  apply db_select_spec in Hrow as (r & x & Hr & -> & Hrx & Hx);
    [| apply In_selected].
  rewrite row_get_select_fields in Hrowk by apply In_selected.
  exists byk, (select_fields (selected t fs name) r), r. repeat split; auto.
Qed.

(** A flat table: the row of the key is rendered and cached. *)
Lemma resolve_flat_one :
  has_row t name k ->
  exists row r,
    In r (t_rows t) /\ row_get r name = Some k /\
    row = select_fields (selected t fs name) r /\
    resolve E t name None None (one_pending k v [(k, true)]) st =
    match render_row E st row None with
    | Ok l => (Ok [(v, l)],
               set_theset (Some (dset d k l)) (fetched_state [k] [(k, row)] st))
    | Exc e => (Exc e, fetched_state [k] [(k, row)] st)
    end.
Proof.
  pose proof Hset as [Hts Hnl Hdl Htb Hk Hhas Hfs Hcu Hfe].
  intros Hrow.
  destruct (@fetch_one [(k, true)] Hrow) as (byk & row & r & Hbyk & Hg & Hr & Hrk & Hsel).
  { now left. }
  { intros x [<- | []]. exact Hhash. }
  exists row, r. repeat (split; [assumption |]).
  rewrite (resolve_run E st Hcu). cbn [lookup one_pending].
  unfold bind at 1. rewrite (fetch_phase_run E st Hcu Hfe Hfs). cbv zeta.
  cbn [lookup one_pending dkeys map fst] in *. rewrite Hbyk.
  pose proof (by_key_spec _ _ Hbyk) as (Hnd & K1 & _).
  destruct (@single_key_dict _ byk k Hnd) as (row' & ->).
  { intros x rw Hx. destruct (K1 x rw Hx) as [Hin Hxx].
    apply db_select_spec in Hin as (r1 & x1 & _ & Hrw & Hr1 & [<- | []]);
      [| apply In_selected].
    rewrite Hrw, row_get_select_fields in Hxx by apply In_selected. congruence. }
  { congruence. }
  cbn [dget] in Hg. rewrite pyval_eqb_refl in Hg. injection Hg as ->.
  cbn [for_fold]. unfold bind at 1. rewrite fetched_flat_run. cbn [fst snd].
  rewrite (@render_row_cfg E (fetched_state [k] [(k, row)] st) st row None eq_refl).
  destruct (render_row E st row None) as [l | e]; [| reflexivity].
  change (theset (fetched_state [k] [(k, row)] st)) with (theset st).
  rewrite Hts. cbv beta iota delta [ret]. unfold bind at 1.
  rewrite (default_phase_run _ _ (dl := dl)) by exact Hdl.
  cbv beta iota delta [ret]. f_equal. f_equal.
  unfold fill_default, flat_step, keys_get.
  cbn [keys items lookup one_pending set_items set_lookup dget ddel dset].
  rewrite pyval_eqb_refl. reflexivity.
Qed.

End Resolved.

Section ResolvedPath.

Variable E : Env.
Variables (st : S3Represent) (t : Table) (name : string) (fs : list string)
          (d : dict string) (dl : string).
Hypothesis Hset : lookup_setting st t name fs d dl.

Variables (v k : pyval).
Hypothesis Hhash : hashable k = true.

(** A hierarchical table: the path of the key is rendered; the ancestors
    that are still pending afterwards have no row. *)
Lemma resolve_hier_one tn (extra : dict bool) :
  Forall (fun kv => snd kv = false) extra ->
  NoDup (dkeys ((k, true) :: extra)) ->
  (forall x, In x (dkeys extra) -> hashable x = true) ->
  has_row t name k ->
  exists byk row r,
    by_key name (db_select t name (k :: dkeys extra) (selected t fs name)) = Ok byk /\
    dget byk k = Some row /\
    In r (t_rows t) /\ row_get r name = Some k /\
    row = select_fields (selected t fs name) r /\
    exists lookup',
      (forall x, In x (dkeys lookup') ->
         x <> k /\ In x (dkeys extra) /\ dget byk x = None) /\
      resolve E t name (Some tn) None (one_pending k v ((k, true) :: extra)) st =
      match _represent_path E (recursion_limit E) tn k row byk
              (fetched_state (k :: dkeys extra) byk st) with
      | (Ok lab, s') =>
          (Ok (items (fill_default dl (one_labelled k v lab lookup'))), s')
      | (Exc e, s') => (Exc e, s')
      end.
Proof.
  pose proof Hset as [Hts Hnl Hdl Htb Hk Hhas Hfs Hcu Hfe].
  intros Hflags Hnd Hh Hrow.
  destruct (@fetch_one t name fs k ((k, true) :: extra) Hrow)
    as (byk & row & r & Hbyk & Hg & Hr & Hrk & Hsel).
  { now left. }
  { intros x [<- | Hx]; [exact Hhash | now apply Hh]. }
  cbn [dkeys map fst] in Hbyk. fold (dkeys extra) in Hbyk.
  exists byk, row, r. repeat (split; [assumption |]).
  set (lv := one_pending k v ((k, true) :: extra)).
  assert (Hrun : resolve E t name (Some tn) None lv st =
                 (lv2 <- for_fold byk (fetched_path E tn byk) lv ;;
                  lv3 <- default_phase lv2 ;; ret (items lv3))
                   (fetched_state (k :: dkeys extra) byk st)).
  { rewrite (resolve_run E st Hcu). cbn [lookup lv one_pending].
    unfold bind at 1. rewrite (fetch_phase_run E st Hcu Hfe Hfs). cbv zeta.
    cbn [lookup lv one_pending dkeys map fst]. fold (dkeys extra).
    rewrite Hbyk. reflexivity. }
  rewrite Hrun. clear Hrun.
  destruct (@path_loop_single E tn byk k byk lv
              (fetched_state (k :: dkeys extra) byk st) row)
    as (lookup' & Hloop & Hgone & Hsub).
  { exact Hnd. }
  { cbn [lookup lv one_pending dget]. now rewrite pyval_eqb_refl. }
  { intros x Hx. cbn [lookup lv one_pending dget].
    assert (Hkx : pyval_eqb k x = false) by (apply pyval_eqb_neq; congruence).
    rewrite Hkx. intros Htrue. apply dget_In in Htrue.
    rewrite Forall_forall in Hflags. specialize (Hflags _ Htrue). discriminate. }
  { exact Hg. }
  destruct (_represent_path E (recursion_limit E) tn k row byk
              (fetched_state (k :: dkeys extra) byk st)) as [[lab | e] s'] eqn:Hrp.
  - exists lookup'. split.
    + intros x Hx.
      destruct (dget lookup' x) as [b |] eqn:Hgx;
        [| now apply dget_None_notin in Hgx].
      assert (Hxk : x <> k) by (intros ->; congruence).
      split; [exact Hxk |]. split.
      * apply Hsub in Hgx. apply dget_Some_In_dkeys in Hgx.
        cbn [lookup lv one_pending dkeys map fst] in Hgx.
        destruct Hgx as [<- | Hgx]; [congruence | exact Hgx].
      * destruct (dget byk x) as [rowx |] eqn:Hbx; [| reflexivity].
        apply dget_Some_In_dkeys in Hbx.
        pose proof (@path_loop_pops E tn byk byk lv _ _ _ Hnd Hloop x (or_intror Hbx))
          as Hpop.
        cbn [lookup] in Hpop. congruence.
    + unfold bind at 1. rewrite Hloop. unfold bind at 1.
      rewrite (default_phase_run _ _ (dl := dl))
        by (destruct (represent_path_spec E _ tn byk _ _
                        (fetched_state (k :: dkeys extra) byk st) (d := d) Hts Hrp)
              as (d' & -> & _); exact Hdl).
      cbv beta iota delta [ret]. f_equal. f_equal. f_equal.
      unfold one_labelled, keys_get.
      cbn [keys items lv one_pending dget dset]. now rewrite pyval_eqb_refl.
  - exists []. split; [intros x [] |].
    unfold bind at 1. now rewrite Hloop.
Qed.

End ResolvedPath.

(** ** C3: the second request of a value *)

Section Twice.

Variable E : Env.
Hypothesis Hparents : parents_normal E.

(** A lookup of one value whose key has a row leaves the object in a state
    in which the same lookup is served from [theset]. *)
Lemma lookup_one_resolved st t name fs d dl v its st1 :
  lookup_setting st t name fs d dl ->
  truthy v = true ->
  has_row t name (normalize (Some t) v) ->
  _lookup E [v] None st = (Ok its, st1) ->
  exists d1 l,
    theset st1 = Some d1 /\ dget d1 (normalize (Some t) v) = Some l /\
    dget its v = Some l /\ hashable (normalize (Some t) v) = true /\
    cfg st1 = cfg st.
Proof.
  intros Hs Hv Hrow Hrun.
  pose proof Hs as [Hts Hnl Hdl Htb Hk Hhas Hfs Hcu Hfe].
  set (k := normalize (Some t) v) in *.
  assert (Hnone : is_None k = false) by now apply normalize_not_None.
  assert (Hhash : hashable k = true).
  { rewrite lookup_scan, (scan_one st v Hts) in Hrun by now rewrite Htb.
    cbv zeta in Hrun. rewrite Htb in Hrun. fold k in Hrun.
    destruct (hashable k); [reflexivity | discriminate]. }
  destruct (dget d k) as [l |] eqn:Hd.
  { rewrite (lookup_cached E st v (d := d) (l := l)) in Hrun
      by (rewrite ?Htb; assumption).
    injection Hrun as <- <-. exists d, l. cbn [dget].
    rewrite pyval_eqb_refl. auto. }
  rewrite (lookup_one_head E Hs v eq_refl Hnone Hhash Hd) in Hrun.
  fold k in Hrun.
  apply bind_ok in Hrun as ([lv1 h] & s1 & Hanc & Hrun). cbn [fst snd] in Hrun.
  destruct (with_ancestors_spec E st t (one_pending k v [(k, true)]) Hts)
    as (W1 & W2 & _).
  rewrite Hanc in W1, W2. cbn [fst snd] in W1, W2. subst s1.
  destruct (W2 _ eq_refl) as (Hk1 & Hi1 & Hlk1). cbn [fst snd] in Hk1, Hi1, Hlk1.
  destruct Hlk1 as [(_ & [= -> ->]) | (_ & -> & (extra & Hlk & Hextra & Hnd))].
  - (* a flat table *)
    destruct (resolve_flat_one E Hs v Hhash Hrow)
      as (row & r & _ & _ & _ & Hres).
    fold k in Hres. rewrite Hres in Hrun.
    destruct (render_row E st row None) as [l | e]; [| discriminate].
    injection Hrun as <- <-. exists (dset d k l), l.
    split; [reflexivity |]. split; [apply dget_dset_same |].
    cbn [dget]. rewrite pyval_eqb_refl. auto.
  - (* a hierarchical table *)
    assert (Hlv1 : lv1 = one_pending k v ((k, true) :: extra)).
    { destruct lv1 as [ks its1 lk1]. cbn in Hk1, Hi1, Hlk. now subst. }
    subst lv1.
    destruct (resolve_hier_one E Hs v Hhash (_tablename t) (extra := extra))
      as (byk & row & r & _ & _ & _ & _ & _ & lookup' & Hrest & Hres).
    { rewrite Forall_forall in Hextra |- *. intros kv Hkv.
      now destruct (Hextra kv Hkv). }
    { apply Hnd. repeat constructor. intros []. }
    { intros x Hx. apply in_map_iff in Hx as (kv & <- & Hkv).
      rewrite Forall_forall in Hextra. now destruct (Hextra kv Hkv) as (_ & _ & ? & _). }
    { exact Hrow. }
    rewrite Hres in Hrun.
    destruct (_represent_path E (recursion_limit E) (_tablename t) k row byk
                (fetched_state (k :: dkeys extra) byk st))
      as [[lab | e] s'] eqn:Hrp; [| discriminate].
    injection Hrun as <- <-.
    destruct (represent_path_spec E _ (_tablename t) byk _ _
                (fetched_state (k :: dkeys extra) byk st) (d := d) Hts Hrp)
      as (d' & -> & _ & _ & Hlab).
    exists d', lab. split; [reflexivity |]. split; [now apply Hlab |].
    split; [| auto].
    apply fill_default_one. intros x Hx.
    destruct (Hrest x Hx) as (Hxk & Hxe & _). split; [exact Hxk |].
    apply in_map_iff in Hxe as (kv & <- & Hkv).
    rewrite Forall_forall in Hextra.
    destruct (Hextra kv Hkv) as (_ & _ & _ & _ & y & Hy).
    intros Hxv. apply Hxk. unfold k. rewrite <- Hxv at 1.
    rewrite normalize_normal; [reflexivity |]. rewrite Hy. apply Hparents.
Qed.

End Twice.

(** [link] reads the object and wraps the label. *)
Lemma link_run E k v row st :
  snd (link E k v row st) = st /\
  exists r, fst (link E k v row st) = Ok r /\
            (r = Text v \/ exists href, r = A v href).
Proof.
  unfold link. mrun. destruct (linkto st) as [url |]; mrun.
  - destruct (negb (url =? "")); mrun; split; try reflexivity; eauto.
  - split; [reflexivity | eauto].
Qed.

Lemma link_cfg E k v row a b :
  cfg a = cfg b -> fst (link E k v row a) = fst (link E k v row b).
Proof.
  intros H. unfold link. mrun. cfg_rewrite H.
  destruct (linkto b) as [url |]; mrun; [| reflexivity].
  destruct (negb (url =? "")); reflexivity.
Qed.

(** What [__call__] makes of the labels of a lookup. *)
Definition labelled (E : Env) (value : pyval) (show_link : bool)
    (its : dict string) : M markup :=
  match dget its value with
  | Some v =>
      if show_link then
        rw <- gets rows ;;
        link E value v (dget rw value)
      else ret (Text v)
  | None => df <- gets default ;; l <- label_of df ;; ret (Text l)
  end.

Lemma call_run E st value sl :
  setup st = true -> list_type st = false -> truthy value = true ->
  __call__ E value None sl st =
  (its <- _lookup E [value] None ;; labelled E value (sl && show_link st) its) st.
Proof.
  intros Hs Hlt Hv. unfold __call__, labelled. unfold bind at 1.
  rewrite setup_done by exact Hs. mrun. now rewrite Hlt, Hv.
Qed.

Lemma api_blind_show_link : api_blind show_link.
Proof. split; [split |..]; reflexivity. Qed.

Lemma api_blind_lookup_rows : api_blind lookup_rows.
Proof. split; [split |..]; reflexivity. Qed.

Lemma api_blind_custom_lookup : api_blind custom_lookup.
Proof. split; [split |..]; reflexivity. Qed.

(** A set-up representer with a table is in a lookup setting. *)
Lemma ready_setting st t name :
  ready st = true -> table st = Some t -> key st = Some name ->
  has_field t name = true ->
  custom_lookup st = false -> lookup_rows st = None ->
  exists fs d dl, lookup_setting st t name fs d dl.
Proof.
  unfold ready. intros Hr Ht Hk Hhas Hcu Hfe. rewrite Ht, Hk in Hr.
  destruct (none st) eqn:Hn, (default st) as [dl |] eqn:Hd,
           (theset st) as [d |] eqn:Hts, (fields st) as [fs |] eqn:Hfs;
    rewrite ?andb_false_r in Hr; try discriminate.
  exists fs, d, dl. split; auto. congruence.
Qed.

(** C3.  Let the representer be well-formed, not list-type and with the
    default fetch, let the hierarchy report keys as parents, and let the key
    of the value [v] have a row in the lookup table.  When [__call__] has
    returned [r1] for [v], a second [__call__] for [v] on the same object
    returns [r1] again and leaves the object as it is: nothing is fetched and
    [queries] does not change.  For a truthy [v] the label is then in
    [theset], under the key of [v]. *)
Theorem call_twice_served_from_cache (E : Env) (st : S3Represent) (v : pyval)
    (sl : bool) (r1 : markup) (st1 : S3Represent) (t : Table) (name : string) :
  parents_normal E ->
  wf st = true -> list_type st = false ->
  lookup_rows st = None -> custom_lookup st = false ->
  table (snd (_setup E st)) = Some t -> key (snd (_setup E st)) = Some name ->
  has_field t name = true ->
  has_row t name (normalize (Some t) v) ->
  __call__ E v None sl st = (Ok r1, st1) ->
  __call__ E v None sl st1 = (Ok r1, st1) /\
  fetch_log (snd (__call__ E v None sl st1)) = fetch_log st1 /\
  queries (snd (__call__ E v None sl st1)) = queries st1 /\
  (truthy v = true ->
   exists d1 l, theset st1 = Some d1 /\
                dget d1 (normalize (Some t) v) = Some l /\
                (r1 = Text l \/ exists href, r1 = A l href)).
Proof.
  intros Hpar Hwf Hlt Hfe Hcu Htb Hkey Hhas Hrow Hrun.
  assert (Hok : fst (_setup E st) = Ok tt).
  { revert Hrun. unfold __call__. unfold bind at 1.
    destruct (_setup E st) as [[[] | e] st0]; [reflexivity | discriminate]. }
  pose proof (setup_ok E st Hwf Hok) as (Hready & Hnone & _). cbv zeta in *.
  pose proof (stable_setup E (ab_setup api_blind_list_type) st) as Hl.
  pose proof (stable_setup E (ab_setup api_blind_lookup_rows) st) as Hf.
  pose proof (stable_setup E (ab_setup api_blind_custom_lookup) st) as Hc.
  unfold preserves in Hl, Hf, Hc. rewrite Hlt in Hl. rewrite Hfe in Hf.
  rewrite Hcu in Hc.
  assert (Hfirst : __call__ E v None sl st
                   = __call__ E v None sl (snd (_setup E st))).
  { destruct (_setup E st) as [[[] | e] st0] eqn:Hsetup; [| discriminate].
    cbn [snd] in *. unfold __call__.
    assert (Hdone : setup st0 = true).
    { unfold ready in Hready. now destruct (setup st0). }
    rewrite (@bind_run _ _ _ _ _ _ _ Hsetup).
    now rewrite (@bind_run _ _ _ _ _ _ _ (setup_done E st0 Hdone)). }
  rewrite Hfirst in Hrun. clear Hfirst.
  set (st0 := snd (_setup E st)) in *. clearbody st0.
  assert (Hsetup : setup st0 = true).
  { unfold ready in Hready. now destruct (setup st0). }
  assert (Hgoal : __call__ E v None sl st1 = (Ok r1, st1) /\
                  (truthy v = true ->
                   exists d1 l, theset st1 = Some d1 /\
                     dget d1 (normalize (Some t) v) = Some l /\
                     (r1 = Text l \/ exists href, r1 = A l href))).
  { destruct (truthy v) eqn:Hv.
    - rewrite call_run in Hrun by assumption.
      apply bind_ok in Hrun as (its & s1 & Hlook & Hrest).
      destruct (ready_setting st0 Hready Htb Hkey Hhas Hc Hf) as (fs & d & dl & Hs).
      destruct (@lookup_one_resolved E Hpar _ _ _ _ _ _ _ _ _ Hs Hv Hrow Hlook)
        as (d1 & l & Hd1 & Hl1 & Hits & Hhash & Hcfg).
      assert (Hst1 : st1 = s1 /\
                     labelled E v (sl && show_link st0) [(v, l)] s1 = (Ok r1, s1) /\
                     (r1 = Text l \/ exists href, r1 = A l href)).
      { revert Hrest. unfold labelled. rewrite Hits. cbn [dget].
        rewrite pyval_eqb_refl.
        destruct (sl && show_link st0).
        - mrun. destruct (link_run E v l (dget (rows s1) v) s1) as (Hsnd & r & Hfst & Hr).
          destruct (link E v l (dget (rows s1) v) s1) as [rr ss]. cbn [fst snd] in *.
          subst. intros [= <- <-]. auto.
        - mrun. intros [= <- <-]. auto. }
      destruct Hst1 as (-> & Hlab & Hr1).
      split; [| intros _; exists d1, l; auto].
      rewrite call_run;
        [| rewrite (cfg_field setup (fun _ => eq_refl) Hcfg); exact Hsetup
         | rewrite (cfg_field list_type (fun _ => eq_refl) Hcfg); exact Hl
         | exact Hv].
      unfold bind at 1.
      rewrite (lookup_cached E s1 v (d := d1) (l := l));
        [| exact Hd1
         | rewrite (cfg_field table (fun _ => eq_refl) Hcfg), Htb;
           now apply normalize_not_None
         | rewrite (cfg_field table (fun _ => eq_refl) Hcfg), Htb; exact Hl1
         | rewrite (cfg_field table (fun _ => eq_refl) Hcfg), Htb; exact Hhash].
      rewrite (cfg_field show_link (fun _ => eq_refl) Hcfg). exact Hlab.
    - assert (Hsame : st1 = st0).
      { revert Hrun. unfold __call__. unfold bind at 1.
        rewrite setup_done by exact Hsetup. mrun. rewrite Hl, Hv.
        unfold label_of. destruct (none st0); mrun; now intros [= _ <-]. }
      subst st1. split; [exact Hrun | discriminate]. }
  destruct Hgoal as [Hsecond Hcache]. rewrite Hsecond. cbn [snd]. auto.
Qed.

Lemma demo_parents_normal : parents_normal demo_env.
Proof.
  intros tn x. cbn [hierarchy_parent demo_env].
  destruct x as [| z | s | l]; try reflexivity.
  destruct z as [| p | p]; try reflexivity.
  destruct p as [p | p |]; try reflexivity; destruct p; reflexivity.
Qed.

(** The hypotheses of C3 hold of the representer of the locations and the
    location [3], whose path is fetched by the first call. *)
Lemma call_twice_served_from_cache_witness :
  let st1 := snd (__call__ demo_env (PInt 3) None true loc_represent) in
  __call__ demo_env (PInt 3) None true st1 = (Ok (Text "C > B > A"), st1) /\
  fetch_log (snd (__call__ demo_env (PInt 3) None true st1)) = fetch_log st1 /\
  queries (snd (__call__ demo_env (PInt 3) None true st1)) = queries st1 /\
  (truthy (PInt 3) = true ->
   exists d1 l, theset st1 = Some d1 /\
                dget d1 (normalize (Some loc_table) (PInt 3)) = Some l /\
                (Text "C > B > A" = Text l \/
                 exists href, Text "C > B > A" = A l href)).
Proof.
  intros st1.
  apply (@call_twice_served_from_cache demo_env loc_represent (PInt 3) true
           (Text "C > B > A") st1 loc_table "id").
  - exact demo_parents_normal.
  - reflexivity.
  - reflexivity.
  - reflexivity.
  - reflexivity.
  - reflexivity.
  - reflexivity.
  - reflexivity.
  - exists (org_row 3 "A"). split; [right; right; left |]; reflexivity.
  - subst st1. vm_compute. reflexivity.
Defined.

(** ** C2: the path of a node in a hierarchy *)

Lemma append_empty (s : string) : (s ++ "")%string = s.
Proof. induction s as [| c s IH]; cbn; [reflexivity | now rewrite IH]. Qed.

(** The default template of a hierarchy. *)
Lemma format_default_template p out :
  format_args "%s > %s" [p; out] = Ok (p ++ " > " ++ out)%string.
Proof. cbn. now rewrite append_empty. Qed.

(** The label of a row under the label of its parent, as [represent_row]
    composes it. *)
Definition join_path (st : S3Represent) (prefix out : string) : res string :=
  if negb (String.eqb prefix "") && hierarchy_truthy (hierarchy st)
  then format_args (htemplate st) [prefix; out]
  else Ok out.

(** The records with the key [k] exist, and are all rendered as [l]. *)
Definition row_label (E : Env) (st : S3Represent) (t : Table) (name : string)
    (fs : list string) (k : pyval) (l : string) : Prop :=
  has_row t name k /\
  forall r, In r (t_rows t) -> row_get r name = Some k ->
            render_row E st (select_fields (selected t fs name) r) None = Ok l.

Section Path.

Variable E : Env.

(** [_represent_path] of a root that is not cached. *)
Lemma represent_path_root fuel tn value row rws st d l :
  theset st = Some d -> hashable value = true -> dget d value = None ->
  truthy (hierarchy_parent E tn value) = false ->
  render_row E st row None = Ok l ->
  _represent_path E (S fuel) tn value row rws st =
  (Ok l, set_theset (Some (dset d value l)) st).
Proof.
  intros Hd Hh Hv Hp Hl. rewrite represent_path_unfold, Hd, Hh, Hv.
  cbv zeta. rewrite Hp. unfold bind at 1. cbv beta iota delta [ret].
  unfold bind at 1. rewrite represent_row_run, Hl.
  unfold theset_put, the_set. mrun. now rewrite Hd.
Qed.

(** [_represent_path] of a node that is not cached, and whose parent is not
    cached either but has a row. *)
Lemma represent_path_child fuel tn value row rws st d prow p d1 out l :
  theset st = Some d -> hashable value = true -> dget d value = None ->
  truthy (hierarchy_parent E tn value) = true ->
  hashable (hierarchy_parent E tn value) = true ->
  dget d (hierarchy_parent E tn value) = None ->
  dget rws (hierarchy_parent E tn value) = Some prow ->
  _represent_path E fuel tn (hierarchy_parent E tn value) prow rws st =
    (Ok p, set_theset (Some d1) st) ->
  render_row E st row None = Ok out ->
  join_path st p out = Ok l ->
  _represent_path E (S fuel) tn value row rws st =
  (Ok l, set_theset (Some (dset d1 value l)) st).
Proof.
  intros Hd Hh Hv Hpt Hph Hpd Hpr Hrec Hout Hl.
  rewrite represent_path_unfold, Hd, Hh, Hv.
  cbv zeta. rewrite Hpt. unfold hash. rewrite Hph.
  unfold bind at 1. unfold bind at 1. cbv beta iota delta [ret].
  rewrite Hpd, Hpr. unfold bind at 1. rewrite Hrec.
  cbv beta iota delta [ret]. unfold bind at 1. rewrite represent_row_run.
  assert (Hrender : render_row E (set_theset (Some d1) st) row (Some p) = Ok l).
  { rewrite (@render_row_cfg E (set_theset (Some d1) st) st row (Some p) eq_refl).
    rewrite (render_row_prefix E st row p Hout). exact Hl. }
  rewrite Hrender. unfold theset_put, the_set. mrun. reflexivity.
Qed.

End Path.

Section Chain.

Variable E : Env.
Variables (st : S3Represent) (d : dict string) (tn : string).
Hypothesis Hd : theset st = Some d.

Variables (a b c : pyval).
Hypothesis Hab : hierarchy_parent E tn a = b.
Hypothesis Hbc : hierarchy_parent E tn b = c.
Hypothesis Hroot : truthy (hierarchy_parent E tn c) = false.
Hypothesis Htb : truthy b = true.
Hypothesis Htc : truthy c = true.

(** The nodes of a chain that ends are distinct. *)
Lemma chain_distinct : a <> b /\ b <> c /\ a <> c.
Proof.
  assert (Hbc' : b <> c).
  { intros Heq. rewrite <- Heq, Hbc, <- Heq, Htb in Hroot. discriminate. }
  assert (Hac : a <> c).
  { intros Heq. rewrite <- Heq, Hab, Htb in Hroot. discriminate. }
  split; [| auto]. intros Heq. apply Hbc'. congruence.
Qed.

Hypothesis Hhb : hashable b = true.
Hypothesis Hhc : hashable c = true.
Hypothesis Hdb : dget d b = None.
Hypothesis Hdc : dget d c = None.
Hypothesis Hlimit : (3 <= recursion_limit E)%nat.

(** The ancestors of [a] are enqueued behind it, flagged as not
    requested. *)
Lemma enqueue_chain :
  enqueue_ancestors E tn [(a, true)] st =
  (Ok [(a, true); (b, false); (c, false)], st).
Proof.
  destruct chain_distinct as (Nab & Nbc & Nac).
  apply pyval_eqb_neq in Nab, Nbc, Nac.
  unfold enqueue_ancestors. cbn [dkeys map fst for_fold]. unfold bind at 1.
  destruct (recursion_limit E) as [| [| [| n]]]; try lia.
  rewrite (@lookup_parent_unfold E st d Hd tn). cbv zeta.
  rewrite Hab, Htb, Hhb. unfold dmem. rewrite Hdb. cbn [dget]. rewrite Nab.
  cbn [negb andb dset]. rewrite Nab.
  rewrite (@lookup_parent_unfold E st d Hd tn). cbv zeta.
  rewrite Hbc, Htc, Hhc. unfold dmem. rewrite Hdc. cbn [dget]. rewrite Nac, Nbc.
  cbn [negb andb dset]. rewrite Nac, Nbc.
  rewrite (@lookup_parent_unfold E st d Hd tn). cbv zeta.
  rewrite Hroot. reflexivity.
Qed.

End Chain.

Section ChainLookup.

Variable E : Env.
Variables (st : S3Represent) (t : Table) (name : string) (fs : list string)
          (d : dict string) (dl : string).
Hypothesis Hset : lookup_setting st t name fs d dl.
Hypothesis Hhier : hierarchical E st t = true.
Hypothesis Hlimit : (3 <= recursion_limit E)%nat.

Variables (v a b c : pyval).
Hypothesis Hkey : a = normalize (Some t) v.
Hypothesis Hv : truthy v = true.
Hypothesis Hab : hierarchy_parent E (_tablename t) a = b.
Hypothesis Hbc : hierarchy_parent E (_tablename t) b = c.
Hypothesis Hroot : truthy (hierarchy_parent E (_tablename t) c) = false.
Hypothesis Htb : truthy b = true.
Hypothesis Htc : truthy c = true.
Hypothesis Hha : hashable a = true.
Hypothesis Hhb : hashable b = true.
Hypothesis Hhc : hashable c = true.
Hypothesis Hda : dget d a = None.
Hypothesis Hdb : dget d b = None.
Hypothesis Hdc : dget d c = None.

Variables (la lb lc p1 lab : string).
Hypothesis Hla : row_label E st t name fs a la.
Hypothesis Hlb : row_label E st t name fs b lb.
Hypothesis Hlc : row_label E st t name fs c lc.
Hypothesis Hp1 : join_path st lc lb = Ok p1.
Hypothesis Hlab : join_path st p1 la = Ok lab.

(** The lookup of a node [a] with the chain of ancestors [b], [c]: one
    fetch for the three keys, and the path from the root as the label. *)
Lemma lookup_chain :
  exists its byk,
    _lookup E [v] None st =
      (Ok its,
       set_theset (Some (dset (dset (dset d c lc) b p1) a lab))
                  (fetched_state [a; b; c] byk st)) /\
    dget its v = Some lab.
Proof.
  pose proof Hset as [Hts Hnl Hdl Htab Hk Hhas Hfs Hcu Hfe].
  destruct (@chain_distinct E (_tablename t) a b c Hab Hbc Hroot Htb Htc)
    as (Nab & Nbc & Nac).
  assert (Hnone : is_None a = false) by (rewrite Hkey; now apply normalize_not_None).
  rewrite (lookup_one_head E Hset v Hkey Hnone Hha Hda).
  unfold bind at 1. rewrite with_ancestors_hier by exact Hhier.
  cbn [lookup one_pending].
  rewrite (@enqueue_chain E st d (_tablename t) Hts a b c Hab Hbc Hroot Htb Htc
             Hhb Hhc Hdb Hdc Hlimit).
  cbn [fst snd].
  change (set_lookup [(a, true); (b, false); (c, false)]
                     (one_pending a v [(a, true)]))
    with (one_pending a v ((a, true) :: [(b, false); (c, false)])).
  set (lk := (a, true) :: [(b, false); (c, false)]).
  assert (Hhash : forall x, In x (dkeys lk) -> hashable x = true).
  { intros x [<- | [<- | [<- | []]]]; assumption. }
  destruct (resolve_hier_one E Hset v Hha (_tablename t)
              (extra := [(b, false); (c, false)]))
    as (byk & rowa & ra & Hbyk & Hga & Hra & Hrka & Hsela & lookup' & Hrest & Hres).
  { repeat constructor. }
  { repeat constructor; cbn; intuition congruence. }
  { intros x Hx. apply Hhash. now right. }
  { apply Hla. }
  fold lk in Hres. rewrite Hres. clear Hres.
  cbn [dkeys map fst] in Hbyk |- *.
  destruct (@fetch_one t name fs b lk (proj1 Hlb))
    as (byk' & rowb & rb & Hbyk' & Hgb & Hrb & Hrkb & Hselb);
    [right; now left | exact Hhash |].
  cbn [lk dkeys map fst] in Hbyk'. rewrite Hbyk in Hbyk'.
  injection Hbyk' as <-.
  destruct (@fetch_one t name fs c lk (proj1 Hlc))
    as (byk' & rowc & rc & Hbyk' & Hgc & Hrc & Hrkc & Hselc);
    [right; right; now left | exact Hhash |].
  cbn [lk dkeys map fst] in Hbyk'. rewrite Hbyk in Hbyk'.
  injection Hbyk' as <-.
  set (s0 := fetched_state [a; b; c] byk st).
  assert (Hra' : render_row E s0 rowa None = Ok la).
  { rewrite (@render_row_cfg E s0 st rowa None eq_refl), Hsela.
    now apply (proj2 Hla). }
  assert (Hrb' : render_row E s0 rowb None = Ok lb).
  { rewrite (@render_row_cfg E s0 st rowb None eq_refl), Hselb.
    now apply (proj2 Hlb). }
  assert (Hrc' : render_row E s0 rowc None = Ok lc).
  { rewrite (@render_row_cfg E s0 st rowc None eq_refl), Hselc.
    now apply (proj2 Hlc). }
  destruct (recursion_limit E) as [| [| [| n]]]; try lia.
  assert (Hpc : _represent_path E (S n) (_tablename t) c rowc byk s0 =
                (Ok lc, set_theset (Some (dset d c lc)) s0)).
  { now apply represent_path_root. }
  assert (Hpb : _represent_path E (S (S n)) (_tablename t) b rowb byk s0 =
                (Ok p1, set_theset (Some (dset (dset d c lc) b p1)) s0)).
  { apply represent_path_child with (d := d) (prow := rowc) (p := lc) (out := lb);
      rewrite ?Hbc; auto. }
  assert (Hpa : _represent_path E (S (S (S n))) (_tablename t) a rowa byk s0 =
                (Ok lab, set_theset (Some (dset (dset (dset d c lc) b p1) a lab)) s0)).
  { apply represent_path_child with (d := d) (prow := rowb) (p := p1) (out := la);
      rewrite ?Hab; auto. }
  rewrite Hpa.
  exists (items (fill_default dl (one_labelled a v lab lookup'))), byk.
  split; [reflexivity |].
  apply fill_default_one. intros x Hx.
  destruct (Hrest x Hx) as (Hxa & Hin & Hnone'). exfalso.
  destruct Hin as [Hx' | [Hx' | []]]; rewrite <- Hx' in Hnone';
    cbn [fst] in Hnone'; congruence.
Qed.

End ChainLookup.

Lemma append_assoc3 (x y z : string) : ((x ++ y) ++ z = x ++ y ++ z)%string.
Proof. induction x as [| ch x IH]; cbn; [reflexivity | now rewrite IH]. Qed.

(** The path of a chain under the default template. *)
Lemma join_path_default st lc lb la p1 lab :
  hierarchy_truthy (hierarchy st) = true -> htemplate st = "%s > %s" ->
  lc <> "" ->
  join_path st lc lb = Ok p1 -> join_path st p1 la = Ok lab ->
  lab = (lc ++ " > " ++ lb ++ " > " ++ la)%string.
Proof.
  unfold join_path. intros -> -> Hlc.
  destruct lc as [| ch lc]; [congruence |]. cbn [String.eqb negb andb].
  rewrite format_default_template. intros [= <-]. cbn [append String.eqb negb andb].
  rewrite format_default_template. intros [= <-].
  f_equal. now rewrite append_assoc3.
Qed.

(** C2.  On a set-up representer of a hierarchical table, let the node [a]
    (the key of the value [v]) have the parent [b], and [b] the parent [c],
    a root; let none of the three be cached, and let their records be
    rendered as [la], [lb] and [lc].  Then [__call__] returns for [v] the
    path from the root, composed with the template of the hierarchy, which
    is [lc > lb > la] with the default template; it fetches once, for the
    keys [a], [b] and [c] together, and the labels of all three are in
    [theset] afterwards. *)
Theorem chain_path_one_fetch (E : Env) (st : S3Represent) (t : Table)
    (name : string) (fs : list string) (d : dict string) (dl : string)
    (v a b c : pyval) (la lb lc p1 lab : string) :
  lookup_setting st t name fs d dl ->
  setup st = true -> list_type st = false ->
  hierarchical E st t = true ->
  (3 <= recursion_limit E)%nat ->
  truthy v = true -> a = normalize (Some t) v ->
  hierarchy_parent E (_tablename t) a = b ->
  hierarchy_parent E (_tablename t) b = c ->
  truthy (hierarchy_parent E (_tablename t) c) = false ->
  truthy b = true -> truthy c = true ->
  hashable a = true -> hashable b = true -> hashable c = true ->
  dget d a = None -> dget d b = None -> dget d c = None ->
  row_label E st t name fs a la ->
  row_label E st t name fs b lb ->
  row_label E st t name fs c lc ->
  join_path st lc lb = Ok p1 -> join_path st p1 la = Ok lab ->
  exists st',
    __call__ E v None false st = (Ok (Text lab), st') /\
    (exists ks, fetch_log st' = fetch_log st ++ [ks] /\
                forall x, In x ks <-> x = a \/ x = b \/ x = c) /\
    queries st' = (queries st + 1)%nat /\
    (exists d', theset st' = Some d' /\ dget d' a = Some lab /\
                dget d' b = Some p1 /\ dget d' c = Some lc) /\
    (htemplate st = "%s > %s" -> lc <> "" ->
     lab = (lc ++ " > " ++ lb ++ " > " ++ la)%string).
Proof.
  intros Hs Hsetup Hlt Hhier Hlimit Hv Hkey Hab Hbc Hroot Htb Htc Hha Hhb Hhc
         Hda Hdb Hdc Hla Hlb Hlc Hp1 Hlab.
  destruct (@lookup_chain E st t name fs d dl Hs Hhier Hlimit v a b c Hkey Hv
              Hab Hbc Hroot Htb Htc Hha Hhb Hhc Hda Hdb Hdc la lb lc p1 lab
              Hla Hlb Hlc Hp1 Hlab)
    as (its & byk & Hrun & Hits).
  destruct (@chain_distinct E (_tablename t) a b c Hab Hbc Hroot Htb Htc)
    as (Nab & Nbc & Nac).
  eexists. split; [| split; [| split; [| split]]].
  - rewrite call_run by assumption. unfold bind at 1. rewrite Hrun.
    unfold labelled. rewrite Hits. cbn [andb]. reflexivity.
  - exists [a; b; c]. split; [reflexivity |].
    intros x. cbn [In]. intuition congruence.
  - reflexivity.
  - eexists. split; [reflexivity |]. split; [apply dget_dset_same |]. split.
    + rewrite dget_dset_other by congruence. apply dget_dset_same.
    + rewrite !dget_dset_other by congruence. apply dget_dset_same.
  - intros Htpl Hne. apply (@join_path_default st lc lb la p1 lab); auto.
    unfold hierarchical in Hhier. now apply andb_true_iff in Hhier.
Qed.

(** The representer of the locations, set up. *)
Definition loc_ready : S3Represent := snd (_setup demo_env loc_represent).

Lemma loc_ready_setting :
  lookup_setting loc_ready loc_table "id" ["name"] [] "Unknown".
Proof. split; try reflexivity. discriminate. Qed.

(** A record of a demo table is the only one with its key, and is
    rendered as its name. *)
Ltac demo_row_label z l :=
  split;
  [ exists (org_row z l); split; [cbn; tauto | reflexivity]
  | intros r [<- | [<- | [<- | []]]] Hk; (discriminate Hk || reflexivity) ].

(** C2 at work: the location [3] under [2] under the root [1], which are
    named A, B and C. *)
Lemma chain_path_one_fetch_witness :
  exists st',
    __call__ demo_env (PInt 3) None false loc_ready = (Ok (Text "C > B > A"), st') /\
    (exists ks, fetch_log st' = fetch_log loc_ready ++ [ks] /\
                forall x, In x ks <-> x = PInt 3 \/ x = PInt 2 \/ x = PInt 1) /\
    queries st' = (queries loc_ready + 1)%nat /\
    (exists d', theset st' = Some d' /\ dget d' (PInt 3) = Some "C > B > A" /\
                dget d' (PInt 2) = Some "C > B" /\ dget d' (PInt 1) = Some "C") /\
    (htemplate loc_ready = "%s > %s" -> "C" <> "" ->
     "C > B > A" = ("C" ++ " > " ++ "B" ++ " > " ++ "A")%string).
Proof.
  apply (@chain_path_one_fetch demo_env loc_ready loc_table "id" ["name"] []
           "Unknown" (PInt 3) (PInt 3) (PInt 2) (PInt 1) "A" "B" "C" "C > B"
           "C > B > A");
    try reflexivity.
  - exact loc_ready_setting.
  - cbn. lia.
  - demo_row_label 3%Z "A"%string.
  - demo_row_label 2%Z "B"%string.
  - demo_row_label 1%Z "C"%string.
Defined.

(** ** C4: the values of a list-type field *)

Lemma In_NoDup_dget {V} (dd : dict V) k v :
  NoDup (dkeys dd) -> In (k, v) dd -> dget dd k = Some v.
Proof.
  induction dd as [| [k0 v0] dd IH]; cbn; [intros _ [] |].
  intros Hnd. inversion Hnd as [| ? ? Hnin Hnd']; subst.
  intros [[= -> ->] | Hin]; [now rewrite pyval_eqb_refl |].
  destruct (pyval_eqb k0 k) eqn:He; [| now apply IH].
  apply pyval_eqb_true in He. subst k0. exfalso. apply Hnin.
  apply in_map_iff. now exists (k, v).
Qed.

Lemma In_dkeys_dec {V} (dd : dict V) k : In k (dkeys dd) \/ ~ In k (dkeys dd).
Proof.
  destruct (existsb (pyval_eqb k) (dkeys dd)) eqn:He.
  - left. now apply existsb_pyval_eqb.
  - right. intros Hin. apply existsb_pyval_eqb in Hin. congruence.
Qed.

(** The labels that the first loop of [_lookup] has for the values that are
    [None] or cached. *)
Lemma scan_labels st d values lv :
  theset st = Some d ->
  fold_res (scan_step st) values no_locals = Ok lv ->
  forall v, In v values ->
    (normalize (table st) v = PNone -> dget (items lv) v = none st) /\
    (normalize (table st) v <> PNone ->
     forall l, dget d (normalize (table st) v) = Some l ->
               dget (items lv) v = Some l).
Proof.
  intros Hd Hrun.
  refine (fold_res_inv (scan_step st)
            (fun seen lv => forall v, In v seen ->
               (normalize (table st) v = PNone -> dget (items lv) v = none st) /\
               (normalize (table st) v <> PNone ->
                forall l, dget d (normalize (table st) v) = Some l ->
                          dget (items lv) v = Some l))
            _ values [] no_locals _ Hrun); [| intros v []].
  clear Hrun. intros seen acc x acc' IH Hstep v Hin.
  apply (scan_step_ok st Hd) in Hstep as (_ & _ & Hcases).
  apply in_app_or in Hin as [Hin | [<- | []]].
  - destruct (IH v Hin) as [I1 I2].
    destruct Hcases as [(Hn & _ & l0 & Hnone & Hit)
                       | [(Hn & _ & l0 & Hc & Hit) | (_ & _ & Hit & _)]];
      rewrite Hit; try (split; assumption).
    + split.
      * intros Hv. rewrite dget_dset.
        destruct (pyval_eqb x v) eqn:Hxv; [now rewrite Hnone | now apply I1].
      * intros Hv l Hl. rewrite dget_dset.
        destruct (pyval_eqb x v) eqn:Hxv; [| now apply I2].
        apply pyval_eqb_true in Hxv. subst v. contradiction.
    + split.
      * intros Hv. rewrite dget_dset.
        destruct (pyval_eqb x v) eqn:Hxv; [| now apply I1].
        apply pyval_eqb_true in Hxv. subst v. contradiction.
      * intros Hv l Hl. rewrite dget_dset.
        destruct (pyval_eqb x v) eqn:Hxv; [| now apply I2].
        apply pyval_eqb_true in Hxv. subst v. congruence.
  - destruct Hcases as [(Hn & _ & l0 & Hnone & Hit)
                       | [(Hn & _ & l0 & Hc & Hit) | (Hn & Hc & Hit & _)]].
    + rewrite Hit, dget_dset_same. split; [now rewrite Hnone | contradiction].
    + rewrite Hit, dget_dset_same. split; [contradiction | congruence].
    + split; [contradiction | congruence].
Qed.

Section FlatLoop.

Variable E : Env.
Variable lab : pyval -> string.

(** The loop over the fetched rows of a flat table, when the row of every
    key [k] is rendered as [lab k] and the keys stand for themselves. *)
Lemma flat_loop_run (l : dict Row) :
  forall lv s d0,
    theset s = Some d0 ->
    NoDup (dkeys (lookup lv)) ->
    (forall kr, In kr l -> render_row E s (snd kr) None = Ok (lab (fst kr))) ->
    (forall k, In k (dkeys l) -> keys_get lv k = k) ->
    exists lv' d',
      for_fold l (fetched_flat E) lv s = (Ok lv', set_theset (Some d') s) /\
      keys lv' = keys lv /\
      NoDup (dkeys (lookup lv')) /\
      (forall y, In y (dkeys l) ->
         dget (items lv') y = Some (lab y) /\ dget d' y = Some (lab y) /\
         dget (lookup lv') y = None) /\
      (forall y, ~ In y (dkeys l) ->
         dget (items lv') y = dget (items lv) y /\ dget d' y = dget d0 y /\
         dget (lookup lv') y = dget (lookup lv) y).
Proof.
  induction l as [| [k row] l IH]; intros lv s d0 Hd Hnd Hrender Hid.
  - exists lv, d0. cbn [for_fold]. rewrite <- (set_theset_known s Hd).
    split; [reflexivity |]. split; [reflexivity |]. split; [exact Hnd |].
    split; [intros y [] | auto].
  - cbn [for_fold]. unfold bind at 1. rewrite fetched_flat_run. cbn [fst snd].
    pose proof (Hrender (k, row) (or_introl eq_refl)) as Hrow.
    cbn [fst snd] in Hrow. rewrite Hrow, Hd.
    set (s1 := set_theset (Some (dset d0 k (lab k))) s).
    destruct (IH (flat_step lv k (lab k)) s1 (dset d0 k (lab k)))
      as (lv' & d' & Hrun & Hkeys & Hnd' & Hin & Hout).
    + reflexivity.
    + cbn [lookup flat_step set_items set_lookup]. now apply NoDup_dkeys_ddel.
    + intros kr Hkr.
      rewrite (@render_row_cfg E s1 s (snd kr) None eq_refl).
      apply Hrender. now right.
    + intros k0 Hk0. unfold keys_get. cbn [keys flat_step set_items set_lookup].
      apply Hid. now right.
    + exists lv', d'. rewrite Hrun. split; [reflexivity |].
      split; [exact Hkeys |]. split; [exact Hnd' |].
      assert (Hk : keys_get lv k = k) by (apply Hid; now left).
      assert (Hhead : ~ In k (dkeys l) ->
                dget (items lv') k = Some (lab k) /\ dget d' k = Some (lab k) /\
                dget (lookup lv') k = None).
      { intros Hnin. destruct (Hout k Hnin) as (O1 & O2 & O3).
        rewrite O1, O2, O3. cbn [items lookup flat_step set_items set_lookup].
        rewrite Hk, !dget_dset_same. repeat split.
        now apply dget_ddel_same. }
      split.
      * intros y0 [Heq | Hy0]; [| now apply Hin]. cbn [fst] in Heq. subst y0.
        destruct (In_dkeys_dec l k) as [Hy | Hy]; [now apply Hin | now apply Hhead].
      * intros y Hy.
        assert (Hky : k <> y) by (intros ->; apply Hy; now left).
        destruct (Hout y) as (O1 & O2 & O3); [intros Hyl; apply Hy; now right |].
        rewrite O1, O2, O3. cbn [items lookup flat_step set_items set_lookup].
        rewrite Hk, !dget_dset_other, dget_ddel_other by exact Hky. auto.
Qed.

End FlatLoop.

Section FlatLookup.

Variable E : Env.
Variables (st : S3Represent) (t : Table) (name : string) (fs : list string)
          (d : dict string) (dl : string).
Hypothesis Hset : lookup_setting st t name fs d dl.
Hypothesis Hflat : hierarchical E st t = false.

Variable lab : pyval -> string.
Variable vals : list pyval.
Variable n : string.
Hypothesis Hn : none st = Some n.
Hypothesis Hnormal : forall v, In v vals -> normal v = true.
Hypothesis Hhashable : forall v, In v vals -> hashable v = true.
Hypothesis Hlab_none : In PNone vals -> lab PNone = n.
Hypothesis Hlab_cached :
  forall v l, In v vals -> v <> PNone -> dget d v = Some l -> lab v = l.
Hypothesis Hlab_row :
  forall v, In v vals -> v <> PNone -> dget d v = None ->
            row_label E st t name fs v (lab v).

(** A lookup in a flat table of values that are keys, each of which is
    [None], cached or has a row: every value gets its label, the labels are
    in [theset] afterwards, the configuration is as it was, and the uncached
    keys are fetched together. *)
Lemma lookup_flat_resolved :
  exists its st',
    _lookup E vals None st = (Ok its, st') /\
    (forall v, In v vals -> dget its v = Some (lab v)) /\
    (exists d', theset st' = Some d' /\
                forall v, In v vals -> v <> PNone -> dget d' v = Some (lab v)) /\
    cfg st' = cfg st /\
    ((st' = st /\ forall v, In v vals -> v = PNone \/ dget d v <> None) \/
     (exists ks,
        fetch_log st' = fetch_log st ++ [ks] /\
        queries st' = (queries st + 1)%nat /\ NoDup ks /\
        forall x, In x ks <-> (In x vals /\ x <> PNone /\ dget d x = None))).
Proof.
  pose proof Hset as [Hts Hnl Hdl Htb Hkey Hhas Hfs Hcu Hfe].
  assert (Hnorm : forall v, In v vals -> normalize (table st) v = v).
  { intros v Hv. apply normalize_normal. now apply Hnormal. }
  destruct (@scan_total st d Hts vals no_locals) as (lv & Hscan);
    [now apply Forall_forall | exact Hnl |].
  destruct (scan_lookup st Hts vals Hscan) as (Hnd & Hflags & Hpend).
  pose proof (scan_labels st vals Hts Hscan) as Hlabels.
  destruct (scan_keys st vals Hts Hscan) as (Hkeys1 & _).
  assert (F1 : forall k b, dget (lookup lv) k = Some b ->
                 In k vals /\ k <> PNone /\ dget d k = None /\ hashable k = true).
  { intros k b Hg. destruct (Hflags k b Hg) as (_ & Hk & Hh & Hc & v & Hv & Hvk).
    rewrite (Hnorm v Hv) in Hvk. subst v. auto. }
  assert (F2 : forall v, In v vals -> v <> PNone -> dget d v = None ->
                 dget (lookup lv) v = Some true).
  { intros v Hv Hne Hc. rewrite <- (Hnorm v Hv) at 1.
    apply Hpend; rewrite ?(Hnorm v Hv); assumption. }
  assert (F3 : forall v, In v vals -> v = PNone \/ dget d v <> None ->
                 dget (items lv) v = Some (lab v)).
  { intros v Hv Hcase. destruct (Hlabels v Hv) as [L1 L2].
    rewrite (Hnorm v Hv) in L1, L2.
    destruct v as [| z | s | l].
    - rewrite L1 by reflexivity. rewrite Hn, Hlab_none; auto.
    - destruct Hcase as [Hc | Hc]; [discriminate |].
      destruct (dget d (PInt z)) as [l0 |] eqn:Hg; [| congruence].
      rewrite (L2 ltac:(discriminate) l0 eq_refl).
      now rewrite (Hlab_cached Hv ltac:(discriminate) Hg).
    - destruct Hcase as [Hc | Hc]; [discriminate |].
      destruct (dget d (PStr s)) as [l0 |] eqn:Hg; [| congruence].
      rewrite (L2 ltac:(discriminate) l0 eq_refl).
      now rewrite (Hlab_cached Hv ltac:(discriminate) Hg).
    - destruct Hcase as [Hc | Hc]; [discriminate |].
      destruct (dget d (PList l)) as [l0 |] eqn:Hg; [| congruence].
      rewrite (L2 ltac:(discriminate) l0 eq_refl).
      now rewrite (Hlab_cached Hv ltac:(discriminate) Hg). }
  assert (F4 : forall k, In k vals -> keys_get lv k = k).
  { intros k Hk. unfold keys_get.
    destruct (dget (keys lv) k) as [v' |] eqn:Hg; [| reflexivity].
    destruct (Hkeys1 k v' Hg) as [Hv' Hnv']. now rewrite (Hnorm v' Hv') in Hnv'. }
  assert (Hcases : forall v, In v vals ->
                     (v = PNone \/ dget d v <> None) \/
                     (v <> PNone /\ dget d v = None)).
  { intros v Hv. destruct v as [| z | s | l]; [left; now left | | |].
    all: match goal with
         | |- context [dget d ?x] =>
             destruct (dget d x) eqn:Hg;
             [left; right; discriminate | right; split; [discriminate | reflexivity]]
         end. }
  rewrite lookup_scan, Hscan, Htb.
  destruct (lookup lv) as [| kv lk] eqn:Hlk.
  - exists (items lv), st. split; [reflexivity |].
    assert (Hall : forall v, In v vals -> v = PNone \/ dget d v <> None).
    { intros v Hv. destruct (Hcases v Hv) as [Hc | [Hne Hc]]; [exact Hc |].
      pose proof (F2 v Hv Hne Hc) as Hp. discriminate. }
    split; [intros v Hv; apply F3; auto |].
    split; [| split; [reflexivity | left; split; [reflexivity | exact Hall]]].
    exists d. split; [exact Hts |]. intros v Hv Hne.
    destruct (Hall v Hv) as [Hc | Hc]; [contradiction |].
    destruct (dget d v) as [l |] eqn:Hg; [| congruence].
    now rewrite (Hlab_cached Hv Hne Hg).
  - rewrite <- Hlk in *.
    unfold bind at 1. rewrite with_ancestors_flat by exact Hflat.
    mrun. rewrite Hkey, Hhas. cbn [negb].
    rewrite (resolve_run E st Hcu).
    destruct (lookup lv) as [| kv1 lk1] eqn:Hlk1; [discriminate Hlk |].
    rewrite <- Hlk1 in *. clear Hlk.
    unfold bind at 1. rewrite (fetch_phase_run E st Hcu Hfe Hfs). cbv zeta.
    destruct (@by_key_total name
                (db_select t name (dkeys (lookup lv)) (selected t fs name)))
      as (byk & Hbyk).
    { apply Forall_forall. intros row Hrow.
      apply db_select_spec in Hrow as (r & x & Hr & -> & Hrx & Hx);
        [| apply In_selected].
      exists x. rewrite row_get_select_fields by apply In_selected.
      split; [exact Hrx |].
      destruct (dget (lookup lv) x) as [b |] eqn:Hg;
        [| now apply dget_None_notin in Hg].
      now destruct (F1 x b Hg) as (_ & _ & _ & ?). }
    rewrite Hbyk.
    pose proof (by_key_spec _ _ Hbyk) as (Hndb & K1 & K2).
    set (s0 := fetched_state (dkeys (lookup lv)) byk st).
    (* the keys of the fetched rows are pending keys *)
    assert (Hbyk_keys : forall k, In k (dkeys byk) ->
              In k vals /\ k <> PNone /\ dget d k = None).
    { intros k Hk. destruct (dget byk k) as [row |] eqn:Hg;
        [| now apply dget_None_notin in Hg].
      destruct (K1 k row Hg) as [Hrow Hrk].
      apply db_select_spec in Hrow as (r & x & Hr & -> & Hrx & Hx);
        [| apply In_selected].
      rewrite row_get_select_fields in Hrk by apply In_selected.
      assert (x = k) by congruence. subst x.
      destruct (dget (lookup lv) k) as [b |] eqn:Hgl;
        [| now apply dget_None_notin in Hgl].
      destruct (F1 k b Hgl) as (? & ? & ? & _). auto. }
    destruct (@flat_loop_run E lab byk lv s0 d) as (lv2 & d2 & Hloop & Hk2 & Hnd2 & Hin & Hout).
    { exact Hts. }
    { exact Hnd. }
    { intros [k row] Hkr. cbn [fst snd].
      rewrite (@render_row_cfg E s0 st row None eq_refl).
      pose proof (In_NoDup_dget byk k row Hndb Hkr) as Hg.
      destruct (K1 k row Hg) as [Hrow Hrk].
      apply db_select_spec in Hrow as (r & x & Hr & -> & Hrx & Hx);
        [| apply In_selected].
      rewrite row_get_select_fields in Hrk by apply In_selected.
      assert (x = k) by congruence. subst x.
      destruct (Hbyk_keys k) as (Hv & Hne & Hc);
        [now apply dget_Some_In_dkeys in Hg |].
      now apply (proj2 (Hlab_row Hv Hne Hc)). }
    { intros k Hk. apply F4. now apply Hbyk_keys. }
    rewrite Hloop. unfold bind at 1.
    rewrite (default_phase_run _ _ (dl := dl)) by exact Hdl.
    cbv beta iota delta [ret].
    (* every pending key has been fetched *)
    assert (Hfetched : forall v, In v vals -> v <> PNone -> dget d v = None ->
              In v (dkeys byk)).
    { intros v Hv Hne Hc. destruct (proj1 (Hlab_row Hv Hne Hc)) as (r & Hr & Hrk).
      assert (Hsel : In (select_fields (selected t fs name) r)
                        (db_select t name (dkeys (lookup lv)) (selected t fs name))).
      { apply db_select_spec; [apply In_selected |]. exists r, v.
        repeat split; auto. apply (dget_Some_In_dkeys (lookup lv) v (v := true)).
        now apply F2. }
      specialize (K2 _ v Hsel).
      rewrite row_get_select_fields in K2 by apply In_selected.
      specialize (K2 Hrk).
      destruct (dget byk v) as [row |] eqn:Hg; [| congruence].
      now apply dget_Some_In_dkeys in Hg. }
    assert (Hdone : lookup lv2 = []).
    { destruct (lookup lv2) as [| [x bx] rest] eqn:Hl2; [reflexivity |]. exfalso.
      assert (Hgx : dget ((x, bx) :: rest) x = Some bx).
      { cbn. now rewrite pyval_eqb_refl. }
      destruct (In_dkeys_dec byk x) as [Hx | Hx].
      - destruct (Hin x Hx) as (_ & _ & Hnone). congruence.
      - destruct (Hout x Hx) as (_ & _ & Hsame). rewrite Hsame in Hgx.
        destruct (F1 x bx Hgx) as (Hv & Hne & Hc & _).
        apply Hx. now apply Hfetched. }
    exists (items (fill_default dl lv2)), (set_theset (Some d2) s0).
    split; [reflexivity |]. split; [| split; [| split]].
    + intros v Hv. rewrite fill_default_items, Hdone. cbn [dkeys map existsb].
      destruct (In_dkeys_dec byk v) as [Hx | Hx].
      * now destruct (Hin v Hx) as (? & _).
      * destruct (Hout v Hx) as (Hsame & _). rewrite Hsame.
        apply F3; [exact Hv |].
        destruct (Hcases v Hv) as [Hc | [Hne Hc]]; [exact Hc |].
        exfalso. apply Hx. now apply Hfetched.
    + exists d2. split; [reflexivity |]. intros v Hv Hne.
      destruct (In_dkeys_dec byk v) as [Hx | Hx].
      * now destruct (Hin v Hx) as (_ & ? & _).
      * destruct (Hout v Hx) as (_ & Hsame & _). rewrite Hsame.
        destruct (Hcases v Hv) as [[Hc | Hc] | [_ Hc]]; [contradiction | |].
        -- destruct (dget d v) as [l |] eqn:Hg; [| congruence].
           now rewrite (Hlab_cached Hv Hne Hg).
        -- exfalso. apply Hx. now apply Hfetched.
    + reflexivity.
    + right. exists (dkeys (lookup lv)).
      split; [reflexivity |]. split; [reflexivity |]. split; [exact Hnd |].
      intros x. split.
      * intros Hx. destruct (dget (lookup lv) x) as [b |] eqn:Hg;
          [| now apply dget_None_notin in Hg].
        destruct (F1 x b Hg) as (? & ? & ? & _). auto.
      * intros (Hv & Hne & Hc).
        apply (dget_Some_In_dkeys (lookup lv) x (v := true)). now apply F2.
Qed.

End FlatLookup.

(** The label of an element of the union of the lists [[1, 2]] and
    [[2, None]]. *)
Definition union_label (l1 l2 n : string) (v : pyval) : string :=
  match v with
  | PInt 1 => l1
  | PInt 2 => l2
  | _ => n
  end.

Section Multiple.

Variable E : Env.

(** [multiple] of a list-type field without rows, once the lists are
    flattened and the elements looked up, and when no links are shown. *)
Lemma multiple_run st values sl vals its st' dl :
  setup st = true -> list_type st = true -> sl && show_link st = false ->
  default st = Some dl ->
  flatten E values st = (Ok vals, st) -> vals <> [] ->
  _lookup E vals None st = (Ok its, st') ->
  multiple E values None true sl st =
  (Ok (Text (join ", " (map (fun k => match dget its k with
                                      | Some l => l
                                      | None => dl
                                      end) vals))), st').
Proof.
  intros Hsetup Hlt Hsl Hdl Hflat Hne Hlook. unfold multiple.
  rewrite (@bind_run _ _ _ _ _ _ _ (setup_done E st Hsetup)).
  mrun. rewrite Hsl, Hlt. cbn [rows_truthy andb]. unfold catch. rewrite Hflat.
  destruct vals as [| v0 vals0]; [congruence |].
  rewrite Hdl. cbn [label_of]. mrun. rewrite Hlook. reflexivity.
Qed.

Lemma flatten_two_lists st :
  flatten E (PList [PList [PInt 1; PInt 2]; PList [PInt 2; PNone]]) st =
  (Ok (set_order E [PInt 1; PInt 2; PNone]), st).
Proof. reflexivity. Qed.

End Multiple.

(** C4, counterexample.  For the lists [[1, 2]] and [[2, None]], [multiple]
    returns one string, with one label for each element of the union of the
    lists; it is not a pair of strings, one per list. *)
Lemma multiple_returns_one_string :
  let r := multiple demo_env
             (PList [PList [PInt 1; PInt 2]; PList [PInt 2; PNone]])
             None true true org_represent_list in
  fst r = Ok (Text "Alpha, Beta, -") /\
  fst r <> Ok (TAG [Text "Alpha, Beta"; Text "Beta, -"]) /\
  fetch_log (snd r) = [[PInt 1; PInt 2]].
Proof.
  cbv zeta. split; [reflexivity |]. split; [discriminate | reflexivity].
Qed.

(** C4, as amended.  On a set-up list-type representer of a flat table in
    which the keys [1] and [2] have records, rendered as [l1] and [l2], and
    are not cached, [multiple] of the lists [[1, 2]] and [[2, None]] without
    links returns one string: the labels of the elements of the union
    [{1, 2, None}] of the lists, each once and in the order of the set,
    joined by a comma; [None] has the none-label.  It fetches once, for the
    keys [1] and [2]. *)
Theorem multiple_joins_union (E : Env) (st : S3Represent) (t : Table)
    (name : string) (fs : list string) (d : dict string) (dl n l1 l2 : string)
    (sl : bool) :
  lookup_setting st t name fs d dl ->
  setup st = true -> list_type st = true -> sl && show_link st = false ->
  hierarchical E st t = false -> none st = Some n ->
  dget d (PInt 1) = None -> dget d (PInt 2) = None ->
  row_label E st t name fs (PInt 1) l1 ->
  row_label E st t name fs (PInt 2) l2 ->
  Permutation (set_order E [PInt 1; PInt 2; PNone]) [PInt 1; PInt 2; PNone] ->
  exists st',
    multiple E (PList [PList [PInt 1; PInt 2]; PList [PInt 2; PNone]])
             None true sl st =
      (Ok (Text (join ", " (map (union_label l1 l2 n)
                                (set_order E [PInt 1; PInt 2; PNone])))), st') /\
    (exists ks, fetch_log st' = fetch_log st ++ [ks] /\ NoDup ks /\
                forall x, In x ks <-> x = PInt 1 \/ x = PInt 2) /\
    queries st' = (queries st + 1)%nat.
Proof.
  intros Hs Hsetup Hlt Hsl Hflat Hn Hd1 Hd2 Hl1 Hl2 Hperm.
  set (vals := set_order E [PInt 1; PInt 2; PNone]) in *.
  assert (Hvals : forall v, In v vals <-> v = PInt 1 \/ v = PInt 2 \/ v = PNone).
  { intros v. split.
    - intros Hv. apply (Permutation_in _ Hperm) in Hv. cbn in Hv. intuition.
    - intros Hv. apply (Permutation_in _ (Permutation_sym Hperm)).
      cbn. intuition. }
  destruct (@lookup_flat_resolved E st t name fs d dl Hs Hflat
              (union_label l1 l2 n) vals n Hn)
    as (its & st' & Hrun & Hits & _ & _ & Hfetch).
  { intros v Hv. apply Hvals in Hv as [-> | [-> | ->]]; reflexivity. }
  { intros v Hv. apply Hvals in Hv as [-> | [-> | ->]]; reflexivity. }
  { reflexivity. }
  { intros v l Hv Hne Hc. apply Hvals in Hv as [-> | [-> | ->]]; congruence. }
  { intros v Hv Hne Hc. apply Hvals in Hv as [-> | [-> | ->]];
      [exact Hl1 | exact Hl2 | congruence]. }
  exists st'. split; [| split].
  - rewrite (@multiple_run E st _ sl vals its st' dl Hsetup Hlt Hsl
               (ls_default Hs) (flatten_two_lists E st));
      [| intros Hnil; rewrite Hnil in Hperm; exact (Permutation_nil_cons Hperm)
       | exact Hrun].
    do 4 f_equal. apply map_ext_in. intros v Hv. now rewrite (Hits v Hv).
  - destruct Hfetch as [(_ & Hall) | (ks & Hlog & _ & Hnd & Hks)].
    + destruct (Hall (PInt 1)) as [Hc | Hc];
        [apply Hvals; now left | discriminate | congruence].
    + exists ks. split; [exact Hlog |]. split; [exact Hnd |].
      intros x. rewrite Hks, Hvals. split.
      * intros ([-> | [-> | ->]] & Hne & _); [now left | now right | congruence].
      * intros [-> | ->]; (split; [| split; [discriminate | assumption]]); auto.
  - destruct Hfetch as [(_ & Hall) | (ks & _ & Hq & _)]; [| exact Hq].
    destruct (Hall (PInt 1)) as [Hc | Hc];
      [apply Hvals; now left | discriminate | congruence].
Qed.

(** The list-type representer of the organisations, set up. *)
Definition org_list_ready : S3Represent :=
  snd (_setup demo_env org_represent_list).

Lemma org_list_ready_setting :
  lookup_setting org_list_ready org_table "id" ["name"] [] "Unknown".
Proof. split; try reflexivity. discriminate. Qed.

(** C4 at work: the organisations [1] and [2] are named Alpha and Beta. *)
Lemma multiple_joins_union_witness :
  exists st',
    multiple demo_env (PList [PList [PInt 1; PInt 2]; PList [PInt 2; PNone]])
             None true true org_list_ready =
      (Ok (Text "Alpha, Beta, -"), st') /\
    (exists ks, fetch_log st' = fetch_log org_list_ready ++ [ks] /\ NoDup ks /\
                forall x, In x ks <-> x = PInt 1 \/ x = PInt 2) /\
    queries st' = (queries org_list_ready + 1)%nat.
Proof.
  apply (@multiple_joins_union demo_env org_list_ready org_table "id" ["name"]
           [] "Unknown" "-" "Alpha" "Beta" true);
    try reflexivity.
  - exact org_list_ready_setting.
  - demo_row_label 1%Z "Alpha"%string.
  - demo_row_label 2%Z "Beta"%string.
Defined.

(** ** C9: the queue is resolved by its first flush *)

(** An invariant of the accumulator of a loop that returns, in terms of the
    elements that the loop has been through. *)
Lemma for_fold_ok_seen {X L} (I : list X -> L -> Prop)
    (body : L -> X -> M L) :
  (forall seen a x s a' s',
     I seen a -> body a x s = (Ok a', s') -> I (seen ++ [x]) a') ->
  forall l seen acc st r st',
    I seen acc -> for_fold l body acc st = (Ok r, st') -> I (seen ++ l) r.
Proof.
  intros Hstep. induction l as [| x l IH]; intros seen acc st r st' Hacc; cbn.
  - intros [= <- _]. now rewrite app_nil_r.
  - intros Hrun. apply bind_ok in Hrun as (a & s1 & Hx & Hrest).
    replace (seen ++ x :: l) with ((seen ++ [x]) ++ l)
      by now rewrite <- app_assoc.
    eapply IH; [| exact Hrest]. eapply Hstep; eassumption.
Qed.

(** The dictionary that [bulk] returns for a list of values, taken as it
    is, has an entry for every value of the list. *)
Lemma bulk_covers_values E st vs lt sl labels :
  fst (bulk E (PList vs) None lt sl st) = Ok labels ->
  list_type st && lt = false ->
  forall v, In v vs -> dget labels v <> None.
Proof.
  intros Hrun Hlt.
  destruct (bulk E (PList vs) None lt sl st) as [[lbls | e] st'] eqn:Hb;
    [| discriminate].
  cbn [fst] in Hrun. injection Hrun as ->.
  unfold bulk in Hb. apply bind_ok in Hb as ([] & s0 & Hlog & Hb).
  unfold modify in Hlog. injection Hlog as <-.
  unfold bulk_body in Hb. apply bind_ok in Hb as ([] & s1 & Hsetup & Hb).
  pose proof (stable_setup E (ab_setup api_blind_list_type)
                (set_bulk_log (bulk_log st ++ [PList vs]) st)) as Hl.
  unfold preserves in Hl. rewrite Hsetup in Hl.
  cbn [snd list_type set_bulk_log] in Hl.
  revert Hb. mrun. cbn [rows_truthy andb]. rewrite Hl, Hlt. intros Hb.
  apply bind_ok in Hb as (lbls & s2 & Hlabels & Hrest).
  revert Hrest. mrun. unfold label_of.
  destruct (none s2) as [n |]; [| discriminate].
  intros [= <- _] v Hv. rewrite dget_dset.
  destruct (pyval_eqb PNone v); [discriminate |].
  destruct vs as [| v0 vs0]; [destruct Hv |].
  apply bind_ok in Hlabels as (its & s3 & _ & Hlabels).
  apply bind_ok in Hlabels as (linked & s4 & _ & Hloop).
  refine (for_fold_ok_seen
            (fun seen (acc : dict markup) =>
               forall x, In x seen -> dget acc x <> None)
            _ _ (v0 :: vs0) [] linked _ _ Hloop v Hv); [| intros x []].
  clear. intros seen a x s a' s' IH. unfold dmem.
  destruct (dget a x) eqn:Hax.
  - intros [= <- _] y Hy. apply in_app_or in Hy as [Hy | [<- | []]];
      [now apply IH | congruence].
  - mrun. unfold label_of. destruct (default s); [| discriminate].
    intros [= <- _] y Hy. rewrite dget_dset.
    destruct (pyval_eqb x y) eqn:Hxy; [discriminate |].
    apply in_app_or in Hy as [Hy | [<- | []]]; [now apply IH |].
    rewrite pyval_eqb_refl in Hxy. discriminate.
Qed.


(** The queue of a representer that is set up, not list-type and shows no
    links, over a flat lookup table with the default fetch: every queued
    value is a key, and is [None], cached with the label [lab v], or the key
    of a record that is rendered as [lab v]. *)
Record queue_setting (E : Env) (st : S3Represent) (t : Table) (name : string)
    (fs : list string) (d : dict string) (dl n : string)
    (lab : pyval -> string) : Prop := {
  qs_lookup : lookup_setting st t name fs d dl;
  qs_setup : setup st = true;
  qs_plain : list_type st = false;
  qs_no_link : show_link st = false;
  qs_flat : hierarchical E st t = false;
  qs_none : none st = Some n;
  qs_normal : forall v, In v (lazy st) -> normal v = true;
  qs_hashable : forall v, In v (lazy st) -> hashable v = true;
  qs_lab_none : In PNone (lazy st) -> lab PNone = n;
  qs_lab_cached : forall v l, In v (lazy st) -> v <> PNone ->
                              dget d v = Some l -> lab v = l;
  qs_lab_row : forall v, In v (lazy st) -> v <> PNone -> dget d v = None ->
                         row_label E st t name fs v (lab v)
}.

(** What [__call__] shows for a value: its label, or the none-label if the
    value is false. *)
Definition shown (n : string) (lab : pyval -> string) (v : pyval) : markup :=
  Text (if truthy v then lab v else n).

Section QueueResolved.

Variable E : Env.

Lemma dget_map_text (its : dict string) v :
  dget (map (fun kv => (fst kv, Text (snd kv))) its) v
  = option_map Text (dget its v).
Proof.
  induction its as [| [k l] its IH]; cbn; [reflexivity |].
  destruct (pyval_eqb k v); [reflexivity | exact IH].
Qed.

(** The loop of [bulk] that gives the default label to the values without
    one, when every value has a label. *)
Lemma fill_missing_present (vals : list pyval) :
  forall (acc : dict markup) st,
    (forall v, In v vals -> dget acc v <> None) ->
    for_fold vals
      (fun acc k =>
         if dmem acc k then ret acc
         else df <- gets default ;;
              l <- label_of df ;;
              ret (dset acc k (Text l)))
      acc st = (Ok acc, st).
Proof.
  induction vals as [| x vals IH]; intros acc st H; cbn [for_fold];
    [reflexivity |].
  unfold bind at 1. unfold dmem at 1.
  destruct (dget acc x) eqn:Hx; [| exfalso; apply (H x); [now left | exact Hx]].
  cbv beta iota delta [ret]. apply IH. intros v Hv. apply H. now right.
Qed.

(** [bulk] on a representer that is not list-type and shows no links. *)
Lemma bulk_plain_run st vals its st' n :
  setup st = true -> list_type st = false -> show_link st = false ->
  vals <> [] ->
  _lookup E vals None (set_bulk_log (bulk_log st ++ [PList vals]) st)
    = (Ok its, st') ->
  (forall v, In v vals -> dget its v <> None) -> none st' = Some n ->
  bulk E (PList vals) None true true st
  = (Ok (dset (map (fun kv => (fst kv, Text (snd kv))) its) PNone (Text n)),
     st').
Proof.
  intros Hsetup Hlt Hsl Hne Hlook Hall Hn.
  unfold bulk. unfold bind at 1. unfold modify at 1.
  set (st0 := set_bulk_log (bulk_log st ++ [PList vals]) st) in *.
  unfold bulk_body.
  rewrite (@bind_run _ _ _ _ _ _ _ (setup_done E st0 Hsetup)).
  mrun. cbn [show_link list_type table st0 set_bulk_log]. rewrite Hsl, Hlt.
  cbn [rows_truthy andb].
  destruct vals as [| v0 vals0]; [congruence |].
  rewrite Hlook.
  rewrite fill_missing_present.
  - rewrite Hn. reflexivity.
  - intros v Hv. rewrite dget_map_text.
    destruct (dget its v) eqn:Hg; [discriminate | now apply Hall in Hg].
Qed.

(** [__call__] for a key whose label is cached. *)
Lemma call_cached st d v l sl n :
  setup st = true -> list_type st = false -> show_link st = false ->
  theset st = Some d -> none st = Some n ->
  normal v = true -> hashable v = true ->
  (truthy v = true -> dget d v = Some l) ->
  __call__ E v None sl st = (Ok (Text (if truthy v then l else n)), st).
Proof.
  intros Hsetup Hlt Hsl Hd Hn Hnorm Hh Hc.
  destruct (truthy v) eqn:Hv.
  - rewrite call_run by assumption.
    rewrite (@bind_run _ _ _ _ _ _ _
               (@lookup_cached E st d v l None Hd
                  (normalize_not_None (table st) v Hv)
                  ltac:(rewrite normalize_normal by exact Hnorm; now apply Hc)
                  ltac:(rewrite normalize_normal by exact Hnorm; exact Hh))).
    unfold labelled. cbn [dget]. rewrite pyval_eqb_refl, Hsl, andb_false_r.
    reflexivity.
  - unfold __call__. rewrite (@bind_run _ _ _ _ _ _ _ (setup_done E st Hsetup)).
    mrun. rewrite Hlt, Hv, Hn. reflexivity.
Qed.

(** [represent] and [render] of an accumulator that is not [multiple], on
    a representer that is not list-type. *)
Lemma lazy_output_plain r self st labels st1 :
  Lazy.flush E st = (Ok labels, st1) -> list_type st1 = false ->
  Lazy.multiple self = false ->
  lazy_output E r self st = __call__ E (Lazy.value self) None r st1.
Proof.
  intros Hf Hlt Hm. unfold lazy_output.
  destruct r; unfold Lazy.render, Lazy.represent;
    rewrite (@bind_run _ _ _ _ _ _ _ Hf); mrun; rewrite Hlt, Hm; reflexivity.
Qed.

Variables (st : S3Represent) (t : Table) (name : string) (fs : list string)
          (d : dict string) (dl n : string) (lab : pyval -> string).
Hypothesis Hq : queue_setting E st t name fs d dl n lab.
Hypothesis Hpending : lazy st <> [].

(** The flush of the queue: [bulk] looks up all queued values at once, and
    the labels of the keys are in [theset] afterwards. *)
Lemma flush_resolves :
  exists labels d1 st1,
    Lazy.flush E st = (Ok (Some labels), st1) /\
    lazy st1 = [] /\ setup st1 = true /\ list_type st1 = false /\
    show_link st1 = false /\ none st1 = Some n /\
    theset st1 = Some d1 /\
    (forall v, In v (lazy st) -> v <> PNone -> dget d1 v = Some (lab v)) /\
    (fetch_log st1 = fetch_log st \/
     exists ks, fetch_log st1 = fetch_log st ++ [ks] /\
                forall x, In x ks <->
                          (In x (lazy st) /\ x <> PNone /\ dget d x = None)).
Proof.
  destruct Hq as [Hs Hsetup Hlt Hsl Hflat Hn Hnorm Hhash Hln Hlc Hlr].
  set (st0 := set_bulk_log (bulk_log st ++ [PList (lazy st)]) st).
  assert (Hs0 : lookup_setting st0 t name fs d dl).
  { destruct Hs. split; assumption. }
  destruct (@lookup_flat_resolved E st0 t name fs d dl Hs0 Hflat lab (lazy st) n Hn
              Hnorm Hhash Hln Hlc Hlr)
    as (its & st' & Hrun & Hits & (d1 & Hd1 & Hcached) & Hcfg & Hfetch).
  assert (Hfield : forall {X} (f : S3Represent -> X),
             (forall s, f (cfg s) = f s) -> f st' = f st0).
  { intros X f Hf. exact (@cfg_field X f st' st0 Hf Hcfg). }
  assert (Hn' : none st' = Some n)
    by (rewrite (Hfield _ none (fun _ => eq_refl)); exact Hn).
  rewrite flush_pending by exact Hpending.
  rewrite (@bulk_plain_run st (lazy st) its st' n Hsetup Hlt Hsl Hpending Hrun);
    [| intros v Hv; rewrite (Hits v Hv); discriminate | exact Hn'].
  eexists _, d1, (set_lazy [] st'). split; [reflexivity |].
  cbn [lazy setup list_type show_link none theset fetch_log set_lazy].
  split; [reflexivity |].
  split; [rewrite (Hfield _ setup (fun _ => eq_refl)); exact Hsetup |].
  split; [rewrite (Hfield _ list_type (fun _ => eq_refl)); exact Hlt |].
  split; [rewrite (Hfield _ show_link (fun _ => eq_refl)); exact Hsl |].
  split; [exact Hn' |]. split; [exact Hd1 |]. split; [exact Hcached |].
  destruct Hfetch as [[-> _] | (ks & Hlog & _ & _ & Hks)].
  - left. reflexivity.
  - right. exists ks. split; [exact Hlog | exact Hks].
Qed.

(** Once the queue is resolved, an accumulator of a queued value is
    served from [theset]: the object stays as it is. *)
Lemma served_after_flush st1 d1 r self :
  lazy st1 = [] -> setup st1 = true -> list_type st1 = false ->
  show_link st1 = false -> none st1 = Some n -> theset st1 = Some d1 ->
  (forall v, In v (lazy st) -> v <> PNone -> dget d1 v = Some (lab v)) ->
  In (Lazy.value self) (lazy st) -> Lazy.multiple self = false ->
  __call__ E (Lazy.value self) None r st1
    = (Ok (shown n lab (Lazy.value self)), st1) /\
  lazy_output E r self st1 = (Ok (shown n lab (Lazy.value self)), st1).
Proof.
  intros Hl Hsetup Hlt Hsl Hn Hd1 Hcached Hin Hm.
  assert (Hcall : __call__ E (Lazy.value self) None r st1
                  = (Ok (shown n lab (Lazy.value self)), st1)).
  { apply (@call_cached st1 d1 (Lazy.value self) (lab (Lazy.value self)) r n);
      try assumption.
    - now apply (qs_normal Hq).
    - now apply (qs_hashable Hq).
    - intros Hv. apply Hcached; [exact Hin |]. intros Heq.
      rewrite Heq in Hv. discriminate. }
  split; [exact Hcall |].
  rewrite (@lazy_output_plain r self st1 _ st1 (flush_empty E st1 Hl) Hlt Hm).
  exact Hcall.
Qed.

End QueueResolved.


(** Two accumulators on the representer of the organisations. *)
Definition two_accumulators : S3Represent :=
  snd (Lazy.__init__ (PInt 2) (snd (Lazy.__init__ (PInt 1) org_ready))).

Lemma two_accumulators_setting :
  queue_setting demo_env two_accumulators org_table "id" ["name"] [] "Unknown"
    "-" (fun v => match v with
                  | PInt 1 => "Alpha"
                  | PInt 2 => "Beta"
                  | _ => "-"
                  end).
Proof.
  split; try reflexivity.
  - split; try reflexivity. discriminate.
  - intros v [<- | [<- | []]]; reflexivity.
  - intros v [<- | [<- | []]]; reflexivity.
  - intros v l _ _ Hc. discriminate Hc.
  - intros v [<- | [<- | []]] _ _.
    + demo_row_label 1%Z "Alpha"%string.
    + demo_row_label 2%Z "Beta"%string.
Qed.


(** * Further properties of the representer *)

(** ** [_setup] *)

(** X1.  [_setup] configures the object once: when it has returned on a
    well-formed representer, another [_setup] returns without touching the
    object, so that [theset] and [queries] are not reset. *)
Theorem setup_runs_once (E : Env) (st : S3Represent) :
  wf st = true -> fst (_setup E st) = Ok tt ->
  _setup E (snd (_setup E st)) = (Ok tt, snd (_setup E st)).
Proof.
  intros Hwf Hok. destruct (setup_ok E st Hwf Hok) as (Hready & _).
  cbv zeta in Hready. apply setup_done.
  unfold ready in Hready. now destruct (setup (snd (_setup E st))).
Qed.

Lemma setup_runs_once_witness :
  _setup demo_env (snd (_setup demo_env org_represent))
  = (Ok tt, snd (_setup demo_env org_represent)).
Proof. apply (@setup_runs_once demo_env org_represent); reflexivity. Defined.

(** [split("_", 1)] on a name without an underscore, and on a name whose
    first underscore is known. *)
Lemma split_underscore_none s :
  ~ In "_"%char (list_ascii_of_string s) -> split_underscore s = None.
Proof.
  induction s as [| ch s IH]; cbn; [reflexivity |]. intros Hnin.
  destruct (Ascii.eqb ch "_") eqn:He.
  - apply Ascii.eqb_eq in He. exfalso. apply Hnin. now left.
  - rewrite IH; [reflexivity |]. intros Hin. apply Hnin. now right.
Qed.

Lemma split_underscore_first c f :
  ~ In "_"%char (list_ascii_of_string c) ->
  split_underscore (c ++ String "_" f) = Some (c, f).
Proof.
  induction c as [| ch c IH]; cbn; [reflexivity |]. intros Hnin.
  destruct (Ascii.eqb ch "_") eqn:He.
  - apply Ascii.eqb_eq in He. exfalso. apply Hnin. now left.
  - rewrite IH; [reflexivity |]. intros Hin. apply Hnin. now right.
Qed.

Section SetupLink.

Variable E : Env.
Variables (st : S3Represent) (name : string).
Hypothesis Hfresh : setup st = false.
Hypothesis Htable : table st = None.
Hypothesis Hname : tablename st = Some name.
Hypothesis Hlinkto : linkto st = None.
Hypothesis Hshow : show_link st = true.

(** [_setup] of a representer that is to show links and has no [linkto],
    up to the split of the name of the lookup table. *)
Lemma setup_link_run :
  name <> "" ->
  exists st1,
    linkto st1 = None /\
    _setup E st =
    match split_underscore name with
    | Some (c, f) =>
        (Ok tt, set_setup true (setup_renderer (set_linkto (Some (URL E c f)) st1)))
    | None => (Exc ValueError, st1)
    end.
Proof.
  intros Hne. apply String.eqb_neq in Hne.
  unfold _setup. mrun. rewrite Hfresh. unfold setup_table. mrun.
  assert (Hd : table (setup_defaults E st) = None /\
               tablename (setup_defaults E st) = Some name /\
               linkto (setup_defaults E st) = None /\
               show_link (setup_defaults E st) = true).
  { unfold setup_defaults. cbv zeta.
    repeat match goal with
           | |- context [match ?x with _ => _ end] => destruct x
           end; cbn; auto. }
  destruct Hd as (Ht & Hn & Hl & Hs). rewrite Ht, Hn, Hne.
  destruct (s3db_table E name) as [t |]; mrun.
  - assert (Hl' : linkto (setup_lookup_table t (setup_defaults E st)) = None /\
                  show_link (setup_lookup_table t (setup_defaults E st)) = true).
    { unfold setup_lookup_table. cbv zeta.
      generalize (setup_defaults E st) Hl Hs. intros s0 Hl0 Hs0.
      repeat match goal with
             | |- context [match ?x with _ => _ end] => destruct x
             | |- context [if ?x then _ else _] => destruct x
             end; cbn; auto. }
    destruct Hl' as [Hl1 Hs1]. rewrite Hl1, Hs1. cbn [is_Some negb andb].
    exists (setup_lookup_table t (setup_defaults E st)). split; [exact Hl1 |].
    destruct (split_underscore name) as [[c f] |]; reflexivity.
  - rewrite Hl, Hs. cbn [is_Some negb andb].
    exists (setup_defaults E st). split; [exact Hl |].
    destruct (split_underscore name) as [[c f] |]; reflexivity.
Qed.

End SetupLink.

(** X2.  When links are to be shown and no [linkto] is given, [_setup]
    derives it from the name of the lookup table; a name without an
    underscore cannot be split into controller and function, and [_setup]
    raises a [ValueError], whether the table exists or not. *)
Theorem setup_link_needs_underscore (E : Env) (st : S3Represent) (name : string) :
  setup st = false -> table st = None -> tablename st = Some name ->
  linkto st = None -> show_link st = true ->
  name <> "" -> ~ In "_"%char (list_ascii_of_string name) ->
  fst (_setup E st) = Exc ValueError.
Proof.
  intros Hf Ht Hn Hl Hs Hne Hnin.
  destruct (@setup_link_run E st name Hf Ht Hn Hl Hs Hne) as (st1 & _ & ->).
  now rewrite split_underscore_none.
Qed.

Lemma setup_link_needs_underscore_witness :
  fst (_setup demo_env
         (__init__ None (Some "organisation") None None LNone None false None
                   true false HFalse None None " ")) = Exc ValueError.
Proof.
  apply (@setup_link_needs_underscore demo_env _ "organisation");
    try reflexivity; [discriminate |].
  cbn. intuition discriminate.
Defined.

(** X3.  For a table name [c_f], where [c] has no underscore, [_setup] sets
    [linkto] to the URL of the function [f] of the controller [c]. *)
Theorem setup_default_linkto (E : Env) (st : S3Represent) (c f : string) :
  setup st = false -> table st = None ->
  tablename st = Some (c ++ String "_" f)%string ->
  linkto st = None -> show_link st = true ->
  ~ In "_"%char (list_ascii_of_string c) ->
  fst (_setup E st) = Ok tt /\
  linkto (snd (_setup E st)) = Some (URL E c f) /\
  setup (snd (_setup E st)) = true.
Proof.
  intros Hf Ht Hn Hl Hs Hnin.
  destruct (@setup_link_run E st _ Hf Ht Hn Hl Hs) as (st1 & _ & ->).
  { destruct c; discriminate. }
  rewrite split_underscore_first by exact Hnin. repeat split.
Qed.

Lemma setup_default_linkto_witness :
  fst (_setup demo_env
         (__init__ None (Some "org_organisation") None None LNone None false
                   None true false HFalse None None " ")) = Ok tt /\
  linkto (snd (_setup demo_env
         (__init__ None (Some "org_organisation") None None LNone None false
                   None true false HFalse None None " ")))
    = Some (URL demo_env "org" "organisation") /\
  setup (snd (_setup demo_env
         (__init__ None (Some "org_organisation") None None LNone None false
                   None true false HFalse None None " "))) = true.
Proof.
  apply (@setup_default_linkto demo_env _ "org" "organisation");
    try reflexivity.
  cbn. intuition discriminate.
Defined.

(** ** The entry points on a representer that is not set up yet *)

Section AfterSetup.

Variable E : Env.
Variables (st st0 : S3Represent).
Hypothesis Hsetup : _setup E st = (Ok tt, st0).
Hypothesis Hdone : setup st0 = true.

Lemma call_after_setup v row sl :
  __call__ E v row sl st = __call__ E v row sl st0.
Proof.
  unfold __call__. rewrite (@bind_run _ _ _ _ _ _ _ Hsetup).
  now rewrite (@bind_run _ _ _ _ _ _ _ (setup_done E st0 Hdone)).
Qed.

Lemma multiple_after_setup vs rws lt sl :
  multiple E vs rws lt sl st = multiple E vs rws lt sl st0.
Proof.
  unfold multiple. rewrite (@bind_run _ _ _ _ _ _ _ Hsetup).
  now rewrite (@bind_run _ _ _ _ _ _ _ (setup_done E st0 Hdone)).
Qed.

End AfterSetup.

(** [_setup] of a representer without a lookup table. *)
Lemma setup_without_table E st :
  setup st = false -> table st = None -> tablename st = None ->
  _setup E st = (Ok tt, set_setup true (setup_renderer (setup_defaults E st))).
Proof.
  intros Hf Ht Hn. unfold _setup. mrun. rewrite Hf. unfold setup_table. mrun.
  assert (Hd : table (setup_defaults E st) = None /\
               tablename (setup_defaults E st) = None).
  { unfold setup_defaults. cbv zeta.
    repeat match goal with
           | |- context [match ?x with _ => _ end] => destruct x
           end; cbn; auto. }
  destruct Hd as [-> ->]. reflexivity.
Qed.

(** ** [multiple] and [__call__] on lists *)

(** X4.  [multiple] of the empty list returns the none-label and looks
    nothing up, whether the list is taken as a list of lists or not: the
    object is left as [_setup] leaves it. *)
Theorem multiple_empty_gives_none (E : Env) (st : S3Represent) (lt sl : bool) :
  wf st = true -> fst (_setup E st) = Ok tt -> set_order E [] = [] ->
  multiple E (PList []) None lt sl st
    = (Ok (Text (none_label E st)), snd (_setup E st)) /\
  fetch_log (snd (multiple E (PList []) None lt sl st)) = fetch_log st.
Proof.
  intros Hwf Hok Hset.
  pose proof (setup_ok E st Hwf Hok) as (Hready & Hnone & _). cbv zeta in *.
  pose proof (stable_setup E setup_blind_fetch_log st) as Hlog.
  unfold preserves in Hlog.
  assert (Hrun : multiple E (PList []) None lt sl st
                 = (Ok (Text (none_label E st)), snd (_setup E st))).
  { destruct (_setup E st) as [[[] | e] st0] eqn:Hsetup; [| discriminate].
    cbn [fst snd] in *.
    assert (Hdone : setup st0 = true).
    { unfold ready in Hready. now destruct (setup st0). }
    rewrite (@multiple_after_setup E st st0 Hsetup Hdone). unfold multiple.
    rewrite (@bind_run _ _ _ _ _ _ _ (setup_done E st0 Hdone)).
    mrun. cbn [rows_truthy andb]. unfold catch, flatten. cbn. mrun.
    rewrite Hset.
    destruct (list_type st0 && lt); rewrite Hnone; reflexivity. }
  split; [exact Hrun |]. rewrite Hrun. exact Hlog.
Qed.

Lemma multiple_empty_gives_none_witness :
  multiple demo_env (PList []) None true true org_represent_list
    = (Ok (Text (none_label demo_env org_represent_list)),
       snd (_setup demo_env org_represent_list)) /\
  fetch_log (snd (multiple demo_env (PList []) None true true org_represent_list))
    = fetch_log org_represent_list.
Proof.
  apply (@multiple_empty_gives_none demo_env org_represent_list true true);
    reflexivity.
Defined.

(** ** A representer of options *)

(** X5.  A representer without a lookup table represents from its options
    alone: [__call__] returns the label that the options have for the value
    (as a link if links are shown), or the default label if they have none;
    it never fetches, and leaves the object as [_setup] leaves it. *)
Theorem options_representer_never_fetches (E : Env) (st : S3Represent)
    (v : pyval) (sl : bool) :
  setup st = false -> table st = None -> tablename st = None ->
  list_type st = false -> truthy v = true -> hashable v = true ->
  exists r,
    __call__ E v None sl st = (Ok r, snd (_setup E st)) /\
    fetch_log (snd (_setup E st)) = fetch_log st /\
    match dget (match options st with Some o => o | None => [] end) v with
    | Some l => r = Text l \/ exists href, r = A l href
    | None => r = Text (default_label E st)
    end.
Proof.
  intros Hf Ht Hn Hlt Hv Hh.
  pose proof (setup_without_table E st Hf Ht Hn) as Hsetup.
  set (st0 := set_setup true (setup_renderer (setup_defaults E st))) in *.
  assert (Hfacts : table st0 = None /\ list_type st0 = false /\
                   fetch_log st0 = fetch_log st /\
                   theset st0 = Some (match options st with
                                      | Some o => o
                                      | None => []
                                      end) /\
                   default st0 = Some (default_label E st)).
  { unfold st0. clear - Ht Hlt.
    destruct st as [tn tb ky fl lb op lty hy tr lk sh df nn fsep su ts qu lz
                    lzs rw lr cl sla cla ht flog blog].
    cbn in Ht, Hlt. subst tb lty. unfold default_label.
    destruct df, nn, op; cbn; auto. }
  destruct Hfacts as (Ht0 & Hlt0 & Hlog0 & Hts0 & Hdf0).
  rewrite Hsetup. cbn [snd].
  rewrite (@call_after_setup E st st0 Hsetup eq_refl).
  rewrite call_run by (reflexivity || assumption).
  assert (Hnorm : normalize (table st0) v = v).
  { rewrite Ht0. now destruct v. }
  unfold bind at 1.
  rewrite lookup_scan, (scan_one st0 v Hts0)
    by (rewrite Hnorm; destruct v; (discriminate || reflexivity)).
  cbv zeta. rewrite Hnorm, Hh, Ht0.
  destruct (dget _ v) as [l |] eqn:Hg; cbn [items]; unfold labelled; cbn [dget].
  - rewrite pyval_eqb_refl.
    destruct (sl && show_link st0).
    + mrun. destruct (link_run E v l (dget (rows st0) v) st0) as (Hsnd & r & Hfst & Hr).
      destruct (link E v l (dget (rows st0) v) st0) as [rr ss]. cbn [fst snd] in *.
      subst. exists r. auto.
    + exists (Text l). mrun. auto.
  - mrun. rewrite Hdf0. cbn [label_of]. mrun.
    exists (Text (default_label E st)). auto.
Qed.

Lemma options_representer_never_fetches_witness :
  exists r,
    __call__ demo_env (PStr "b") None true
      (__init__ None None None None LNone
                (Some [(PStr "a", "Apple"); (PStr "b", "Banana")])
                false None false false HFalse None None " ")
      = (Ok r, snd (_setup demo_env
      (__init__ None None None None LNone
                (Some [(PStr "a", "Apple"); (PStr "b", "Banana")])
                false None false false HFalse None None " "))) /\
    fetch_log (snd (_setup demo_env
      (__init__ None None None None LNone
                (Some [(PStr "a", "Apple"); (PStr "b", "Banana")])
                false None false false HFalse None None " "))) = [] /\
    (r = Text "Banana" \/ exists href, r = A "Banana" href).
Proof.
  apply (@options_representer_never_fetches demo_env
           (__init__ None None None None LNone
                     (Some [(PStr "a", "Apple"); (PStr "b", "Banana")])
                     false None false false HFalse None None " ")
           (PStr "b") true); reflexivity.
Defined.

Section CallList.

Variable E : Env.

(** [multiple] of a list that is not to be flattened, without rows and
    links. *)
Lemma multiple_plain_run st vs lt sl its st' dl :
  setup st = true -> list_type st && lt = false -> sl && show_link st = false ->
  default st = Some dl -> vs <> [] ->
  _lookup E vs None st = (Ok its, st') ->
  multiple E (PList vs) None lt sl st =
  (Ok (Text (join ", " (map (fun k => match dget its k with
                                      | Some l => l
                                      | None => dl
                                      end) vs))), st').
Proof.
  intros Hsetup Hlt Hsl Hdl Hne Hlook. unfold multiple.
  rewrite (@bind_run _ _ _ _ _ _ _ (setup_done E st Hsetup)).
  mrun. rewrite Hsl, Hlt. cbn [rows_truthy andb].
  destruct vs as [| v0 vs0]; [congruence |].
  rewrite Hdl. cbn [label_of]. mrun. rewrite Hlook. reflexivity.
Qed.

(** [__call__] on a list-type representer hands the value to [multiple]. *)
Lemma call_list_run st value sl :
  setup st = true -> list_type st = true ->
  __call__ E value None sl st =
  multiple E value None false (sl && show_link st) st.
Proof.
  intros Hsetup Hlt. unfold __call__.
  rewrite (@bind_run _ _ _ _ _ _ _ (setup_done E st Hsetup)).
  mrun. now rewrite Hlt.
Qed.

End CallList.

(** X6.  [__call__] on a list-type representer takes its value as one list
    and does not flatten it.  On a flat table, for a list of keys each of
    which is [None], cached or has a record, it returns the labels in the
    order of the list, one for every element (repeated elements are
    repeated), joined by a comma; here [lab] gives the label: the none-label
    for [None], the cached label, or else the rendering of the records with
    the key. *)
Theorem call_list_keeps_order (E : Env) (st : S3Represent) (t : Table)
    (name : string) (fs : list string) (d : dict string) (dl n : string)
    (lab : pyval -> string) (vs : list pyval) (sl : bool) :
  lookup_setting st t name fs d dl ->
  setup st = true -> list_type st = true -> sl && show_link st = false ->
  hierarchical E st t = false -> none st = Some n ->
  vs <> [] ->
  (forall v, In v vs -> normal v = true /\ hashable v = true) ->
  (In PNone vs -> lab PNone = n) ->
  (forall v l, In v vs -> v <> PNone -> dget d v = Some l -> lab v = l) ->
  (forall v, In v vs -> v <> PNone -> dget d v = None ->
             row_label E st t name fs v (lab v)) ->
  exists st',
    __call__ E (PList vs) None sl st
      = (Ok (Text (join ", " (map lab vs))), st') /\
    (st' = st \/
     exists ks, fetch_log st' = fetch_log st ++ [ks] /\ NoDup ks /\
                forall x, In x ks <-> In x vs /\ x <> PNone /\ dget d x = None).
Proof.
  intros Hs Hsetup Hlt Hsl Hflat Hn Hne Hvs Hnone Hcached Hrow.
  destruct (@lookup_flat_resolved E st t name fs d dl Hs Hflat lab vs n Hn)
    as (its & st' & Hrun & Hits & _ & _ & Hfetch); auto.
  { intros v Hv. now apply Hvs. }
  { intros v Hv. now apply Hvs. }
  exists st'. split.
  - rewrite call_list_run by assumption.
    rewrite (@multiple_plain_run E st vs false _ its st' dl Hsetup);
      [| apply andb_false_r
       | destruct sl; cbn in *; [now rewrite Hsl | reflexivity]
       | exact (ls_default Hs) | exact Hne | exact Hrun].
    do 4 f_equal. apply map_ext_in. intros v Hv. now rewrite (Hits v Hv).
  - destruct Hfetch as [(-> & _) | (ks & Hlog & _ & Hnd & Hks)]; [now left |].
    right. exists ks. auto.
Qed.

(** The list [2, 1, 2] of organisations. *)
Lemma call_list_keeps_order_witness :
  exists st',
    __call__ demo_env (PList [PInt 2; PInt 1; PInt 2]) None true org_list_ready
      = (Ok (Text "Beta, Alpha, Beta"), st') /\
    (st' = org_list_ready \/
     exists ks, fetch_log st' = fetch_log org_list_ready ++ [ks] /\ NoDup ks /\
                forall x, In x ks <->
                          In x [PInt 2; PInt 1; PInt 2] /\ x <> PNone /\
                          dget (@nil (pyval * string)) x = None).
Proof.
  apply (@call_list_keeps_order demo_env org_list_ready org_table "id" ["name"]
           [] "Unknown" "-" (union_label "Alpha" "Beta" "-")
           [PInt 2; PInt 1; PInt 2] true);
    try reflexivity; try discriminate.
  - exact org_list_ready_setting.
  - intros v [<- | [<- | [<- | []]]]; split; reflexivity.
  - intros v [<- | [<- | [<- | []]]] _ _.
    + demo_row_label 2%Z "Beta"%string.
    + demo_row_label 1%Z "Alpha"%string.
    + demo_row_label 2%Z "Beta"%string.
Defined.

(** ** The keys of the cache *)

(** X7.  On a representer with a lookup table, the labels are cached under
    the integer that a decimal string denotes: once [__call__] has returned
    for a value whose key has a record, [__call__] for any other spelling of
    the same key (the string ["2"] for the number [2], or the reverse)
    returns the same label from [theset], without a fetch. *)
Theorem spellings_share_cache (E : Env) (st : S3Represent) (v v' : pyval)
    (r1 : markup) (st1 : S3Represent) (t : Table) (name : string) :
  parents_normal E ->
  wf st = true -> list_type st = false ->
  lookup_rows st = None -> custom_lookup st = false ->
  table (snd (_setup E st)) = Some t -> key (snd (_setup E st)) = Some name ->
  has_field t name = true ->
  has_row t name (normalize (Some t) v) ->
  truthy v = true -> truthy v' = true ->
  normalize (Some t) v' = normalize (Some t) v ->
  __call__ E v None false st = (Ok r1, st1) ->
  __call__ E v' None false st1 = (Ok r1, st1) /\
  exists d1 l, theset st1 = Some d1 /\
               dget d1 (normalize (Some t) v) = Some l /\ r1 = Text l.
Proof.
  intros Hpar Hwf Hlt Hfe Hcu Htb Hkey Hhas Hrow Hv Hv' Hsame Hrun.
  assert (Hok : fst (_setup E st) = Ok tt).
  { revert Hrun. unfold __call__. unfold bind at 1.
    destruct (_setup E st) as [[[] | e] st0]; [reflexivity | discriminate]. }
  pose proof (setup_ok E st Hwf Hok) as (Hready & _). cbv zeta in *.
  pose proof (stable_setup E (ab_setup api_blind_list_type) st) as Hl.
  pose proof (stable_setup E (ab_setup api_blind_lookup_rows) st) as Hf.
  pose proof (stable_setup E (ab_setup api_blind_custom_lookup) st) as Hc.
  unfold preserves in Hl, Hf, Hc. rewrite Hlt in Hl. rewrite Hfe in Hf.
  rewrite Hcu in Hc.
  destruct (_setup E st) as [[[] | e] st0] eqn:Hsetup; [| discriminate].
  cbn [fst snd] in *.
  assert (Hdone : setup st0 = true).
  { unfold ready in Hready. now destruct (setup st0). }
  rewrite (@call_after_setup E st st0 Hsetup Hdone) in Hrun.
  rewrite call_run in Hrun by assumption.
  apply bind_ok in Hrun as (its & s1 & Hlook & Hrest).
  destruct (ready_setting st0 Hready Htb Hkey Hhas Hc Hf) as (fs & d & dl & Hs).
  destruct (@lookup_one_resolved E Hpar _ _ _ _ _ _ _ _ _ Hs Hv Hrow Hlook)
    as (d1 & l & Hd1 & Hl1 & Hits & Hhash & Hcfg).
  revert Hrest. unfold labelled. rewrite Hits. cbn [andb]. intros [= <- <-].
  split; [| exists d1, l; auto].
  rewrite call_run;
    [| rewrite (cfg_field setup (fun _ => eq_refl) Hcfg); exact Hdone
     | rewrite (cfg_field list_type (fun _ => eq_refl) Hcfg); exact Hl
     | exact Hv'].
  unfold bind at 1.
  rewrite (lookup_cached E s1 v' (d := d1) (l := l));
    [| exact Hd1
     | rewrite (cfg_field table (fun _ => eq_refl) Hcfg), Htb;
       now apply normalize_not_None
     | rewrite (cfg_field table (fun _ => eq_refl) Hcfg), Htb, Hsame; exact Hl1
     | rewrite (cfg_field table (fun _ => eq_refl) Hcfg), Htb, Hsame; exact Hhash].
  unfold labelled. cbn [dget andb]. now rewrite pyval_eqb_refl.
Qed.

(** The organisation [2], asked for as a number and then as a string. *)
Lemma spellings_share_cache_witness :
  let st1 := snd (__call__ demo_env (PInt 2) None false org_represent) in
  __call__ demo_env (PStr "2") None false st1 = (Ok (Text "Beta"), st1) /\
  exists d1 l, theset st1 = Some d1 /\
               dget d1 (normalize (Some org_table) (PInt 2)) = Some l /\
               Text "Beta" = Text l.
Proof.
  intros st1.
  apply (@spellings_share_cache demo_env org_represent (PInt 2) (PStr "2")
           (Text "Beta") st1 org_table "id").
  - exact demo_parents_normal.
  - reflexivity.
  - reflexivity.
  - reflexivity.
  - reflexivity.
  - reflexivity.
  - reflexivity.
  - reflexivity.
  - exists (org_row 2 "Beta"). split; [right; left |]; reflexivity.
  - reflexivity.
  - reflexivity.
  - reflexivity.
  - subst st1. vm_compute. reflexivity.
Defined.

(** ** What [_lookup] does to [theset] *)

(** An invariant of the object in a loop, whether the loop returns or
    raises. *)
Lemma for_fold_state_inv {X L} (I : S3Represent -> Prop)
    (body : L -> X -> M L) (l : list X) :
  (forall a x s, In x l -> I s -> I (snd (body a x s))) ->
  forall acc st, I st -> I (snd (for_fold l body acc st)).
Proof.
  induction l as [| x l IH]; intros Hstep acc st Hst; cbn [for_fold].
  - exact Hst.
  - unfold bind. pose proof (Hstep acc x st (or_introl eq_refl) Hst) as H1.
    destruct (body acc x st) as [[a | e] s1]; cbn [snd] in *; [| exact H1].
    apply IH; [| exact H1]. intros a0 x0 s Hin. apply Hstep. now right.
Qed.

Lemma default_phase_state lv s : snd (default_phase lv s) = s.
Proof.
  unfold default_phase.
  apply (for_fold_state_inv (fun s' => s' = s)); [| reflexivity].
  intros a x s0 _ ->. mrun. unfold label_of.
  destruct (default s); reflexivity.
Qed.

(** The labels of [d] are still there in [d']. *)
Definition keeps_labels (d d' : dict string) : Prop :=
  forall x l, dget d x = Some l -> dget d' x = Some l.

Section KeepsCache.

Variable E : Env.
Variables (st : S3Represent) (t : Table) (name : string) (fs : list string)
          (d : dict string) (dl : string).
Hypothesis Hset : lookup_setting st t name fs d dl.

(** The loops over the rows of a fetch for uncached keys. *)
Lemma fetched_loops_keep_cache h (ks : list pyval) byk lv s :
  (forall k, In k ks -> dget d k = None) ->
  by_key name (db_select t name ks (selected t fs name)) = Ok byk ->
  (exists d0, theset s = Some d0 /\ keeps_labels d d0) ->
  exists d', theset (snd (match h with
                          | Some tn => for_fold byk (fetched_path E tn byk) lv
                          | None => for_fold byk (fetched_flat E) lv
                          end s)) = Some d' /\ keeps_labels d d'.
Proof.
  intros Hunc Hbyk Hs.
  pose proof (by_key_spec _ _ Hbyk) as (Hnd & K1 & _).
  assert (Hkeys : forall kr, In kr byk -> dget d (fst kr) = None).
  { intros [k row] Hin. cbn [fst].
    pose proof (In_NoDup_dget byk k row Hnd Hin) as Hg.
    destruct (K1 k row Hg) as [Hrow Hrk].
    apply db_select_spec in Hrow as (r & x & _ & -> & Hrx & Hx);
      [| apply In_selected].
    rewrite row_get_select_fields in Hrk by apply In_selected.
    assert (x = k) by congruence. subst x. now apply Hunc. }
  destruct h as [tn |].
  - apply (for_fold_state_inv
             (fun s' => exists d', theset s' = Some d' /\ keeps_labels d d'));
      [| exact Hs].
    intros a kr s0 _ (d0 & Hd0 & Hk0). rewrite fetched_path_run.
    destruct (dget (lookup a) (fst kr)) as [[|] |]; cbn [snd]; eauto.
    destruct (_represent_path E (recursion_limit E) tn (fst kr) (snd kr) byk s0)
      as [r s1] eqn:Hrp.
    destruct (represent_path_spec E _ tn byk _ _ s0 (d := d0) Hd0 Hrp)
      as (d1 & -> & Hmono & _).
    assert (Hres : exists d', theset (set_theset (Some d1) s0) = Some d' /\
                              keeps_labels d d').
    { exists d1. split; [reflexivity |]. intros x l Hx. now apply Hmono, Hk0. }
    destruct r; exact Hres.
  - apply (for_fold_state_inv
             (fun s' => exists d', theset s' = Some d' /\ keeps_labels d d'));
      [| exact Hs].
    intros a kr s0 Hin (d0 & Hd0 & Hk0). rewrite fetched_flat_run.
    destruct (render_row E s0 (snd kr) None) as [l |]; cbn [snd]; eauto.
    rewrite Hd0. cbn [snd theset set_theset].
    exists (dset d0 (fst kr) l). split; [reflexivity |].
    intros x lx Hx. rewrite dget_dset_other; [now apply Hk0 |].
    intros Heq. subst x. rewrite (Hkeys kr Hin) in Hx. discriminate.
Qed.

End KeepsCache.

(** X8.  A label that is cached stays as it is: whatever values [_lookup]
    is asked for, and whether it returns or raises, every key that had a
    label in [theset] before has the same label afterwards.  (With the
    default [lookup_rows]; a fetch asks for uncached keys only, and only the
    keys of the rows of the fetch are written.) *)
Theorem lookup_keeps_cached_labels (E : Env) (st : S3Represent) (t : Table)
    (name : string) (fs : list string) (d : dict string) (dl : string)
    (values : list pyval) :
  lookup_setting st t name fs d dl ->
  exists d', theset (snd (_lookup E values None st)) = Some d' /\
             forall x l, dget d x = Some l -> dget d' x = Some l.
Proof.
  intros Hs. pose proof Hs as [Hts Hnl Hdl Htb Hkey Hhas Hfs Hcu Hfe].
  assert (Hsame : exists d', theset st = Some d' /\ keeps_labels d d').
  { exists d. split; [exact Hts | intros x l; auto]. }
  fold (keeps_labels d). rewrite lookup_scan.
  destruct (fold_res (scan_step st) values no_locals) as [lv | e] eqn:Hscan;
    [| exact Hsame].
  destruct (scan_lookup st Hts values Hscan) as (_ & Hflags & _).
  rewrite Htb. destruct (lookup lv) as [| kv lk] eqn:Hlk; [exact Hsame |].
  rewrite <- Hlk in *. clear kv lk Hlk.
  unfold bind at 1.
  destruct (with_ancestors_spec E st t lv Hts) as (W1 & W2 & _).
  destruct (with_ancestors E t lv st) as [[[lv1 h] | e] s1] eqn:Hwa;
    cbn [fst snd] in W1, W2; subst s1; [| exact Hsame].
  destruct (W2 _ eq_refl) as (_ & _ & Hlk1). cbn [fst snd] in Hlk1.
  mrun. rewrite Hkey, Hhas. cbn [negb].
  assert (Hunc : forall k, In k (dkeys (lookup lv1)) -> dget d k = None).
  { intros k Hk.
    destruct (dget (lookup lv1) k) as [b |] eqn:Hg;
      [| now apply dget_None_notin in Hg].
    destruct Hlk1 as [(_ & [= -> _]) | (_ & _ & (extra & Hext & Hanc & _))].
    - now destruct (Hflags k b Hg) as (_ & _ & _ & ? & _).
    - rewrite Hext in Hg.
      destruct (dget (lookup lv) k) as [b0 |] eqn:Hg0.
      + now destruct (Hflags k b0 Hg0) as (_ & _ & _ & ? & _).
      + assert (Hex : dget extra k = Some b).
        { clear - Hg Hg0. induction (lookup lv) as [| [k0 v0] l IH]; cbn in *;
            [exact Hg |].
          destruct (pyval_eqb k0 k); [discriminate | now apply IH]. }
        apply dget_In in Hex. rewrite Forall_forall in Hanc.
        now destruct (Hanc _ Hex) as (_ & _ & _ & ? & _). }
  rewrite (resolve_run E st Hcu).
  destruct (lookup lv1) as [| kv1 lk1] eqn:Hlv1.
  - unfold bind at 1.
    pose proof (default_phase_state lv1 st) as Hdef.
    destruct (default_phase lv1 st) as [[lv3 | e] s3]; cbn [snd] in *;
      subst s3; exact Hsame.
  - rewrite <- Hlv1 in *. clear kv1 lk1 Hlv1.
    unfold bind at 1. rewrite (fetch_phase_run E st Hcu Hfe Hfs). cbv zeta.
    destruct (by_key name _) as [byk | e] eqn:Hbyk; [| exact Hsame].
    set (s0 := fetched_state (dkeys (lookup lv1)) byk st).
    destruct (@fetched_loops_keep_cache E t name fs d h (dkeys (lookup lv1))
                byk lv1 s0 Hunc Hbyk Hsame) as (d' & Hd' & Hkeep).
    destruct (match h with
              | Some tn => for_fold byk (fetched_path E tn byk) lv1
              | None => for_fold byk (fetched_flat E) lv1
              end s0) as [[lv2 | e] s2]; cbn [snd] in *; [| eauto].
    unfold bind at 1.
    pose proof (default_phase_state lv2 s2) as Hdef.
    destruct (default_phase lv2 s2) as [[lv3 | e] s3]; cbn [snd] in *;
      subst s3; eauto.
Qed.

(** The cached label of the organisation [1] survives a lookup of others. *)
Lemma lookup_keeps_cached_labels_witness :
  exists d', theset (snd (_lookup demo_env [PInt 2; PInt 999] None
                            (set_theset (Some [(PInt 1, "Alpha Inc.")]) org_ready)))
             = Some d' /\
             forall x l, dget [(PInt 1, "Alpha Inc.")] x = Some l ->
                         dget d' x = Some l.
Proof.
  apply (@lookup_keeps_cached_labels demo_env
           (set_theset (Some [(PInt 1, "Alpha Inc.")]) org_ready)
           org_table "id" ["name"] [(PInt 1, "Alpha Inc.")] "Unknown").
  split; try reflexivity. discriminate.
Defined.

(** ** What [_lookup] returns *)

Section EveryValue.

Variable E : Env.
Variable values : list pyval.

(** Every value has a label or is still pending under its own key. *)
Definition served (lv : locals) : Prop :=
  forall v, In v values ->
    keys_get lv v = v /\
    (dget (items lv) v <> None \/ dget (lookup lv) v = Some true).

Lemma served_flat_step lv k l : served lv -> served (flat_step lv k l).
Proof.
  intros Hlv v Hv. destruct (Hlv v Hv) as [Hk Hcase].
  split; [exact Hk |]. cbn [items lookup flat_step set_items set_lookup].
  destruct (pyval_eqb k v) eqn:He.
  - apply pyval_eqb_true in He. subst k. left. rewrite Hk, dget_dset_same.
    discriminate.
  - apply pyval_eqb_neq in He. destruct Hcase as [Hi | Hl].
    + left. rewrite dget_dset. destruct (pyval_eqb (keys_get lv k) v);
        [discriminate | exact Hi].
    + right. now rewrite dget_ddel_other.
Qed.

Lemma served_skip lv k :
  dget (lookup lv) k <> Some true -> served lv ->
  served (set_lookup (ddel (lookup lv) k) lv).
Proof.
  intros Hk Hlv v Hv. destruct (Hlv v Hv) as [Hkv Hcase].
  split; [exact Hkv |]. cbn [items lookup set_lookup].
  destruct Hcase as [Hi | Hl]; [now left |]. right.
  rewrite dget_ddel_other; [exact Hl | congruence].
Qed.

Lemma served_loops h byk lv s lv' s' :
  served lv ->
  match h with
  | Some tn => for_fold byk (fetched_path E tn byk) lv
  | None => for_fold byk (fetched_flat E) lv
  end s = (Ok lv', s') ->
  served lv'.
Proof.
  intros Hlv. destruct h as [tn |]; intros Hrun.
  - refine (for_fold_ok_inv (fun lv0 _ => served lv0) _ byk _ _ _ Hlv Hrun).
    intros a kr s0 a' s1 _ Ha. rewrite fetched_path_run.
    destruct (dget (lookup a) (fst kr)) as [[|] |] eqn:Hpop.
    + destruct (_represent_path E _ tn (fst kr) (snd kr) byk s0) as [[l | e] s2];
        [| discriminate].
      intros [= <- _]. now apply served_flat_step.
    + intros [= <- _]. apply served_skip; [congruence | exact Ha].
    + intros [= <- _]. apply served_skip; [congruence | exact Ha].
  - refine (for_fold_ok_inv (fun lv0 _ => served lv0) _ byk _ _ _ Hlv Hrun).
    intros a kr s0 a' s1 _ Ha. rewrite fetched_flat_run.
    destruct (render_row E s0 (snd kr) None) as [l |]; [| discriminate].
    destruct (theset s0); [| discriminate].
    intros [= <- _]. now apply served_flat_step.
Qed.

Lemma served_default dl lv v :
  served lv -> In v values -> dget (items (fill_default dl lv)) v <> None.
Proof.
  intros Hlv Hv. destruct (Hlv v Hv) as [Hk Hcase]. rewrite fill_default_items.
  destruct (existsb _ (dkeys (lookup lv))) eqn:Hex; [discriminate |].
  destruct Hcase as [Hi | Hl]; [exact Hi |]. exfalso.
  apply dget_Some_In_dkeys in Hl.
  assert (Hex' : existsb (fun k => pyval_eqb (keys_get lv k) v)
                         (dkeys (lookup lv)) = true).
  { apply existsb_exists. exists v. split; [exact Hl |].
    rewrite Hk. apply pyval_eqb_refl. }
  congruence.
Qed.

End EveryValue.

(** X9.  What [_lookup] returns has a label for every value it was asked
    for: the none-label, a cached label, the rendering of a fetched record
    or the default.  (For values that are keys as they are; of a number and
    its decimal string in one call, only the later one is labelled.) *)
Theorem lookup_labels_every_value (E : Env) (st : S3Represent) (t : Table)
    (name : string) (fs : list string) (d : dict string) (dl : string)
    (values : list pyval) (its : dict string) (st' : S3Represent) :
  lookup_setting st t name fs d dl ->
  (forall v, In v values -> normal v = true) ->
  _lookup E values None st = (Ok its, st') ->
  forall v, In v values -> dget its v <> None.
Proof.
  intros Hs Hnormal Hrun.
  pose proof Hs as [Hts Hnl Hdl Htb Hkey Hhas Hfs Hcu Hfe].
  assert (Hnorm : forall v, In v values -> normalize (table st) v = v).
  { intros v Hv. apply normalize_normal. now apply Hnormal. }
  rewrite lookup_scan in Hrun.
  destruct (fold_res (scan_step st) values no_locals) as [lv | e] eqn:Hscan;
    [| discriminate].
  destruct (scan_lookup st Hts values Hscan) as (_ & _ & Hpend).
  pose proof (scan_labels st values Hts Hscan) as Hlabels.
  destruct (scan_keys st values Hts Hscan) as (Hkeys1 & _).
  assert (Hserved : served values lv).
  { intros v Hv. split.
    - unfold keys_get. destruct (dget (keys lv) v) as [v' |] eqn:Hg; [| reflexivity].
      destruct (Hkeys1 v v' Hg) as [Hv' Hnv']. now rewrite (Hnorm v' Hv') in Hnv'.
    - destruct (Hlabels v Hv) as [L1 L2]. rewrite (Hnorm v Hv) in L1, L2.
      destruct v as [| z | s | l].
      + left. rewrite L1 by reflexivity. exact Hnl.
      + destruct (dget d (PInt z)) as [l0 |] eqn:Hg.
        * left. rewrite (L2 ltac:(discriminate) l0 eq_refl). discriminate.
        * right. rewrite <- (Hnorm (PInt z) Hv) at 1.
          apply Hpend; rewrite ?(Hnorm (PInt z) Hv); auto. discriminate.
      + destruct (dget d (PStr s)) as [l0 |] eqn:Hg.
        * left. rewrite (L2 ltac:(discriminate) l0 eq_refl). discriminate.
        * right. rewrite <- (Hnorm (PStr s) Hv) at 1.
          apply Hpend; rewrite ?(Hnorm (PStr s) Hv); auto. discriminate.
      + destruct (dget d (PList l)) as [l0 |] eqn:Hg.
        * left. rewrite (L2 ltac:(discriminate) l0 eq_refl). discriminate.
        * right. rewrite <- (Hnorm (PList l) Hv) at 1.
          apply Hpend; rewrite ?(Hnorm (PList l) Hv); auto. discriminate. }
  rewrite Htb in Hrun.
  assert (Hearly : forall v, In v values -> lookup lv = [] ->
                             dget (items lv) v <> None).
  { intros v Hv Hnil. destruct (Hserved v Hv) as [_ [Hi | Hl]]; [exact Hi |].
    rewrite Hnil in Hl. discriminate. }
  destruct (lookup lv) as [| kv lk] eqn:Hlk.
  { injection Hrun as <- _. intros v Hv. now apply Hearly. }
  rewrite <- Hlk in *. clear kv lk Hlk Hearly.
  apply bind_ok in Hrun as ([lv1 h] & s1 & Hanc & Hrun).
  destruct (with_ancestors_spec E st t lv Hts) as (W1 & W2 & _).
  rewrite Hanc in W1, W2. cbn [fst snd] in W1, W2. subst s1.
  destruct (W2 _ eq_refl) as (Hk1 & Hi1 & Hlk1). cbn [fst snd] in Hk1, Hi1, Hlk1.
  revert Hrun. mrun. rewrite Hkey, Hhas. cbn [negb]. intros Hrun.
  assert (Hserved1 : served values lv1).
  { intros v Hv. destruct (Hserved v Hv) as [Hkv Hcase]. split.
    - unfold keys_get in *. now rewrite Hk1.
    - rewrite Hi1. destruct Hcase as [Hi | Hl]; [now left |]. right.
      destruct Hlk1 as [(_ & [= -> _]) | (_ & _ & (extra & -> & _))];
        [exact Hl |].
      rewrite dget_app_l; [exact Hl | congruence]. }
  rewrite (resolve_run E st Hcu) in Hrun.
  assert (Hfinish : forall lv2 s2,
            served values lv2 ->
            (lv3 <- default_phase lv2 ;; ret (items lv3)) s2 = (Ok its, st') ->
            forall v, In v values -> dget its v <> None).
  { intros lv2 s2 Hlv2 Hdef v Hv.
    apply bind_ok in Hdef as (lv3 & s3 & Hdef & Hret).
    injection Hret as <- _.
    destruct (default s2) as [dl2 |] eqn:Hd2.
    - rewrite (default_phase_run lv2 s2 Hd2) in Hdef. injection Hdef as <- _.
      now apply served_default with (values := values).
    - revert Hdef. unfold default_phase.
      destruct (Hlv2 v Hv) as [_ Hcase].
      destruct (dkeys (lookup lv2)) as [| k0 ks0] eqn:Hks.
      + cbn. intros [= <- _]. destruct Hcase as [Hi | Hl]; [exact Hi |].
        apply dget_Some_In_dkeys in Hl. rewrite Hks in Hl. destruct Hl.
      + cbn [for_fold]. mrun. now rewrite Hd2. }
  destruct (lookup lv1) as [| kv1 lk1] eqn:Hlv1.
  - now apply (Hfinish lv1 st).
  - rewrite <- Hlv1 in *. clear kv1 lk1 Hlv1.
    apply bind_ok in Hrun as (lv2 & s2 & Hfetch & Hrest).
    rewrite (fetch_phase_run E st Hcu Hfe Hfs) in Hfetch. cbv zeta in Hfetch.
    destruct (by_key name _) as [byk | e]; [| discriminate].
    apply (Hfinish lv2 s2); [| exact Hrest].
    exact (@served_loops E values h byk lv1
             (fetched_state (dkeys (lookup lv1)) byk st) lv2 s2 Hserved1 Hfetch).
Qed.

(** The organisations [1] and [999], and [None]. *)
Lemma lookup_labels_every_value_witness :
  dget (match fst (_lookup demo_env [PInt 1; PNone; PInt 999] None org_ready) with
        | Ok its => its
        | Exc _ => []
        end) (PInt 999) <> None.
Proof.
  apply (@lookup_labels_every_value demo_env org_ready org_table "id" ["name"]
           [] "Unknown" [PInt 1; PNone; PInt 999] _
           (snd (_lookup demo_env [PInt 1; PNone; PInt 999] None org_ready))).
  - exact org_ready_setting.
  - intros v [<- | [<- | [<- | []]]]; reflexivity.
  - reflexivity.
  - cbn. tauto.
Defined.

(** ** [render_list] *)

(** A comprehension whose body only reads the object. *)
Lemma for_map_readonly {X Y} (f : X -> M Y) (g : X -> Y) (l : list X) st :
  (forall x, In x l -> f x st = (Ok (g x), st)) ->
  for_map l f st = (Ok (map g l), st).
Proof.
  induction l as [| x l IH]; intros Hf; cbn [for_map map]; [reflexivity |].
  unfold bind at 1. rewrite (Hf x (or_introl eq_refl)).
  unfold bind at 1. rewrite IH; [reflexivity |].
  intros y Hy. apply Hf. now right.
Qed.

(** X10.  [render_list] renders a list from the labels that [bulk] has
    returned: without links it is the labels of the elements in the order of
    the list, joined by a comma, with the default label for an element that
    has none; nothing is looked up, and the empty list gives the empty
    string. *)
Theorem render_list_joins_in_order (E : Env) (st : S3Represent)
    (vs : list pyval) (d : dict markup) (sl : bool) (dl : string) :
  sl && show_link st = false -> default st = Some dl ->
  (forall v, In v vs -> hashable v = true) ->
  render_list E (PList vs) (Some d) sl st =
  (Ok (Text (join ", " (map (fun v => match dget d v with
                                      | Some m => markup_unicode E m
                                      | None => dl
                                      end) vs))), st).
Proof.
  intros Hsl Hdl Hh. unfold render_list. mrun. rewrite Hsl. cbn [iterate].
  mrun.
  rewrite (for_map_readonly _
             (fun v => match dget d v with
                       | Some m => markup_unicode E m
                       | None => dl
                       end)); [reflexivity |].
  intros v Hv. unfold hash. rewrite (Hh v Hv). mrun.
  destruct (dget d v); mrun; [reflexivity |]. now rewrite Hdl.
Qed.

Lemma render_list_joins_in_order_witness :
  render_list demo_env (PList [PInt 2; PInt 7; PInt 1])
              (Some [(PInt 1, Text "Alpha"); (PInt 2, Text "Beta")])
              true org_list_ready
  = (Ok (Text "Beta, Unknown, Alpha"), org_list_ready).
Proof.
  apply (@render_list_joins_in_order demo_env org_list_ready
           [PInt 2; PInt 7; PInt 1]
           [(PInt 1, Text "Alpha"); (PInt 2, Text "Beta")] true "Unknown");
    try reflexivity.
  intros v [<- | [<- | [<- | []]]]; reflexivity.
Defined.

(** ** A hierarchy that does not end *)

(** The [n]-th ancestor of a node. *)
Definition ancestor_at (E : Env) (tn : string) (n : nat) (a : pyval) : pyval :=
  Nat.iter n (hierarchy_parent E tn) a.

Lemma ancestor_at_parent E tn n a :
  ancestor_at E tn n (hierarchy_parent E tn a) = ancestor_at E tn (S n) a.
Proof.
  unfold ancestor_at. symmetry. apply Nat.iter_succ_r.
Qed.

(** X11.  [_represent_path] follows the parents of a node as long as they
    are not cached and their rows are at hand, and nothing else stops it:
    when every ancestor of a node is truthy, uncached and has a row, as in a
    hierarchy with a cycle, the call exhausts every recursion limit and ends
    in a [RuntimeError], with nothing cached. *)
Theorem path_of_endless_chain_raises (E : Env) (tn : string) (rws : dict Row)
    (st : S3Represent) (d : dict string) (a : pyval) :
  theset st = Some d ->
  (forall n, let x := ancestor_at E tn n a in
             truthy x = true /\ hashable x = true /\
             dget d x = None /\ dget rws x <> None) ->
  forall fuel row,
    _represent_path E fuel tn a row rws st = (Exc RuntimeError, st).
Proof.
  intros Hd Hchain fuel. revert a Hchain.
  induction fuel as [| fuel IH]; intros a Hchain row; [reflexivity |].
  rewrite represent_path_unfold, Hd.
  destruct (Hchain 0%nat) as (_ & Hh & Hc & _). cbn in Hh, Hc.
  rewrite Hh, Hc.
  destruct (Hchain 1%nat) as (Hpt & Hph & Hpc & Hpr). cbn in Hpt, Hph, Hpc, Hpr.
  cbv zeta. rewrite Hpt. unfold hash. rewrite Hph.
  unfold bind at 1. unfold bind at 1. cbv beta iota delta [ret].
  rewrite Hpc.
  destruct (dget rws (hierarchy_parent E tn a)) as [prow |]; [| congruence].
  unfold bind at 1. rewrite IH; [reflexivity |].
  intros n. rewrite ancestor_at_parent. apply (Hchain (S n)).
Qed.

(** A hierarchy in which the nodes [1] and [2] are parents of each other. *)
Definition cyclic_env : Env :=
  {| s3db_table := s3db_table demo_env;
     hierarchy_config := hierarchy_config demo_env;
     hierarchy_parent := fun _ v =>
       match v with
       | PInt 1 => PInt 2
       | PInt 2 => PInt 1
       | _ => PNone
       end;
     T := T demo_env;
     UNKNOWN_OPT := UNKNOWN_OPT demo_env;
     NONE := NONE demo_env;
     URL := URL demo_env;
     s3_unicode := s3_unicode demo_env;
     xml := xml demo_env;
     format_row := format_row demo_env;
     set_order := set_order demo_env;
     recursion_limit := recursion_limit demo_env |}.

Lemma cyclic_env_ancestors n :
  ancestor_at cyclic_env "gis_location" n (PInt 1) = PInt 1 \/
  ancestor_at cyclic_env "gis_location" n (PInt 1) = PInt 2.
Proof.
  induction n as [| n [IH | IH]]; [now left | right | left];
    change (ancestor_at cyclic_env "gis_location" (S n) (PInt 1))
      with (hierarchy_parent cyclic_env "gis_location"
              (ancestor_at cyclic_env "gis_location" n (PInt 1)));
    now rewrite IH.
Qed.

Lemma path_of_endless_chain_raises_witness :
  _represent_path cyclic_env (recursion_limit cyclic_env) "gis_location"
                  (PInt 1) (org_row 1 "C")
                  [(PInt 1, org_row 1 "C"); (PInt 2, org_row 2 "B")]
                  loc_ready
  = (Exc RuntimeError, loc_ready).
Proof.
  apply (@path_of_endless_chain_raises cyclic_env "gis_location"
           [(PInt 1, org_row 1 "C"); (PInt 2, org_row 2 "B")] loc_ready []
           (PInt 1) eq_refl).
  intros n. cbv zeta.
  destruct (cyclic_env_ancestors n) as [-> | ->];
    (repeat split; try reflexivity; discriminate).
Defined.

(** ** A row handed to [__call__] *)

Section GivenRow.

Variable E : Env.
Variables (st : S3Represent) (t : Table) (name : string) (fs : list string)
          (d : dict string) (dl : string).
Hypothesis Hset : lookup_setting st t name fs d dl.
Hypothesis Hflat : hierarchical E st t = false.

Variables (r : Row) (k : pyval) (lab : string).
Hypothesis Hrow : row_get r name = Some k.
Hypothesis Hnormal : normal k = true.
Hypothesis Hhash : hashable k = true.
Hypothesis Htruthy : truthy k = true.

(** The row of an uncached key is rendered and cached, and resolves the
    key. *)
Lemma lookup_given_row_uncached :
  dget d k = None -> render_row E st r None = Ok lab ->
  _lookup E [k] (Some [r]) st =
  (Ok [(k, lab)],
   set_theset (Some (dset d k lab)) (set_rows (dset (rows st) k r) st)).
Proof.
  pose proof Hset as [Hts Hnl Hdl Htb Hkey Hhas Hfs Hcu Hfe].
  intros Hunc Hrender.
  assert (Hnorm : normalize (table st) k = k) by now apply normalize_normal.
  assert (Hnone : is_None k = false) by (destruct k; (discriminate || reflexivity)).
  rewrite lookup_scan, (scan_one st k Hts) by now rewrite Hnorm.
  cbv zeta. rewrite Hnorm, Hhash, Hunc, Htb. cbn [lookup].
  unfold bind at 1. rewrite with_ancestors_flat by exact Hflat.
  mrun. rewrite Hkey, Hhas. cbn [negb fst snd].
  unfold resolve. unfold bind at 1. unfold gets at 1. rewrite Hcu.
  cbn [rows_truthy negb andb for_fold]. unfold bind at 1. unfold bind at 1.
  unfold given_row at 1. unfold row_item. rewrite Hrow.
  unfold bind at 1. cbv beta iota delta [ret]. unfold bind at 1.
  unfold hash. rewrite Hhash. cbv beta iota delta [ret].
  unfold bind at 1. unfold modify at 1. unfold bind at 1. unfold the_set at 1.
  mrun. cbn [theset set_rows]. rewrite Hts. unfold dmem. rewrite Hunc.
  rewrite represent_row_run.
  rewrite (@render_row_cfg E (set_rows (dset (rows st) k r) st) st r None eq_refl).
  rewrite Hrender. unfold theset_put, the_set. mrun.
  cbn [theset set_rows set_theset lookup dget]. rewrite Hts.
  rewrite pyval_eqb_refl. cbn [theset set_theset]. rewrite dget_dset_same.
  cbn [lookup set_lookup set_items ddel]. rewrite pyval_eqb_refl.
  unfold default_phase. cbn [lookup set_lookup set_items dkeys map for_fold].
  unfold keys_get. cbn [keys set_lookup set_items dget items dset].
  rewrite pyval_eqb_refl. reflexivity.
Qed.

End GivenRow.

(** [__call__] with a row takes the value from the row. *)
Lemma call_row_run E st t name v r k sl :
  setup st = true -> list_type st = false -> table st = Some t ->
  key st = Some name -> row_truthy r = true -> row_get r name = Some k ->
  truthy k = true ->
  __call__ E v (Some r) sl st =
  (its <- _lookup E [k] (Some [r]) ;; labelled E k (sl && show_link st) its) st.
Proof.
  intros Hsetup Hlt Htb Hkey Hr Hrk Hk. unfold __call__, labelled.
  rewrite (@bind_run _ _ _ _ _ _ _ (setup_done E st Hsetup)).
  mrun. rewrite Hlt, Htb, Hr. cbn [is_Some andb]. mrun. rewrite Hkey.
  unfold row_item. rewrite Hrk. mrun. now rewrite Hk.
Qed.

(** X12.  A row that is handed to [__call__] takes the place of the fetch:
    on a flat table, the key is taken from the row (the value that is passed
    is not looked at), the label is the cached one or else the rendering of
    the row, which is then cached; nothing is fetched. *)
Theorem call_with_row_never_fetches (E : Env) (st : S3Represent) (t : Table)
    (name : string) (fs : list string) (d : dict string) (dl : string)
    (v : pyval) (r : Row) (k : pyval) (lab : string) (sl : bool) :
  lookup_setting st t name fs d dl ->
  setup st = true -> list_type st = false -> sl && show_link st = false ->
  hierarchical E st t = false ->
  row_get r name = Some k ->
  truthy k = true -> normal k = true -> hashable k = true ->
  match dget d k with
  | Some l => lab = l
  | None => render_row E st r None = Ok lab
  end ->
  exists st',
    __call__ E v (Some r) sl st = (Ok (Text lab), st') /\
    fetch_log st' = fetch_log st /\ queries st' = queries st /\
    exists d', theset st' = Some d' /\ dget d' k = Some lab.
Proof.
  intros Hs Hsetup Hlt Hsl Hflat Hrk Hk Hn Hh Hlab.
  pose proof Hs as [Hts Hnl Hdl Htb Hkey Hhas Hfs Hcu Hfe].
  assert (Hr : row_truthy r = true) by (destruct r; [discriminate | reflexivity]).
  rewrite (@call_row_run E st t name v r k sl Hsetup Hlt Htb Hkey Hr Hrk Hk).
  rewrite Hsl. unfold bind at 1.
  destruct (dget d k) as [l |] eqn:Hd.
  - subst lab.
    rewrite (lookup_cached E st k (d := d) (l := l));
      rewrite ?(normalize_normal (table st) k Hn); auto;
      [| destruct k; (discriminate || reflexivity)].
    unfold labelled. cbn [dget]. rewrite pyval_eqb_refl.
    exists st. repeat split. exists d. auto.
  - rewrite (@lookup_given_row_uncached E st t name fs d dl Hs Hflat r k lab
               Hrk Hn Hh Hk Hd Hlab).
    unfold labelled. cbn [dget]. rewrite pyval_eqb_refl.
    eexists. split; [reflexivity |]. repeat split.
    eexists. split; [reflexivity | apply dget_dset_same].
Qed.

(** A record of the organisations that is not in the table. *)
Lemma call_with_row_never_fetches_witness :
  exists st',
    __call__ demo_env (PInt 1) (Some (org_row 5 "Epsilon")) true org_ready
      = (Ok (Text "Epsilon"), st') /\
    fetch_log st' = fetch_log org_ready /\ queries st' = queries org_ready /\
    exists d', theset st' = Some d' /\ dget d' (PInt 5) = Some "Epsilon".
Proof.
  apply (@call_with_row_never_fetches demo_env org_ready org_table "id"
           ["name"] [] "Unknown" (PInt 1) (org_row 5 "Epsilon") (PInt 5)
           "Epsilon" true); try reflexivity.
  exact org_ready_setting.
Defined.

(** ** Two spellings of a key in one lookup *)

Section TwoSpellings.

Variable E : Env.
Variables (st : S3Represent) (t : Table) (name : string) (fs : list string)
          (d : dict string) (dl : string).
Hypothesis Hset : lookup_setting st t name fs d dl.

Variables (v1 v2 k : pyval).
Hypothesis Hk1 : normalize (Some t) v1 = k.
Hypothesis Hk2 : normalize (Some t) v2 = k.
Hypothesis Hnone : is_None k = false.
Hypothesis Hhash : hashable k = true.
Hypothesis Huncached : dget d k = None.

(** The dictionary [keys] has one entry for the key, which the later value
    takes. *)
Lemma scan_two_spellings :
  fold_res (scan_step st) [v1; v2] no_locals =
  fold_res (scan_step st) [v2] no_locals.
Proof.
  destruct Hset as [Hts Hnl Hdl Htb Hkey Hhas Hfs Hcu Hfe].
  assert (S1 : scan_step st no_locals v1 = Ok (one_pending k v1 [(k, true)])).
  { unfold scan_step. cbv zeta.
    rewrite Htb, Hk1, Hhash, Hnone, Hts, Huncached. reflexivity. }
  assert (S2 : scan_step st (one_pending k v1 [(k, true)]) v2
               = Ok (one_pending k v2 [(k, true)])).
  { unfold scan_step. cbv zeta.
    rewrite Htb, Hk2, Hhash, Hnone, Hts, Huncached.
    unfold one_pending. cbn [keys items lookup set_lookup dset].
    now rewrite pyval_eqb_refl. }
  assert (S3 : scan_step st no_locals v2 = Ok (one_pending k v2 [(k, true)])).
  { unfold scan_step. cbv zeta.
    rewrite Htb, Hk2, Hhash, Hnone, Hts, Huncached. reflexivity. }
  cbn [fold_res]. now rewrite S1, S2, S3.
Qed.

Lemma lookup_two_spellings rws :
  _lookup E [v1; v2] rws st = _lookup E [v2] rws st.
Proof. rewrite !lookup_scan. now rewrite scan_two_spellings. Qed.

End TwoSpellings.

(** X13.  The labels that [_lookup] returns are keyed by the values as they
    were passed, but per key only one value is remembered, the last one.  So
    when a key with a record is asked for under two spellings in one call
    (the string ["1"] and the number [1]), the result of a flat lookup holds
    the label under the later spelling only; the earlier one is left out,
    and the entry points give it the default label. *)
Theorem later_spelling_takes_label (E : Env) (st : S3Represent) (t : Table)
    (name : string) (fs : list string) (d : dict string) (dl : string)
    (v1 v2 : pyval) (its : dict string) (st' : S3Represent) :
  lookup_setting st t name fs d dl ->
  hierarchical E st t = false ->
  v1 <> v2 -> normalize (Some t) v1 = normalize (Some t) v2 ->
  truthy v2 = true ->
  dget d (normalize (Some t) v2) = None ->
  has_row t name (normalize (Some t) v2) ->
  _lookup E [v1; v2] None st = (Ok its, st') ->
  dget its v1 = None /\ exists l, dget its v2 = Some l.
Proof.
  intros Hs Hflat Hne Hsame Hv Hunc Hrow Hrun.
  set (k := normalize (Some t) v2) in *.
  assert (Hnone : is_None k = false) by now apply normalize_not_None.
  assert (Hhash : hashable k = true).
  { destruct (hashable k) eqn:Hh; [reflexivity |]. exfalso.
    revert Hrun. rewrite lookup_scan. cbn [fold_res]. unfold scan_step at 1.
    cbv zeta. rewrite (ls_table Hs), Hsame. fold k. now rewrite Hh. }
  rewrite (@lookup_two_spellings E st t name fs d dl Hs v1 v2 k Hsame eq_refl
             Hnone Hhash Hunc) in Hrun.
  rewrite (lookup_one_head E Hs v2 eq_refl Hnone Hhash Hunc) in Hrun.
  revert Hrun. unfold bind at 1. rewrite with_ancestors_flat by exact Hflat.
  cbv beta iota. cbn [fst snd]. fold k.
  destruct (resolve_flat_one E Hs v2 Hhash Hrow) as (row & r & _ & _ & _ & ->).
  destruct (render_row E st row None) as [l |]; [| discriminate].
  intros [= <- _]. cbn [dget].
  assert (H21 : pyval_eqb v2 v1 = false) by (apply pyval_eqb_neq; congruence).
  rewrite H21, pyval_eqb_refl. eauto.
Qed.

(** The organisation [1], asked for as a string and as a number. *)
Lemma later_spelling_takes_label_witness :
  dget (match fst (_lookup demo_env [PStr "1"; PInt 1] None org_ready) with
        | Ok its => its
        | Exc _ => []
        end) (PStr "1") = None /\
  exists l,
    dget (match fst (_lookup demo_env [PStr "1"; PInt 1] None org_ready) with
          | Ok its => its
          | Exc _ => []
          end) (PInt 1) = Some l.
Proof.
  apply (@later_spelling_takes_label demo_env org_ready org_table "id"
           ["name"] [] "Unknown" (PStr "1") (PInt 1) _
           (snd (_lookup demo_env [PStr "1"; PInt 1] None org_ready)));
    try reflexivity.
  - exact org_ready_setting.
  - discriminate.
  - exists (org_row 1 "Alpha"). split; [left |]; reflexivity.
Defined.

(** ** [represent_row] *)

Lemma row_values_empty row fs :
  (forall f, In f fs -> exists x, row_get row f = Some x /\ field_empty x = true) ->
  exists vals, row_values row fs = Ok vals /\
               filter (fun x => negb (field_empty x)) vals = [].
Proof.
  induction fs as [| f fs IH]; intros Hall; cbn [row_values].
  - now exists [].
  - destruct (Hall f (or_introl eq_refl)) as (x & -> & Hx).
    destruct IH as (vals & -> & Hvals); [intros g Hg; apply Hall; now right |].
    exists (x :: vals). split; [reflexivity |]. cbn. now rewrite Hx.
Qed.

(** X14.  The default renderer of [represent_row] leaves out the fields
    that are [None] or the empty string; a row of which all fields are
    empty is not rendered as the empty string but as the none-label, which
    is translated if the representer translates its labels. *)
Theorem represent_row_of_empty_fields (E : Env) (st : S3Represent) (row : Row)
    (fs : list string) (n : string) :
  slabels st = false -> clabels st = false ->
  fields st = Some fs -> none st = Some n ->
  (forall f, In f fs -> exists x, row_get row f = Some x /\ field_empty x = true) ->
  represent_row E row None st = (Ok (if translate st then T E n else n), st).
Proof.
  intros Hsl Hcl Hfs Hn Hall. rewrite represent_row_run. f_equal.
  unfold render_row, render_plain. rewrite Hsl, Hcl, Hfs.
  destruct (row_values_empty row fs Hall) as (vals & -> & ->).
  now rewrite Hn.
Qed.

Lemma represent_row_of_empty_fields_witness :
  represent_row demo_env [("id", PInt 7); ("name", PStr "")] None org_ready
  = (Ok (if translate org_ready then T demo_env "-" else "-"), org_ready).
Proof.
  apply (@represent_row_of_empty_fields demo_env org_ready
           [("id", PInt 7); ("name", PStr "")] ["name"] "-"); try reflexivity.
  intros f [<- | []]. exists (PStr ""). split; reflexivity.
Defined.

(** ** [bulk] *)

(** X15.  The dictionary that [bulk] returns for a list of values (taken
    as it is, without rows) has an entry for every value of the list, and
    always one for [None], which is the none-label. *)
Theorem bulk_labels_every_value (E : Env) (st : S3Represent) (vs : list pyval)
    (lt sl : bool) (labels : dict markup) (st' : S3Represent) :
  setup st = true -> list_type st && lt = false ->
  bulk E (PList vs) None lt sl st = (Ok labels, st') ->
  (exists n, none st' = Some n /\ dget labels PNone = Some (Text n)) /\
  forall v, In v vs -> dget labels v <> None.
Proof.
  intros Hsetup Hlt Hrun. unfold bulk in Hrun.
  apply bind_ok in Hrun as ([] & s0 & Hlog & Hrun).
  unfold modify in Hlog. injection Hlog as <-.
  unfold bulk_body in Hrun.
  rewrite (@bind_run _ _ _ _ _ _ _
             (setup_done E (set_bulk_log (bulk_log st ++ [PList vs]) st) Hsetup))
    in Hrun.
  revert Hrun. mrun. cbn [rows_truthy andb list_type set_bulk_log].
  rewrite Hlt. intros Hrun.
  apply bind_ok in Hrun as (lbls & s1 & Hlabels & Hrest).
  revert Hrest. mrun. unfold label_of.
  destruct (none s1) as [n |] eqn:Hn; [| discriminate].
  intros [= <- <-].
  split; [exists n; split; [exact Hn | apply dget_dset_same] |].
  intros v Hv. rewrite dget_dset.
  destruct (pyval_eqb PNone v); [discriminate |].
  destruct vs as [| v0 vs0]; [destruct Hv |].
  apply bind_ok in Hlabels as (its & s2 & _ & Hlabels).
  apply bind_ok in Hlabels as (linked & s3 & _ & Hloop).
  refine (for_fold_ok_seen
            (fun seen (acc : dict markup) =>
               forall x, In x seen -> dget acc x <> None)
            _ _ (v0 :: vs0) [] linked _ _ Hloop v Hv); [| intros x []].
  clear. intros seen a x s a' s' IH. unfold dmem.
  destruct (dget a x) eqn:Hax.
  - intros [= <- _] y Hy. apply in_app_or in Hy as [Hy | [<- | []]];
      [now apply IH | congruence].
  - mrun. unfold label_of. destruct (default s); [| discriminate].
    intros [= <- _] y Hy. rewrite dget_dset.
    destruct (pyval_eqb x y) eqn:Hxy; [discriminate |].
    apply in_app_or in Hy as [Hy | [<- | []]]; [now apply IH |].
    rewrite pyval_eqb_refl in Hxy. discriminate.
Qed.

Lemma bulk_labels_every_value_witness :
  (exists n, none (snd (bulk demo_env (PList [PInt 1; PInt 999]) None true true
                             org_ready)) = Some n /\
             dget (match fst (bulk demo_env (PList [PInt 1; PInt 999]) None
                                   true true org_ready) with
                   | Ok labels => labels
                   | Exc _ => []
                   end) PNone = Some (Text n)) /\
  forall v, In v [PInt 1; PInt 999] ->
    dget (match fst (bulk demo_env (PList [PInt 1; PInt 999]) None true true
                          org_ready) with
          | Ok labels => labels
          | Exc _ => []
          end) v <> None.
Proof.
  apply (@bulk_labels_every_value demo_env org_ready [PInt 1; PInt 999]
           true true _
           (snd (bulk demo_env (PList [PInt 1; PInt 999]) None true true
                      org_ready))); reflexivity.
Defined.

(** * Properties of the reusable fields *)

Section ReusableFields.

Import Fields.
Local Open Scope Z_scope.

(** ** Storages *)

Lemma sget_sset d k k' v :
  sget (sset d k v) k' = if String.eqb k k' then Some v else sget d k'.
Proof.
  induction d as [| [k0 v0] d IH]; cbn.
  - reflexivity.
  - destruct (String.eqb k0 k) eqn:H0; cbn.
    + apply String.eqb_eq in H0. subst k0.
      destruct (String.eqb k k'); reflexivity.
    + destruct (String.eqb k0 k') eqn:H0'; [| exact IH].
      apply String.eqb_eq in H0'. subst k0. now rewrite String.eqb_sym, H0.
Qed.

Lemma sget_sdel d k k' :
  sget (sdel d k) k' = if String.eqb k k' then None else sget d k'.
Proof.
  induction d as [| [k0 v0] d IH]; cbn.
  - now destruct (String.eqb k k').
  - destruct (String.eqb k0 k) eqn:H0; cbn.
    + apply String.eqb_eq in H0. subst k0. rewrite IH.
      now destruct (String.eqb k k').
    + destruct (String.eqb k0 k') eqn:H0'; [| exact IH].
      apply String.eqb_eq in H0'. subst k0. now rewrite String.eqb_sym, H0.
Qed.

Lemma sget_supdate e : forall d k,
  NoDup (map fst e) ->
  sget (supdate d e) k =
  match sget e k with Some v => Some v | None => sget d k end.
Proof.
  unfold supdate. induction e as [| [k0 v0] e IH]; intros d k Hnd; cbn;
    [reflexivity |].
  inversion Hnd as [| ? ? Hnin Hnd']; subst.
  rewrite IH by exact Hnd'. cbn [fst snd]. rewrite sget_sset.
  destruct (String.eqb k0 k) eqn:H0; [| reflexivity].
  apply String.eqb_eq in H0. subst k0.
  assert (Hnone : sget e k = None).
  { clear - Hnin. induction e as [| [k1 v1] e IH]; cbn; [reflexivity |].
    destruct (String.eqb k1 k) eqn:H1.
    - apply String.eqb_eq in H1. subst k1. exfalso. apply Hnin. now left.
    - apply IH. intros Hin. apply Hnin. now right. }
  now rewrite Hnone.
Qed.

Lemma NoDup_keys_sdel (d : Storage) k :
  NoDup (map fst d) -> NoDup (map fst (sdel d k)).
Proof.
  induction d as [| [k0 v0] d IH]; cbn; [tauto |].
  intros Hnd. inversion Hnd as [| ? ? Hnin Hnd']; subst.
  destruct (String.eqb k0 k); [now apply IH |].
  cbn. constructor; [| now apply IH].
  intros Hin. apply Hnin. clear - Hin.
  induction d as [| [k1 v1] d IH]; cbn in *; [exact Hin |].
  destruct (String.eqb k1 k); cbn in *; [right; auto | intuition].
Qed.

(** Attributes that none of the steps of [__call__] looks at. *)
Definition plain_key (k : string) : bool :=
  negb (String.eqb k "empty" || String.eqb k "widget" || String.eqb k "widgets"
        || String.eqb k "script" || String.eqb k "comment"
        || String.eqb k "requires").

Lemma sget_fold_script ia k :
  String.eqb "script" k = false -> String.eqb "comment" k = false ->
  sget (fold_script ia) k = sget ia k.
Proof.
  intros Hs Hc. unfold fold_script.
  destruct (smem ia "script"); [| reflexivity].
  rewrite sget_sdel, Hs.
  destruct (truth (sattr ia "script")); [| reflexivity].
  destruct (truth (sattr ia "comment")); rewrite sget_sset, Hc; reflexivity.
Qed.

Lemma sget_unwrap_requires ia e k :
  String.eqb "requires" k = false ->
  sget (unwrap_requires ia e) k = sget ia k.
Proof.
  intros Hr. unfold unwrap_requires.
  destruct (negb (truth e)); [| reflexivity].
  destruct (truth (sattr ia "requires")); [| reflexivity].
  destruct (sattr ia "requires") as [| | | | [| [] l] | | | | | | | |];
    cbn; rewrite ?sget_sset, ?Hr; reflexivity.
Qed.

(** The attributes before the widget is settled: those of the definition
    without its [widgets], under those of the call. *)
Definition merged (self : S3ReusableField) (args : Storage) : Storage :=
  match args with
  | [] => sdel (attr self) "widgets"
  | _ =>
      supdate (unwrap_requires (sdel (attr self) "widgets")
                               (spop args "empty" (ABool true)))
              (sdel (sdel args "empty") "widget")
  end.

Definition asked_widget (args : Storage) : aval :=
  match args with
  | [] => AStr "default"
  | _ => spop (sdel args "empty") "widget" (AStr "default")
  end.

Lemma reusable_call_run self nm args :
  __call__ self nm args =
  match resolve_widget (merged self args)
                       (spop (attr self) "widgets" (ADict []))
                       (asked_widget args) with
  | Raise e => Raise e
  | Return widget =>
      make_field (match nm with
                  | Some n => if String.eqb n "" then name self else n
                  | None => name self
                  end)
                 (type_ self)
                 (fold_script (sset (merged self args) "widget" widget))
  end.
Proof. unfold __call__, merged, asked_widget. now destruct args. Qed.

(** The field that [make_field] returns. *)
Lemma make_field_returns n ty ia fld :
  make_field n ty ia = Return fld ->
  f_name fld = n /\ f_type fld = ty /\ f_attr fld = ia.
Proof.
  unfold make_field.
  destruct (negb (is_ANone (sattr ia "sortby")));
    [destruct (forallb _ ia); [| discriminate] |];
    intros [= <-]; auto.
Qed.

Lemma make_field_plain n ty ia :
  sattr ia "sortby" = ANone ->
  make_field n ty ia
  = Return {| f_s3 := false; f_name := n; f_type := ty; f_attr := ia |}.
Proof. unfold make_field. now intros ->. Qed.

Lemma sget_merged self args k :
  NoDup (map fst args) -> plain_key k = true ->
  sget (merged self args) k =
  match sget args k with Some v => Some v | None => sget (attr self) k end.
Proof.
  intros Hnd Hk. unfold plain_key in Hk. apply negb_true_iff in Hk.
  repeat (apply orb_false_iff in Hk as [Hk ?]).
  assert (Hsym : forall a, String.eqb k a = false -> String.eqb a k = false)
    by (intros a Ha; now rewrite String.eqb_sym).
  unfold merged. destruct args as [| kv args0] eqn:Hargs.
  - rewrite sget_sdel, Hsym by assumption. reflexivity.
  - rewrite <- Hargs in *. clear kv args0 Hargs.
    rewrite sget_supdate by (now apply NoDup_keys_sdel, NoDup_keys_sdel).
    rewrite !sget_sdel, !Hsym by assumption.
    rewrite sget_unwrap_requires by now apply Hsym.
    rewrite sget_sdel, Hsym by assumption. reflexivity.
Qed.

(** ** [S3ReusableField.__call__] *)

(** X16.  An attribute given in the call of a reusable field overrides the
    attribute of its definition, and an attribute that the call does not
    give is taken from the definition.  (For all attributes but those that
    [__call__] interprets: [empty], [widget], [widgets], [script], [comment]
    and [requires].) *)
Theorem reusable_call_overrides (self : S3ReusableField) (nm : option string)
    (args : Storage) (fld : field) (k : string) :
  NoDup (map fst args) -> plain_key k = true ->
  __call__ self nm args = Return fld ->
  sget (f_attr fld) k =
  match sget args k with Some v => Some v | None => sget (attr self) k end.
Proof.
  intros Hnd Hk. rewrite reusable_call_run.
  destruct (resolve_widget _ _ _) as [w | e]; [| discriminate].
  intros Hmk. apply make_field_returns in Hmk as (_ & _ & ->).
  pose proof Hk as Hk'. unfold plain_key in Hk'. apply negb_true_iff in Hk'.
  repeat (apply orb_false_iff in Hk' as [Hk' ?]).
  rewrite sget_fold_script, sget_sset by now rewrite String.eqb_sym.
  replace (String.eqb "widget" k) with false by now rewrite String.eqb_sym.
  now apply sget_merged.
Qed.

Lemma reusable_call_overrides_witness :
  sget (f_attr (match __call__ (__init__ "comments" (AStr "text")
                                  [("label", AStr "Comments");
                                   ("readable", ABool true)])
                               None [("label", AStr "Notes")] with
                | Return fld => fld
                | Raise _ => {| f_s3 := false; f_name := ""; f_type := ANone;
                                f_attr := [] |}
                end)) "label"
  = Some (AStr "Notes").
Proof.
  apply (@reusable_call_overrides
           (__init__ "comments" (AStr "text")
                     [("label", AStr "Comments"); ("readable", ABool true)])
           None [("label", AStr "Notes")] _ "label"); try reflexivity.
  repeat constructor. intros [].
Defined.

End ReusableFields.

Section ReusableWidgets.

Import Fields.

Lemma sget_supdate_absent e : forall d k,
  sget e k = None -> sget (supdate d e) k = sget d k.
Proof.
  unfold supdate. induction e as [| [k0 v0] e IH]; intros d k; cbn;
    [reflexivity |].
  destruct (String.eqb k0 k) eqn:H0; [discriminate |].
  intros He. rewrite IH by exact He. now rewrite sget_sset, H0.
Qed.

(** X17.  A call with an [empty] that is false takes the [IS_EMPTY_OR] off
    the validator of the definition: if [requires] is an [IS_EMPTY_OR], or a
    list that begins with one, the field requires what the [IS_EMPTY_OR]
    wraps, and the other validators of the list are dropped.  (Unless the
    call gives a [requires] of its own.) *)
Theorem reusable_not_empty_unwraps (self : S3ReusableField)
    (nm : option string) (args : Storage) (fld : field)
    (e other : aval) (rest : list aval) :
  sget args "empty" = Some e -> truth e = false ->
  sget args "requires" = None ->
  sget (attr self) "requires" = Some (AEmptyOr other) \/
  sget (attr self) "requires" = Some (ASeq (AEmptyOr other :: rest)) ->
  __call__ self nm args = Return fld ->
  sget (f_attr fld) "requires" = Some other.
Proof.
  intros He Hfalse Hreq Hdef. rewrite reusable_call_run.
  destruct (resolve_widget _ _ _) as [w | err]; [| discriminate].
  intros Hmk. apply make_field_returns in Hmk as (_ & _ & ->).
  rewrite sget_fold_script, sget_sset by reflexivity.
  change (String.eqb "widget" "requires") with false. cbv iota.
  unfold merged. destruct args as [| kv args0] eqn:Hargs; [discriminate |].
  rewrite <- Hargs in *. clear kv args0 Hargs.
  rewrite sget_supdate_absent
    by (rewrite !sget_sdel; exact Hreq).
  unfold spop. rewrite He. unfold unwrap_requires, sattr.
  rewrite Hfalse, sget_sdel. cbn [negb].
  change (String.eqb "widgets" "requires") with false. cbv iota.
  destruct Hdef as [-> | ->]; cbn [truth]; rewrite sget_sset;
    now rewrite String.eqb_refl.
Qed.

Lemma reusable_not_empty_unwraps_witness :
  sget (f_attr (match __call__ (__init__ "site_id" (AStr "integer")
                                  [("requires",
                                    ASeq [AEmptyOr (AObj 1); AObj 2])])
                               None [("empty", ABool false)] with
                | Return fld => fld
                | Raise _ => {| f_s3 := false; f_name := ""; f_type := ANone;
                                f_attr := [] |}
                end)) "requires"
  = Some (AObj 1).
Proof.
  apply (@reusable_not_empty_unwraps
           (__init__ "site_id" (AStr "integer")
                     [("requires", ASeq [AEmptyOr (AObj 1); AObj 2])])
           None [("empty", ABool false)] _ (ABool false) (AObj 1) [AObj 2]);
    try reflexivity.
  right. reflexivity.
Defined.

(** The widgets that the definition offers by name. *)
Definition offered (self : S3ReusableField) (w : string) : option aval :=
  match spop (attr self) "widgets" (ADict []) with
  | ADict d => sget d w
  | other => if String.eqb w "default" then Some other else None
  end.

(** X18.  A call that names a widget which the [widgets] of the definition
    do not offer raises a [NameError]; only the name [default] is always
    accepted. *)
Theorem reusable_unknown_widget_raises (self : S3ReusableField)
    (nm : option string) (args : Storage) (w : string) :
  sget args "widget" = Some (AStr w) -> w <> "default" ->
  offered self w = None ->
  __call__ self nm args = Raise NameError.
Proof.
  intros Hw Hne Hoff. rewrite reusable_call_run.
  unfold asked_widget. destruct args as [| kv args0] eqn:Hargs; [discriminate |].
  rewrite <- Hargs in *. clear kv args0 Hargs.
  unfold spop at 2. rewrite sget_sdel.
  change (String.eqb "empty" "widget") with false. cbv iota. rewrite Hw.
  unfold resolve_widget. apply String.eqb_neq in Hne. rewrite Hne. cbn [andb negb].
  cbv zeta. revert Hoff. unfold offered, smem.
  destruct (spop (attr self) "widgets" (ADict [])); intros Hoff; cbn [sget];
    rewrite ?(String.eqb_sym "default" w), ?Hne, ?Hoff; reflexivity.
Qed.

Lemma reusable_unknown_widget_raises_witness :
  __call__ (__init__ "location_id" (AStr "integer")
              [("widgets", ADict [("default", AObj 1); ("map", AObj 2)])])
           None [("widget", AStr "tree")]
  = Raise NameError.
Proof.
  apply (@reusable_unknown_widget_raises
           (__init__ "location_id" (AStr "integer")
              [("widgets", ADict [("default", AObj 1); ("map", AObj 2)])])
           None [("widget", AStr "tree")] "tree"); try reflexivity.
  discriminate.
Defined.

(** The [sortby] of the field: that of the call, or else that of the
    definition. *)
Lemma sattr_merged_sortby self args w :
  NoDup (map fst args) ->
  sattr args "sortby" = ANone -> sattr (attr self) "sortby" = ANone ->
  sattr (fold_script (sset (merged self args) "widget" w)) "sortby" = ANone.
Proof.
  intros Hnd Ha Hs. unfold sattr in *.
  rewrite sget_fold_script, sget_sset by reflexivity.
  change (String.eqb "widget" "sortby") with false. cbv iota.
  rewrite sget_merged by (exact Hnd || reflexivity).
  destruct (sget args "sortby"); [exact Ha | exact Hs].
Qed.

(** X19.  A call that names one of the [widgets] of the definition gives
    the field that widget, whatever [widget] the definition has.  (For a
    field without [sortby], which is made by [Field]; with a [sortby] the
    constructor [FieldS3] may refuse the attributes.) *)
Theorem reusable_named_widget (self : S3ReusableField) (nm : option string)
    (args : Storage) (w : string) (x : aval) :
  NoDup (map fst args) ->
  sattr args "sortby" = ANone -> sattr (attr self) "sortby" = ANone ->
  sget args "widget" = Some (AStr w) -> w <> "default" ->
  offered self w = Some x ->
  exists fld, __call__ self nm args = Return fld /\
              f_s3 fld = false /\
              sget (f_attr fld) "widget" = Some x.
Proof.
  intros Hnd Hsa Hss Hw Hne Hoff. rewrite reusable_call_run.
  pose proof (fun v => @sattr_merged_sortby self args v Hnd Hsa Hss) as Hsort.
  unfold asked_widget. destruct args as [| kv args0] eqn:Hargs; [discriminate |].
  rewrite <- Hargs in *. clear kv args0 Hargs.
  unfold spop at 2. rewrite sget_sdel.
  change (String.eqb "empty" "widget") with false. cbv iota. rewrite Hw.
  unfold resolve_widget. apply String.eqb_neq in Hne. rewrite Hne. cbn [andb negb].
  cbv zeta. revert Hoff. unfold offered, smem, sattr. rewrite Hne.
  destruct (spop (attr self) "widgets" (ADict [])); intros Hoff;
    try discriminate.
  rewrite Hoff. cbn [negb].
  rewrite make_field_plain by apply Hsort.
  eexists. split; [reflexivity |]. split; [reflexivity |]. cbn [f_attr].
  rewrite sget_fold_script, sget_sset by reflexivity.
  now rewrite String.eqb_refl.
Qed.

Lemma reusable_named_widget_witness :
  exists fld,
    __call__ (__init__ "location_id" (AStr "integer")
                [("widget", AObj 0);
                 ("widgets", ADict [("default", AObj 1); ("map", AObj 2)])])
             None [("widget", AStr "map")] = Return fld /\
    f_s3 fld = false /\
    sget (f_attr fld) "widget" = Some (AObj 2).
Proof.
  apply (@reusable_named_widget
           (__init__ "location_id" (AStr "integer")
              [("widget", AObj 0);
               ("widgets", ADict [("default", AObj 1); ("map", AObj 2)])])
           None [("widget", AStr "map")] "map" (AObj 2)); try reflexivity.
  - repeat constructor. intros [].
  - discriminate.
Defined.

End ReusableWidgets.

Section ReusableScript.

Import Fields.

Lemma sget_merged_text self args k :
  NoDup (map fst args) ->
  String.eqb k "empty" = false -> String.eqb k "widget" = false ->
  String.eqb k "widgets" = false -> String.eqb k "requires" = false ->
  sget (merged self args) k =
  match sget args k with Some v => Some v | None => sget (attr self) k end.
Proof.
  intros Hnd He Hw Hws Hr.
  assert (Hsym : forall a, String.eqb k a = false -> String.eqb a k = false)
    by (intros a Ha; now rewrite String.eqb_sym).
  unfold merged. destruct args as [| kv args0] eqn:Hargs.
  - rewrite sget_sdel, Hsym by assumption. reflexivity.
  - rewrite <- Hargs in *. clear kv args0 Hargs.
    rewrite sget_supdate by (now apply NoDup_keys_sdel, NoDup_keys_sdel).
    rewrite !sget_sdel, !Hsym by assumption.
    rewrite sget_unwrap_requires by now apply Hsym.
    rewrite sget_sdel, Hsym by assumption. reflexivity.
Qed.

(** X20.  The [script] of a reusable field never reaches the field: it is
    taken out of the attributes, and if it is true it is put into the
    comment, behind the comment that is there or, if there is none, in its
    place. *)
Theorem reusable_script_goes_to_comment (self : S3ReusableField)
    (nm : option string) (args : Storage) (fld : field) :
  NoDup (map fst args) ->
  __call__ self nm args = Return fld ->
  sget (f_attr fld) "script" = None /\
  forall s, match sget args "script" with
            | Some v => Some v
            | None => sget (attr self) "script"
            end = Some s ->
            truth s = true ->
            let c := match match sget args "comment" with
                           | Some v => Some v
                           | None => sget (attr self) "comment"
                           end with
                     | Some v => v
                     | None => ANone
                     end in
            sget (f_attr fld) "comment" =
            Some (if truth c then ATag [c; AScriptItem s] else AScriptItem s).
Proof.
  intros Hnd. rewrite reusable_call_run.
  destruct (resolve_widget _ _ _) as [w | err]; [| discriminate].
  intros Hmk. apply make_field_returns in Hmk as (_ & _ & ->).
  set (ia := sset (merged self args) "widget" w).
  assert (Hscript : sget ia "script" =
                    match sget args "script" with
                    | Some v => Some v
                    | None => sget (attr self) "script"
                    end).
  { unfold ia. rewrite sget_sset.
    change (String.eqb "widget" "script") with false. cbv iota.
    now apply sget_merged_text. }
  assert (Hcomment : sget ia "comment" =
                     match sget args "comment" with
                     | Some v => Some v
                     | None => sget (attr self) "comment"
                     end).
  { unfold ia. rewrite sget_sset.
    change (String.eqb "widget" "comment") with false. cbv iota.
    now apply sget_merged_text. }
  unfold fold_script, smem, sattr. rewrite Hscript, Hcomment. split.
  - destruct (match sget args "script" with
              | Some v => Some v
              | None => sget (attr self) "script"
              end) eqn:Hs; [rewrite sget_sdel; reflexivity |].
    exact Hscript.
  - intros s Hs Htrue. rewrite Hs, Htrue. rewrite sget_sdel.
    change (String.eqb "script" "comment") with false. cbv iota.
    cbv zeta.
    set (c := match match sget args "comment" with
                    | Some v => Some v
                    | None => sget (attr self) "comment"
                    end with
              | Some v => v
              | None => ANone
              end).
    destruct (truth c); rewrite sget_sset; now rewrite String.eqb_refl.
Qed.

Lemma reusable_script_goes_to_comment_witness :
  sget (f_attr (match __call__ (__init__ "site_id" (AStr "integer")
                                  [("comment", AStr "The site");
                                   ("script", AStr "S3.site()")])
                               None [] with
                | Return fld => fld
                | Raise _ => {| f_s3 := false; f_name := ""; f_type := ANone;
                                f_attr := [] |}
                end)) "script" = None /\
  forall s, Some (AStr "S3.site()") = Some s -> truth s = true ->
    sget (f_attr (match __call__ (__init__ "site_id" (AStr "integer")
                                    [("comment", AStr "The site");
                                     ("script", AStr "S3.site()")])
                                 None [] with
                  | Return fld => fld
                  | Raise _ => {| f_s3 := false; f_name := ""; f_type := ANone;
                                  f_attr := [] |}
                  end)) "comment"
    = Some (if truth (AStr "The site")
            then ATag [AStr "The site"; AScriptItem s]
            else AScriptItem s).
Proof.
  apply (@reusable_script_goes_to_comment
           (__init__ "site_id" (AStr "integer")
                     [("comment", AStr "The site"); ("script", AStr "S3.site()")])
           None [] _); [constructor | reflexivity].
Defined.

End ReusableScript.

(** * Properties of the date fields *)

Section DateFields.

Import Fields.
Local Open Scope Z_scope.

Variable FE : FEnv.

Lemma sget_date_defaults a k :
  String.eqb "default" k = false -> String.eqb "label" k = false ->
  String.eqb "represent" k = false ->
  sget (date_defaults FE a) k = sget a k.
Proof.
  intros Hd Hl Hr. unfold date_defaults.
  set (a1 := match sget a "default" with
             | Some (AStr s) => if String.eqb s "now" then sset a "default" (utcnow FE) else a
             | _ => a
             end).
  assert (H1 : sget a1 k = sget a k).
  { subst a1. destruct (sget a "default") as [[]|]; try reflexivity.
    destruct (String.eqb s "now"); [| reflexivity]. now rewrite sget_sset, Hd. }
  cbv zeta.
  destruct (smem a1 "label"), (smem _ "represent");
    rewrite ?sget_sset, ?Hr, ?Hl; exact H1.
Qed.

Lemma sget_move_option_fst k aw k' :
  sget (fst (move_option k aw)) k' =
  if String.eqb k k' then None else sget (fst aw) k'.
Proof.
  unfold move_option. destruct (sget (fst aw) k) eqn:Hk; cbn [fst].
  - apply sget_sdel.
  - destruct (String.eqb k k') eqn:Hkk; [| reflexivity].
    apply String.eqb_eq in Hkk. now subst k'.
Qed.

Lemma sget_move_option_snd k aw k' :
  sget (snd (move_option k aw)) k' =
  if String.eqb k k'
  then match sget (fst aw) k with Some v => Some v | None => sget (snd aw) k' end
  else sget (snd aw) k'.
Proof.
  unfold move_option. destruct (sget (fst aw) k) eqn:Hk; cbn [snd].
  - apply sget_sset.
  - now destruct (String.eqb k k').
Qed.


Lemma smem_date_widget p f a : smem (date_widget p f a) "widget" = true.
Proof.
  unfold date_widget. destruct (smem a "widget") eqn:Hw; [exact Hw |].
  cbv zeta. unfold smem. rewrite sget_sset. reflexivity.
Qed.

Lemma sget_date_widget_other p f a k :
  String.eqb "widget" k = false -> String.eqb "start_field" k = false ->
  String.eqb "default_interval" k = false ->
  String.eqb "default_explicit" k = false ->
  sget (date_widget p f a) k = sget a k.
Proof.
  intros Hw Hs Hi He. unfold date_widget.
  destruct (smem a "widget"); [reflexivity |].
  cbv zeta. rewrite sget_sset, Hw, !sget_move_option_fst, He, Hi, Hs.
  reflexivity.
Qed.

(** The attributes of the field that [s3_date] makes of the attributes
    [a7]. *)
Definition date_field_attr (a7 : Storage) : Storage :=
  fold_script (sset (sdel a7 "widgets") "widget" (sattr a7 "widget")).

Lemma s3_date_run name attr :
  s3_date FE name attr =
  match date_requires FE (sattr attr "past") (sattr attr "future")
          (date_defaults FE (sdel (sdel attr "past") "future")) with
  | Raise e => Raise e
  | Return a6 =>
      let a7 := date_widget (sattr attr "past") (sattr attr "future") a6 in
      if smem a7 "type" || smem a7 "self" then Raise TypeError
      else make_field name (AStr "date") (date_field_attr a7)
  end.
Proof.
  unfold s3_date. cbv zeta.
  replace (sattr (sdel attr "past") "future") with (sattr attr "future")
    by (unfold sattr; now rewrite sget_sdel).
  destruct (date_requires _ _ _ _) as [a6 | e]; [| reflexivity].
  unfold construct.
  destruct (smem _ "type" || smem _ "self"); [reflexivity |].
  rewrite reusable_call_run. unfold merged, asked_widget, __init__.
  cbn [Fields.attr Fields.name Fields.type_]. unfold resolve_widget.
  replace (smem (sdel _ "widgets") "widget") with true.
  2:{ unfold smem at 1. rewrite sget_sdel.
      change (String.eqb "widgets" "widget") with false. cbv iota.
      symmetry. apply smem_date_widget. }
  change (String.eqb "default" "default") with true. cbn [andb].
  unfold date_field_attr.
  replace (sattr (sdel (date_widget (sattr attr "past") (sattr attr "future") a6)
                       "widgets") "widget")
    with (sattr (date_widget (sattr attr "past") (sattr attr "future") a6) "widget")
    by (unfold sattr; now rewrite sget_sdel).
  reflexivity.
Qed.

Lemma sget_date_field_attr a7 k :
  smem a7 "widget" = true ->
  String.eqb "script" k = false -> String.eqb "comment" k = false ->
  String.eqb "widgets" k = false ->
  sget (date_field_attr a7) k = sget a7 k.
Proof.
  intros Hw Hs Hc Hws. unfold date_field_attr.
  rewrite sget_fold_script, sget_sset by assumption.
  destruct (String.eqb "widget" k) eqn:Hk.
  - apply String.eqb_eq in Hk. subst k. unfold smem in Hw. unfold sattr.
    now destruct (sget a7 "widget").
  - now rewrite sget_sdel, Hws.
Qed.

(** The validator [v] as [s3_date] stores it: on its own if [empty] is
    [False], and in an [IS_EMPTY_OR] otherwise. *)
Definition stored (attr : Storage) (v : aval) : aval :=
  match sget attr "empty" with
  | Some (ABool false) => v
  | _ => AEmptyOr v
  end.

Lemma date_requires_absent p f a :
  sget a "requires" = None ->
  date_requires FE p f a =
  match date_validator FE p f with
  | Raise e => Raise e
  | Return v =>
      Return (match sget a "empty" with
              | Some _ => sdel (sset a "requires" (stored a v)) "empty"
              | None => sset a "requires" (stored a v)
              end)
  end.
Proof.
  intros Hr. unfold date_requires, smem, stored. rewrite Hr.
  destruct (date_validator FE p f) as [v | e]; [| reflexivity].
  destruct (sget a "empty") as [[| [] | | | | | | | | | | |] |]; reflexivity.
Qed.

Lemma sget_date_requires p f a a6 k :
  date_requires FE p f a = Return a6 ->
  String.eqb "requires" k = false -> String.eqb "empty" k = false ->
  sget a6 k = sget a k.
Proof.
  unfold date_requires. intros H Hr He.
  destruct (smem a "requires"); [now injection H as <- |].
  destruct (date_validator FE p f) as [v | e]; [| discriminate].
  destruct (sget a "empty") as [[| [] | | | | | | | | | | |] |];
    injection H as <-; rewrite ?sget_sdel, ?He, ?sget_sset, ?Hr; reflexivity.
Qed.

Lemma sget_date_attrs attr k :
  String.eqb "default" k = false -> String.eqb "label" k = false ->
  String.eqb "represent" k = false ->
  String.eqb "past" k = false -> String.eqb "future" k = false ->
  sget (date_defaults FE (sdel (sdel attr "past") "future")) k = sget attr k.
Proof.
  intros Hd Hl Hr Hp Hf.
  now rewrite sget_date_defaults, !sget_sdel, Hf, Hp by assumption.
Qed.

(** What [s3_date] returns, given the validator. *)
Lemma s3_date_returns name attr fld :
  sget attr "requires" = None ->
  s3_date FE name attr = Return fld ->
  exists v,
    date_validator FE (sattr attr "past") (sattr attr "future") = Return v /\
    sget (f_attr fld) "requires" = Some (stored attr v) /\
    sget (f_attr fld) "empty" = None.
Proof.
  intros Hreq. rewrite s3_date_run.
  set (a5 := date_defaults FE (sdel (sdel attr "past") "future")).
  assert (Hreq5 : sget a5 "requires" = None)
    by (subst a5; now rewrite sget_date_attrs).
  assert (Hemp5 : sget a5 "empty" = sget attr "empty")
    by (subst a5; now rewrite sget_date_attrs).
  rewrite (date_requires_absent _ _ _ Hreq5).
  destruct (date_validator _ _ _) as [v | e]; [| discriminate].
  cbv zeta. destruct (smem _ "type" || smem _ "self"); [discriminate |].
  intros Hmk. apply make_field_returns in Hmk as (_ & _ & ->).
  exists v. split; [reflexivity |].
  rewrite !sget_date_field_attr by (reflexivity || apply smem_date_widget).
  rewrite !sget_date_widget_other by reflexivity.
  unfold stored. rewrite Hemp5.
  destruct (sget attr "empty");
    rewrite ?sget_sdel, ?sget_sset; cbn; now rewrite ?Hemp5.
Qed.

Lemma s3_date_raises name attr e :
  sget attr "requires" = None ->
  date_validator FE (sattr attr "past") (sattr attr "future") = Raise e ->
  s3_date FE name attr = Raise e.
Proof.
  intros Hreq Hv. rewrite s3_date_run.
  rewrite date_requires_absent by now rewrite sget_date_attrs.
  now rewrite Hv.
Qed.


(** ** The limits of the dates *)

Lemma date_replace_returns now y m d :
  date_replace now y m = Return d ->
  valid_date (year d) (month d) (day d) = true /\
  year d = match y with Some y' => y' | None => year now end /\
  month d = match m with Some m' => m' | None => month now end /\
  day d = day now.
Proof.
  unfold date_replace. cbv zeta.
  destruct (negb _); [discriminate |].
  destruct (valid_date _ _ _) eqn:Hv; [| discriminate].
  intros [= <-]. cbn. auto.
Qed.

(** The arguments of [replace] fit a C [int]: a [ValueError] is the only
    failure. *)
Lemma date_replace_fits now y m e :
  match y with Some y' => c_int y' | None => true end = true ->
  match m with Some m' => c_int m' | None => true end = true ->
  date_replace now y m = Raise e -> e = ValueError.
Proof.
  unfold date_replace. cbv zeta. intros -> ->. cbn [andb negb].
  destruct (valid_date _ _ _); congruence.
Qed.

Lemma c_int_iff z : c_int z = true <-> -2147483648 <= z <= 2147483647.
Proof. unfold c_int. rewrite andb_true_iff, !Z.leb_le. tauto. Qed.

Lemma valid_date_bounds y m dd :
  valid_date y m dd = true ->
  1 <= y <= 9999 /\ 1 <= m <= 12 /\ 1 <= dd <= 31.
Proof.
  unfold valid_date. rewrite !andb_true_iff, !Z.leb_le.
  intros (((((? & ?) & ?) & ?) & ?) & Hd).
  assert (days_in_month y m <= 31).
  { unfold days_in_month.
    repeat match goal with
           | |- context [if ?b then _ else _] => destruct b
           end; lia. }
  lia.
Qed.

Lemma future_limit_returns now f d :
  future_limit now f = Return d ->
  valid_date (year d) (month d) (day d) = true /\
  day d = day now /\
  12 * year d + month d =
  12 * year now + month now + f
  + (if (12 <? month now + f) && ((month now + f) mod 12 =? 0)
     then month now else 0).
Proof.
  unfold future_limit. cbv zeta.
  pose proof (Z.div_mod (month now + f) 12 ltac:(lia)) as Hdm.
  destruct (month now + f <=? 12) eqn:Hle.
  - intros H. apply date_replace_returns in H as (Hv & Hy & Hm & Hd).
    replace (12 <? month now + f) with false by (symmetry; apply Z.ltb_ge; lia).
    cbn [andb]. repeat split; [exact Hv | exact Hd | lia].
  - replace (12 <? month now + f) with true by (symmetry; apply Z.ltb_lt; lia).
    cbn [andb].
    replace (month now + f - (month now + f) / 12 * 12)
      with ((month now + f) mod 12) by lia.
    destruct ((month now + f) mod 12 =? 0) eqn:Hz; cbn [negb];
      intros H; apply date_replace_returns in H as (Hv & Hy & Hm & Hd);
      (repeat split; [exact Hv | exact Hd | lia]).
Qed.

Lemma past_limit_returns now p d :
  past_limit now p = Return d ->
  valid_date (year d) (month d) (day d) = true /\
  day d = day now /\
  12 * year d + month d =
  12 * year now + month now - p
  + (if (month now <=? p) && (p mod 12 =? month now)
     then month now else 0).
Proof.
  unfold past_limit. cbv zeta.
  pose proof (Z.div_mod p 12 ltac:(lia)) as Hdm.
  destruct (p <? month now) eqn:Hlt.
  - intros H. apply date_replace_returns in H as (Hv & Hy & Hm & Hd).
    replace (month now <=? p) with false by (symmetry; apply Z.leb_gt; lia).
    cbn [andb]. repeat split; [exact Hv | exact Hd | lia].
  - replace (month now <=? p) with true by (symmetry; apply Z.leb_le; lia).
    cbn [andb].
    replace (p - p / 12 * 12) with (p mod 12) by lia.
    destruct (month now - p mod 12 =? 0) eqn:Hz; cbn [negb];
      intros H; apply date_replace_returns in H as (Hv & Hy & Hm & Hd).
    + replace (p mod 12 =? month now) with true by (symmetry; apply Z.eqb_eq; lia).
      repeat split; [exact Hv | exact Hd | lia].
    + replace (p mod 12 =? month now) with false by (symmetry; apply Z.eqb_neq; lia).
      repeat split; [exact Hv | exact Hd | lia].
Qed.

(** With a [future] that fits a C [int], a [ValueError] is the only
    failure of the latest date. *)
Lemma future_limit_error now f e :
  valid_date (year now) (month now) (day now) = true -> c_int f = true ->
  future_limit now f = Raise e -> e = ValueError.
Proof.
  intros Hv Hf. apply valid_date_bounds in Hv as (Hy & Hm & _).
  apply c_int_iff in Hf. unfold future_limit. cbv zeta.
  pose proof (Z.div_mod (month now + f) 12 ltac:(lia)) as Hdm.
  pose proof (Z.mod_pos_bound (month now + f) 12 ltac:(lia)) as Hmod.
  destruct (month now + f <=? 12) eqn:Hle.
  - apply date_replace_fits; [reflexivity |]. apply c_int_iff. lia.
  - apply Z.leb_gt in Hle.
    assert (Hyear : c_int (year now + (month now + f) / 12) = true)
      by (apply c_int_iff; lia).
    destruct (negb _).
    + apply date_replace_fits; [exact Hyear |]. apply c_int_iff. lia.
    + apply date_replace_fits; [exact Hyear | reflexivity].
Qed.

Lemma past_limit_raises now p :
  valid_date (year now) (month now) (day now) = true -> c_int p = true ->
  0 <= p -> month now < p mod 12 -> past_limit now p = Raise ValueError.
Proof.
  intros Hv Hc Hp Hm. apply valid_date_bounds in Hv as (Hy & Hmo & _).
  apply c_int_iff in Hc. unfold past_limit. cbv zeta.
  pose proof (Z.div_mod p 12 ltac:(lia)) as Hdm.
  pose proof (Z.div_pos p 12 Hp ltac:(lia)) as Hq.
  pose proof (Z.mod_pos_bound p 12 ltac:(lia)) as Hmod.
  replace (p <? month now) with false by (symmetry; apply Z.ltb_ge; lia).
  replace (p - p / 12 * 12) with (p mod 12) by lia.
  replace (month now - p mod 12 =? 0) with false by (symmetry; apply Z.eqb_neq; lia).
  cbn [negb]. unfold date_replace, valid_date. cbv zeta.
  replace (c_int (year now - p / 12)) with true
    by (symmetry; apply c_int_iff; lia).
  replace (c_int (month now - p mod 12)) with true
    by (symmetry; apply c_int_iff; lia).
  cbn [andb negb].
  replace (1 <=? month now - p mod 12) with false by (symmetry; apply Z.leb_gt; lia).
  now rewrite !andb_false_r.
Qed.


Lemma s3_date_total name attr a6 :
  date_requires FE (sattr attr "past") (sattr attr "future")
    (date_defaults FE (sdel (sdel attr "past") "future")) = Return a6 ->
  sget attr "type" = None -> sget attr "self" = None ->
  sattr attr "sortby" = ANone ->
  exists fld,
    s3_date FE name attr = Return fld /\
    f_s3 fld = false /\
    f_name fld = name /\ f_type fld = AStr "date" /\
    f_attr fld
    = date_field_attr (date_widget (sattr attr "past") (sattr attr "future") a6).
Proof.
  intros H Ht Hs Hsort. rewrite s3_date_run, H. cbv zeta. unfold smem.
  rewrite !sget_date_widget_other by reflexivity.
  rewrite !(@sget_date_requires _ _ _ _ _ H) by reflexivity.
  rewrite !sget_date_attrs by reflexivity.
  rewrite Ht, Hs. cbn [orb].
  rewrite make_field_plain.
  - eexists. repeat split.
  - unfold sattr in *.
    rewrite sget_date_field_attr by (reflexivity || apply smem_date_widget).
    rewrite sget_date_widget_other by reflexivity.
    rewrite (@sget_date_requires _ _ _ _ _ H) by reflexivity.
    rewrite sget_date_attrs by reflexivity. exact Hsort.
Qed.

End DateFields.

Section DateProperties.

Import Fields.
Local Open Scope Z_scope.

(** X21.  Without [past], [future], [requires] and [sortby], [s3_date]
    returns a field of the given name and of type [date], made by [Field]
    and validated by [IS_DATE] in the date format of the deployment.  The
    validator is wrapped in [IS_EMPTY_OR] unless [empty] is [False] itself
    (another false value, such as [0] or [None], does not count), and
    [empty] is not handed on to the field. *)
Theorem date_default_validator (FE : FEnv) (name : string) (attr : Storage) :
  sattr attr "past" = ANone -> sattr attr "future" = ANone ->
  sget attr "requires" = None ->
  sget attr "type" = None -> sget attr "self" = None ->
  sattr attr "sortby" = ANone ->
  exists fld,
    s3_date FE name attr = Return fld /\
    f_s3 fld = false /\
    f_name fld = name /\ f_type fld = AStr "date" /\
    sget (f_attr fld) "requires"
    = Some (match sget attr "empty" with
            | Some (ABool false) => AIsDate (date_format FE)
            | _ => AEmptyOr (AIsDate (date_format FE))
            end) /\
    sget (f_attr fld) "empty" = None.
Proof.
  intros Hp Hf Hr Ht Hs Hsort.
  assert (Hreq : exists a6,
             date_requires FE (sattr attr "past") (sattr attr "future")
               (date_defaults FE (sdel (sdel attr "past") "future")) = Return a6).
  { rewrite date_requires_absent by now rewrite sget_date_attrs.
    rewrite Hp, Hf. cbn. eauto. }
  destruct Hreq as [a6 Hreq].
  destruct (@s3_date_total _ name attr _ Hreq Ht Hs Hsort)
    as (fld & Hrun & Hs3 & Hn & Hty & _).
  exists fld. repeat split; try assumption;
    destruct (@s3_date_returns _ name attr _ Hr Hrun) as (v & Hv & Hreq' & Hemp);
    [| exact Hemp].
  rewrite Hp, Hf in Hv. cbn in Hv. injection Hv as <-. exact Hreq'.
Qed.

Definition demo_fenv : FEnv :=
  {| fT := fun s => s;
     utcnow := AObj 0;
     today := {| year := 2015; month := 3; day := 31 |};
     today_valid := eq_refl;
     date_format := "%Y-%m-%d";
     date_represent := AObj 1 |}.

Lemma date_default_validator_witness :
  exists fld,
    s3_date demo_fenv "date" [("empty", AInt 0)] = Return fld /\
    f_s3 fld = false /\
    f_name fld = "date"%string /\ f_type fld = AStr "date" /\
    sget (f_attr fld) "requires" = Some (AEmptyOr (AIsDate "%Y-%m-%d")) /\
    sget (f_attr fld) "empty" = None.
Proof.
  apply (@date_default_validator demo_fenv "date" [("empty", AInt 0)]);
    reflexivity.
Defined.

(** X22.  A validator that the caller gives is kept as it is: [s3_date]
    then computes no limit of the dates, so that it returns a field whatever
    [past] and [future] are, and [empty] stays among the attributes that are
    handed to the constructor of the field.  (For a field without [sortby],
    which is made by [Field]; the constructor [FieldS3] of a field with a
    [sortby] has no keyword [empty].) *)
Theorem date_keeps_given_requires (FE : FEnv) (name : string)
    (attr : Storage) (r : aval) :
  sget attr "requires" = Some r ->
  sget attr "type" = None -> sget attr "self" = None ->
  sattr attr "sortby" = ANone ->
  exists fld,
    s3_date FE name attr = Return fld /\
    f_s3 fld = false /\
    sget (f_attr fld) "requires" = Some r /\
    sget (f_attr fld) "empty" = sget attr "empty".
Proof.
  intros Hr Ht Hs Hsort.
  set (a5 := date_defaults FE (sdel (sdel attr "past") "future")).
  assert (Hreq : date_requires FE (sattr attr "past") (sattr attr "future") a5
                 = Return a5).
  { unfold date_requires, smem. subst a5. rewrite sget_date_attrs by reflexivity.
    now rewrite Hr. }
  destruct (@s3_date_total _ name attr _ Hreq Ht Hs Hsort)
    as (fld & Hrun & Hs3 & _ & _ & Hattr).
  exists fld. split; [exact Hrun |]. split; [exact Hs3 |]. rewrite Hattr.
  rewrite !sget_date_field_attr by (reflexivity || apply smem_date_widget).
  rewrite !sget_date_widget_other by reflexivity.
  subst a5. rewrite !sget_date_attrs by reflexivity. auto.
Qed.

Lemma date_keeps_given_requires_witness :
  exists fld,
    s3_date demo_fenv "date"
      [("requires", AObj 7); ("past", AInt 6); ("empty", ABool false)]
    = Return fld /\
    f_s3 fld = false /\
    sget (f_attr fld) "requires" = Some (AObj 7) /\
    sget (f_attr fld) "empty" = Some (ABool false).
Proof.
  apply (@date_keeps_given_requires demo_fenv "date"
           [("requires", AObj 7); ("past", AInt 6); ("empty", ABool false)]
           (AObj 7)); reflexivity.
Defined.

(** X23.  With [future] and without [past], the field accepts the dates up
    to a latest one.  If [s3_date] returns, that date is a date of the
    calendar with the day of today, [future] months after the month of
    today; but if the month of today plus [future] is 24, 36, ..., the
    latest date is in the month of today of the year reached, which is later
    by as many months as the number of the month of today. *)
Theorem date_future_limit (FE : FEnv) (name : string) (attr : Storage)
    (f : Z) (fld : field) :
  sget attr "requires" = None ->
  sattr attr "past" = ANone -> sattr attr "future" = AInt f ->
  s3_date FE name attr = Return fld ->
  let now := today FE in
  exists d,
    sget (f_attr fld) "requires"
    = Some (stored attr
              (AIsDateInRange (date_format FE) None (Some d)
                 (fT FE "Date must be %(max)s or earlier!"))) /\
    valid_date (year d) (month d) (day d) = true /\
    day d = day now /\
    12 * year d + month d =
    12 * year now + month now + f
    + (if (12 <? month now + f) && ((month now + f) mod 12 =? 0)
       then month now else 0).
Proof.
  intros Hr Hp Hf Hrun now.
  destruct (@s3_date_returns _ name attr _ Hr Hrun) as (v & Hv & Hreq & _).
  rewrite Hp, Hf in Hv. unfold date_validator in Hv. cbn in Hv.
  destruct (future_limit (today FE) f) as [d | e] eqn:Hlim; [| discriminate].
  injection Hv as <-. exists d. split; [exact Hreq |].
  now apply future_limit_returns.
Qed.

Lemma date_future_limit_witness :
  exists d,
    sget (f_attr (match s3_date demo_fenv "date" [("future", AInt 21)] with
                  | Return fld => fld
                  | Raise _ => {| f_s3 := false; f_name := ""; f_type := ANone;
                                  f_attr := [] |}
                  end)) "requires"
    = Some (stored [("future", AInt 21)]
              (AIsDateInRange "%Y-%m-%d" None (Some d)
                 "Date must be %(max)s or earlier!")) /\
    valid_date (year d) (month d) (day d) = true /\
    day d = 31 /\
    12 * year d + month d = 12 * 2015 + 3 + 21 + 3.
Proof.
  apply (@date_future_limit demo_fenv "date" [("future", AInt 21)] 21);
    reflexivity.
Defined.

(** X24.  With [past] and without [future], the field accepts the dates
    from an earliest one.  If [s3_date] returns, that date is a date of the
    calendar with the day of today, [past] months before the month of
    today; but if [past] is the number of the month of today plus 0, 12,
    24, ..., the earliest date is in the month of today of the year
    reached, which is later by as many months as the number of the month of
    today. *)
Theorem date_past_limit (FE : FEnv) (name : string) (attr : Storage)
    (p : Z) (fld : field) :
  sget attr "requires" = None ->
  sattr attr "past" = AInt p -> sattr attr "future" = ANone ->
  s3_date FE name attr = Return fld ->
  let now := today FE in
  exists d,
    sget (f_attr fld) "requires"
    = Some (stored attr
              (AIsDateInRange (date_format FE) (Some d) None
                 (fT FE "Date must be %(min)s or later!"))) /\
    valid_date (year d) (month d) (day d) = true /\
    day d = day now /\
    12 * year d + month d =
    12 * year now + month now - p
    + (if (month now <=? p) && (p mod 12 =? month now)
       then month now else 0).
Proof.
  intros Hr Hp Hf Hrun now.
  destruct (@s3_date_returns _ name attr _ Hr Hrun) as (v & Hv & Hreq & _).
  rewrite Hp, Hf in Hv. unfold date_validator in Hv. cbn in Hv.
  destruct (past_limit (today FE) p) as [d | e] eqn:Hlim; [| discriminate].
  injection Hv as <-. exists d. split; [exact Hreq |].
  now apply past_limit_returns.
Qed.

Lemma date_past_limit_witness :
  exists d,
    sget (f_attr (match s3_date demo_fenv "date" [("past", AInt 3)] with
                  | Return fld => fld
                  | Raise _ => {| f_s3 := false; f_name := ""; f_type := ANone;
                                  f_attr := [] |}
                  end)) "requires"
    = Some (stored [("past", AInt 3)]
              (AIsDateInRange "%Y-%m-%d" (Some d) None
                 "Date must be %(min)s or later!")) /\
    valid_date (year d) (month d) (day d) = true /\
    day d = 31 /\
    12 * year d + month d = 12 * 2015 + 3 - 3 + 3.
Proof.
  apply (@date_past_limit demo_fenv "date" [("past", AInt 3)] 3);
    reflexivity.
Defined.

(** X25.  [s3_date] raises a [ValueError] if [past], taken modulo 12, is
    more than the number of the month of today: the month that it asks
    [replace] for is then negative.  (For limits that fit a C [int], which
    is what [replace] takes, with a [future] that is such an integer or
    absent, and without a validator of the caller.) *)
Theorem date_past_raises (FE : FEnv) (name : string) (attr : Storage)
    (p : Z) :
  sget attr "requires" = None ->
  sattr attr "past" = AInt p ->
  (sattr attr "future" = ANone \/
   exists f, sattr attr "future" = AInt f /\ c_int f = true) ->
  0 <= p -> c_int p = true -> month (today FE) < p mod 12 ->
  s3_date FE name attr = Raise ValueError.
Proof.
  intros Hr Hp Hf H0 Hc Hm. apply s3_date_raises; [exact Hr |].
  pose proof (today_valid FE) as Hv.
  rewrite Hp. unfold date_validator.
  destruct Hf as [-> | (f & -> & Hcf)]; cbn.
  - now rewrite past_limit_raises.
  - destruct (future_limit (today FE) f) as [d | e] eqn:Hlim.
    + now rewrite past_limit_raises.
    + now rewrite (@future_limit_error _ _ _ Hv Hcf Hlim).
Qed.

Lemma date_past_raises_witness :
  s3_date demo_fenv "date" [("past", AInt 6)] = Raise ValueError.
Proof.
  apply (@date_past_raises demo_fenv "date" [("past", AInt 6)] 6);
    try reflexivity.
  - left. reflexivity.
  - discriminate.
Defined.

(** X26.  [s3_date] raises a [ValueError] if the month that lies [future]
    months ahead in the year of today has no day with the number of the day
    of today, whatever [past] is. *)
Theorem date_future_day_raises (FE : FEnv) (name : string) (attr : Storage)
    (f : Z) :
  sget attr "requires" = None ->
  sattr attr "future" = AInt f ->
  month (today FE) + f <= 12 ->
  days_in_month (year (today FE)) (month (today FE) + f) < day (today FE) ->
  s3_date FE name attr = Raise ValueError.
Proof.
  intros Hr Hf Hle Hday. apply s3_date_raises; [exact Hr |].
  rewrite Hf. unfold date_validator.
  assert (Hlim : future_limit (today FE) f = Raise ValueError).
  { unfold future_limit. cbv zeta.
    replace (month (today FE) + f <=? 12) with true
      by (symmetry; apply Z.leb_le; lia).
    pose proof (valid_date_bounds _ _ _ (today_valid FE)) as (_ & _ & Hd).
    assert (Hfit : c_int (month (today FE) + f) = true).
    { apply c_int_iff. revert Hday. unfold days_in_month.
      destruct (month (today FE) + f =? 2) eqn:H2;
        [apply Z.eqb_eq in H2; lia |].
      destruct (month (today FE) + f =? 4) eqn:H4;
        [apply Z.eqb_eq in H4; lia |].
      destruct (month (today FE) + f =? 6) eqn:H6;
        [apply Z.eqb_eq in H6; lia |].
      destruct (month (today FE) + f =? 9) eqn:H9;
        [apply Z.eqb_eq in H9; lia |].
      destruct (month (today FE) + f =? 11) eqn:H11;
        [apply Z.eqb_eq in H11; lia |].
      cbn [orb]. lia. }
    unfold date_replace, valid_date. cbv zeta. rewrite Hfit. cbn [andb negb].
    replace (day (today FE) <=? _) with false
      by (symmetry; apply Z.leb_gt; lia).
    now rewrite !andb_false_r. }
  destruct (sattr attr "past"); cbn; now rewrite Hlim.
Qed.

Lemma date_future_day_raises_witness :
  s3_date demo_fenv "date" [("future", AInt 1)] = Raise ValueError.
Proof.
  apply (@date_future_day_raises demo_fenv "date" [("future", AInt 1)] 1);
    reflexivity || (cbn; lia).
Defined.

(** X27.  Unless the caller gives a widget, the field of [s3_date] has an
    [S3DateWidget].  The options [start_field], [default_interval] and
    [default_explicit] go to the widget and not to the field, as do the
    limits [past] and [future] that are not [None]. *)
Theorem date_widget_options (FE : FEnv) (name : string) (attr : Storage)
    (fld : field) :
  sget attr "widget" = None ->
  s3_date FE name attr = Return fld ->
  exists opts,
    sget (f_attr fld) "widget" = Some (ADateWidget opts) /\
    (forall k, In k ["start_field"; "default_interval"; "default_explicit"] ->
               sget opts k = sget attr k /\ sget (f_attr fld) k = None) /\
    (forall k, In k ["past"; "future"] ->
               sget opts k = (if is_ANone (sattr attr k) then None
                              else Some (sattr attr k)) /\
               sget (f_attr fld) k = None).
Proof.
  intros Hw. rewrite s3_date_run.
  destruct (date_requires _ _ _ _) as [a6 | e] eqn:Hreq; [| discriminate].
  cbv zeta. destruct (smem _ "type" || smem _ "self"); [discriminate |].
  intros Hmk. apply make_field_returns in Hmk as (_ & _ & ->).
  assert (Hkeep : forall k, String.eqb "requires" k = false ->
                            String.eqb "empty" k = false ->
                            String.eqb "default" k = false ->
                            String.eqb "label" k = false ->
                            String.eqb "represent" k = false ->
                            sget a6 k =
                            if String.eqb "past" k || String.eqb "future" k
                            then None else sget attr k).
  { intros k H1 H2 H3 H4 H5. rewrite (@sget_date_requires _ _ _ _ _ _ Hreq) by assumption.
    rewrite sget_date_defaults, !sget_sdel by assumption.
    now destruct (String.eqb "future" k), (String.eqb "past" k). }
  assert (Hw6 : smem a6 "widget" = false).
  { unfold smem. rewrite Hkeep by reflexivity. cbn. now rewrite Hw. }
  set (p := sattr attr "past") in *. set (f := sattr attr "future") in *.
  eexists. split; [| split].
  - rewrite sget_date_field_attr by (reflexivity || apply smem_date_widget).
    unfold date_widget. rewrite Hw6. cbv zeta. rewrite sget_sset. reflexivity.
  - intros k Hk. rewrite sget_date_field_attr.
    2: apply smem_date_widget.
    2-4: cbn in Hk; decompose [or] Hk; subst; try reflexivity; contradiction.
    unfold date_widget. rewrite Hw6. cbv zeta.
    cbn in Hk. decompose [or] Hk; try contradiction; subst k;
      rewrite sget_sset; cbn [String.eqb Ascii.eqb Bool.eqb];
      rewrite !sget_move_option_fst; cbn [String.eqb Ascii.eqb Bool.eqb];
      (split; [| reflexivity]);
      destruct (is_ANone p), (is_ANone f);
      rewrite ?sget_sset; cbn [String.eqb Ascii.eqb Bool.eqb];
      rewrite !sget_move_option_snd; cbn [String.eqb Ascii.eqb Bool.eqb fst snd];
      rewrite ?sget_move_option_fst; cbn [String.eqb Ascii.eqb Bool.eqb fst snd];
      rewrite ?sget_move_option_fst; cbn [String.eqb Ascii.eqb Bool.eqb fst snd];
      rewrite Hkeep by reflexivity; cbn;
      match goal with
      | |- context [sget attr ?k'] => destruct (sget attr k')
      end; reflexivity.
  - intros k Hk. rewrite sget_date_field_attr.
    2: apply smem_date_widget.
    2-4: cbn in Hk; decompose [or] Hk; subst; try reflexivity; contradiction.
    unfold date_widget. rewrite Hw6. cbv zeta.
    cbn in Hk. decompose [or] Hk; try contradiction; subst k;
      rewrite sget_sset; cbn [String.eqb Ascii.eqb Bool.eqb];
      rewrite !sget_move_option_fst; cbn [String.eqb Ascii.eqb Bool.eqb fst];
      rewrite Hkeep by reflexivity; cbn [String.eqb Ascii.eqb Bool.eqb orb];
      (split; [| reflexivity]); fold p; fold f;
      destruct (is_ANone p), (is_ANone f);
      rewrite ?sget_sset; cbn [String.eqb Ascii.eqb Bool.eqb];
      rewrite ?sget_move_option_snd; cbn [String.eqb Ascii.eqb Bool.eqb fst snd];
      rewrite ?sget_move_option_snd; cbn [String.eqb Ascii.eqb Bool.eqb fst snd];
      reflexivity.
Qed.

Lemma date_widget_options_witness :
  exists opts,
    let fld := match s3_date demo_fenv "end_date"
                       [("start_field", AStr "start_date"); ("past", AInt 2)] with
               | Return fld => fld
               | Raise _ => {| f_s3 := false; f_name := ""; f_type := ANone;
                               f_attr := [] |}
               end in
    sget (f_attr fld) "widget" = Some (ADateWidget opts) /\
    (forall k, In k ["start_field"; "default_interval"; "default_explicit"] ->
               sget opts k
               = sget [("start_field", AStr "start_date"); ("past", AInt 2)] k /\
               sget (f_attr fld) k = None) /\
    (forall k, In k ["past"; "future"] ->
               sget opts k
               = (if is_ANone (sattr [("start_field", AStr "start_date");
                                      ("past", AInt 2)] k)
                  then None
                  else Some (sattr [("start_field", AStr "start_date");
                                    ("past", AInt 2)] k)) /\
               sget (f_attr fld) k = None).
Proof.
  apply (@date_widget_options demo_fenv "end_date"
           [("start_field", AStr "start_date"); ("past", AInt 2)]);
    reflexivity.
Defined.

End DateProperties.
